(* ===== verification/_CoqProject ===== *)
-Q . S2P
Prelude.v
IterableQueue.v
QueueLife.v
SpscQueue.v
SpscWeak.v
WeakReader.v
ReadoutTypes.v
LatencyBuffer.v
BinarySearchQueue.v
FixedRateQueue.v
SkipListBuffer.v
FrameErrorRegistry.v
CallbackRegistry.v
FragmentSearch.v
LiveRequest.v
Float32.v
TestUtilities.v
RequestHandler.v
RequestSync.v
Recording.v
SkipListHandler.v
Threads.v
LiveHandler.v
LiveRing.v
LiveSkipList.v
RawDataProcessor.v
BufferCopy.v
FileIO.v
RecordingFile.v
Recorder.v
RateLimiter.v
ErrorBitGenerator.v
FileSource.v
SourceEmulator.v
DataHandling.v
HandlerLife.v
RequestFlow.v
ModuleLife.v
ZeroCopy.v
FakeCardReader.v
EmulatorLife.v
DataSubscriber.v
