(* ===== verification/Prelude.v ===== *)
(** * Verification of datahandlinglibs

    datahandlinglibs is the part of a DUNE readout application that keeps the
    data of one source in a latency buffer, answers the data requests of the
    trigger from it, and feeds the data to pre- and postprocessing functions.

    ** The program and its parts

    A [DataHandlingModel] owns four objects.  Its consumer thread (or a callback)
    receives payloads, runs the preprocessing functions of the raw data processor
    on them, writes them into the latency buffer, and offers them to the
    postprocessing threads.  Requests it receives go to the request handler,
    which looks up the window of each request in the buffer, makes a fragment
    from the pieces found, puts requests aside whose data have not arrived, and
    cleans the buffer up when it fills.  An error registry tells the handler
    whether the data have gaps.  The buffer is a ring with one producer and one
    consumer (searched by bisection, or by computation when the rate is fixed) or
    a skip list.

    ** The files

    - Prelude.v (this file): machine integers, C++ outcomes ([outcome]: a value,
      an exception, a failed assertion, undefined behaviour, or a loop out of
      fuel), counters, issues (DataHandlingIssues.hpp), lemmas on lists and on
      positions in a ring.
    - IterableQueue.v: models/IterableQueueModel.hpp and .hxx.  The storage says
      which slots hold an element and which allocator it came from; indices are
      32-bit.  [Fifo] is the abstract queue, [run_refines] the refinement.
    - SpscQueue.v: [write] and [read] of the same files as sequences of accesses
      to the shared indices and slots, in all interleavings of the two threads,
      sequentially consistent.  SpscWeak.v: the same under the acquire and release
      orders of the code, with stale loads and happens-before clocks.
    - ReadoutTypes.v: the members the templates require of a ReadoutType, as a
      class [ReadoutType] with laws [ReadoutLaws]; [operator<] as a class [Less], a
      strict weak order ([LessLaws]), which may be that of the timestamps alone
      ([TimestampOrder]) or of a composite key ([TimestampFirst]); the dummy frame of
      ReadoutTypes.hpp, with its two keys; [Chunk], the type the examples use.
    - LatencyBuffer.v: concepts/LatencyBufferConcept.hpp as a class
      [LatencyBuffer], with the laws [LatencyBufferLaws] the handlers are proved
      against, and [FifoLaws] for buffers whose [pop] takes the oldest.
    - BinarySearchQueue.v, FixedRateQueue.v: the two [lower_bound]s over the ring,
      and the instances of the contract they give.
    - SkipListBuffer.v: models/SkipListLatencyBufferModel and the cleanup of
      models/DefaultSkipListRequestHandler, over folly::ConcurrentSkipList as a
      class with its documented laws, in the order of [operator<] ([OrderedList] is an
      instance; the composite keys of test/apps/test_composite_key_app.cxx the example).
    - FrameErrorRegistry.v, CallbackRegistry.v: FrameErrorRegistry.hpp and
      DataMoveCallbackRegistry.hpp.
    - FragmentSearch.v: [get_fragment_pieces] of
      models/detail/DefaultRequestHandlerModel.hxx.
    - Float32.v, RequestHandler.v: the rest of that file but for recording:
      [conf], [data_request], the task of [issue_request], [check_waiting_requests],
      [cleanup], the counters; and models/detail/EmptyFragmentRequestHandlerModel.hxx.
    - RequestSync.v: the mutex, condition variable, cleanup flag and counter that
      [issue_request] and [cleanup_check] share, as a step relation over any
      number of requests and the cleanup thread.
    - RequestFlow.v: the life of requests over submissions, tasks, turns of the waiting
      thread, starts and stops, as an executable machine of events on top of
      RequestHandler.v and the threads of HandlerLife.v: a request posted to a pool that
      a stop has joined stays in it and goes with it, one before the first start goes
      through a null pointer.
    - QueueLife.v: a ring from construction by any of its constructors over
      configurations to destruction.
    - LiveRequest.v, LiveHandler.v: [data_request] access by access on a buffer that
      others go on changing, over an interface with laws; any number of such requests
      beside the consumer, the cleanup and spurious wake-ups, under the mutex protocol.
      LiveRing.v, LiveSkipList.v: the ring and the skip list as such buffers.
    - SkipListHandler.v: [cleanup] of models/DefaultSkipListRequestHandler on the members
      it inherits, and beside a recording.
    - Recording.v: [record] of the request handler, its thread interleaved with
      the consumer's writes and the cleanup.  RecordingFile.v: the file it leaves,
      from the opening in [conf] to the closing in [scrap].
    - TestUtilities.v: testutils/TestUtilities.hpp, the filling and printing of
      buffers and the tests of buffers and request handlers, as functions that
      return what each check says.
    - Threads.v: utilities::ReusableThread as a class with its documented laws.
    - FileSource.v, SourceEmulator.v: utils/FileSourceBuffer.hpp and
      models/SourceEmulatorModel with its .hxx, over a class for the payload type.
    - FileIO.v, Recorder.v: utils/BufferedFileWriter.hpp, utils/BufferedFileReader.hpp,
      over classes for the operating system's files and boost's streams, and
      models/RecorderModel with its .hxx.
    - HandlerLife.v: [start], [stop] and [record] of the request handler with the
      threads they start and wait for.
    - ModuleLife.v: [init], [conf], [scrap], [start], [stop] with its waits and [record]
      of models/DataHandlingModel and its .hxx over the parts above, with the threads
      of the module and of its request handler turn by turn in any order, before a
      stop and while it waits; the postprocessing queues hold slots of the ring, which
      their threads read through.  RawDataHandlerBase.hpp with its .hxx.
    - ZeroCopy.v: models/ZeroCopyRecordingRequestHandlerModel with its .hxx, the
      thread as a machine of steps interleaved with writes and cleanups.
    - FakeCardReader.v: FakeCardReaderBase.hpp and its .hxx, over
      concepts/SourceEmulatorConcept.hpp as a class with laws, of which
      SourceEmulator.v is an instance.
    - EmulatorLife.v: [set_sender], [start], [stop] and the metrics of
      models/SourceEmulatorModel, and [do_start] and [do_stop] of the module, with
      the producing threads turn by turn in every interleaving.
    - DataSubscriber.v: models/DataSubscriberModel.hpp, its two threads in atomic
      steps.
    - RawDataProcessor.v: models/TaskRawDataProcessorModel, over
      folly::ProducerConsumerQueue as a class with its documented laws.
    - DataHandling.v: models/DataHandlingModel and its .hxx: the consumer, delayed
      postprocessing, time synchronisation, dispatch, counters.
    - BufferCopy.v, RateLimiter.v, ErrorBitGenerator.v: the headers of utils/ of
      those names ([dump_to_buffer] of the request handler is in BufferCopy.v).

    A definition has the name of the function or member it models; a loop of a
    function is a definition of its own, named after it.

    ** What the theorems show

    - The buffers: the ring implements a bounded FIFO for every sequence of
      operations ([run_refines]), for two threads in every interleaving
      ([spsc_fifo], [spsc_no_race]) and in every execution its memory orders allow
      ([spsc_release_acquire]; each is needed, [orders_needed]); its searches find what they promise
      ([lower_bound_correct], [fixed_rate_agrees]); the skip list implements an
      ordered set ([skip_list_refines]) and its cleanup keeps what is recent
      ([cleanup_request_correct]).
    - The answers: the pieces found cover exactly the window
      ([get_fragment_pieces_correct]), every request gets an honest answer
      ([data_request_correct], [request_task_answers]), none is lost or run more
      than twice, but for those that come when the pool is joined
      ([request_conservation], [waiting_pass_partition]).  A Partial answer forms the
      address of end() on its way ([partial_answers_form_end]).
    - The agreement of threads: cleanup and requests exclude each other without
      lost wake-ups ([cleanup_excludes_requests], [no_lost_wakeup]);
      postprocessing threads drain their queues ([post_processing_drains]).
    - The flow of data: the consumer stores, counts and offers what it receives
      ([run_consume_correct], [delayed_turn_correct]), cleanup removes the oldest
      and nothing that is still to be recorded ([cleanup_correct]).
    - The life of a ring: every configuration under which allocation and release
      agree gives an empty FIFO of the asked size ([queue_life_refines]); two
      others are accepted and end badly ([insane_configurations],
      [construction_uninitialised]).
    - Requests on a live buffer: access by access in any interleaving, no request reads
      what is not there.  On a ring each answer is true of its whole history
      ([live_requests_honest]) and comes after a bounded number of its own accesses
      ([live_request_answers]).  On a skip list, where payloads may arrive before the
      place a request has reached, each answer has all of what was held when it
      began ([live_skip_requests_honest]), and insertions put it off by three accesses each at
      most ([live_skip_request_answers]).
    - The repository's test of latency buffers passes on every buffer with the
      contract ([test_queue_model_passes]).
    - Recording: nothing is lost or recorded twice while the data are regular
      ([recording_complete]); otherwise it can stand still ([recording_stalls]), and on a
      skip list the cleanup takes from it ([skip_recording_loses]).  An emulated source
      sends what it is configured to ([emulation_correct]), but reads past a file
      that is too small ([small_file_undefined]).  What the recorder module writes
      can be read back ([recorder_roundtrip]), and so can the request handler's
      recordings ([recordings_readable]) and what a single writer was given
      ([file_roundtrip]), unless it goes on after a flush
      under O_DIRECT ([flush_breaks_direct]).  A recording straight from the ring's
      memory loses nothing either ([zero_copy_complete]), once it finds an aligned
      element ([no_aligned_element]) and while no write fails ([failed_write_counts]).
    - The request handler's threads: [stop] returns ([stop_returns]) and leaves nothing
      running ([stop_quiesces]), after at most one more pass over the waiting requests
      ([stop_abandons_waiting]); commands out of turn and a second [record] fail as
      [commands_out_of_turn] and [record_race] say.
    - The modules: in every run of a data handling module nothing fails, what it
      receives is counted, and nothing is left behind ([module_runs_correct]), as long as
      it is not scrapped in between ([scrap_not_undone]), has its memory
      ([init_bad_alloc]) and its connections ([missing_receivers]), and the
      postprocessing threads are done with what a cleanup or the stop destroys; a stop
      that finds a pointer queued reads a destroyed element ([stop_flushes_first]).  A card reader configures the emulators of all its
      outputs, each with its stream, or throws ([init_conf_correct], [configured_sound]),
      at the first attempt
      ([conf_not_retryable]); its emulators send in every run and interleaving what
      they are configured to ([emulators_run_correct]), and its stop ends
      ([emulators_stop]).  A subscriber counts what it forwards
      ([subscriber_accounts]).
    - The limits: where the code does not do this, a theorem says so
      ([early_window_not_found], [cleanup_whole_buffer], [stop_abandons_waiting],
      [back_races],
      [delayed_turn_stale_ring], [buffer_copy_wrap], [buffer_copy_empty_buffer]).

    ** Loops and fuel

    A loop whose recursion is not structural takes fuel, and each bound is proved
    enough by the theorem that the function returns: two more than the logarithm
    of the size for the bisection ([search_fuel]), one turn per stored element for
    the piece loop, the skip list cleanup and the delayed postprocessing, one per
    slot for the destructors of the ring, one per byte for the buffer copy when
    the position is inside the buffer, the length of the name for its words.  The
    busy wait of the rate limiter takes any fuel; [limit_waits] says how much is
    enough for a given clock, and in EmulatorLife.v it is a step of the thread.

    ** What is not modelled

    Forming an address that is not read through is harmless in the models of the request
    handler, as on every machine the code runs on: [&( *it )] at end() in
    [get_fragment_pieces] is [element_address], whose strict reading, by which it is
    undefined behaviour, is a theorem of its own.  In [run_consume] the same expression
    goes to threads that read through it, so that it is undefined at end().

    Code of other packages is an argument: the ReadoutType, folly's skip list and
    queue, boost's streams, the IOManager (as the connections it can make and what
    its receivers and senders answer), clocks, allocators, random numbers.  Not
    modelled are logging, thread names and affinities, the publication of
    monitoring messages,
    and the constants for logging levels.  Steps that are one in a model: a write,
    a read and a cleanup in LiveHandler.v (SpscQueue.v has write and read access by
    access), an operation of folly's skip list, a turn of the recording thread, a frame of an emulator, a call under a
    lock.  Memory orders are those of the code in SpscWeak.v and WeakReader.v, and sequentially
    consistent elsewhere.  The second test of
    TestUtilities.v is evaluated on a concrete element only; the adapters' faked
    timestamps there are a parameter. *)
From stdpp Require Export base tactics option list numbers gmap strings relations.
From Stdlib Require Export ZArith Lia.

#[global] Open Scope Z_scope.
#[export] Set Default Goal Selector "!".

(** ** Machine integers

    Unsigned integers are [Z] in [0, 2^w); signed ones are [Z] in
    [-2^(w-1), 2^(w-1)).  The functions below are the conversions of the
    language to each width (modulo 2^w, two's complement for the signed ones);
    [std::atomic<int>] increments wrap the same way. *)

Definition UINT32_MAX : Z := 4294967295.

Definition UINT64_MAX : Z := 18446744073709551615.

Definition INT_MAX : Z := 2147483647.

Definition u8 (x : Z) : Z := x mod 256.

Definition u16 (x : Z) : Z := x mod 65536.

Definition u32 (x : Z) : Z := x mod 4294967296.

Definition u64 (x : Z) : Z := x mod 18446744073709551616.

Definition i32 (x : Z) : Z := (x + 2147483648) mod 4294967296 - 2147483648.

Definition i64 (x : Z) : Z :=
  (x + 9223372036854775808) mod 18446744073709551616 - 9223372036854775808.

Create HintDb machine.

Lemma u32_small (x : Z) : 0 <= x < 4294967296 -> u32 x = x.
Proof. apply Z.mod_small. Qed.

Lemma u64_small (x : Z) : 0 <= x < 18446744073709551616 -> u64 x = x.
Proof. apply Z.mod_small. Qed.

Lemma i32_small (x : Z) : -2147483648 <= x < 2147483648 -> i32 x = x.
Proof. intros H. unfold i32. rewrite Z.mod_small; lia. Qed.

Lemma i64_small (x : Z) :
  -9223372036854775808 <= x < 9223372036854775808 -> i64 x = x.
Proof. intros H. unfold i64. rewrite Z.mod_small; lia. Qed.

Lemma u32_range (x : Z) : 0 <= u32 x < 4294967296.
Proof. apply Z.mod_pos_bound; lia. Qed.

Lemma u64_range (x : Z) : 0 <= u64 x < 18446744073709551616.
Proof. apply Z.mod_pos_bound; lia. Qed.

Lemma i32_range (x : Z) : -2147483648 <= i32 x < 2147483648.
Proof. unfold i32. pose proof (Z.mod_pos_bound (x + 2147483648) 4294967296). lia. Qed.

Lemma i32_add (x y : Z) : i32 (i32 x + y) = i32 (x + y).
Proof.
  unfold i32. f_equal. replace ((x + 2147483648) mod 4294967296 - 2147483648 + y + 2147483648)
    with ((x + 2147483648) mod 4294967296 + y) by lia.
  rewrite Zplus_mod_idemp_l. f_equal. lia.
Qed.

(** Removes every conversion whose argument [lia] shows to be in range. *)
Ltac machine :=
  repeat match goal with
  | |- context [u32 ?x] => rewrite (u32_small x) by lia
  | |- context [u64 ?x] => rewrite (u64_small x) by lia
  | |- context [i32 ?x] => rewrite (i32_small x) by lia
  | |- context [i64 ?x] => rewrite (i64_small x) by lia
  end.

Ltac machine_in H :=
  repeat match type of H with
  | context [u32 ?x] => rewrite (u32_small x) in H by lia
  | context [u64 ?x] => rewrite (u64_small x) in H by lia
  | context [i32 ?x] => rewrite (i32_small x) in H by lia
  | context [i64 ?x] => rewrite (i64_small x) in H by lia
  end.

(** ** The outcome of running a piece of C++

    [Throw] is a C++ exception, [AssertFail] a failed [assert] in a build that
    keeps them, [Undefined] an access the language leaves undefined (null,
    dangling or out-of-range dereference, double free, ...), [OutOfFuel] a loop
    that did not end within the fuel it was given. *)

Record SourceID := mkSourceID { subsystem : Z; id : Z }.

#[export] Instance SourceID_eq_dec : EqDecision SourceID.
Proof. solve_decision. Defined.

(** The ERS issues of DataHandlingIssues.hpp, with the attributes they declare. *)
Inductive issue :=
| InternalError (sourceid : SourceID) (error : string)
| CommandError (sourceid : SourceID) (commanderror : string)
| InitializationError (initerror : string)
| ConfigurationError (sourceid : SourceID) (conferror : string)
| BufferedReaderWriterConfigurationError (conferror : string)
| DataRecorderConfigurationError (conferror : string)
| GenericConfigurationError (conferror : string)
| TimeSyncTransmissionFailed (sourceid : SourceID) (dest : string)
| CannotOpenFile (filename : string)
| BufferedReaderWriterCannotOpenFile (filename : string)
| CannotReadFile (sourceid : SourceID) (filename errorstr : string)
| CannotWriteToFile (filename : string)
| PostprocessingNotKeepingUp (sourceid : SourceID) (i : Z)
| EmptySourceBuffer (sourceid : SourceID) (filename : string)
| CannotReadFromQueue (sourceid : SourceID) (queuename : string)
| CannotWriteToQueue (sourceid : SourceID) (queuename : string)
| CannotDispatch (name : string)
| RequestSourceIDMismatch (sourceid request_sourceid : SourceID)
| TrmWithEmptyFragment (sourceid : SourceID) (trmdetails : string)
| RequestOnEmptyBuffer (sourceid : SourceID) (trmdetails : string)
| FailedReadoutInitialization (name initparams : string)
| FailedFakeCardInitialization (name : string)
| NoImplementationAvailableError (sourceid : SourceID) (impl rawt : string)
| ResourceQueueError (queueType moduleName : string)
| DataRecorderModuleResourceQueueError (name queueType : string)
| GenericResourceQueueError (queueType moduleName : string)
| ConfigurationNote (name text : string)
| ConfigurationProblem (sourceid : SourceID) (text : string)
| RequestTimedOut (sourceid : SourceID)
| VerboseRequestTimedOut (sourceid : SourceID)
    (trignum seqnum runnum window_begin window_end : Z) (dest : string)
| EndOfRunEmptyFragment (sourceid : SourceID)
| DataPacketArrivedTooLate (run ts1 ts2 tick_diff : Z).

(** An exception in flight: one of the issues, or one of the standard library. *)
Inductive exn := IssueExn (i : issue) | std_bad_alloc | std_exception.

Inductive outcome (A : Type) : Type :=
| Ret (a : A)
| Throw (e : exn)
| AssertFail
| Undefined
| OutOfFuel.
Arguments Ret {A} _.
Arguments Throw {A} _.
Arguments AssertFail {A}.
Arguments Undefined {A}.
Arguments OutOfFuel {A}.

#[export] Instance outcome_ret : MRet outcome := @Ret.

#[export] Instance outcome_bind : MBind outcome := fun A B f m =>
  match m with
  | Ret a => f a
  | Throw e => Throw e
  | AssertFail => AssertFail
  | Undefined => Undefined
  | OutOfFuel => OutOfFuel
  end.

#[export] Instance outcome_fmap : FMap outcome := fun A B f m =>
  m ≫= fun a => Ret (f a).

(** [assert] in a build that defines [NDEBUG] or not. *)
Definition cxx_assert (ndebug b : bool) : outcome unit :=
  if ndebug || b then Ret tt else AssertFail.

(** Dereferencing a pointer that may be null. *)
Definition deref {A} (p : option A) : outcome A :=
  match p with Some a => Ret a | None => Undefined end.

Lemma bind_Ret {A B} (a : A) (f : A -> outcome B) : (Ret a ≫= f) = f a.
Proof. reflexivity. Qed.

Lemma bind_Ret_inv {A B} (m : outcome A) (f : A -> outcome B) (b : B) :
  (m ≫= f) = Ret b -> exists a, m = Ret a /\ f a = Ret b.
Proof. destruct m; cbn; try discriminate; eauto. Qed.

Lemma bind_assoc {A B C} (m : outcome A) (f : A -> outcome B) (g : B -> outcome C) :
  ((m ≫= f) ≫= g) = (m ≫= fun a => f a ≫= g).
Proof. by destruct m. Qed.

Lemma cxx_assert_true (ndebug : bool) : cxx_assert ndebug true = Ret tt.
Proof. by destruct ndebug. Qed.

(** Two computations that fail alike, or give related results. *)
Definition outcome_rel {A B} (R : A -> B -> Prop) (m : outcome A) (m' : outcome B) : Prop :=
  match m, m' with
  | Ret a, Ret b => R a b
  | Throw e, Throw e' => e = e'
  | AssertFail, AssertFail | Undefined, Undefined | OutOfFuel, OutOfFuel => True
  | _, _ => False
  end.

Lemma outcome_rel_bind {A B A' B'} (R : A -> B -> Prop) (R' : A' -> B' -> Prop)
    (m : outcome A) (m' : outcome B) (f : A -> outcome A') (f' : B -> outcome B') :
  outcome_rel R m m' -> (forall a b, R a b -> outcome_rel R' (f a) (f' b)) ->
  outcome_rel R' (m ≫= f) (m' ≫= f').
Proof. intros Hm Hf. destruct m, m'; try done; cbn in *; try (by apply Hf); done. Qed.

Lemma outcome_rel_eq {A} (m m' : outcome A) : outcome_rel eq m m' <-> m = m'.
Proof. destruct m, m'; cbn; split; try done; congruence. Qed.

#[export] Hint Rewrite @bind_Ret cxx_assert_true : outcome.

(** Runs the binds whose first half has been rewritten to [Ret]. *)
Ltac outcome := repeat (progress (autorewrite with outcome; cbn [mbind outcome_bind])).

(** ** Counters

    A class's [std::atomic<int>] members are one function from their names; an
    increment wraps like the type. *)
Definition counters (K : Type) : Type := K -> Z.

Section counters.
Context {K : Type} `{EqDecision K}.
Implicit Types (k : K) (s : counters K).

Definition set_counter k (n : Z) s : counters K := fun k' => if decide (k' = k) then n else s k'.

Definition add_counter k (n : Z) s : counters K := set_counter k (i32 (s k + n)) s.

Definition incr k s : counters K := add_counter k 1 s.

(** [x.exchange(0)], for each counter of the list. *)
Definition exchange0 (ks : list K) s : counters K := foldr (fun k => set_counter k 0) s ks.

Lemma set_counter_eq k n s : set_counter k n s k = n.
Proof. unfold set_counter. by rewrite decide_True. Qed.

Lemma set_counter_ne k k' n s : k' <> k -> set_counter k n s k' = s k'.
Proof. intros Hk. unfold set_counter. by rewrite decide_False. Qed.

Lemma exchange0_lookup ks s k : exchange0 ks s k = if decide (k ∈ ks) then 0 else s k.
Proof.
  induction ks as [|k' ks IH]; cbn; [rewrite decide_False; [done|]; by intros ?%elem_of_nil|].
  destruct (decide (k = k')) as [->|Hk].
  - rewrite set_counter_eq, decide_True by (by left). done.
  - rewrite set_counter_ne by done. fold (exchange0 ks s). rewrite IH.
    apply decide_ext. rewrite elem_of_cons. tauto.
Qed.
End counters.

(** ** Filtering *)

Lemma list_filter_all_in {A} (P : A -> Prop) `{!forall x, Decision (P x)} (l : list A) :
  (forall x, x ∈ l -> P x) -> filter P l = l.
Proof.
  induction l as [|x l IH]; intros Hl; [done|].
  rewrite filter_cons_True by (apply Hl; by left). f_equal. apply IH. intros y Hy. apply Hl. by right.
Qed.

Lemma filter_none {A} (P : A -> Prop) `{!forall x, Decision (P x)} (l : list A) :
  (forall x, x ∈ l -> ~ P x) -> filter P l = [].
Proof.
  induction l as [|x l IH]; intros Hl; [done|].
  rewrite filter_cons_False by (apply Hl; by left). apply IH. intros y Hy. apply Hl. by right.
Qed.

Lemma filter_ext_in {A} (P Q : A -> Prop) `{!forall x, Decision (P x)} `{!forall x, Decision (Q x)}
    (l : list A) :
  (forall x, x ∈ l -> P x <-> Q x) -> filter P l = filter Q l.
Proof.
  induction l as [|x l IH]; intros Hl; [done|]. rewrite !filter_cons.
  rewrite IH by (intros y Hy; apply Hl; by right).
  apply decide_ext, Hl. by left.
Qed.

(** ** Positions in a ring of [n] slots

    Every position the code computes is below [2 * n]; [wrap] brings it back. *)

Definition wrap (n a : nat) : nat := if decide (a < n)%nat then a else (a - n)%nat.

(** Splits every [wrap] of the goal and the context, then solves by [lia]. *)
Ltac wrap_lia := unfold wrap in *; repeat case_decide; lia.

Lemma wrap_lt (n a : nat) : (a < 2 * n)%nat -> (wrap n a < n)%nat.
Proof. wrap_lia. Qed.

Lemma wrap_inj (n r i j : nat) :
  (r < n)%nat -> (i < n)%nat -> (j < n)%nat ->
  wrap n (r + i) = wrap n (r + j) -> i = j.
Proof. wrap_lia. Qed.

Lemma wrap_small (n a : nat) : (a < n)%nat -> wrap n a = a.
Proof. wrap_lia. Qed.

Lemma wrap_wrap (n r i : nat) :
  (r < n)%nat -> (i < n)%nat ->
  wrap n (wrap n (r + 1) + i) = if decide (i + 1 = n)%nat then r else wrap n (r + (i + 1)).
Proof. wrap_lia. Qed.

#[export] Hint Resolve wrap_lt : machine.
