(* ===== verification/IterableQueue.v ===== *)
(** The ring buffer of models/IterableQueueModel.hpp and
    models/detail/IterableQueueModel.hxx: storage and its allocators, the
    producer and consumer operations, the iterator, the (un)configuration
    life cycle, and the bounded FIFO they implement. *)
From S2P Require Import Prelude.

(** ** Storage *)

(** The allocator that produced a block, with the alignment or node it was given. *)
Inductive alloc_kind :=
| NumaAllocOnnode (node : Z)
| MmMalloc (alignment : Z)
| AlignedAlloc (alignment : Z)
| Malloc.

(** What [records_] points to.  A slot is [None] while it is raw memory and
    [Some x] while it holds a constructed element. *)
Inductive storage (T : Type) :=
| NullPtr
| Dangling
| Block (k : alloc_kind) (slots : list (option T)).
Arguments NullPtr {T}.
Arguments Dangling {T}.
Arguments Block {T} k slots.

(** The build and the machine: whether the code was compiled with libnuma and
    with NDEBUG, and which allocation requests (of how many bytes) succeed. *)
Record platform := mkPlatform {
  WITH_LIBNUMA_SUPPORT : bool;
  NDEBUG : bool;
  alloc_succeeds : alloc_kind -> Z -> bool }.

Record queue (T : Type) := mkQueue {
  numa_aware_ : bool;
  numa_node_ : Z;
  intrinsic_allocator_ : bool;
  alignment_size_ : Z;
  invalid_configuration_requested_ : bool;
  prefill_ready_ : bool;
  prefill_done_ : bool;
  size_ : Z;
  records_ : storage T;
  readIndex_ : Z;
  writeIndex_ : Z;
  overflow_ctr : Z }.
Arguments mkQueue {T} _ _ _ _ _ _ _ _ _ _ _ _.
Arguments numa_aware_ {T} _.
Arguments numa_node_ {T} _.
Arguments intrinsic_allocator_ {T} _.
Arguments alignment_size_ {T} _.
Arguments invalid_configuration_requested_ {T} _.
Arguments prefill_ready_ {T} _.
Arguments prefill_done_ {T} _.
Arguments size_ {T} _.
Arguments records_ {T} _.
Arguments readIndex_ {T} _.
Arguments writeIndex_ {T} _.
Arguments overflow_ctr {T} _.

(** appmodel::LatencyBuffer, as far as [conf] reads it. *)
Record LatencyBufferConf := mkLatencyBufferConf {
  get_size : Z;
  get_numa_aware : bool;
  get_numa_node : Z;
  get_intrinsic_allocator : bool;
  get_alignment_size : Z;
  get_preallocation : bool }.

Section operations.
Context {T : Type}.
Implicit Types (q : queue T) (s : storage T) (x : T).

Definition slot_read s (i : Z) : outcome T :=
  match s with
  | Block _ l =>
      if i <? 0 then Undefined
      else match l !! Z.to_nat i with Some (Some x) => Ret x | _ => Undefined end
  | _ => Undefined
  end.

(** Placement new: the slot must be inside the block. *)
Definition slot_construct s (i : Z) x : outcome (storage T) :=
  match s with
  | Block k l =>
      if (i <? 0) || (Z.of_nat (length l) <=? i) then Undefined
      else Ret (Block k (<[Z.to_nat i := Some x]> l))
  | _ => Undefined
  end.

(** An explicit destructor call: the slot must hold an element. *)
Definition slot_destroy s (i : Z) : outcome (storage T) :=
  match s with
  | Block k l =>
      if i <? 0 then Undefined
      else match l !! Z.to_nat i with
           | Some (Some _) => Ret (Block k (<[Z.to_nat i := None]> l))
           | _ => Undefined
           end
  | _ => Undefined
  end.

Definition with_records q s : queue T :=
  mkQueue (numa_aware_ q) (numa_node_ q) (intrinsic_allocator_ q) (alignment_size_ q)
    (invalid_configuration_requested_ q) (prefill_ready_ q) (prefill_done_ q)
    (size_ q) s (readIndex_ q) (writeIndex_ q) (overflow_ctr q).

Definition with_readIndex q (i : Z) : queue T :=
  mkQueue (numa_aware_ q) (numa_node_ q) (intrinsic_allocator_ q) (alignment_size_ q)
    (invalid_configuration_requested_ q) (prefill_ready_ q) (prefill_done_ q)
    (size_ q) (records_ q) i (writeIndex_ q) (overflow_ctr q).

Definition with_writeIndex q (i : Z) : queue T :=
  mkQueue (numa_aware_ q) (numa_node_ q) (intrinsic_allocator_ q) (alignment_size_ q)
    (invalid_configuration_requested_ q) (prefill_ready_ q) (prefill_done_ q)
    (size_ q) (records_ q) (readIndex_ q) i (overflow_ctr q).

Definition with_overflow q (n : Z) : queue T :=
  mkQueue (numa_aware_ q) (numa_node_ q) (intrinsic_allocator_ q) (alignment_size_ q)
    (invalid_configuration_requested_ q) (prefill_ready_ q) (prefill_done_ q)
    (size_ q) (records_ q) (readIndex_ q) (writeIndex_ q) n.

Definition with_prefill q (ready done_ : bool) : queue T :=
  mkQueue (numa_aware_ q) (numa_node_ q) (intrinsic_allocator_ q) (alignment_size_ q)
    (invalid_configuration_requested_ q) ready done_
    (size_ q) (records_ q) (readIndex_ q) (writeIndex_ q) (overflow_ctr q).

(** ** Producer and consumer operations *)

(** [auto nextRecord = current + 1; if (nextRecord == size_) nextRecord = 0;] *)
Definition next_record (size current : Z) : Z :=
  let nextRecord := u32 (current + 1) in
  if nextRecord =? size then 0 else nextRecord.

Definition write q x : outcome (bool * queue T) :=
  let currentWrite := writeIndex_ q in
  let nextRecord := next_record (size_ q) currentWrite in
  if negb (nextRecord =? readIndex_ q) then
    recs ← slot_construct (records_ q) currentWrite x;
    Ret (true, with_writeIndex (with_records q recs) nextRecord)
  else Ret (false, with_overflow q (i32 (overflow_ctr q + 1))).

(** The hidden [write_] used by the pre-allocation: same code as [write]. *)
Definition write_ q x : outcome (bool * queue T) :=
  let currentWrite := writeIndex_ q in
  let nextRecord := next_record (size_ q) currentWrite in
  if negb (nextRecord =? readIndex_ q) then
    recs ← slot_construct (records_ q) currentWrite x;
    Ret (true, with_writeIndex (with_records q recs) nextRecord)
  else Ret (false, with_overflow q (i32 (overflow_ctr q + 1))).

(** [read] returns the moved-out element instead of assigning [record]. *)
Definition read q : outcome (option T * queue T) :=
  let currentRead := readIndex_ q in
  if currentRead =? writeIndex_ q then Ret (None, q)
  else
    let nextRecord := next_record (size_ q) currentRead in
    x ← slot_read (records_ q) currentRead;
    recs ← slot_destroy (records_ q) currentRead;
    Ret (Some x, with_readIndex (with_records q recs) nextRecord).

Definition popFront (p : platform) q : outcome (queue T) :=
  let currentRead := readIndex_ q in
  _ ← cxx_assert (NDEBUG p) (negb (currentRead =? writeIndex_ q));
  let nextRecord := next_record (size_ q) currentRead in
  recs ← slot_destroy (records_ q) currentRead;
  Ret (with_readIndex (with_records q recs) nextRecord).

Fixpoint pop_loop (p : platform) (x : nat) q : outcome (queue T) :=
  match x with
  | O => Ret q
  | S x' => q' ← popFront p q; pop_loop p x' q'
  end.

Definition pop (p : platform) (x : Z) q : outcome (queue T) :=
  pop_loop p (Z.to_nat x) q.

Definition isEmpty q : bool := readIndex_ q =? writeIndex_ q.

Definition isFull q : bool :=
  let nextRecord := next_record (size_ q) (writeIndex_ q) in
  if negb (nextRecord =? readIndex_ q) then false else true.

Definition occupancy q : Z :=
  let ret := i32 (i32 (writeIndex_ q) - i32 (readIndex_ q)) in
  let ret := if ret <? 0 then i32 (ret + i32 (size_ q)) else ret in
  u64 ret.

(** [generate_opmon_data]: the num_buffer_elements published. *)
Definition generate_queue_opmon_data q : Z := occupancy q.

Definition capacity q : Z := u64 (u32 (size_ q - 1)).

(** Pointers into the ring are the index of the slot they point to. *)
Definition front q : option Z :=
  let currentRead := readIndex_ q in
  if currentRead =? writeIndex_ q then None else Some currentRead.

Definition back q : option Z :=
  let currentWrite := writeIndex_ q in
  if currentWrite =? readIndex_ q then None
  else
    let currentLast := i32 currentWrite in
    let currentLast := if currentLast =? 0 then i32 (u32 (size_ q - 1)) else currentLast - 1 in
    Some currentLast.

Definition flush (p : platform) q : outcome (queue T) := pop p (occupancy q) q.

(** ** The iterator *)

(** [end()]: the iterator is its [m_index]. *)
Definition iter_end : Z := UINT32_MAX.

Definition iter_begin q : Z :=
  let currentRead := readIndex_ q in
  if currentRead =? writeIndex_ q then iter_end else currentRead.

Definition iter_good q (m_index : Z) : bool :=
  let currentRead := readIndex_ q in
  let currentWrite := writeIndex_ q in
  negb (m_index =? iter_end)
  && (((currentRead <=? m_index) && (m_index <? currentWrite))
      || ((currentRead <=? m_index) && (currentWrite <? currentRead))
      || ((currentWrite <? currentRead) && (m_index <? currentRead) && (m_index <? currentWrite))).

Definition iter_deref q (m_index : Z) : outcome T := slot_read (records_ q) m_index.

(** Prefix [operator++]. *)
Definition iter_next q (m_index : Z) : Z :=
  let m_index :=
    if iter_good q m_index then
      let m_index := u32 (m_index + 1) in
      if m_index =? size_ q then 0 else m_index
    else m_index in
  if negb (iter_good q m_index) then UINT32_MAX else m_index.

(** [operator++(int amount)]: the iterator returned, and the one left behind. *)
Fixpoint iter_advance q (amount : nat) (m_index : Z) : Z :=
  match amount with
  | O => m_index
  | S n => iter_advance q n (iter_next q m_index)
  end.

Definition iter_postfix q (amount : Z) (m_index : Z) : Z * Z :=
  (m_index, iter_advance q (Z.to_nat amount) m_index).

(** The elements a loop [for (it; it.good(); ++it)] visits, in order. *)
Fixpoint iter_collect q (fuel : nat) (m_index : Z) : outcome (list T) :=
  if iter_good q m_index then
    match fuel with
    | O => OutOfFuel
    | S fuel =>
        x ← iter_deref q m_index;
        l ← iter_collect q fuel (iter_next q m_index);
        Ret (x :: l)
    end
  else Ret [].

End operations.

(** ** Allocation, configuration, unconfiguration *)

Section lifecycle.
Context {T : Type} (p : platform) (sizeof_T : Z) (trivially_destructible : bool) (default_T : T).
Implicit Types q : queue T.

Definition obtain (k : alloc_kind) (size : Z) : storage T :=
  if alloc_succeeds p k (u64 (sizeof_T * size))
  then Block k (replicate (Z.to_nat size) None) else NullPtr.

Definition allocate_memory q (size : Z) (numa_aware : bool) (numa_node : Z)
    (intrinsic_allocator : bool) (alignment_size : Z) : outcome (queue T) :=
  _ ← cxx_assert (NDEBUG p) (2 <=? size);
  recs ←
    (if numa_aware && (numa_node <? 8) then
       if WITH_LIBNUMA_SUPPORT p then Ret (obtain (NumaAllocOnnode numa_node) size)
       else Throw (IssueExn (GenericConfigurationError
              "NUMA allocation was requested but program was built without USE_LIBNUMA"))
     else if intrinsic_allocator && (0 <? alignment_size) then
       Ret (obtain (MmMalloc alignment_size) size)
     else if negb intrinsic_allocator && (0 <? alignment_size) then
       Ret (obtain (AlignedAlloc alignment_size) size)
     else if negb numa_aware && negb intrinsic_allocator && (alignment_size =? 0) then
       Ret (obtain Malloc size)
     else Ret (records_ q));
  Ret (mkQueue numa_aware numa_node intrinsic_allocator alignment_size
         (invalid_configuration_requested_ q) (prefill_ready_ q) (prefill_done_ q)
         (u32 size) recs (readIndex_ q) (writeIndex_ q) (overflow_ctr q)).

(** The destructor loop of [free_memory]; returns the elements destroyed. *)
Fixpoint destroy_loop (fuel : nat) (size : Z) (s : storage T) (readIndex endIndex : Z)
    : outcome (list T * storage T) :=
  if readIndex =? endIndex then Ret ([], s)
  else match fuel with
  | O => OutOfFuel
  | S fuel =>
      x ← slot_read s readIndex;
      s' ← slot_destroy s readIndex;
      let readIndex := u64 (readIndex + 1) in
      let readIndex := if readIndex =? size then 0 else readIndex in
      '(xs, s'') ← destroy_loop fuel size s' readIndex endIndex;
      Ret (x :: xs, s'')
  end.

(** Handing a block to the function of another allocator, or a dangling
    pointer to any of them, is undefined. *)
Definition release (matches : alloc_kind -> bool) (s : storage T) : outcome (storage T) :=
  match s with
  | NullPtr => Ret NullPtr
  | Dangling => Undefined
  | Block k _ => if matches k then Ret Dangling else Undefined
  end.

Definition is_mm (k : alloc_kind) : bool :=
  match k with MmMalloc _ => true | _ => false end.

Definition is_numa (k : alloc_kind) : bool :=
  match k with NumaAllocOnnode _ => true | _ => false end.

Definition is_malloc (k : alloc_kind) : bool :=
  match k with AlignedAlloc _ | Malloc => true | _ => false end.

Definition free_memory q : outcome (list T * queue T) :=
  '(destroyed, s) ←
    (if trivially_destructible then Ret ([], records_ q)
     else destroy_loop (Z.to_nat (size_ q)) (size_ q) (records_ q) (readIndex_ q) (writeIndex_ q));
  s' ←
    (if intrinsic_allocator_ q then release is_mm s
     else if numa_aware_ q then
       (if WITH_LIBNUMA_SUPPORT p then release is_numa s else Ret s)
     else release is_malloc s);
  Ret (destroyed, with_records q s').

(** [prefill_task] after its wait: [size_ - 1] writes of [T()], then a flush. *)
Fixpoint prefill_loop (n : nat) q : outcome (queue T) :=
  match n with
  | O => Ret q
  | S n => '(_, q') ← write_ q default_T; prefill_loop n q'
  end.

Definition prefill_task q : outcome (queue T) :=
  q ← prefill_loop (Z.to_nat (u32 (size_ q - 1))) q;
  q ← flush p q;
  Ret (with_prefill q (prefill_ready_ q) true).

(** [force_pagefault] starts the prefiller, signals it and waits for it. *)
Definition force_pagefault q : outcome (queue T) :=
  prefill_task (with_prefill q true (prefill_done_ q)).

(** [conf] up to its test of the new block: what the queue is when it throws. *)
Definition renew q (cfg : LatencyBufferConf) : outcome (queue T) :=
  _ ← cxx_assert (NDEBUG p) (2 <=? get_size cfg);
  '(_, q) ← free_memory q;
  q ← allocate_memory q (get_size cfg) (get_numa_aware cfg) (get_numa_node cfg)
        (get_intrinsic_allocator cfg) (get_alignment_size cfg);
  Ret (with_writeIndex (with_readIndex q 0) 0).

Definition conf q (cfg : LatencyBufferConf) : outcome (queue T) :=
  q ← renew q cfg;
  match records_ q with
  | NullPtr => Throw std_bad_alloc
  | _ => if get_preallocation cfg then force_pagefault q else Ret q
  end.

(** The default constructor. *)
Definition new_queue : queue T :=
  mkQueue false 0 false 0 false false false 2 (obtain Malloc 2) 0 0 0.

(** The constructor with a size only; when it throws there is no queue to destroy. *)
Definition new_queue_sized (size : Z) : outcome (queue T) :=
  let q := mkQueue false 0 false 0 false false false (u32 size) (obtain Malloc size) 0 0 0 in
  _ ← cxx_assert (NDEBUG p) (2 <=? size);
  match records_ q with NullPtr => Throw std_bad_alloc | _ => Ret q end.

(** The constructor with all settings.  It does not initialise [records_]: where
    [allocate_memory] assigns nothing, the test reads an indeterminate pointer. *)
Definition new_queue_aligned (size : Z) (numa_aware : bool) (numa_node : Z) (intrinsic_allocator : bool)
    (alignment_size : Z) : outcome (queue T) :=
  let q := mkQueue numa_aware numa_node intrinsic_allocator alignment_size false false false
             (u32 size) Dangling 0 0 0 in
  _ ← cxx_assert (NDEBUG p) (2 <=? size);
  q ← allocate_memory q size numa_aware numa_node intrinsic_allocator alignment_size;
  match records_ q with NullPtr => Throw std_bad_alloc | Dangling => Undefined | _ => Ret q end.

Definition scrap q : outcome (queue T) :=
  '(_, q) ← free_memory q;
  Ret (mkQueue false 0 false 0 false false false 2 (obtain Malloc 2) 0 0 (overflow_ctr q)).

(** [allocate_memory(std::size_t)], the override of LatencyBufferConcept. *)
Definition allocate_memory_concept q (size : Z) : outcome (queue T) :=
  allocate_memory q size false 0 false 0.

End lifecycle.

(** ** The contents of a ring

    [ring l r c]: the block [l] holds the elements [c], oldest first, in the
    slots [r, r + 1, ...] modulo its length, and every other slot is raw. *)
Definition ring {T} (l : list (option T)) (r : nat) (c : list T) : Prop :=
  forall i, (i < length l)%nat -> l !! wrap (length l) (r + i) = Some (c !! i).

Record repr_at {T} (q : queue T) (c : list T) (k : alloc_kind) (l : list (option T)) (r : nat)
    : Prop := {
  repr_records : records_ q = Block k l;
  repr_size : size_ q = Z.of_nat (length l);
  repr_size_range : 2 <= size_ q <= INT_MAX;
  repr_read : readIndex_ q = Z.of_nat r;
  repr_read_lt : (r < length l)%nat;
  repr_room : (length c < length l)%nat;
  repr_write : writeIndex_ q = Z.of_nat (wrap (length l) (r + length c));
  repr_slots : ring l r c }.

Definition repr {T} (q : queue T) (c : list T) : Prop := exists k l r, repr_at q c k l r.

(** ** The abstract queue: a bounded FIFO that counts refused writes *)
Module Fifo.
Section Fifo.
Context {T : Type}.

Record fifo := mkFifo { limit : nat; items : list T; refused : Z }.

Inductive op := OpWrite (x : T) | OpRead | OpPop (n : nat) | OpFlush
  | OpFront | OpBack | OpOccupancy | OpIsEmpty | OpIsFull | OpElements.

Inductive response := RBool (b : bool) | RElem (x : option T) | RUnit | RNum (n : Z)
  | RList (l : list T).

Definition exec (p : platform) (o : op) (f : fifo) : outcome (response * fifo) :=
  let c := items f in
  match o with
  | OpWrite x =>
      if decide (length c < limit f)%nat then Ret (RBool true, mkFifo (limit f) (c ++ [x]) (refused f))
      else Ret (RBool false, mkFifo (limit f) c (i32 (refused f + 1)))
  | OpRead => Ret (RElem (head c), mkFifo (limit f) (tail c) (refused f))
  | OpPop n =>
      if decide (n <= length c)%nat then Ret (RUnit, mkFifo (limit f) (drop n c) (refused f))
      else if NDEBUG p then Undefined else AssertFail
  | OpFlush => Ret (RUnit, mkFifo (limit f) [] (refused f))
  | OpFront => Ret (RElem (head c), f)
  | OpBack => Ret (RElem (last c), f)
  | OpOccupancy => Ret (RNum (Z.of_nat (length c)), f)
  | OpIsEmpty => Ret (RBool (bool_decide (c = [])), f)
  | OpIsFull => Ret (RBool (bool_decide (length c = limit f)), f)
  | OpElements => Ret (RList c, f)
  end.

Fixpoint run (p : platform) (os : list op) (f : fifo) : outcome (list response * fifo) :=
  match os with
  | [] => Ret ([], f)
  | o :: os => '(r, f) ← exec p o f; '(rs, f) ← run p os f; Ret (r :: rs, f)
  end.
End Fifo.
Arguments fifo : clear implicits.
Arguments op : clear implicits.
Arguments response : clear implicits.
End Fifo.

(** The same operations run on the ring. *)
Section run.
Context {T : Type}.
Import Fifo.

Definition deref_slot (q : queue T) (ptr : option Z) : outcome (option T) :=
  match ptr with None => Ret None | Some i => Some <$> slot_read (records_ q) i end.

Definition exec_queue (p : platform) (o : op T) (q : queue T) : outcome (response T * queue T) :=
  match o with
  | OpWrite x => '(b, q) ← write q x; Ret (RBool b, q)
  | OpRead => '(x, q) ← read q; Ret (RElem x, q)
  | OpPop n => q ← pop p (Z.of_nat n) q; Ret (RUnit, q)
  | OpFlush => q ← flush p q; Ret (RUnit, q)
  | OpFront => x ← deref_slot q (front q); Ret (RElem x, q)
  | OpBack => x ← deref_slot q (back q); Ret (RElem x, q)
  | OpOccupancy => Ret (RNum (occupancy q), q)
  | OpIsEmpty => Ret (RBool (isEmpty q), q)
  | OpIsFull => Ret (RBool (isFull q), q)
  | OpElements => l ← iter_collect q (Z.to_nat (size_ q)) (iter_begin q); Ret (RList l, q)
  end.

Fixpoint run_queue (p : platform) (os : list (op T)) (q : queue T)
    : outcome (list (response T) * queue T) :=
  match os with
  | [] => Ret ([], q)
  | o :: os => '(r, q) ← exec_queue p o q; '(rs, q) ← run_queue p os q; Ret (r :: rs, q)
  end.

(** The ring [q] implements the abstract queue [f]. *)
Definition implements (q : queue T) (f : fifo T) : Prop :=
  repr q (items f) /\ size_ q = Z.of_nat (S (limit f)) /\ overflow_ctr q = refused f.
End run.

(** ** Lemmas: slots and positions *)

Section slots.
Context {T : Type}.
Implicit Types (l : list (option T)) (x : T).

Lemma slot_read_Block k l (i : nat) x :
  l !! i = Some (Some x) -> slot_read (Block k l) (Z.of_nat i) = Ret x.
Proof.
  intros Hi. cbn. destruct (Z.ltb_spec (Z.of_nat i) 0); [lia|].
  by rewrite Nat2Z.id, Hi.
Qed.

Lemma slot_construct_Block k l (i : nat) x :
  (i < length l)%nat ->
  slot_construct (Block k l) (Z.of_nat i) x = Ret (Block k (<[i := Some x]> l)).
Proof.
  intros Hi. cbn. destruct (Z.ltb_spec (Z.of_nat i) 0); [lia|].
  destruct (Z.leb_spec (Z.of_nat (length l)) (Z.of_nat i)); [lia|].
  cbn. by rewrite Nat2Z.id.
Qed.

Lemma slot_destroy_Block k l (i : nat) x :
  l !! i = Some (Some x) ->
  slot_destroy (Block k l) (Z.of_nat i) = Ret (Block k (<[i := None]> l)).
Proof.
  intros Hi. cbn. destruct (Z.ltb_spec (Z.of_nat i) 0); [lia|].
  by rewrite Nat2Z.id, Hi.
Qed.

Lemma slot_destroy_raw k l (i : nat) :
  l !! i = Some None -> slot_destroy (Block k l) (Z.of_nat i) = Undefined.
Proof.
  intros Hi. cbn. destruct (Z.ltb_spec (Z.of_nat i) 0); [lia|].
  by rewrite Nat2Z.id, Hi.
Qed.

Lemma next_record_wrap (n a : nat) :
  2 <= Z.of_nat n <= INT_MAX -> (a < n)%nat ->
  next_record (Z.of_nat n) (Z.of_nat a) = Z.of_nat (wrap n (a + 1)).
Proof.
  unfold INT_MAX, next_record. intros Hn Ha. machine.
  destruct (Z.eqb_spec (Z.of_nat a + 1) (Z.of_nat n)); wrap_lia.
Qed.
End slots.

#[export] Hint Resolve slot_read_Block slot_construct_Block slot_destroy_Block : machine.

Section ring.
Context {T : Type}.
Implicit Types (l : list (option T)) (c : list T) (x : T).

Lemma ring_lookup l r c (i : nat) x :
  ring l r c -> (length c <= length l)%nat -> c !! i = Some x ->
  l !! wrap (length l) (r + i) = Some (Some x).
Proof.
  intros H Hc Hi. rewrite H; [by rewrite Hi|].
  apply lookup_lt_Some in Hi. lia.
Qed.

Lemma ring_raw l r c (i : nat) :
  ring l r c -> (length c <= i < length l)%nat -> l !! wrap (length l) (r + i) = Some None.
Proof.
  intros H Hi. rewrite H by lia. f_equal. apply lookup_ge_None. lia.
Qed.

Lemma ring_head l r c : ring l r c -> (r < length l)%nat -> l !! r = Some (head c).
Proof.
  intros H Hr. pose proof (H 0%nat) as H0. rewrite Nat.add_0_r, wrap_small in H0 by done.
  rewrite H0 by lia. by destruct c.
Qed.

Lemma ring_push l r c x :
  ring l r c -> (r < length l)%nat -> (length c < length l)%nat ->
  ring (<[wrap (length l) (r + length c) := Some x]> l) r (c ++ [x]).
Proof.
  intros H Hr Hc i. rewrite length_insert. intros Hi.
  destruct (decide (i = length c)) as [->|Hne].
  - rewrite list_lookup_insert_eq by (apply wrap_lt; lia).
    by rewrite lookup_app_r, Nat.sub_diag by lia.
  - rewrite list_lookup_insert_ne by (intros E; apply wrap_inj in E; lia).
    rewrite H by done. f_equal.
    destruct (decide (i < length c)%nat); [by rewrite lookup_app_l|].
    rewrite !lookup_ge_None_2; [done|rewrite length_app; cbn; lia|lia].
Qed.

Lemma ring_pop l r c x :
  ring l r (x :: c) -> (r < length l)%nat -> (length (x :: c) < length l)%nat ->
  ring (<[r := None]> l) (wrap (length l) (r + 1)) c.
Proof.
  intros H Hr Hc i. rewrite length_insert. intros Hi. cbn in Hc.
  rewrite wrap_wrap by lia. case_decide.
  - rewrite list_lookup_insert_eq by lia. by rewrite lookup_ge_None_2 by lia.
  - rewrite list_lookup_insert_ne by wrap_lia. rewrite H by lia.
    by rewrite Nat.add_1_r.
Qed.

Lemma ring_replicate (n r : nat) :
  (r < n)%nat -> ring (replicate n (None : option T)) r [].
Proof.
  intros Hr i. rewrite length_replicate. intros Hi.
  rewrite lookup_replicate_2 by (apply wrap_lt; lia). done.
Qed.

(** A ring without elements is raw storage, wherever it starts. *)
Lemma ring_nil_inv l r : (r < length l)%nat -> ring l r [] -> l = replicate (length l) None.
Proof.
  intros Hr H. apply list_eq. intros j.
  destruct (decide (j < length l)%nat) as [Hj|Hj].
  - rewrite lookup_replicate_2 by done.
    set (i := if decide (r <= j)%nat then (j - r)%nat else (length l + j - r)%nat).
    assert (Hi : (i < length l)%nat) by (unfold i; case_decide; lia).
    transitivity (l !! wrap (length l) (r + i)); [|by rewrite H].
    f_equal. unfold i. wrap_lia.
  - rewrite !lookup_ge_None_2; [done|rewrite length_replicate; lia|lia].
Qed.
End ring.

(** ** Lemmas: every operation on a represented ring *)

Section repr.
Context {T : Type} (p : platform).
Implicit Types (q : queue T) (c : list T) (x : T).

(** Exposes the indices and the block of a represented ring. *)
Ltac open_repr H :=
  let k := fresh "k" in let l := fresh "l" in let r := fresh "r" in
  destruct H as (k & l & r & [Hrec Hsz Hrng Hrd Hlt Hroom Hwr Hring]).

Lemma write_room q c x :
  repr q c -> Z.of_nat (S (length c)) < size_ q ->
  exists q', write q x = Ret (true, q') /\ repr q' (c ++ [x])
    /\ size_ q' = size_ q /\ overflow_ctr q' = overflow_ctr q.
Proof.
  intros H Hfree. open_repr H. unfold write. rewrite Hwr, Hsz, Hrd in *.
  rewrite next_record_wrap by (lia || (apply wrap_lt; lia)).
  destruct (Z.eqb_spec (Z.of_nat (wrap (length l) (wrap (length l) (r + length c) + 1))) (Z.of_nat r));
    [wrap_lia|]. cbn [negb].
  rewrite Hrec, slot_construct_Block by (apply wrap_lt; lia). outcome.
  eexists; split; [reflexivity|]. split; [|done].
  exists k, (<[wrap (length l) (r + length c) := Some x]> l), r.
  split; cbn [with_writeIndex with_records size_ records_ readIndex_ writeIndex_];
    [reflexivity|rewrite ?length_insert, ?length_app; cbn [length]; lia..| |].
  - rewrite length_insert, length_app. cbn [length]. wrap_lia.
  - apply ring_push; [assumption|lia|lia].
Qed.

Lemma write_full q c x :
  repr q c -> Z.of_nat (S (length c)) = size_ q ->
  write q x = Ret (false, with_overflow q (i32 (overflow_ctr q + 1)))
  /\ repr (with_overflow q (i32 (overflow_ctr q + 1))) c.
Proof.
  intros H Hfull. split.
  - open_repr H. unfold write. rewrite Hwr, Hsz, Hrd in *.
    rewrite next_record_wrap by (lia || (apply wrap_lt; lia)).
    destruct (Z.eqb_spec (Z.of_nat (wrap (length l) (wrap (length l) (r + length c) + 1))) (Z.of_nat r));
      [done|wrap_lia].
  - destruct H as (k & l & r & H). exists k, l, r. destruct H; split; done.
Qed.

Lemma read_nil q : repr q [] -> read q = Ret (None, q).
Proof.
  intros H. open_repr H. unfold read. rewrite Hwr, Hrd.
  destruct (Z.eqb_spec (Z.of_nat r) (Z.of_nat (wrap (length l) (r + length (A:=T) []))));
    [done|cbn in *; wrap_lia].
Qed.

Lemma read_cons q c x :
  repr q (x :: c) ->
  exists q', read q = Ret (Some x, q') /\ repr q' c
    /\ size_ q' = size_ q /\ overflow_ctr q' = overflow_ctr q.
Proof.
  intros H. open_repr H. unfold read. rewrite Hwr, Hsz, Hrd in *. cbn [length] in *.
  destruct (Z.eqb_spec (Z.of_nat r) (Z.of_nat (wrap (length l) (r + S (length c)))));
    [wrap_lia|].
  pose proof (ring_head l r (x :: c) Hring Hlt) as Hx.
  rewrite Hrec, (slot_read_Block _ _ _ x), (slot_destroy_Block _ _ _ x) by done. outcome.
  eexists; split; [reflexivity|]. split; [|done].
  exists k, (<[r := None]> l), (wrap (length l) (r + 1)).
  split; cbn [with_readIndex with_records size_ records_ readIndex_ writeIndex_];
    rewrite ?length_insert; [reflexivity|lia|lia| | |lia| |].
  - rewrite next_record_wrap; lia.
  - apply wrap_lt; lia.
  - rewrite Hwr. wrap_lia.
  - eapply ring_pop; [eassumption|lia|cbn [length]; lia].
Qed.

(** On a non-empty ring [popFront] is [read] without the element. *)
Lemma popFront_cons q c x :
  repr q (x :: c) ->
  exists q', popFront p q = Ret q' /\ repr q' c
    /\ size_ q' = size_ q /\ overflow_ctr q' = overflow_ctr q.
Proof.
  intros H. destruct (read_cons q c x H) as (q' & Hr & Hq'). exists q'. split; [|done].
  unfold read, popFront in *. destruct (_ =? _); [discriminate|].
  rewrite cxx_assert_true, bind_Ret.
  apply bind_Ret_inv in Hr as (y & _ & Hr). apply bind_Ret_inv in Hr as (s & -> & Hr).
  outcome. congruence.
Qed.

(** On an empty ring it fails its assertion, or destroys raw memory. *)
Lemma popFront_nil q :
  repr q [] -> popFront p q = if NDEBUG p then Undefined else AssertFail.
Proof.
  intros H. open_repr H. unfold popFront. rewrite Hwr, Hrd. cbn [length] in *.
  rewrite Nat.add_0_r, wrap_small, Z.eqb_refl by lia. unfold cxx_assert.
  destruct (NDEBUG p); cbn; [|done].
  rewrite Hrec, slot_destroy_raw; [done|]. by rewrite (ring_head l r []).
Qed.

Lemma pop_loop_le (n : nat) q c :
  repr q c -> (n <= length c)%nat ->
  exists q', pop_loop p n q = Ret q' /\ repr q' (drop n c)
    /\ size_ q' = size_ q /\ overflow_ctr q' = overflow_ctr q.
Proof.
  revert q c. induction n as [|n IH]; intros q c H Hn; cbn.
  - by exists q.
  - destruct c as [|x c]; cbn in *; [lia|].
    destruct (popFront_cons q c x H) as (q1 & -> & H1 & Hs & Ho). outcome.
    destruct (IH q1 c H1) as (q' & -> & H' & Hs' & Ho'); [lia|].
    exists q'. split_and!; congruence || done.
Qed.

Lemma pop_loop_gt (n : nat) q c :
  repr q c -> (length c < n)%nat ->
  pop_loop p n q = if NDEBUG p then Undefined else AssertFail.
Proof.
  revert q c. induction n as [|n IH]; intros q c H Hn; cbn in *; [lia|].
  destruct c as [|x c]; cbn in *.
  - rewrite popFront_nil by done. by destruct (NDEBUG p).
  - destruct (popFront_cons q c x H) as (q1 & -> & H1 & Hs & Ho). outcome.
    apply (IH q1 c H1). lia.
Qed.

Lemma occupancy_repr q c : repr q c -> occupancy q = Z.of_nat (length c).
Proof.
  intros H. open_repr H. unfold occupancy. rewrite Hwr, Hrd, Hsz in *. unfold INT_MAX in *.
  assert (wrap (length l) (r + length c) < length l)%nat by (apply wrap_lt; lia).
  machine.
  destruct (Z.ltb_spec (Z.of_nat (wrap (length l) (r + length c)) - Z.of_nat r) 0);
    machine; wrap_lia.
Qed.

Lemma flush_repr q c :
  repr q c ->
  exists q', flush p q = Ret q' /\ repr q' []
    /\ size_ q' = size_ q /\ overflow_ctr q' = overflow_ctr q.
Proof.
  intros H. unfold flush, pop. rewrite (occupancy_repr q c), Nat2Z.id by done.
  destruct (pop_loop_le (length c) q c H) as (q' & -> & H' & Hq); [lia|].
  rewrite drop_all in H'. by exists q'.
Qed.

Lemma isEmpty_repr q c : repr q c -> isEmpty q = bool_decide (c = []).
Proof.
  intros H. open_repr H. unfold isEmpty. rewrite Hwr, Hrd.
  destruct c as [|x c]; cbn [length] in *; case_bool_decide; try done;
  destruct (Z.eqb_spec (Z.of_nat r) (Z.of_nat (wrap (length l) (r + S (length c)))))
  || destruct (Z.eqb_spec (Z.of_nat r) (Z.of_nat (wrap (length l) (r + 0)))); done || wrap_lia.
Qed.

Lemma isFull_repr q c : repr q c -> isFull q = bool_decide (Z.of_nat (S (length c)) = size_ q).
Proof.
  intros H. open_repr H. unfold isFull. rewrite Hwr, Hrd, Hsz in *.
  rewrite next_record_wrap by (lia || (apply wrap_lt; lia)).
  destruct (Z.eqb_spec (Z.of_nat (wrap (length l) (wrap (length l) (r + length c) + 1))) (Z.of_nat r));
    case_bool_decide; try done; wrap_lia.
Qed.

(** *** The ends of the ring *)

Lemma front_repr q c : repr q c -> deref_slot q (front q) = Ret (head c).
Proof.
  intros H. open_repr H. unfold front. rewrite Hwr, Hrd.
  destruct (Z.eqb_spec (Z.of_nat r) (Z.of_nat (wrap (length l) (r + length c)))) as [E|E].
  - destruct c; [done|cbn in *; wrap_lia].
  - destruct c as [|x c]; [cbn in *; wrap_lia|]. cbn [deref_slot].
    rewrite Hrec, (slot_read_Block _ _ _ x); [done|]. by rewrite (ring_head l r (x :: c)).
Qed.

Lemma back_repr q c : repr q c -> deref_slot q (back q) = Ret (last c).
Proof.
  intros H. open_repr H. unfold back. rewrite Hwr, Hrd, Hsz in *. unfold INT_MAX in *.
  destruct (Z.eqb_spec (Z.of_nat (wrap (length l) (r + length c))) (Z.of_nat r)) as [E|E].
  - destruct c; [done|cbn in *; wrap_lia].
  - assert (Hpos : (0 < length c)%nat) by (destruct c; [cbn in *; wrap_lia|cbn; lia]).
    destruct (last c) as [x|] eqn:Hlast; [|apply last_None in Hlast; subst; cbn in *; lia].
    rewrite last_lookup in Hlast.
    pose proof (ring_lookup l r c _ x Hring ltac:(lia) Hlast) as Hx.
    pose proof (wrap_lt (length l) (r + length c) ltac:(lia)).
    machine. cbn [deref_slot]. rewrite Hrec.
    match goal with |- context [slot_read _ ?i] =>
      replace i with (Z.of_nat (wrap (length l) (r + pred (length c)))) end.
    { by rewrite (slot_read_Block _ _ _ x). }
    destruct (Z.eqb_spec (Z.of_nat (wrap (length l) (r + length c))) 0); wrap_lia.
Qed.

(** *** Iteration *)

Lemma iter_good_at q c k l r (j : nat) :
  repr_at q c k l r -> (j < length l)%nat ->
  iter_good q (Z.of_nat (wrap (length l) (r + j))) = bool_decide (j < length c)%nat.
Proof.
  intros [] Hj. unfold iter_good, iter_end, UINT32_MAX, INT_MAX in *.
  rewrite repr_read0, repr_write0. apply eq_bool_prop_intro.
  rewrite !andb_True, !orb_True, !andb_True, negb_True, bool_decide_spec.
  rewrite !Is_true_true, !Z.eqb_eq, !Z.leb_le, !Z.ltb_lt.
  pose proof (wrap_lt (length l) (r + j) ltac:(lia)). wrap_lia.
Qed.

Lemma iter_good_end q : iter_good q iter_end = false.
Proof. done. Qed.

Lemma iter_next_bad q (i : Z) : iter_good q i = false -> iter_next q i = iter_end.
Proof. intros H. unfold iter_next. by rewrite !H. Qed.

Lemma iter_next_at q c k l r (j : nat) :
  repr_at q c k l r -> (j < length c)%nat ->
  iter_next q (Z.of_nat (wrap (length l) (r + j)))
  = if decide (S j < length c)%nat then Z.of_nat (wrap (length l) (r + S j)) else iter_end.
Proof.
  intros H Hj. pose proof H as []. unfold iter_next, INT_MAX in *.
  rewrite (iter_good_at q c k l r j), bool_decide_true by (done || lia).
  pose proof (wrap_lt (length l) (r + j) ltac:(lia)). machine.
  replace (if _ =? size_ q then 0 else _) with (Z.of_nat (wrap (length l) (r + S j))).
  - rewrite (iter_good_at q c k l r (S j)) by (done || lia).
    by case_bool_decide; case_decide.
  - rewrite repr_size0. destruct (Z.eqb_spec (Z.of_nat (wrap (length l) (r + j)) + 1) (Z.of_nat (length l)));
      wrap_lia.
Qed.

(** An iterator that is not good is at no element. *)
Lemma iter_deref_bad q c it : repr q c -> iter_good q it = false -> iter_deref q it = Undefined.
Proof.
  intros (k & l & r & H) Hbad. pose proof H as [Hrec _ _ _ Hlt Hroom _ Hring]. unfold iter_deref. rewrite Hrec.
  cbn [slot_read]. destruct (Z.ltb_spec it 0) as [|Hpos]; [done|].
  destruct (decide (Z.to_nat it < length l)%nat) as [Hit|Hout]; [|by rewrite lookup_ge_None_2 by lia].
  set (j := if decide (r <= Z.to_nat it)%nat then (Z.to_nat it - r)%nat else (length l + Z.to_nat it - r)%nat).
  assert (Hj : (j < length l)%nat) by (unfold j; case_decide; lia).
  assert (E : wrap (length l) (r + j) = Z.to_nat it) by (unfold j; case_decide; wrap_lia).
  pose proof (iter_good_at q c k l r j H Hj) as Hg. rewrite E, Z2Nat.id, Hbad in Hg by done.
  symmetry in Hg. apply bool_decide_eq_false in Hg. by rewrite <- E, (ring_raw l r c j Hring) by lia.
Qed.

(** [iter_rest q c it rest]: from [it] on, the iteration visits [rest]. *)
Definition iter_rest q c (it : Z) (rest : list T) : Prop :=
  (exists k l r j, repr_at q c k l r /\ (j < length c)%nat
     /\ it = Z.of_nat (wrap (length l) (r + j)) /\ rest = drop j c)
  \/ (repr q c /\ iter_good q it = false /\ rest = []).

Lemma iter_rest_good q c it rest :
  iter_rest q c it rest -> iter_good q it = bool_decide (rest <> []).
Proof.
  intros [(k & l & r & j & H & Hj & -> & ->)|(H & -> & ->)]; [|done].
  pose proof H as []. rewrite (iter_good_at q c k l r j), bool_decide_true by (done || lia).
  rewrite bool_decide_true; [done|]. intros E. apply (f_equal length) in E.
  rewrite length_drop in E. cbn in E. lia.
Qed.

Lemma iter_rest_cons q c it x rest :
  iter_rest q c it (x :: rest) ->
  iter_deref q it = Ret x /\ iter_rest q c (iter_next q it) rest.
Proof.
  intros [(k & l & r & j & H & Hj & -> & E)|(H & _ & E)]; [|done].
  assert (Hx : c !! j = Some x) by (by rewrite <- (Nat.add_0_r j), <- lookup_drop, <- E).
  pose proof H as [Hr Hs Hrg Hrd Hlt Hroom Hw Hslots]. split.
  - unfold iter_deref. rewrite Hr. apply slot_read_Block. eapply ring_lookup; [done|lia|done].
  - rewrite (iter_next_at q c k l r j) by done.
    assert (Hrest : rest = drop (S j) c) by (apply drop_S in Hx; congruence).
    case_decide as Hj'.
    + left. exists k, l, r, (S j). done.
    + right. split; [by exists k, l, r|]. split; [done|].
      rewrite Hrest. apply drop_ge. lia.
Qed.

Lemma iter_collect_rest q c it rest (fuel : nat) :
  iter_rest q c it rest -> (length rest <= fuel)%nat -> iter_collect q fuel it = Ret rest.
Proof.
  revert it rest. induction fuel as [|fuel IH]; intros it rest H Hf; cbn [iter_collect];
    rewrite (iter_rest_good q c it rest H); destruct rest as [|x rest]; cbn in Hf; try done; try lia.
  rewrite bool_decide_true by done.
  apply iter_rest_cons in H as [-> H]. outcome. rewrite (IH _ rest H) by lia. done.
Qed.

Lemma iter_begin_rest q c : repr q c -> iter_rest q c (iter_begin q) c.
Proof.
  intros H. pose proof (isEmpty_repr q c H) as He. unfold isEmpty in He. unfold iter_begin.
  rewrite He. case_bool_decide as Hc.
  - subst c. right. done.
  - left. destruct H as (k & l & r & H). exists k, l, r, 0%nat. pose proof H as [].
    split_and!; [done|destruct c; [done|cbn; lia]| |done].
    rewrite Nat.add_0_r, wrap_small; done.
Qed.

Lemma repr_length q c : repr q c -> Z.of_nat (length c) < size_ q.
Proof. intros (k & l & r & []). lia. Qed.

(** *** Simulation *)

Lemma exec_refines (o : Fifo.op T) q (f : Fifo.fifo T) :
  implements q f ->
  match Fifo.exec p o f with
  | Ret (a, f') => exists q', exec_queue p o q = Ret (a, q') /\ implements q' f'
  | AssertFail => exec_queue p o q = AssertFail
  | Undefined => exec_queue p o q = Undefined
  | _ => False
  end.
Proof.
  destruct f as [lim c rf]. intros (H & Hs & Ho). cbn in *.
  pose proof (repr_length q c H) as Hlen.
  assert (Hthis : implements q (Fifo.mkFifo lim c rf)) by done.
  destruct o as [x| |n| | | | | | |]; cbn [Fifo.exec exec_queue Fifo.items].
  - case_decide as Hd; cbn in Hd.
    + destruct (write_room q c x H) as (q' & -> & H' & Hs' & Ho'); [lia|]. outcome.
      exists q'. split; [done|]. unfold implements; cbn. split_and!; congruence || done.
    + destruct (write_full q c x H) as [-> H']; [lia|]. outcome.
      eexists. split; [done|]. unfold implements; cbn. split_and!; congruence || done.
  - destruct c as [|x c]; cbn.
    + rewrite (read_nil q H). outcome. by exists q.
    + destruct (read_cons q c x H) as (q' & -> & H' & Hs' & Ho'). outcome.
      exists q'. split; [done|]. unfold implements; cbn. split_and!; congruence || done.
  - unfold pop. rewrite Nat2Z.id. case_decide as Hd; cbn in Hd.
    + destruct (pop_loop_le n q c H Hd) as (q' & -> & H' & Hs' & Ho'). outcome.
      exists q'. split; [done|]. unfold implements; cbn. split_and!; congruence || done.
    + rewrite (pop_loop_gt n q c) by (done || lia). by destruct (NDEBUG p).
  - destruct (flush_repr q c H) as (q' & -> & H' & Hs' & Ho'). outcome.
    exists q'. split; [done|]. unfold implements; cbn. split_and!; congruence || done.
  - rewrite (front_repr q c H). outcome. by exists q.
  - rewrite (back_repr q c H). outcome. by exists q.
  - rewrite (occupancy_repr q c H). by exists q.
  - rewrite (isEmpty_repr q c H). by exists q.
  - rewrite (isFull_repr q c H). exists q. split; [|done]. do 3 f_equal.
    apply bool_decide_ext. cbn. lia.
  - rewrite (iter_collect_rest q c _ c) by (lia || by apply iter_begin_rest).
    outcome. by exists q.
Qed.
End repr.

(** ** Lemmas: allocation and release *)

Definition storage_kind {T} (s : storage T) : option alloc_kind :=
  match s with Block k _ => Some k | _ => None end.

(** What the life cycle depends on: flags, size and origin of the block. *)
Definition shape {T} (q : queue T) : bool * bool * Z * option alloc_kind :=
  (numa_aware_ q, intrinsic_allocator_ q, size_ q, storage_kind (records_ q)).

(** [free_memory] gives the block to the function of the allocator it came from. *)
Definition releasable {T} (p : platform) (q : queue T) : bool :=
  match storage_kind (records_ q) with
  | Some k => if intrinsic_allocator_ q then is_mm k
              else if numa_aware_ q then WITH_LIBNUMA_SUPPORT p && is_numa k
              else is_malloc k
  | None => false
  end.

(** A configured ring: it holds [c], and its block can be released. *)
Definition owns {T} (p : platform) (q : queue T) (c : list T) : Prop :=
  repr q c /\ releasable p q = true.

(** The combinations of settings under which allocation and release agree. *)
Definition sane_conf (p : platform) (cfg : LatencyBufferConf) : Prop :=
  2 <= get_size cfg <= INT_MAX /\ 0 <= get_alignment_size cfg
  /\ (get_numa_aware cfg = true ->
      WITH_LIBNUMA_SUPPORT p = true /\ get_numa_node cfg < 8 /\ get_intrinsic_allocator cfg = false)
  /\ (get_intrinsic_allocator cfg = true -> 0 < get_alignment_size cfg).

Section shape.
Context {T : Type} (p : platform).
Implicit Types (q : queue T).

Lemma slot_construct_kind s (i : Z) (x : T) s' :
  slot_construct s i x = Ret s' -> storage_kind s' = storage_kind s.
Proof. destruct s; cbn; try done. destruct (_ || _); [done|]. by intros [= <-]. Qed.

Lemma slot_destroy_kind (s : storage T) (i : Z) s' :
  slot_destroy s i = Ret s' -> storage_kind s' = storage_kind s.
Proof.
  destruct s; cbn; try done. destruct (_ <? _); [done|].
  destruct (_ !! _) as [[]|]; try done. by intros [= <-].
Qed.

Lemma write_shape q x b q' : write q x = Ret (b, q') -> shape q' = shape q.
Proof.
  unfold write. destruct (negb _); [|by intros [= _ <-]].
  intros H. apply bind_Ret_inv in H as (s & H & [= _ <-]).
  apply slot_construct_kind in H. unfold shape; cbn. by rewrite H.
Qed.

Lemma read_shape q x q' : read q = Ret (x, q') -> shape q' = shape q.
Proof.
  unfold read. destruct (_ =? _); [by intros [= _ <-]|].
  intros H. apply bind_Ret_inv in H as (y & _ & H). apply bind_Ret_inv in H as (s & H & [= _ <-]).
  apply slot_destroy_kind in H. unfold shape; cbn. by rewrite H.
Qed.

Lemma popFront_shape q q' : popFront p q = Ret q' -> shape q' = shape q.
Proof.
  unfold popFront. intros H. apply bind_Ret_inv in H as (u & _ & H).
  apply bind_Ret_inv in H as (s & H & [= <-]).
  apply slot_destroy_kind in H. unfold shape; cbn. by rewrite H.
Qed.

Lemma pop_loop_shape (n : nat) q q' : pop_loop p n q = Ret q' -> shape q' = shape q.
Proof.
  revert q. induction n as [|n IH]; intros q; cbn; [by intros [= <-]|].
  intros H. apply bind_Ret_inv in H as (q1 & H1 & H).
  apply IH in H. apply popFront_shape in H1. congruence.
Qed.

Lemma releasable_shape q q' : shape q' = shape q -> releasable p q' = releasable p q.
Proof. unfold shape, releasable. by intros [= -> -> _ ->]. Qed.
End shape.

Section lifecycle_lemmas.
Context {T : Type} (p : platform) (sizeof_T : Z) (trivially_destructible : bool) (default_T : T).
Implicit Types (q : queue T) (c : list T).

Lemma destroy_loop_ring k (l : list (option T)) r c (fuel : nat) :
  Z.of_nat (length l) <= INT_MAX ->
  ring l r c -> (r < length l)%nat -> (length c < length l)%nat -> (length c <= fuel)%nat ->
  destroy_loop fuel (Z.of_nat (length l)) (Block k l) (Z.of_nat r)
    (Z.of_nat (wrap (length l) (r + length c)))
  = Ret (c, Block k (replicate (length l) None)).
Proof.
  intros Hmax. revert l r c Hmax. induction fuel as [|fuel IH]; intros l r c Hmax H Hr Hc Hf.
  { destruct c; [|cbn in Hf; lia]. cbn. rewrite Nat.add_0_r, wrap_small, Z.eqb_refl by done.
    by rewrite <- (ring_nil_inv l r). }
  cbn [destroy_loop]. destruct c as [|x c]; cbn [length] in *.
  { rewrite Nat.add_0_r, wrap_small, Z.eqb_refl by done. by rewrite <- (ring_nil_inv l r). }
  destruct (Z.eqb_spec (Z.of_nat r) (Z.of_nat (wrap (length l) (r + S (length c))))); [wrap_lia|].
  pose proof (ring_head l r (x :: c) H Hr) as Hx.
  rewrite (slot_read_Block _ _ _ x), (slot_destroy_Block _ _ _ x) by done. outcome.
  unfold INT_MAX in *. machine.
  replace (if _ =? _ then 0 else _) with (Z.of_nat (wrap (length l) (r + 1)))
    by (destruct (Z.eqb_spec (Z.of_nat r + 1) (Z.of_nat (length l))); wrap_lia).
  specialize (IH (<[r := None]> l) (wrap (length l) (r + 1)) c).
  rewrite length_insert in IH.
  replace (wrap (length l) (r + S (length c)))
    with (wrap (length l) (wrap (length l) (r + 1) + length c)) by wrap_lia.
  rewrite IH; [done|lia|by eapply ring_pop; [|lia|cbn; lia]|apply wrap_lt; lia|lia|lia].
Qed.

(** [free_memory] destroys exactly the elements of the ring, oldest first. *)
Lemma free_memory_owned q c :
  owns p q c ->
  free_memory p trivially_destructible q
  = Ret (if trivially_destructible then [] else c, with_records q Dangling).
Proof.
  intros [(k & l & r & H) Hrel]. pose proof H as [].
  unfold free_memory, releasable in *. rewrite repr_records0 in *. cbn [storage_kind] in Hrel.
  rewrite repr_size0, repr_read0, repr_write0, Nat2Z.id in *.
  assert (Hd : (if trivially_destructible then Ret ([], Block k l)
      else destroy_loop (length l) (Z.of_nat (length l)) (Block k l) (Z.of_nat r)
             (Z.of_nat (wrap (length l) (r + length c))))
      = Ret (if trivially_destructible then [] else c,
             Block k (if trivially_destructible then l else replicate (length l) None))).
  { destruct trivially_destructible; [done|].
    apply destroy_loop_ring; [lia|done|done|done|lia]. }
  rewrite Hd. outcome. clear Hd.
  destruct (intrinsic_allocator_ q), (numa_aware_ q), (WITH_LIBNUMA_SUPPORT p);
    cbn [release andb] in *; rewrite ?Hrel; done.
Qed.

Lemma prefill_loop_room (n : nat) q c :
  repr q c -> Z.of_nat (length c + n) < size_ q ->
  exists q', prefill_loop default_T n q = Ret q' /\ repr q' (c ++ replicate n default_T)
    /\ shape q' = shape q /\ overflow_ctr q' = overflow_ctr q.
Proof.
  revert q c. induction n as [|n IH]; intros q c H Hroom; cbn [prefill_loop replicate].
  - rewrite app_nil_r. by exists q.
  - change write_ with (@write T).
    destruct (write_room q c default_T H) as (q1 & Hw & H1 & Hs & Ho); [lia|].
    rewrite Hw. outcome. apply write_shape in Hw.
    destruct (IH q1 _ H1) as (q' & -> & H' & Hs' & Ho');
      [rewrite length_app, Hs; cbn; lia|].
    exists q'. rewrite <- app_assoc in H'. split_and!; congruence || done.
Qed.

(** Pre-filling touches every slot but one and leaves the ring empty. *)
Lemma prefill_task_empty q :
  repr q [] ->
  exists q', prefill_task p default_T q = Ret q' /\ repr q' []
    /\ shape q' = shape q /\ overflow_ctr q' = overflow_ctr q.
Proof.
  intros H. assert (Hs : 2 <= size_ q <= INT_MAX) by (by destruct H as (k & l & r & [])).
  unfold prefill_task, INT_MAX in *. machine.
  destruct (prefill_loop_room (Z.to_nat (size_ q - 1)) q [] H) as (q1 & -> & H1 & Hs1 & Ho1);
    [cbn; lia|]. outcome.
  destruct (flush_repr p q1 _ H1) as (q2 & Hf & H2 & _ & Ho2). rewrite Hf. outcome.
  apply pop_loop_shape in Hf.
  eexists. split; [done|]. split_and!; cbn; try congruence.
  - destruct H2 as (k & l & r & []). by exists k, l, r.
  - unfold shape in *; cbn. congruence.
Qed.

Lemma repr_fresh q k (size : Z) :
  2 <= size <= INT_MAX -> size_ q = size -> readIndex_ q = 0 -> writeIndex_ q = 0 ->
  records_ q = Block k (replicate (Z.to_nat size) None) -> repr q [].
Proof.
  intros Hs Hq Hr Hw Hb. exists k, (replicate (Z.to_nat size) None), 0%nat.
  split; rewrite ?length_replicate; cbn [length]; rewrite ?Nat.add_0_r, ?wrap_small by lia;
    [done|lia|lia|lia|lia|lia|lia|].
  apply ring_replicate. lia.
Qed.
End lifecycle_lemmas.

Section configuration.
Context {T : Type} (p : platform) (sizeof_T : Z) (trivially_destructible : bool) (default_T : T).
Implicit Types (q : queue T) (c : list T) (cfg : LatencyBufferConf).

(** The allocator a sane configuration selects. *)
Definition selected (cfg : LatencyBufferConf) : alloc_kind :=
  if get_numa_aware cfg then NumaAllocOnnode (get_numa_node cfg)
  else if 0 <? get_alignment_size cfg then
    if get_intrinsic_allocator cfg then MmMalloc (get_alignment_size cfg)
    else AlignedAlloc (get_alignment_size cfg)
  else Malloc.

Lemma allocate_sane q cfg :
  sane_conf p cfg ->
  exists q', allocate_memory p sizeof_T q (get_size cfg) (get_numa_aware cfg)
      (get_numa_node cfg) (get_intrinsic_allocator cfg) (get_alignment_size cfg) = Ret q'
    /\ records_ q' = obtain p sizeof_T (selected cfg) (get_size cfg)
    /\ (alloc_succeeds p (selected cfg) (u64 (sizeof_T * get_size cfg)) = true ->
        releasable p q' = true)
    /\ size_ q' = get_size cfg /\ overflow_ctr q' = overflow_ctr q.
Proof.
  intros (Hs & Ha & Hn & Hi). unfold INT_MAX in *. unfold allocate_memory, selected in *.
  replace (2 <=? get_size cfg) with true by (symmetry; apply Z.leb_le; lia). outcome.
  destruct (get_numa_aware cfg) eqn:En; cbn [andb negb].
  - destruct (Hn eq_refl) as (Hl & Hnode & Hni). rewrite Hl, Hni.
    replace (get_numa_node cfg <? 8) with true by (symmetry; apply Z.ltb_lt; lia). outcome.
    eexists. split; [done|]. cbn. machine. split_and!; try done.
    unfold obtain. intros ->. cbn. by rewrite Hl.
  - destruct (get_intrinsic_allocator cfg) eqn:Ei; cbn [andb negb].
    + replace (0 <? get_alignment_size cfg) with true by (symmetry; apply Z.ltb_lt; auto). outcome.
      eexists. split; [done|]. cbn. machine. split_and!; try done.
      unfold obtain. by intros ->.
    + destruct (Z.ltb_spec 0 (get_alignment_size cfg)).
      * outcome. eexists. split; [done|]. cbn. machine. split_and!; try done.
        unfold obtain. by intros ->.
      * replace (get_alignment_size cfg =? 0) with true by (symmetry; apply Z.eqb_eq; lia). outcome.
        eexists. split; [done|]. cbn. machine. split_and!; try done.
        unfold obtain. by intros ->.
Qed.

(** [conf] up to its test: the old block is released, the new one may be null. *)
Lemma renew_sane q c cfg :
  owns p q c -> sane_conf p cfg ->
  exists q', renew p sizeof_T trivially_destructible q cfg = Ret q'
    /\ records_ q' = obtain p sizeof_T (selected cfg) (get_size cfg)
    /\ (alloc_succeeds p (selected cfg) (u64 (sizeof_T * get_size cfg)) = true ->
        releasable p q' = true)
    /\ size_ q' = get_size cfg /\ readIndex_ q' = 0 /\ writeIndex_ q' = 0
    /\ overflow_ctr q' = overflow_ctr q.
Proof.
  intros Hq Hc. pose proof Hc as (Hs & _ & _ & _). unfold renew.
  replace (2 <=? get_size cfg) with true by (symmetry; apply Z.leb_le; lia). outcome.
  rewrite (free_memory_owned p trivially_destructible q c Hq). outcome.
  destruct (allocate_sane (with_records q Dangling) cfg Hc) as (q1 & -> & Hr & Hrel & Hsz & Ho).
  outcome. eexists. split; [done|]. by split_and!.
Qed.

(** With a sane configuration [conf] either throws bad_alloc, exactly when the
    selected allocator refuses, or yields an empty ring of the asked size. *)
Lemma conf_cases q c cfg :
  owns p q c -> sane_conf p cfg ->
  if alloc_succeeds p (selected cfg) (u64 (sizeof_T * get_size cfg))
  then exists q', conf p sizeof_T trivially_destructible default_T q cfg = Ret q'
    /\ owns p q' [] /\ size_ q' = get_size cfg /\ overflow_ctr q' = overflow_ctr q
  else conf p sizeof_T trivially_destructible default_T q cfg = Throw std_bad_alloc.
Proof.
  intros Hq Hc. pose proof Hc as (Hs & _ & _ & _). unfold conf.
  destruct (renew_sane q c cfg Hq Hc) as (q2 & -> & Hr & Hrel & Hsz & Hri & Hwi & Ho).
  outcome. rewrite Hr. unfold obtain in *.
  destruct (alloc_succeeds _ _ _) eqn:Ealloc; [|done]. specialize (Hrel eq_refl).
  assert (Hq2 : repr q2 [])
    by (eapply (repr_fresh q2 (selected cfg) (get_size cfg)); done).
  destruct (get_preallocation cfg); [|by exists q2].
  unfold force_pagefault.
  destruct (prefill_task_empty p default_T (with_prefill q2 true (prefill_done_ q2)))
    as (q3 & -> & H3 & Hs3 & Ho3).
  { destruct Hq2 as (k & l & r & []). by exists k, l, r. }
  exists q3. split; [done|]. unfold owns. split_and!; [done| | |].
  - by rewrite <- Hrel, (releasable_shape p q2 q3).
  - unfold shape in Hs3. cbn in Hs3. congruence.
  - rewrite Ho3. done.
Qed.

Lemma new_queue_owns :
  alloc_succeeds p Malloc (u64 (sizeof_T * 2)) = true ->
  owns p (new_queue p sizeof_T : queue T) [].
Proof.
  intros Ha. unfold new_queue, obtain. rewrite Ha. split; [|done].
  eapply (repr_fresh _ Malloc 2); unfold INT_MAX; [lia|done..].
Qed.

(** The other constructors throw bad_alloc exactly when the allocator refuses. *)
Lemma new_queue_sized_owns (size : Z) :
  2 <= size <= INT_MAX ->
  if alloc_succeeds p Malloc (u64 (sizeof_T * size))
  then exists q : queue T, new_queue_sized p sizeof_T size = Ret q /\ owns p q [] /\ size_ q = size /\ overflow_ctr q = 0
  else (new_queue_sized p sizeof_T size : outcome (queue T)) = Throw std_bad_alloc.
Proof.
  intros Hs. unfold new_queue_sized, obtain. destruct (Z.leb_spec 2 size); [|lia]. outcome.
  destruct (alloc_succeeds _ _ _); [|done]. unfold INT_MAX in *. machine. eexists. split; [reflexivity|].
  split; [|done]. split; [|done]. eapply (repr_fresh _ Malloc size); unfold INT_MAX; [lia|done..].
Qed.

Lemma new_queue_aligned_owns cfg :
  sane_conf p cfg ->
  let q := new_queue_aligned (T:=T) p sizeof_T (get_size cfg) (get_numa_aware cfg) (get_numa_node cfg)
             (get_intrinsic_allocator cfg) (get_alignment_size cfg) in
  if alloc_succeeds p (selected cfg) (u64 (sizeof_T * get_size cfg))
  then exists q', q = Ret q' /\ owns p q' [] /\ size_ q' = get_size cfg /\ overflow_ctr q' = 0
  else q = Throw std_bad_alloc.
Proof.
  intros Hc. pose proof Hc as (Hs & _). unfold new_queue_aligned.
  destruct (Z.leb_spec 2 (get_size cfg)); [|lia]. outcome.
  set (q0 := mkQueue _ _ _ _ _ _ _ _ _ _ _ _).
  destruct (allocate_sane q0 cfg Hc) as (q1 & E & Hr & Hrel & Hsz & Ho). rewrite E. outcome.
  rewrite Hr. unfold obtain in *. destruct (alloc_succeeds _ _ _) eqn:Ealloc; [|done].
  exists q1. split; [done|]. split; [|done]. split; [|by apply Hrel].
  assert (Hi : readIndex_ q1 = 0 /\ writeIndex_ q1 = 0).
  { unfold allocate_memory in E. apply bind_Ret_inv in E as ([] & _ & E). by apply bind_Ret_inv in E as (s & _ & [= <-]). }
  destruct Hi as [Hri Hwi]. by eapply (repr_fresh q1 (selected cfg) (get_size cfg)).
Qed.

Lemma scrap_owns q c :
  owns p q c -> alloc_succeeds p Malloc (u64 (sizeof_T * 2)) = true ->
  exists q', scrap p sizeof_T trivially_destructible q = Ret q' /\ owns p q' [] /\ size_ q' = 2
    /\ overflow_ctr q' = overflow_ctr q.
Proof.
  intros Hq Ha. unfold scrap. rewrite (free_memory_owned p trivially_destructible q c Hq). outcome.
  eexists. split; [done|]. split; [|done]. unfold obtain. rewrite Ha. split; [|done].
  eapply (repr_fresh _ Malloc 2); unfold INT_MAX; [lia|done..].
Qed.
End configuration.

(** ** A ring with given contents *)

(** A build with libnuma and assertions, where every allocation succeeds. *)
Definition sample_platform : platform := mkPlatform true false (fun _ _ => true).

(** [c] in the first slots of a ring of [n] slots. *)
Definition ring_of {T} (n : nat) (c : list T) : queue T :=
  mkQueue false 0 false 0 false false false (Z.of_nat n)
    (Block Malloc ((Some <$> c) ++ replicate (n - length c) None)) 0 (Z.of_nat (length c)) 0.

Lemma ring_of_repr {T} (n : nat) (c : list T) :
  (length c < n)%nat -> 2 <= Z.of_nat n <= INT_MAX -> repr (ring_of n c) c.
Proof.
  intros Hc Hn. exists Malloc, ((Some <$> c) ++ replicate (n - length c) None), 0%nat.
  assert (Hl : length ((Some <$> c) ++ replicate (n - length c) None) = n)
    by (rewrite length_app, length_fmap, length_replicate; lia).
  split; cbn [ring_of records_ size_ readIndex_ writeIndex_]; rewrite ?Hl; try done; try lia.
  - by rewrite wrap_small.
  - intros i. rewrite Hl. intros Hi. rewrite wrap_small by lia. cbn [Nat.add].
    destruct (decide (i < length c)%nat) as [H|H].
    + destruct (lookup_lt_is_Some_2 c i H) as [x Hx].
      rewrite lookup_app_l, list_lookup_fmap, Hx by (rewrite length_fmap; lia). done.
    + rewrite lookup_app_r, length_fmap, lookup_replicate_2 by (rewrite ?length_fmap; lia).
      by rewrite lookup_ge_None_2 by lia.
Qed.

(** ** Properties *)

(** C5: every sequence of operations on the ring gives exactly the responses of
    a bounded FIFO of [size_ - 1] places that counts the writes it refuses:
    elements come out in the order they went in, [front], [back], [occupancy],
    [isEmpty], [isFull] and the iteration agree with its contents, and the ring
    fails its assertion (or, with NDEBUG, is undefined) exactly on a pop of
    more elements than it holds. *)
Theorem run_refines {T} (p : platform) (os : list (Fifo.op T)) (q : queue T) (f : Fifo.fifo T) :
  implements q f ->
  match Fifo.run p os f with
  | Ret (rs, f') => exists q', run_queue p os q = Ret (rs, q') /\ implements q' f'
  | AssertFail => run_queue p os q = AssertFail
  | Undefined => run_queue p os q = Undefined
  | _ => False
  end.
Proof.
  revert q f. induction os as [|o os IH]; intros q f Hq; cbn [Fifo.run run_queue]; [by exists q|].
  pose proof (exec_refines p o q f Hq) as Ho.
  destruct (Fifo.exec p o f) as [[a f1]|e| | |]; outcome; try done; try by rewrite Ho.
  destruct Ho as (q1 & -> & H1). outcome. specialize (IH q1 f1 H1).
  destruct (Fifo.run p os f1) as [[rs f2]|e| | |]; outcome; try done; try by rewrite IH.
  destruct IH as (q2 & -> & H2). outcome. by exists q2.
Qed.

Lemma run_refines_witness :
  exists q', run_queue sample_platform [Fifo.OpWrite 1; Fifo.OpWrite 2; Fifo.OpWrite 3; Fifo.OpRead; Fifo.OpElements]
               (ring_of 3 [])
             = Ret ([Fifo.RBool true; Fifo.RBool true; Fifo.RBool false; Fifo.RElem (Some 1);
                     Fifo.RList [2]], q')
    /\ implements q' (Fifo.mkFifo 2 [2] 1).
Proof.
  refine (run_refines sample_platform
    [Fifo.OpWrite 1; Fifo.OpWrite 2; Fifo.OpWrite 3; Fifo.OpRead; Fifo.OpElements]
    (ring_of 3 []) (Fifo.mkFifo 2 [] 0) _).
  split; [apply ring_of_repr; cbn; unfold INT_MAX; lia|done].
Defined.
