(* ===== verification/QueueLife.v ===== *)
(** The life of a ring of models/IterableQueueModel.hpp, from its construction
    over configurations, unconfigurations and uses to its destruction. *)
From S2P Require Import Prelude IterableQueue.

Section life.
Context {T : Type} (p : platform) (sizeof_T : Z) (trivially_destructible : bool) (default_T : T).
Implicit Types (q : queue T) (c : list T).

(** The destructor; returns the elements it destroys. *)
Definition destroy_queue q : outcome (list T) :=
  '(destroyed, _) ← free_memory p trivially_destructible q; Ret destroyed.

(** What is done to a queue: commands of the run control, and uses between them. *)
Inductive command := Conf (cfg : LatencyBufferConf) | Scrap | Use (os : list (Fifo.op T)).

(** The responses of a use; the commands have none. *)
Definition command_step (k : command) q : outcome (list (Fifo.response T) * queue T) :=
  match k with
  | Conf cfg => q ← conf p sizeof_T trivially_destructible default_T q cfg; Ret ([], q)
  | Scrap => q ← scrap p sizeof_T trivially_destructible q; Ret ([], q)
  | Use os => run_queue p os q
  end.

Fixpoint command_run (ks : list command) q : outcome (list (Fifo.response T) * queue T) :=
  match ks with
  | [] => Ret ([], q)
  | k :: ks => '(rs, q) ← command_step k q; '(rs', q) ← command_run ks q; Ret (rs ++ rs', q)
  end.

(** The three constructors; the settings of the last one, which never prefills. *)
Inductive construction := Default | Sized (size : Z) | Aligned (cfg : LatencyBufferConf).

Definition construct (made : construction) : outcome (queue T) :=
  match made with
  | Default => Ret (new_queue p sizeof_T)
  | Sized size => new_queue_sized p sizeof_T size
  | Aligned cfg => new_queue_aligned p sizeof_T (get_size cfg) (get_numa_aware cfg) (get_numa_node cfg)
                     (get_intrinsic_allocator cfg) (get_alignment_size cfg)
  end.

(** A whole life: the responses, and the elements destroyed at the end. *)
Definition queue_life (made : construction) (ks : list command) : outcome (list (Fifo.response T) * list T) :=
  q ← construct made;
  '(rs, q) ← command_run ks q;
  destroyed ← destroy_queue q;
  Ret (rs, destroyed).

(** *** The same life of the bounded FIFO

    A configuration empties it and sets its limit, unless the allocator it selects
    refuses; an unconfiguration leaves one place.  Refused writes stay counted. *)
Definition command_spec (k : command) (f : Fifo.fifo T) : outcome (list (Fifo.response T) * Fifo.fifo T) :=
  match k with
  | Conf cfg =>
      if alloc_succeeds p (selected cfg) (u64 (sizeof_T * get_size cfg))
      then Ret ([], Fifo.mkFifo (Z.to_nat (get_size cfg - 1)) [] (Fifo.refused f))
      else Throw std_bad_alloc
  | Scrap => Ret ([], Fifo.mkFifo 1 [] (Fifo.refused f))
  | Use os => Fifo.run p os f
  end.

Fixpoint command_runs (ks : list command) (f : Fifo.fifo T) : outcome (list (Fifo.response T) * Fifo.fifo T) :=
  match ks with
  | [] => Ret ([], f)
  | k :: ks => '(rs, f) ← command_spec k f; '(rs', f) ← command_runs ks f; Ret (rs ++ rs', f)
  end.

(** A constructor throws where its allocator refuses. *)
Definition construct_spec (made : construction) : outcome (Fifo.fifo T) :=
  let made_by k size :=
    if alloc_succeeds p k (u64 (sizeof_T * size)) then Ret (Fifo.mkFifo (Z.to_nat (size - 1)) [] 0)
    else Throw std_bad_alloc in
  match made with
  | Default => Ret (Fifo.mkFifo 1 [] 0)
  | Sized size => made_by Malloc size
  | Aligned cfg => made_by (selected cfg) (get_size cfg)
  end.

Definition life_spec (made : construction) (ks : list command) : outcome (list (Fifo.response T) * list T) :=
  f ← construct_spec made;
  '(rs, f) ← command_runs ks f;
  Ret (rs, if trivially_destructible then [] else Fifo.items f).

(** The configurations of a life under which allocation and release agree. *)
Definition sane_command (k : command) : Prop :=
  match k with Conf cfg => sane_conf p cfg | _ => True end.

Definition sane_construction (made : construction) : Prop :=
  match made with Default => True | Sized size => 2 <= size <= INT_MAX | Aligned cfg => sane_conf p cfg end.

(** *** Lemmas *)

(** A configured queue: it implements [f], and its block can be released. *)
Definition configured q (f : Fifo.fifo T) : Prop := implements q f /\ releasable p q = true.

Definition same_reply {R} (a : R * queue T) (b : R * Fifo.fifo T) : Prop :=
  a.1 = b.1 /\ configured a.2 b.2.

Lemma exec_queue_shape (o : Fifo.op T) q r q' : exec_queue p o q = Ret (r, q') -> shape q' = shape q.
Proof.
  destruct o; cbn [exec_queue]; try (by intros [= _ <-]).
  - intros ([b q1] & H & [= _ <-])%bind_Ret_inv. by eapply write_shape.
  - intros ([x q1] & H & [= _ <-])%bind_Ret_inv. by eapply read_shape.
  - intros (q1 & H & [= _ <-])%bind_Ret_inv. by eapply pop_loop_shape.
  - intros (q1 & H & [= _ <-])%bind_Ret_inv. by eapply pop_loop_shape.
  - by intros (x & _ & [= _ <-])%bind_Ret_inv.
  - by intros (x & _ & [= _ <-])%bind_Ret_inv.
  - by intros (x & _ & [= _ <-])%bind_Ret_inv.
Qed.

Lemma exec_configured (o : Fifo.op T) q f :
  configured q f -> outcome_rel same_reply (exec_queue p o q) (Fifo.exec p o f).
Proof.
  intros [Hq Hrel]. pose proof (exec_refines p o q f Hq) as Ho.
  destruct (Fifo.exec p o f) as [[a f1]|e| | |]; try done; try by rewrite Ho.
  destruct Ho as (q1 & E & H1). rewrite E. split; [done|]. split; [done|]. cbn.
  rewrite <- Hrel. apply releasable_shape. by eapply exec_queue_shape.
Qed.

Lemma run_configured (os : list (Fifo.op T)) q f :
  configured q f -> outcome_rel same_reply (run_queue p os q) (Fifo.run p os f).
Proof.
  revert q f. induction os as [|o os IH]; intros q f Hq; cbn [Fifo.run run_queue]; [done|].
  apply (outcome_rel_bind same_reply); [by apply exec_configured|].
  intros [r q1] [r' f1] [E H1]. cbn in E, H1. subst r'.
  apply (outcome_rel_bind same_reply); [by apply IH|].
  intros [rs q2] [rs' f2] [E H2]. cbn in E, H2. by subst rs'.
Qed.

Context (Hmalloc : alloc_succeeds p Malloc (u64 (sizeof_T * 2)) = true).

Lemma configured_owns q f : configured q f -> owns p q (Fifo.items f).
Proof. intros [(H & _) Hrel]. by split. Qed.

Lemma owns_configured q (n : nat) (r : Z) :
  owns p q [] -> size_ q = Z.of_nat (S n) -> overflow_ctr q = r -> configured q (Fifo.mkFifo n [] r).
Proof. intros [H Hrel] Hs Ho. by repeat split. Qed.

Lemma construct_configured (made : construction) :
  sane_construction made -> outcome_rel configured (construct made) (construct_spec made).
Proof.
  intros Hs. destruct made as [|size|cfg]; cbn [construct construct_spec sane_construction] in *.
  - apply owns_configured; [by apply new_queue_owns|done..].
  - pose proof (new_queue_sized_owns (T:=T) p sizeof_T size Hs) as Hq. unfold INT_MAX in *.
    destruct (alloc_succeeds p Malloc (u64 (sizeof_T * size))); [|by rewrite Hq]. destruct Hq as (q & -> & Ho & Hsz & Hr).
    apply owns_configured; [done|rewrite Hsz; lia|done].
  - pose proof (new_queue_aligned_owns (T:=T) p sizeof_T cfg Hs) as Hq. pose proof Hs as (Hsize & _).
    cbn zeta in Hq.
    destruct (alloc_succeeds p (selected cfg) (u64 (sizeof_T * get_size cfg))); [|by rewrite Hq]. destruct Hq as (q & -> & Ho & Hsz & Hr).
    apply owns_configured; [done|rewrite Hsz; lia|done].
Qed.

Lemma command_configured (k : command) q f :
  configured q f -> sane_command k ->
  outcome_rel same_reply (command_step k q) (command_spec k f).
Proof.
  intros Hq Hk. pose proof (configured_owns q f Hq) as Ho. pose proof Hq as [(_ & _ & Hr) _].
  destruct k as [cfg| |os]; cbn [command_step command_spec sane_command] in *.
  - pose proof (conf_cases p sizeof_T trivially_destructible default_T q _ cfg Ho Hk) as Hc.
    pose proof Hk as (Hsize & _).
    destruct (alloc_succeeds p (selected cfg) (u64 (sizeof_T * get_size cfg))).
    + destruct Hc as (q' & -> & Ho' & Hs & Hr'). outcome. split; [done|]. cbn [snd].
      apply owns_configured; [done|rewrite Hs; lia|cbn; congruence].
    + by rewrite Hc.
  - destruct (scrap_owns p sizeof_T trivially_destructible q _ Ho Hmalloc) as (q' & -> & Ho' & Hs & Hr').
    outcome. split; [done|]. cbn [snd]. apply owns_configured; [done|done|cbn; congruence].
  - by apply run_configured.
Qed.

Lemma command_runs_configured (ks : list command) q f :
  configured q f -> Forall sane_command ks ->
  outcome_rel same_reply (command_run ks q) (command_runs ks f).
Proof.
  revert q f. induction ks as [|k ks IH]; intros q f Hq Hks; cbn [command_run command_runs]; [done|].
  apply Forall_cons in Hks as [Hk Hks].
  apply (outcome_rel_bind same_reply); [by apply command_configured|].
  intros [r q1] [r' f1] [E H1]. cbn in E, H1. subst r'.
  apply (outcome_rel_bind same_reply); [by apply IH|].
  intros [rs q2] [rs' f2] [E H2]. cbn in E, H2. by subst rs'.
Qed.
End life.
Arguments command : clear implicits.

(** ** Properties *)

(** C8: the whole life of a queue.  From its construction by any of the three
    constructors, which throw bad_alloc exactly when the allocator refuses, over any sequence of
    uses, of configurations under which allocation and release agree, and of
    unconfigurations, to its destruction, the queue answers like a bounded FIFO
    of the configured size less one: a configuration empties it, or throws
    bad_alloc exactly when the selected allocator refuses; no block is released
    twice or by the wrong function; and at the end exactly the elements still
    stored are destroyed, once each and in order. *)
Theorem queue_life_refines {T} (p : platform) (sizeof_T : Z) (trivially_destructible : bool) (default_T : T)
    (made : construction) (ks : list (command T)) :
  alloc_succeeds p Malloc (u64 (sizeof_T * 2)) = true -> sane_construction p made -> Forall (sane_command p) ks ->
  queue_life p sizeof_T trivially_destructible default_T made ks
  = life_spec p sizeof_T trivially_destructible made ks.
Proof.
  intros Hmalloc Hmade Hks. apply outcome_rel_eq. unfold queue_life, life_spec.
  apply (outcome_rel_bind (configured p)); [by apply construct_configured|]. intros q0 f0 H0.
  apply (outcome_rel_bind (same_reply p)).
  - by apply command_runs_configured.
  - intros [rs q] [rs' f] [E Hq]. cbn in E, Hq. subst rs'. unfold destroy_queue.
    rewrite (free_memory_owned p trivially_destructible q (Fifo.items f)) by (by apply configured_owns).
    by outcome.
Qed.

(** Two combinations of settings [conf] accepts without an error.  With an
    intrinsic allocator and no alignment nothing is allocated: the queue keeps the
    block [conf] has just released, and the first write goes there.  With NUMA
    and intrinsic allocation together the block comes from libnuma, and [scrap]
    hands it to [_mm_free]. *)
Theorem insane_configurations {T} (p : platform) (sizeof_T : Z) (trivially_destructible : bool)
    (default_T x : T) (q : queue T) (c : list T) (size node alignment : Z) :
  owns p q c -> 2 <= size <= INT_MAX ->
  (exists q1, conf p sizeof_T trivially_destructible default_T q
       (mkLatencyBufferConf size false node true 0 false) = Ret q1
     /\ write q1 x = Undefined)
  /\ (WITH_LIBNUMA_SUPPORT p = true -> node < 8 ->
      alloc_succeeds p (NumaAllocOnnode node) (u64 (sizeof_T * size)) = true ->
      exists q1, conf p sizeof_T trivially_destructible default_T q
          (mkLatencyBufferConf size true node true alignment false) = Ret q1
        /\ scrap p sizeof_T trivially_destructible q1 = Undefined).
Proof.
  intros Hq Hsize. unfold INT_MAX in *. unfold conf, renew, allocate_memory.
  cbn [get_size get_numa_aware get_numa_node get_intrinsic_allocator get_alignment_size get_preallocation].
  destruct (Z.leb_spec 2 size); [|lia]. outcome.
  rewrite (free_memory_owned p trivially_destructible q c Hq). outcome. split.
  - cbn [andb negb Z.ltb Z.compare]. outcome. cbn [records_ with_records with_readIndex with_writeIndex].
    eexists. split; [reflexivity|]. unfold write, next_record. cbn. machine.
    destruct (Z.eqb_spec (0 + 1) size); [lia|]. done.
  - intros Hl Hn Ha. rewrite Hl. destruct (Z.ltb_spec node 8); [|lia]. cbn [andb]. outcome.
    unfold obtain. rewrite Ha. cbn [records_ with_records with_readIndex with_writeIndex].
    eexists. split; [reflexivity|]. unfold scrap, free_memory. cbn.
    destruct trivially_destructible; [done|].
    destruct (Z.to_nat (u32 size)); done.
Qed.

(** The constructor with settings, for the same intrinsic allocator without alignment: it
    tests a pointer that was never given a value. *)
Theorem construction_uninitialised {T} (p : platform) (sizeof_T size node : Z) :
  2 <= size ->
  (construct p sizeof_T (Aligned (mkLatencyBufferConf size false node true 0 false)) : outcome (queue T)) = Undefined.
Proof.
  intros Hsize. cbn [construct]. unfold new_queue_aligned, allocate_memory.
  cbn [get_size get_numa_aware get_numa_node get_intrinsic_allocator get_alignment_size].
  destruct (Z.leb_spec 2 size); [|lia]. outcome. cbn [andb negb Z.ltb Z.compare]. by outcome.
Qed.

(** ** The properties at work: a queue of three places on two allocators *)
Definition aligned_conf : LatencyBufferConf := mkLatencyBufferConf 4 false 0 false 64 true.

Definition numa_conf : LatencyBufferConf := mkLatencyBufferConf 3 true 1 false 0 false.

Definition sample_life : list (command Z) :=
  [Use [Fifo.OpWrite 1; Fifo.OpWrite 2]; Conf aligned_conf; Use [Fifo.OpWrite 3; Fifo.OpElements];
   Scrap; Conf numa_conf; Use [Fifo.OpWrite 4; Fifo.OpWrite 5; Fifo.OpRead]].

Lemma queue_life_refines_witness :
  queue_life sample_platform 8 false 0 (Sized 2) sample_life
  = Ret ([Fifo.RBool true; Fifo.RBool false; Fifo.RBool true; Fifo.RList [3];
          Fifo.RBool true; Fifo.RBool true; Fifo.RElem (Some 4)], [5]).
Proof.
  refine (queue_life_refines sample_platform 8 false 0 (Sized 2) sample_life eq_refl _ _); [by vm_compute|].
  unfold sample_life. repeat constructor; cbn; unfold INT_MAX; try lia; done.
Defined.

Lemma insane_configurations_witness :
  (exists q1, conf sample_platform 8 false 0 (new_queue sample_platform 8)
       (mkLatencyBufferConf 4 false 0 true 0 false) = Ret q1 /\ write q1 7 = Undefined)
  /\ (true = true -> 0 < 8 -> true = true ->
      exists q1, conf sample_platform 8 false 0 (new_queue sample_platform 8)
          (mkLatencyBufferConf 4 true 0 true 64 false) = Ret q1
        /\ scrap sample_platform 8 false q1 = Undefined).
Proof.
  refine (insane_configurations sample_platform 8 false 0 7 (new_queue sample_platform 8) [] 4 0 64 _ _).
  - by apply new_queue_owns.
  - by vm_compute.
Defined.
