(* ===== verification/SpscQueue.v ===== *)
(** IterableQueueModel between its two threads: [write] on the producer side and
    [read] on the consumer side, cut at every access to the shared indices and
    slots, in all interleavings.  The interleavings are sequentially consistent;
    each index has a single writer. *)
From S2P Require Import Prelude IterableQueue.

Section spsc.
Context {T : Type}.
Implicit Types (q : queue T) (c : list T) (x : T).

(** Where the producer stands inside [write]. *)
Inductive producer_pc :=
| PIdle
| PLoaded (x : T) (currentWrite : Z)
| PRoom (x : T) (currentWrite nextRecord : Z)
| PConstructed (x : T) (nextRecord : Z).

(** Where the consumer stands inside [read]. *)
Inductive consumer_pc :=
| CIdle
| CLoaded (currentRead : Z)
| CNonEmpty (currentRead nextRecord : Z)
| CMoved (x : T) (currentRead nextRecord : Z)
| CDestroyed (x : T) (nextRecord : Z).

(** The shared ring, both program counters, and the history: the elements whose
    [write] returned true, and those whose [read] returned true. *)
Record machine := mkMachine {
  shared : queue T;
  producer : producer_pc;
  consumer : consumer_pc;
  produced : list T;
  consumed : list T }.

(** One access of the producer; [x] is the element of the next [write]. *)
Definition producer_step (x : T) (m : machine) : outcome machine :=
  let q := shared m in
  match producer m with
  | PIdle =>
      Ret (mkMachine q (PLoaded x (writeIndex_ q)) (consumer m) (produced m) (consumed m))
  | PLoaded y currentWrite =>
      let nextRecord := next_record (size_ q) currentWrite in
      if negb (nextRecord =? readIndex_ q) then
        Ret (mkMachine q (PRoom y currentWrite nextRecord) (consumer m) (produced m) (consumed m))
      else
        Ret (mkMachine (with_overflow q (i32 (overflow_ctr q + 1))) PIdle (consumer m)
               (produced m) (consumed m))
  | PRoom y currentWrite nextRecord =>
      recs ← slot_construct (records_ q) currentWrite y;
      Ret (mkMachine (with_records q recs) (PConstructed y nextRecord) (consumer m)
             (produced m) (consumed m))
  | PConstructed y nextRecord =>
      Ret (mkMachine (with_writeIndex q nextRecord) PIdle (consumer m)
             (produced m ++ [y]) (consumed m))
  end.

(** One access of the consumer. *)
Definition consumer_step (m : machine) : outcome machine :=
  let q := shared m in
  match consumer m with
  | CIdle =>
      Ret (mkMachine q (producer m) (CLoaded (readIndex_ q)) (produced m) (consumed m))
  | CLoaded currentRead =>
      if currentRead =? writeIndex_ q then
        Ret (mkMachine q (producer m) CIdle (produced m) (consumed m))
      else
        Ret (mkMachine q (producer m) (CNonEmpty currentRead (next_record (size_ q) currentRead))
               (produced m) (consumed m))
  | CNonEmpty currentRead nextRecord =>
      x ← slot_read (records_ q) currentRead;
      Ret (mkMachine q (producer m) (CMoved x currentRead nextRecord) (produced m) (consumed m))
  | CMoved x currentRead nextRecord =>
      recs ← slot_destroy (records_ q) currentRead;
      Ret (mkMachine (with_records q recs) (producer m) (CDestroyed x nextRecord)
             (produced m) (consumed m))
  | CDestroyed x nextRecord =>
      Ret (mkMachine (with_readIndex q nextRecord) (producer m) CIdle
             (produced m) (consumed m ++ [x]))
  end.

Inductive spsc_step : machine -> machine -> Prop :=
| step_producer x m m' : producer_step x m = Ret m' -> spsc_step m m'
| step_consumer m m' : consumer_step m = Ret m' -> spsc_step m m'.

Definition start (q : queue T) : machine := mkMachine q PIdle CIdle [] [].

(** ** The invariant

    The slots as the two indices describe them: an element the consumer has
    destroyed but not yet released counts as present, one the producer has
    constructed but not yet published as absent. *)
Definition consumer_view (pc : consumer_pc) (r : nat) (l : list (option T)) : list (option T) :=
  match pc with CDestroyed x _ => <[r := Some x]> l | _ => l end.

Definition producer_view (pc : producer_pc) (w : nat) (l : list (option T)) : list (option T) :=
  match pc with PConstructed _ _ => <[w := None]> l | _ => l end.

Record inv_at (m : machine) (c : list T) (k : alloc_kind) (l : list (option T)) (r w : nat)
    : Prop := {
  inv_records : records_ (shared m) = Block k l;
  inv_size : size_ (shared m) = Z.of_nat (length l);
  inv_size_range : 2 <= size_ (shared m) <= INT_MAX;
  inv_read : readIndex_ (shared m) = Z.of_nat r;
  inv_read_lt : (r < length l)%nat;
  inv_room : (length c < length l)%nat;
  inv_w : w = wrap (length l) (r + length c);
  inv_write : writeIndex_ (shared m) = Z.of_nat w;
  inv_ring : ring (producer_view (producer m) w (consumer_view (consumer m) r l)) r c;
  inv_history : produced m = consumed m ++ c;
  inv_producer :
    match producer m with
    | PIdle => True
    | PLoaded _ cw => cw = Z.of_nat w
    | PRoom _ cw next =>
        cw = Z.of_nat w /\ next = Z.of_nat (wrap (length l) (w + 1)) /\ (S (length c) < length l)%nat
    | PConstructed x next =>
        next = Z.of_nat (wrap (length l) (w + 1)) /\ (S (length c) < length l)%nat
        /\ l !! w = Some (Some x)
    end;
  inv_consumer :
    match consumer m with
    | CIdle => True
    | CLoaded cr => cr = Z.of_nat r
    | CNonEmpty cr next =>
        cr = Z.of_nat r /\ next = Z.of_nat (wrap (length l) (r + 1)) /\ c <> []
    | CMoved x cr next =>
        cr = Z.of_nat r /\ next = Z.of_nat (wrap (length l) (r + 1)) /\ head c = Some x
    | CDestroyed x next =>
        next = Z.of_nat (wrap (length l) (r + 1)) /\ head c = Some x /\ l !! r = Some None
    end }.

Definition inv (m : machine) : Prop := exists c k l r w, inv_at m c k l r w.

(** The slots that the next access of each thread touches. *)
Definition producer_slot (m : machine) : option Z :=
  match producer m with PRoom _ cw _ => Some cw | _ => None end.

Definition consumer_slot (m : machine) : option Z :=
  match consumer m with
  | CNonEmpty cr _ | CMoved _ cr _ => Some cr
  | _ => None
  end.

(** ** Lemmas *)

Lemma length_views ppc cpc (r w : nat) (l : list (option T)) :
  length (producer_view ppc w (consumer_view cpc r l)) = length l.
Proof. destruct ppc, cpc; cbn; by rewrite ?length_insert. Qed.

Lemma head_cons_inv c x : head c = Some x -> exists c', c = x :: c'.
Proof. destruct c; cbn; [done|]. intros [= ->]. eauto. Qed.

Lemma wrap_ne (n r k : nat) : (r < n)%nat -> (0 < k < n)%nat -> wrap n (r + k) <> r.
Proof. wrap_lia. Qed.

(** The slot after the newest element is raw, unless the producer has already
    constructed in it. *)
Lemma inv_free m c k l r w :
  inv_at m c k l r w -> (forall y next, producer m <> PConstructed y next) -> l !! w = Some None.
Proof.
  intros [Hrec Hsz Hrng Hrd Hlt Hroom -> Hwr Hring Hh Hp Hc] Hpc.
  assert (Hv : producer_view (producer m) (wrap (length l) (r + length c)) (consumer_view (consumer m) r l)
               = consumer_view (consumer m) r l) by (destruct (producer m); done || by destruct (Hpc _ _ eq_refl)).
  pose proof (ring_raw _ _ _ (length c) Hring) as H. rewrite length_views, Hv in H.
  specialize (H ltac:(lia)). destruct (consumer m); cbn in H; try exact H.
  destruct Hc as (_ & Hx & _). apply head_cons_inv in Hx as [c' ->]. cbn [length] in *.
  rewrite list_lookup_insert_ne in H; [exact H|]. apply not_eq_sym, wrap_ne; lia.
Qed.

(** The slot of the oldest element holds it until the consumer destroys it. *)
Lemma inv_oldest m c k l r w x :
  inv_at m c k l r w -> head c = Some x ->
  (forall y next, consumer m <> CDestroyed y next) -> l !! r = Some (Some x).
Proof.
  intros [Hrec Hsz Hrng Hrd Hlt Hroom -> Hwr Hring Hh Hp Hc] Hx Hcc.
  assert (Hv : consumer_view (consumer m) r l = l) by (destruct (consumer m); done || by destruct (Hcc _ _ eq_refl)).
  pose proof (ring_head _ _ _ Hring) as H. rewrite length_views, Hv in H.
  specialize (H Hlt). rewrite Hx in H. apply head_cons_inv in Hx as [c' ->]. cbn [length] in *.
  destruct (producer m); cbn in H; try exact H.
  rewrite list_lookup_insert_ne in H; [exact H|]. apply wrap_ne; lia.
Qed.

(** Constructing in the free slot does not change the ring as described. *)
Lemma view_construct pc (w r : nat) (l : list (option T)) x :
  l !! w = Some None -> (forall y next, pc = CDestroyed y next -> w <> r) ->
  <[w := None]> (consumer_view pc r (<[w := Some x]> l)) = consumer_view pc r l.
Proof.
  intros Hw Hne. destruct pc; cbn; rewrite ?list_insert_insert_eq; try by apply list_insert_id.
  rewrite (list_insert_insert_ne _ w r) by eauto.
  by rewrite list_insert_insert_eq, (list_insert_id l w).
Qed.

(** Publishing the constructed element is a push. *)
Lemma view_publish pc (w r : nat) (l : list (option T)) x :
  l !! w = Some (Some x) -> w <> r ->
  <[w := Some x]> (<[w := None]> (consumer_view pc r l)) = consumer_view pc r l.
Proof.
  intros Hw Hne. rewrite list_insert_insert_eq. apply list_insert_id.
  destruct pc; cbn; try done. by rewrite list_lookup_insert_ne.
Qed.

(** Releasing the destroyed slot is a pop. *)
Lemma view_release pc (w r : nat) (l : list (option T)) x :
  l !! r = Some None -> w <> r ->
  <[r := None]> (producer_view pc w (<[r := Some x]> l)) = producer_view pc w l.
Proof.
  intros Hr Hne. destruct pc; cbn; try by rewrite list_insert_insert_eq, list_insert_id.
  rewrite (list_insert_insert_ne _ r w) by done.
  by rewrite list_insert_insert_eq, (list_insert_id l r).
Qed.

Lemma start_inv q : repr q [] -> inv (start q).
Proof.
  intros (k & l & r & []). exists [], k, l, r, (wrap (length l) (r + 0)). by split.
Qed.

Lemma producer_step_inv x m : inv m -> exists m', producer_step x m = Ret m' /\ inv m'.
Proof.
  intros (c & k & l & r & w & H). pose proof H as [Hrec Hsz Hrng Hrd Hlt Hroom Hw Hwr Hring Hh Hp Hc].
  unfold producer_step. destruct (producer m) as [|y cw|y cw next|y next] eqn:Epc.
  - eexists; split; [done|]. exists c, k, l, r, w. by split.
  - rewrite Hp, Hsz, Hrd, (next_record_wrap (length l) w) by (lia || wrap_lia).
    destruct (Z.eqb_spec (Z.of_nat (wrap (length l) (w + 1))) (Z.of_nat r)) as [E|E]; cbn [negb].
    + eexists; split; [done|]. exists c, k, l, r, w. by split.
    + eexists; split; [done|]. exists c, k, l, r, w. split; try done.
      cbn. split_and!; [done|done|wrap_lia].
  - destruct Hp as (-> & -> & Hfree).
    assert (Hraw : l !! w = Some None) by (eapply inv_free; [done|by rewrite Epc]).
    assert (Hwl : (w < length l)%nat) by wrap_lia.
    assert (Hne : forall y' n', consumer m = CDestroyed y' n' -> w <> r).
    { intros y' n' E. rewrite E in Hc. destruct Hc as (_ & Hx & _).
      apply head_cons_inv in Hx as [c' ->]. subst w. apply wrap_ne; cbn in *; lia. }
    rewrite Hrec, slot_construct_Block by done. outcome.
    eexists; split; [done|]. exists c, k, (<[w := Some y]> l), r, w.
    split; cbn [shared with_records records_ size_ readIndex_ writeIndex_ producer consumer
                produced consumed]; rewrite ?length_insert; try done.
    + cbn [producer_view]. by rewrite view_construct.
    + by rewrite list_lookup_insert_eq.
    + destruct (consumer m) eqn:Ecc; try done. destruct Hc as (? & ? & ?).
      rewrite list_lookup_insert_ne by eauto. done.
  - destruct Hp as (-> & Hfree & Hy). eexists; split; [done|].
    assert (Hwr' : w = r -> c = []) by (intros ->; destruct c; [done|cbn in *; wrap_lia]).
    assert (Hview : <[w := Some y]> (<[w := None]> (consumer_view (consumer m) r l))
                    = consumer_view (consumer m) r l).
    { destruct (decide (w = r)) as [->|Hne]; [|by apply view_publish].
      rewrite (Hwr' eq_refl) in Hc. rewrite list_insert_insert_eq. apply list_insert_id.
      destruct (consumer m); cbn; try done. by destruct Hc as (_ & ? & _). }
    exists (c ++ [y]), k, l, r, (wrap (length l) (w + 1)).
    split; cbn [shared with_writeIndex records_ size_ readIndex_ writeIndex_ producer consumer
                produced consumed producer_view]; rewrite ?length_app; cbn [length]; try done;
      [lia|wrap_lia| | |].
    + apply (ring_push _ _ _ y) in Hring; rewrite ?length_views in *; [|done|lia].
      cbn [producer_view] in Hring. rewrite <- Hw, Hview in Hring. done.
    + by rewrite Hh, app_assoc.
    + destruct (consumer m); try exact Hc; destruct c; try exact Hc; by destruct Hc as (? & ? & ?).
Qed.

Lemma consumer_step_inv m : inv m -> exists m', consumer_step m = Ret m' /\ inv m'.
Proof.
  intros (c & k & l & r & w & H). pose proof H as [Hrec Hsz Hrng Hrd Hlt Hroom Hw Hwr Hring Hh Hp Hc].
  unfold consumer_step. destruct (consumer m) as [|cr|cr next|x cr next|x next] eqn:Ecc.
  - eexists; split; [done|]. exists c, k, l, r, w. by split.
  - rewrite Hc, Hsz, Hwr, (next_record_wrap (length l) r) by (lia || wrap_lia).
    destruct (Z.eqb_spec (Z.of_nat r) (Z.of_nat w)) as [E|E].
    + eexists; split; [done|]. exists c, k, l, r, w. by split.
    + eexists; split; [done|]. exists c, k, l, r, w. split; try done.
      cbn. split_and!; [done|done|]. intros ->. cbn in *. wrap_lia.
  - destruct Hc as (-> & -> & Hne). destruct c as [|x c']; [done|].
    rewrite Hrec, (slot_read_Block _ _ _ x) by (eapply inv_oldest; [done|done|by rewrite Ecc]).
    outcome. eexists; split; [done|]. exists (x :: c'), k, l, r, w. by split.
  - destruct Hc as (-> & -> & Hx).
    assert (Hr : l !! r = Some (Some x)) by (eapply inv_oldest; [done|done|by rewrite Ecc]).
    rewrite Hrec, (slot_destroy_Block _ _ _ x) by done. outcome.
    eexists; split; [done|]. exists c, k, (<[r := None]> l), r, w.
    split; cbn [shared with_records records_ size_ readIndex_ writeIndex_ producer consumer
                produced consumed]; rewrite ?length_insert; try done.
    + cbn [consumer_view] in *. by rewrite list_insert_insert_eq, list_insert_id.
    + destruct (producer m); try done. destruct Hp as (? & ? & ?).
      apply head_cons_inv in Hx as [c' ->]. cbn [length] in *.
      rewrite list_lookup_insert_ne; [done|]. subst w. apply not_eq_sym, wrap_ne; lia.
    + by rewrite list_lookup_insert_eq.
  - destruct Hc as (-> & Hx & Hr). apply head_cons_inv in Hx as [c' ->]. cbn [length] in *.
    assert (Hne : w <> r) by (subst w; apply wrap_ne; lia).
    eexists; split; [done|]. exists c', k, l, (wrap (length l) (r + 1)), w.
    split; cbn [shared with_readIndex records_ size_ readIndex_ writeIndex_ producer consumer
                produced consumed consumer_view]; try done; [wrap_lia|lia|wrap_lia| | |].
    + apply ring_pop in Hring; rewrite ?length_views in *; [|done|cbn; lia].
      cbn [consumer_view] in Hring. by rewrite view_release in Hring.
    + by rewrite Hh, <- app_assoc.
    + destruct (producer m); try exact Hp; [destruct Hp as (-> & -> & ?)|destruct Hp as (-> & ? & ?)];
        split_and!; done || lia.
Qed.

Lemma reachable_inv q m : repr q [] -> rtc spsc_step (start q) m -> inv m.
Proof.
  intros Hq Hr. apply start_inv in Hq. revert Hq.
  induction Hr as [|m1 m2 m3 Hs _ IH]; [done|]. intros Hi. apply IH.
  destruct Hs as [x m m' E|m m' E].
  - destruct (producer_step_inv x m Hi) as (m'' & E' & Hm). congruence.
  - destruct (consumer_step_inv m Hi) as (m'' & E' & Hm). congruence.
Qed.

Lemma step_size m m' : spsc_step m m' -> size_ (shared m') = size_ (shared m).
Proof.
  intros [x m1 m2 E|m1 m2 E]; unfold producer_step, consumer_step in E.
  - destruct (producer m1); cbn in E; try (by injection E as <-).
    + destruct (negb _); by injection E as <-.
    + apply bind_Ret_inv in E as (recs & _ & E). by injection E as <-.
  - destruct (consumer m1); cbn in E; try (by injection E as <-).
    + destruct (_ =? _); by injection E as <-.
    + apply bind_Ret_inv in E as (y & _ & E). by injection E as <-.
    + apply bind_Ret_inv in E as (recs & _ & E). by injection E as <-.
Qed.

Lemma reachable_size m m' : rtc spsc_step m m' -> size_ (shared m') = size_ (shared m).
Proof. induction 1 as [|m1 m2 m3 Hs _ IH]; [done|]. rewrite IH. by apply step_size. Qed.

(** A schedule: [Some x] is a step of the producer (with [x] for its next
    [write]), [None] a step of the consumer. *)
Fixpoint run_schedule (es : list (option T)) (m : machine) : outcome machine :=
  match es with
  | [] => Ret m
  | e :: es => m ← match e with Some x => producer_step x m | None => consumer_step m end;
               run_schedule es m
  end.

Lemma run_schedule_reachable es m m' : run_schedule es m = Ret m' -> rtc spsc_step m m'.
Proof.
  revert m. induction es as [|e es IH]; intros m; cbn [run_schedule]; [by intros [= ->]|].
  intros (m1 & E & Hm)%bind_Ret_inv. eapply rtc_l; [|by apply IH].
  destruct e as [x|]; [by apply (step_producer x)|by apply step_consumer].
Qed.

(** ** Properties *)

(** In every interleaving of the producer's [write]s and the consumer's
    [read]s, started on an empty ring, what the consumer has read is a prefix of
    what the producer has written, in the same order, nothing lost or repeated,
    and the elements in between never fill the last slot.  When both threads are
    between two calls, the ring represents exactly those elements. *)
Theorem spsc_fifo q m :
  repr q [] -> rtc spsc_step (start q) m ->
  exists c, produced m = consumed m ++ c /\ Z.of_nat (length c) < size_ q
    /\ (producer m = PIdle -> consumer m = CIdle -> repr (shared m) c).
Proof.
  intros Hq Hr. pose proof (reachable_inv q m Hq Hr) as (c & k & l & r & w & []).
  apply reachable_size in Hr. cbn in Hr. exists c. split_and!; [done|lia|].
  intros Hp Hc. rewrite Hp, Hc in inv_ring0. exists k, l, r. by split; subst.
Qed.

(** No interleaving reaches undefined behaviour: the producer constructs
    only in a raw slot of the block, the consumer moves from and destroys only a
    constructed element, and the two threads never access the same slot at once. *)
Theorem spsc_no_race q m :
  repr q [] -> rtc spsc_step (start q) m ->
  (forall x, exists m', producer_step x m = Ret m')
  /\ (exists m', consumer_step m = Ret m')
  /\ (forall i, producer_slot m = Some i ->
        exists k l, records_ (shared m) = Block k l /\ l !! Z.to_nat i = Some None)
  /\ (forall i j, producer_slot m = Some i -> consumer_slot m = Some j -> i <> j).
Proof.
  intros Hq Hr. pose proof (reachable_inv q m Hq Hr) as Hi. split_and!.
  - intros x. destruct (producer_step_inv x m Hi) as (m' & ? & _). eauto.
  - destruct (consumer_step_inv m Hi) as (m' & ? & _). eauto.
  - destruct Hi as (c & k & l & r & w & Hi). intros i Hs. unfold producer_slot in Hs.
    destruct (producer m) as [| |y cw next|] eqn:E; try done. injection Hs as <-.
    pose proof Hi as []. rewrite E in inv_producer0. destruct inv_producer0 as (-> & _).
    exists k, l. split; [done|]. rewrite Nat2Z.id. by eapply inv_free; [|rewrite E].
  - destruct Hi as (c & k & l & r & w & Hi). intros i j Hs Hs'.
    unfold producer_slot, consumer_slot in *. pose proof Hi as [].
    assert (Hne : c <> [] -> w <> r)
      by (intros; subst w; apply wrap_ne; [done|destruct c; [done|cbn in *; lia]]).
    destruct (producer m) as [| |y cw next|]; try done. injection Hs as <-.
    destruct inv_producer0 as (-> & _).
    destruct (consumer m); try done; injection Hs' as <-; destruct inv_consumer0 as (-> & _ & Hx);
      (cut (w <> r); [lia|]); apply Hne; [done|]; by destruct c.
Qed.
End spsc.
Arguments machine : clear implicits.

(** Two writes, the second of them interrupted by a read. *)
Definition sample_schedule : list (option Z) :=
  [Some 1; Some 1; Some 1; Some 1; Some 2; None; Some 2; None; Some 2; None; None; Some 2].

(** Where the machine stands after its first [n] steps. *)
Definition sample_machine (n : nat) : machine Z :=
  match run_schedule (take n sample_schedule) (start (ring_of 3 [])) with
  | Ret m => m
  | _ => start (ring_of 3 [])
  end.

Lemma sample_ring_repr : repr (ring_of 3 ([] : list Z)) [].
Proof. apply ring_of_repr; cbn; unfold INT_MAX; lia. Qed.

Lemma spsc_fifo_witness :
  let m := sample_machine 12 in
  produced m = [1; 2] /\ exists c, [1; 2] = consumed m ++ c /\ Z.of_nat (length c) < 3
    /\ (producer m = PIdle -> consumer m = CIdle -> repr (shared m) c).
Proof.
  split; [reflexivity|].
  refine (spsc_fifo (ring_of 3 []) (sample_machine 12) sample_ring_repr _).
  by apply (run_schedule_reachable sample_schedule).
Defined.

Lemma spsc_no_race_witness :
  let m := sample_machine 8 in
  producer_slot m = Some 1 /\ consumer_slot m = Some 0
  /\ (forall x, exists m', producer_step x m = Ret m') /\ (exists m', consumer_step m = Ret m').
Proof.
  split; [reflexivity|]. split; [reflexivity|].
  refine ((fun H => conj (proj1 H) (proj1 (proj2 H)))
    (spsc_no_race (ring_of 3 []) (sample_machine 8) sample_ring_repr _)).
  by apply (run_schedule_reachable (take 8 sample_schedule)).
Defined.
