(* ===== verification/SpscWeak.v ===== *)
(** IterableQueueModel between its two threads under the memory orders of the code:
    [write] and [read] access by access, a load of the other thread's index giving any value
    not older than those seen before, and every access to a slot checked against what
    happens before it. *)
From S2P Require Import Prelude IterableQueue SpscQueue.

(** ** Release and acquire *)

Inductive memory_order := relaxed | acquire | release.

(** The orders of the four accesses to the other thread's index and to the own one that
    are not relaxed in the code. *)
Record orders := mkOrders {
  write_load : memory_order;
  write_store : memory_order;
  read_load : memory_order;
  read_store : memory_order }.

Definition code_orders : orders := mkOrders acquire release acquire release.

(** How many accesses to slots of the producer and of the consumer happen before. *)
Definition clock : Type := nat * nat.

Definition join (a b : clock) : clock := (max a.1 b.1, max a.2 b.2).

(** A value in the modification order of an index, with what its store releases. *)
Record message := mkMessage { value : Z; released : clock }.

Definition publish (o : memory_order) (v : Z) (known : clock) : message :=
  mkMessage v (match o with release => known | _ => (0, 0)%nat end).

Definition observe (o : memory_order) (msg : message) (known : clock) : clock :=
  match o with acquire => join known (released msg) | _ => known end.

(** ** The machine *)
Section weak.
Context {T : Type} (o : orders).

(** [base] is the ring, whose indices are the newest ones stored, with both program counters and
    the history; [reads] and [writes] are the modification orders of [readIndex_] and
    [writeIndex_], oldest first; [p_seen] and [c_seen] are the newest values each thread has seen of
    the other's index, [p_clock] and [c_clock] what happens before its next access, and
    [last_p] and [last_c] the last access of each thread to each slot. *)
Record weak := mkWeak {
  base : machine T;
  reads : list message;
  writes : list message;
  p_seen : nat;
  c_seen : nat;
  p_clock : clock;
  c_clock : clock;
  last_p : gmap Z nat;
  last_c : gmap Z nat }.

Implicit Types m : weak.

Definition with_base m (b : machine T) : weak :=
  mkWeak b (reads m) (writes m) (p_seen m) (c_seen m) (p_clock m) (c_clock m) (last_p m) (last_c m).

(** An access to slot [i] is a race unless all the other thread's accesses to it happen
    before. *)
Definition producer_access (i : Z) m : outcome weak :=
  if (default 0 (last_c m !! i) <=? (p_clock m).2)%nat then
    let now := S (p_clock m).1 in
    Ret (mkWeak (base m) (reads m) (writes m) (p_seen m) (c_seen m) (now, (p_clock m).2) (c_clock m)
           (<[i := now]> (last_p m)) (last_c m))
  else Undefined.

Definition consumer_access (i : Z) m : outcome weak :=
  if (default 0 (last_p m !! i) <=? (c_clock m).1)%nat then
    let now := S (c_clock m).2 in
    Ret (mkWeak (base m) (reads m) (writes m) (p_seen m) (c_seen m) (p_clock m) ((c_clock m).1, now)
           (last_p m) (<[i := now]> (last_c m)))
  else Undefined.

(** The rest of a step that touches no index of the other thread. *)
Definition producer_rest (x : T) m : outcome weak := b ← producer_step x (base m); Ret (with_base m b).

Definition consumer_rest m : outcome weak := b ← consumer_step (base m); Ret (with_base m b).

Definition moved_producer m (pc : producer_pc) : machine T :=
  mkMachine (shared (base m)) pc (consumer (base m)) (produced (base m)) (consumed (base m)).

Definition moved_consumer m (pc : consumer_pc) : machine T :=
  mkMachine (shared (base m)) (producer (base m)) pc (produced (base m)) (consumed (base m)).

(** One access of the producer, which loads the [k]-th value of [readIndex_] if it loads
    it; [None] when it cannot be that one. *)
Definition weak_producer_step (k : nat) (x : T) m : option (outcome weak) :=
  let q := shared (base m) in
  match producer (base m) with
  | PIdle => Some (producer_rest x m)
  | PLoaded y currentWrite =>
      if (k <? p_seen m)%nat then None
      else
        msg ← reads m !! k;
        let nextRecord := next_record (size_ q) currentWrite in
        let seen b := mkWeak b (reads m) (writes m) k (c_seen m) (observe (write_load o) msg (p_clock m))
                        (c_clock m) (last_p m) (last_c m) in
        Some (Ret (seen
          (if negb (nextRecord =? value msg) then moved_producer m (PRoom y currentWrite nextRecord)
           else mkMachine (with_overflow q (i32 (overflow_ctr q + 1))) PIdle (consumer (base m))
                  (produced (base m)) (consumed (base m)))))
  | PRoom y currentWrite nextRecord =>
      Some (m ← producer_access currentWrite m; producer_rest x m)
  | PConstructed y nextRecord =>
      Some (m ← producer_rest x m;
            Ret (mkWeak (base m) (reads m) (writes m ++ [publish (write_store o) nextRecord (p_clock m)])
                   (p_seen m) (c_seen m) (p_clock m) (c_clock m) (last_p m) (last_c m)))
  end.

(** One access of the consumer, which loads the [k]-th value of [writeIndex_] if it loads it. *)
Definition weak_consumer_step (k : nat) m : option (outcome weak) :=
  match consumer (base m) with
  | CIdle => Some (consumer_rest m)
  | CLoaded currentRead =>
      if (k <? c_seen m)%nat then None
      else
        msg ← writes m !! k;
        let seen b := mkWeak b (reads m) (writes m) (p_seen m) k (p_clock m)
                        (observe (read_load o) msg (c_clock m)) (last_p m) (last_c m) in
        Some (Ret (seen
          (if currentRead =? value msg then moved_consumer m CIdle
           else moved_consumer m (CNonEmpty currentRead (next_record (size_ (shared (base m))) currentRead)))))
  | CNonEmpty currentRead nextRecord =>
      Some (m ← consumer_access currentRead m; consumer_rest m)
  | CMoved x currentRead nextRecord =>
      Some (m ← consumer_access currentRead m; consumer_rest m)
  | CDestroyed x nextRecord =>
      Some (m ← consumer_rest m;
            Ret (mkWeak (base m) (reads m ++ [publish (read_store o) nextRecord (c_clock m)]) (writes m)
                   (p_seen m) (c_seen m) (p_clock m) (c_clock m) (last_p m) (last_c m)))
  end.

Inductive weak_step : weak -> weak -> Prop :=
| weak_producer k x m m' : weak_producer_step k x m = Some (Ret m') -> weak_step m m'
| weak_consumer k m m' : weak_consumer_step k m = Some (Ret m') -> weak_step m m'.

(** A ring that both threads have got from the one that made it. *)
Definition weak_start (q : queue T) : weak :=
  mkWeak (start q) [mkMessage (readIndex_ q) (0, 0)%nat] [mkMessage (writeIndex_ q) (0, 0)%nat] 0 0 (0, 0)%nat (0, 0)%nat
    ∅ ∅.
End weak.
Arguments weak : clear implicits.

(** ** The invariant *)

(** Two accesses to one slot are a round of the ring apart. *)
Lemma same_slot (n a i j : nat) : ((a + i) mod n = (a + j) mod n -> i < j -> i + n <= j)%nat.
Proof.
  intros E Hij. destruct (decide (n = 0)%nat) as [->|Hn]; [cbn in E; lia|].
  pose proof (Nat.div_mod_eq (a + i) n) as Hi. pose proof (Nat.div_mod_eq (a + j) n) as Hj. rewrite E in Hi.
  assert ((a + i) / n < (a + j) / n)%nat by nia. nia.
Qed.

Lemma wrap_is_mod (n x : nat) : (x < 2 * n -> wrap n x = x mod n)%nat.
Proof.
  intros Hx. unfold wrap. case_decide as Hlt; [by rewrite Nat.mod_small|].
  replace x with (x - n + 1 * n)%nat at 2 by lia. rewrite Nat.Div0.mod_add, Nat.mod_small; lia.
Qed.

Section invariant.
Context {T : Type} (n r0 : nat).
Implicit Types (m : weak T) (b : machine T).

(** The slot of the [j]-th element. *)
Definition slot_of (j : nat) : Z := Z.of_nat ((r0 + j) mod n).

(** The accesses of an element that a thread has finished or begun. *)
Definition producer_accesses (pc : producer_pc (T:=T)) (W : nat) : nat := match pc with PConstructed _ _ => S W | _ => W end.

Definition consumer_accesses (pc : consumer_pc (T:=T)) (R : nat) : nat :=
  match pc with CMoved _ _ _ => S (2 * R) | CDestroyed _ _ => S (S (2 * R)) | _ => 2 * R end.

Record weak_inv m : Prop := {
  wi_base : inv (base m);
  wi_n : size_ (shared (base m)) = Z.of_nat n;
  wi_reads : length (reads m) = S (length (consumed (base m)));
  wi_writes : length (writes m) = S (length (produced (base m)));
  wi_read : readIndex_ (shared (base m)) = slot_of (length (consumed (base m)));
  wi_write : writeIndex_ (shared (base m)) = slot_of (length (produced (base m)));
  wi_order : (length (consumed (base m)) <= c_seen m <= length (produced (base m)))%nat;
  wi_room : (p_seen m <= length (consumed (base m)) /\ S (length (produced (base m))) <= p_seen m + n)%nat;
  wi_read_values k msg : reads m !! k = Some msg ->
    value msg = slot_of k
    /\ (2 * k <= (released msg).2 <= (c_clock m).2)%nat /\ ((released msg).1 <= (p_clock m).1)%nat;
  wi_write_values k msg : writes m !! k = Some msg ->
    value msg = slot_of k
    /\ (k <= (released msg).1 <= (p_clock m).1)%nat /\ ((released msg).2 <= (c_clock m).2)%nat;
  wi_known : ((p_clock m).2 <= (c_clock m).2 /\ (c_clock m).1 <= (p_clock m).1)%nat;
  wi_p_knows : (2 * p_seen m <= (p_clock m).2)%nat;
  wi_c_knows : (c_seen m <= (c_clock m).1)%nat;
  wi_p_clock : (p_clock m).1 = producer_accesses (producer (base m)) (length (produced (base m)));
  wi_c_clock : (c_clock m).2 = consumer_accesses (consumer (base m)) (length (consumed (base m)));
  wi_last_p i e : last_p m !! i = Some e -> exists j, e = S j /\ i = slot_of j /\ (e <= (p_clock m).1)%nat;
  wi_accessed j : (j < (p_clock m).1)%nat -> exists e, last_p m !! slot_of j = Some e /\ (j < e)%nat;
  wi_last_c i e : last_c m !! i = Some e ->
    exists j, i = slot_of j /\ (e <= 2 * j + 2)%nat /\ (2 * j < e <= (c_clock m).2)%nat;
  wi_producer :
    match producer (base m) with
    | PIdle => True
    | PLoaded _ cw => cw = slot_of (length (produced (base m)))
    | PRoom _ cw next =>
        cw = slot_of (length (produced (base m))) /\ next = slot_of (S (length (produced (base m))))
        /\ (S (S (length (produced (base m)))) <= p_seen m + n)%nat
    | PConstructed _ next =>
        next = slot_of (S (length (produced (base m)))) /\ (S (S (length (produced (base m)))) <= p_seen m + n)%nat
    end;
  wi_consumer :
    match consumer (base m) with
    | CIdle => True
    | CLoaded cr => cr = slot_of (length (consumed (base m)))
    | CNonEmpty cr next | CMoved _ cr next =>
        cr = slot_of (length (consumed (base m))) /\ next = slot_of (S (length (consumed (base m))))
        /\ (length (consumed (base m)) < c_seen m)%nat
    | CDestroyed _ next =>
        next = slot_of (S (length (consumed (base m)))) /\ (length (consumed (base m)) < c_seen m)%nat
    end }.

Lemma slot_of_next (j : nat) : (2 <= n)%nat -> Z.of_nat n <= INT_MAX -> next_record (Z.of_nat n) (slot_of j) = slot_of (S j).
Proof.
  intros Hn Hmax. unfold slot_of. pose proof (Nat.mod_upper_bound (r0 + j) n ltac:(lia)).
  rewrite next_record_wrap by lia. f_equal. rewrite wrap_is_mod by lia.
  rewrite Nat.Div0.add_mod_idemp_l. f_equal. lia.
Qed.

Lemma slot_of_eq (i j : nat) : (i < j < i + n)%nat -> slot_of i <> slot_of j.
Proof. intros Hij E. unfold slot_of in E. pose proof (same_slot n r0 i j ltac:(lia) ltac:(lia)). lia. Qed.

Lemma inv_size_bounds m : weak_inv m -> (2 <= n)%nat /\ Z.of_nat n <= INT_MAX.
Proof. intros [(c & k & l & r & w & []) Hn]. rewrite Hn in *. lia. Qed.

(** A load that fails leaves the ring as it is. *)
Lemma inv_refused b (y : T) cw :
  inv b -> producer b = PLoaded y cw ->
  inv (mkMachine (with_overflow (shared b) (i32 (overflow_ctr (shared b) + 1))) PIdle (consumer b) (produced b) (consumed b)).
Proof. intros (c & k & l & r & w & []) E. exists c, k, l, r, w. rewrite E in *. by split. Qed.

Lemma inv_empty b cr :
  inv b -> consumer b = CLoaded cr -> inv (mkMachine (shared b) (producer b) CIdle (produced b) (consumed b)).
Proof. intros (c & k & l & r & w & []) E. exists c, k, l, r, w. rewrite E in *. by split. Qed.

(** A thread that knows the other's accesses to its slot makes no race. *)
Lemma producer_access_ok m (y : T) cw next :
  weak_inv m -> producer (base m) = PRoom y cw next -> (default 0 (last_c m !! cw) <= (p_clock m).2)%nat.
Proof.
  intros Hm E. pose proof (inv_size_bounds m Hm). destruct Hm. rewrite E in wi_producer0.
  destruct wi_producer0 as (-> & _ & Hroom).
  destruct (last_c m !! _) as [e|] eqn:El; [|cbn; lia]. destruct (wi_last_c0 _ _ El) as (j & Hj & He & He'). cbn.
  assert (Hlt : (j < length (produced (base m)))%nat).
  { rewrite wi_c_clock0 in He'. destruct (consumer (base m)); cbn in He'; lia. }
  unfold slot_of in Hj. pose proof (same_slot n r0 j (length (produced (base m))) ltac:(lia) Hlt). lia.
Qed.

Lemma consumer_access_ok m cr :
  weak_inv m ->
  match consumer (base m) with CNonEmpty cr' _ | CMoved _ cr' _ => cr' = cr | _ => False end ->
  (default 0 (last_p m !! cr) <= (c_clock m).1)%nat.
Proof.
  intros Hm E. pose proof (inv_size_bounds m Hm). destruct Hm.
  assert (Hc : cr = slot_of (length (consumed (base m))) /\ (length (consumed (base m)) < c_seen m)%nat).
  { destruct (consumer (base m)); try done; destruct wi_consumer0 as (? & _ & ?); subst; done. }
  destruct Hc as [-> Hseen]. destruct (last_p m !! _) as [e|] eqn:El; [|cbn; lia].
  destruct (wi_last_p0 _ _ El) as (j & -> & Hj & Hle). cbn.
  destruct (decide (j <= length (consumed (base m)))%nat) as [Hle'|Hgt]; [lia|].
  unfold slot_of in Hj. pose proof (same_slot n r0 (length (consumed (base m))) j ltac:(lia) ltac:(lia)).
  rewrite wi_p_clock0 in Hle. destruct (producer (base m)); cbn in Hle; lia.
Qed.

(** A step of the ring keeps its invariant. *)
Lemma producer_rest_base m (x : T) b :
  weak_inv m -> producer_step x (base m) = Ret b -> inv b.
Proof. intros [Hi] E. destruct (producer_step_inv x _ Hi) as (b' & E' & Hb). congruence. Qed.

Lemma consumer_rest_base m b : weak_inv m -> consumer_step (base m) = Ret b -> inv b.
Proof. intros [Hi] E. destruct (consumer_step_inv _ Hi) as (b' & E' & Hb). congruence. Qed.

Lemma lookup_snoc_message (l : list message) msg k msg' (P : nat -> message -> Prop) :
  (forall k msg, l !! k = Some msg -> P k msg) -> P (length l) msg -> (l ++ [msg]) !! k = Some msg' -> P k msg'.
Proof.
  intros Hl Hp Hk. destruct (decide (k < length l)%nat) as [Hlt|Hge].
  - rewrite lookup_app_l in Hk by done. by apply Hl.
  - rewrite lookup_app_r in Hk by lia. destruct (k - length l)%nat as [|j] eqn:E; [|by destruct j].
    injection Hk as <-. by replace k with (length l) by lia.
Qed.

(** What messages release stays known. *)
Ltac known H := let j := fresh in let msg := fresh in let Hj := fresh in
  intros j msg Hj; destruct (H j msg Hj) as (? & ? & ?); split_and!; [done|lia..].

Lemma producer_step_ok (k : nat) (x : T) m o :
  weak_inv m -> weak_producer_step code_orders k x m = Some o -> exists m', o = Ret m' /\ weak_inv m'.
Proof.
  intros Hm. pose proof (inv_size_bounds m Hm) as [Hn Hmax]. pose proof Hm as []. unfold weak_producer_step.
  destruct (producer (base m)) as [|y cw|y cw next|y next] eqn:Epc.
  - intros [= <-]. unfold producer_rest. destruct (producer_step x (base m)) as [b| | | |] eqn:Es;
      try (by destruct (producer_step_inv x _ wi_base0) as (? & ? & _); congruence).
    outcome. eexists. split; [reflexivity|]. pose proof (producer_rest_base m x b Hm Es) as Hb.
    unfold producer_step in Es. rewrite Epc in Es. injection Es as <-.
    split; cbn in *; rewrite ?Epc in *; done.
  - destruct (Nat.ltb_spec k (p_seen m)); [done|]. destruct (reads m !! k) as [msg|] eqn:Ek; [|done].
    intros [= <-]. eexists. split; [reflexivity|]. destruct (wi_read_values0 k msg Ek) as (Hv & Hrel & Hrel').
    pose proof (lookup_lt_Some _ _ _ Ek) as Hk. rewrite wi_reads0 in Hk.
    assert (Hclk : join (p_clock m) (released msg)
                   = ((p_clock m).1, max (p_clock m).2 (released msg).2)) by (unfold join; f_equal; lia).
    rewrite Hclk, wi_n0, wi_producer0, Hv, slot_of_next by done.
    destruct (Z.eqb_spec (slot_of (S (length (produced (base m))))) (slot_of k)) as [E|E]; cbn [negb].
    + split; cbn; try done; try lia. by apply (inv_refused _ y cw).
    + assert (Hroom : (S (S (length (produced (base m)))) <= k + n)%nat).
      { destruct (decide (S (length (produced (base m))) = k + n)%nat) as [Heq|]; [|lia].
        destruct E. unfold slot_of. f_equal. rewrite Heq.
        replace (r0 + (k + n))%nat with (r0 + k + 1 * n)%nat by lia. by rewrite Nat.Div0.mod_add. }
      assert (Hb : inv (moved_producer m (PRoom y (slot_of (length (produced (base m))))
                          (slot_of (S (length (produced (base m)))))))).
      { destruct (producer_step_inv x _ wi_base0) as (b & Es & Hb). unfold producer_step in Es. rewrite Epc in Es.
        rewrite wi_n0, wi_producer0, wi_read0, slot_of_next in Es by done.
        destruct (Z.eqb_spec (slot_of (S (length (produced (base m))))) (slot_of (length (consumed (base m))))) as [E'|E'].
        - destruct (slot_of_eq (length (consumed (base m))) (S (length (produced (base m))))); [lia|done].
        - cbn [negb] in Es. injection Es as <-. exact Hb. }
      split; cbn; try done; try lia.
  - intros [= <-]. unfold producer_access.
    pose proof (producer_access_ok m y cw next Hm Epc) as Hacc. apply Nat.leb_le in Hacc. rewrite Hacc.
    outcome. unfold producer_rest. cbn [base].
    destruct (producer_step x (base m)) as [b| | | |] eqn:Es;
      try (by destruct (producer_step_inv x _ wi_base0) as (? & ? & _); congruence).
    outcome. eexists. split; [reflexivity|]. pose proof (producer_rest_base m x b Hm Es) as Hb.
    unfold producer_step in Es. rewrite Epc in Es. apply bind_Ret_inv in Es as (recs & _ & [= <-]).
    destruct wi_producer0 as (-> & -> & Hroom). rewrite ?Epc in *. cbn in wi_p_clock0.
    split; cbn; try done; try lia; [known wi_read_values0|known wi_write_values0| |].
    + intros i e. rewrite lookup_insert_Some. intros [[<- <-]|[_ He]].
      * exists (length (produced (base m))). by rewrite wi_p_clock0.
      * destruct (wi_last_p0 i e He) as (j & ? & ? & ?). exists j. split_and!; [done|done|lia].
    + intros j Hj. destruct (decide (slot_of j = slot_of (length (produced (base m))))) as [->|Hne].
      * rewrite lookup_insert_eq. eexists. split; [done|lia].
      * rewrite lookup_insert_ne by done. apply wi_accessed0.
        destruct (decide (j = length (produced (base m)))) as [->|]; [done|lia].
  - intros [= <-]. unfold producer_rest.
    destruct (producer_step x (base m)) as [b| | | |] eqn:Es;
      try (by destruct (producer_step_inv x _ wi_base0) as (? & ? & _); congruence).
    outcome. eexists. split; [reflexivity|]. pose proof (producer_rest_base m x b Hm Es) as Hb.
    unfold producer_step in Es. rewrite Epc in Es. injection Es as <-.
    destruct wi_producer0 as (-> & Hroom). rewrite ?Epc in *. cbn in wi_p_clock0.
    split; cbn; rewrite ?length_app; cbn [length]; try done; try lia.
    + by rewrite Nat.add_1_r.
    + intros j msg Hj. eapply (lookup_snoc_message _ _ _ _ (fun k msg => value msg = slot_of k /\ _) wi_write_values0); [|exact Hj].
      cbn. rewrite wi_writes0. split_and!; [done|lia..].
Qed.

Lemma consumer_step_ok (k : nat) m o :
  weak_inv m -> weak_consumer_step code_orders k m = Some o -> exists m', o = Ret m' /\ weak_inv m'.
Proof.
  intros Hm. pose proof (inv_size_bounds m Hm) as [Hn Hmax]. pose proof Hm as []. unfold weak_consumer_step.
  assert (Hrest : forall b, consumer_step (base m) = Ret b -> inv b) by (intros b; by apply consumer_rest_base).
  assert (Hex : exists b, consumer_step (base m) = Ret b)
    by (destruct (consumer_step_inv _ wi_base0) as (b & ? & _); by exists b).
  destruct Hex as [b Es]. specialize (Hrest b Es).
  destruct (consumer (base m)) as [|cr|cr next|x cr next|x next] eqn:Epc.
  - intros [= <-]. unfold consumer_rest. rewrite Es. outcome. eexists. split; [reflexivity|].
    unfold consumer_step in Es. rewrite Epc in Es. injection Es as <-. split; cbn in *; rewrite ?Epc in *; done.
  - destruct (Nat.ltb_spec k (c_seen m)); [done|]. destruct (writes m !! k) as [msg|] eqn:Ek; [|done].
    intros [= <-]. eexists. split; [reflexivity|]. destruct (wi_write_values0 k msg Ek) as (Hv & Hrel & Hrel').
    pose proof (lookup_lt_Some _ _ _ Ek) as Hk. rewrite wi_writes0 in Hk.
    assert (Hclk : join (c_clock m) (released msg)
                   = (max (c_clock m).1 (released msg).1, (c_clock m).2)) by (unfold join; f_equal; lia).
    rewrite Hclk, wi_n0, wi_consumer0, Hv, slot_of_next by done.
    destruct (Z.eqb_spec (slot_of (length (consumed (base m)))) (slot_of k)) as [E|E].
    + split; cbn; try done; try lia. by apply (inv_empty _ cr).
    + assert (Hgt : (length (consumed (base m)) < k)%nat).
      { destruct (decide (length (consumed (base m)) = k)) as [Heq|]; [|lia]. by destruct E; rewrite Heq. }
      unfold consumer_step in Es. rewrite Epc, wi_n0, wi_consumer0, wi_write0, slot_of_next in Es by done.
      destruct (Z.eqb_spec (slot_of (length (consumed (base m)))) (slot_of (length (produced (base m))))) as [E'|E'].
      { destruct (slot_of_eq (length (consumed (base m))) (length (produced (base m)))); [lia|done]. }
      injection Es as <-. split; cbn; try done; try lia.
  - intros [= <-]. unfold consumer_access.
    pose proof (consumer_access_ok m cr Hm) as Hacc. rewrite Epc in Hacc. specialize (Hacc eq_refl).
    apply Nat.leb_le in Hacc. rewrite Hacc. outcome. unfold consumer_rest. cbn [base]. rewrite Es. outcome.
    eexists. split; [reflexivity|]. unfold consumer_step in Es. rewrite Epc in Es.
    apply bind_Ret_inv in Es as (x & _ & [= <-]). destruct wi_consumer0 as (-> & -> & Hseen). cbn in wi_c_clock0.
    split; cbn; try done; try lia; [known wi_read_values0|known wi_write_values0|].
    intros i e. rewrite lookup_insert_Some. intros [[<- <-]|[_ He]].
    + exists (length (consumed (base m))). split_and!; [done|lia..].
    + destruct (wi_last_c0 i e He) as (j & ? & ? & ?). exists j. split_and!; [done|lia..].
  - intros [= <-]. unfold consumer_access.
    pose proof (consumer_access_ok m cr Hm) as Hacc. rewrite Epc in Hacc. specialize (Hacc eq_refl).
    apply Nat.leb_le in Hacc. rewrite Hacc. outcome. unfold consumer_rest. cbn [base]. rewrite Es. outcome.
    eexists. split; [reflexivity|]. unfold consumer_step in Es. rewrite Epc in Es.
    apply bind_Ret_inv in Es as (recs & _ & [= <-]). destruct wi_consumer0 as (-> & -> & Hseen). cbn in wi_c_clock0.
    split; cbn; try done; try lia; [known wi_read_values0|known wi_write_values0|].
    intros i e. rewrite lookup_insert_Some. intros [[<- <-]|[_ He]].
    + exists (length (consumed (base m))). split_and!; [done|lia..].
    + destruct (wi_last_c0 i e He) as (j & ? & ? & ?). exists j. split_and!; [done|lia..].
  - intros [= <-]. unfold consumer_rest. rewrite Es. outcome. eexists. split; [reflexivity|].
    unfold consumer_step in Es. rewrite Epc in Es. injection Es as <-. destruct wi_consumer0 as (-> & Hseen).
    cbn in wi_c_clock0.
    split; cbn; rewrite ?length_app; cbn [length]; try done; try lia.
    + by rewrite Nat.add_1_r.
    + intros j msg Hj. eapply (lookup_snoc_message _ _ _ _ (fun k msg => value msg = slot_of k /\ _) wi_read_values0); [|exact Hj].
      cbn. rewrite wi_reads0. split_and!; [done|lia..].
Qed.

Lemma weak_step_ok m m' : weak_step code_orders m m' -> weak_inv m -> weak_inv m'.
Proof.
  intros [k x m1 m2 E|k m1 m2 E] Hm.
  - destruct (producer_step_ok k x m1 _ Hm E) as (? & [= <-] & ?). done.
  - destruct (consumer_step_ok k m1 _ Hm E) as (? & [= <-] & ?). done.
Qed.
End invariant.

Lemma weak_start_inv {T} (q : queue T) :
  repr q [] -> weak_inv (Z.to_nat (size_ q)) (Z.to_nat (readIndex_ q)) (weak_start q).
Proof.
  intros Hq. pose proof (start_inv q Hq) as Hinv. pose proof Hinv as (c & k & l & r & w & [Hrec Hsz Hrng Hrd Hlt Hroom Hw Hwr _ Hh _ _]). cbn in *.
  subst c. cbn in *.
  assert (Hr : readIndex_ q = slot_of (Z.to_nat (size_ q)) (Z.to_nat (readIndex_ q)) 0).
  { unfold slot_of. rewrite Nat.add_0_r, Nat.mod_small; lia. }
  assert (Hwi : writeIndex_ q = slot_of (Z.to_nat (size_ q)) (Z.to_nat (readIndex_ q)) 0).
  { rewrite <- Hr, Hwr, Hrd, Hw. by rewrite Nat.add_0_r, wrap_small. }
  split; cbn; try done; try lia.
  - intros [|[]] msg; cbn; [intros [= <-]|done|done]. cbn. split_and!; [done|lia..].
  - intros [|[]] msg; cbn; [intros [= <-]|done|done]. cbn. split_and!; [done|lia..].
Qed.

Lemma reachable_weak_inv {T} (q : queue T) (m : weak T) :
  repr q [] -> rtc (weak_step code_orders) (weak_start q) m ->
  weak_inv (Z.to_nat (size_ q)) (Z.to_nat (readIndex_ q)) m.
Proof.
  intros Hq Hr. pose proof (weak_start_inv q Hq) as H0. revert H0.
  generalize (Z.to_nat (size_ q)) (Z.to_nat (readIndex_ q)). intros n r0.
  induction Hr as [|m1 m2 m3 Hs _ IH]; [done|]. intros H1. apply IH. by eapply weak_step_ok.
Qed.

(** A schedule: which thread takes the next step (the producer with the element of its next
    [write]), and which value it loads if it loads the other's index. *)
Fixpoint run_weak {T} (o : orders) (es : list (nat * option T)) (m : weak T) : option (outcome (weak T)) :=
  match es with
  | [] => Some (Ret m)
  | (k, e) :: es =>
      match match e with Some x => weak_producer_step o k x m | None => weak_consumer_step o k m end with
      | Some (Ret m) => run_weak o es m
      | r => r
      end
  end.

Lemma run_weak_reachable {T} (o : orders) es (m m' : weak T) :
  run_weak o es m = Some (Ret m') -> rtc (weak_step o) m m'.
Proof.
  revert m. induction es as [|[k e] es IH]; intros m; cbn [run_weak]; [by intros [= ->]|].
  destruct e as [x|].
  - destruct (weak_producer_step o k x m) as [[m1| | | |]|] eqn:E; try done. intros Hr.
    eapply rtc_l; [by eapply weak_producer|by apply IH].
  - destruct (weak_consumer_step o k m) as [[m1| | | |]|] eqn:E; try done. intros Hr.
    eapply rtc_l; [by eapply weak_consumer|by apply IH].
Qed.

(** ** Properties *)

(** C16: the memory orders of the code are enough.  In every execution of the producer's
    [write]s and the consumer's [read]s in which a load may give an old value of the other's
    index, and only a release read by an acquire orders the accesses to the slots, started on an
    empty ring: no access to a slot is a race, touches a slot in the wrong state or goes
    outside the block, whatever is loaded; each thread can always go on; and what has been
    read is a prefix of what was written, the rest of it fewer elements than the ring has slots and, between
    calls, just what the ring holds. *)
Theorem spsc_release_acquire {T} (q : queue T) (m : weak T) :
  repr q [] -> rtc (weak_step code_orders) (weak_start q) m ->
  (forall k x o, weak_producer_step code_orders k x m = Some o -> exists m', o = Ret m')
  /\ (forall k o, weak_consumer_step code_orders k m = Some o -> exists m', o = Ret m')
  /\ (forall x, exists k o, weak_producer_step code_orders k x m = Some o)
  /\ (exists k o, weak_consumer_step code_orders k m = Some o)
  /\ exists c, produced (base m) = consumed (base m) ++ c /\ Z.of_nat (length c) < size_ q
     /\ (producer (base m) = PIdle -> consumer (base m) = CIdle -> repr (shared (base m)) c).
Proof.
  intros Hq Hr. set (n := Z.to_nat (size_ q)). set (r0 := Z.to_nat (readIndex_ q)).
  assert (Hm : weak_inv n r0 m) by (by apply reachable_weak_inv).
  split; [|split; [|split; [|split]]].
  - intros k x o E. destruct (producer_step_ok n r0 k x m o Hm E) as (m' & -> & _). by exists m'.
  - intros k o E. destruct (consumer_step_ok n r0 k m o Hm E) as (m' & -> & _). by exists m'.
  - intros x. pose proof Hm as []. unfold weak_producer_step. destruct (producer (base m)); try (by exists 0%nat; eexists).
    destruct (lookup_lt_is_Some_2 (reads m) (p_seen m)) as [msg Hmsg]; [lia|].
    exists (p_seen m). rewrite (proj2 (Nat.ltb_ge _ _)), Hmsg by done. by eexists.
  - pose proof Hm as []. unfold weak_consumer_step. destruct (consumer (base m)); try (by exists 0%nat; eexists).
    destruct (lookup_lt_is_Some_2 (writes m) (c_seen m)) as [msg Hmsg]; [lia|].
    exists (c_seen m). rewrite (proj2 (Nat.ltb_ge _ _)), Hmsg by done. by eexists.
  - pose proof Hm as []. pose proof wi_base0 as (c & k & l & r & w & [Hrec Hsz Hrng Hrd Hlt Hroom Hw Hwr Hring Hh _ _]).
    exists c. split; [done|]. split; [lia|]. intros Ep Ec. rewrite Ep, Ec in Hring. exists k, l, r. by split; subst.
Qed.

(** ** The properties at work *)

Definition P (k : nat) (x : Z) : nat * option Z := (k, Some x).

Definition C (k : nat) : nat * option Z := (k, None).

(** A whole [write] and a whole [read], which load the [k]-th value. *)
Definition writing (k : nat) (x : Z) : list (nat * option Z) := [P 0 x; P k x; P 0 x; P 0 x].

Definition reading (k : nat) : list (nat * option Z) := [C 0; C k; C 0; C 0; C 0].

(** A ring of two places: the second [write] loads an old value and is refused, though the
    element before has been read, and tries again; the first access of the last [read] is left out. *)
Definition weak_schedule : list (nat * option Z) :=
  writing 0 1 ++ reading 1 ++ [P 0 2; P 0 2] ++ [P 0 2; P 1 2; C 0; P 0 2; C 1; P 0 2] ++ [C 0; C 2; C 0].

Lemma weak_ring_repr : repr (ring_of 2 ([] : list Z)) [].
Proof. apply ring_of_repr; cbn; unfold INT_MAX; lia. Qed.

Definition weak_result (es : list (nat * option Z)) : weak Z :=
  match run_weak code_orders es (weak_start (ring_of 2 [])) with
  | Some (Ret m) => m
  | _ => weak_start (ring_of 2 [])
  end.

Lemma spsc_release_acquire_witness :
  let m := weak_result weak_schedule in
  produced (base m) = [1; 2] /\ consumed (base m) = [1] /\ consumer (base m) = CMoved 2 1 0
  /\ overflow_ctr (shared (base m)) = 1
  /\ (forall k x o, weak_producer_step code_orders k x m = Some o -> exists m', o = Ret m')
  /\ (forall k o, weak_consumer_step code_orders k m = Some o -> exists m', o = Ret m').
Proof.
  split; [vm_compute; reflexivity|]. split; [vm_compute; reflexivity|]. split; [vm_compute; reflexivity|].
  split; [vm_compute; reflexivity|].
  destruct (spsc_release_acquire (ring_of 2 []) (weak_result weak_schedule) weak_ring_repr) as (Hp & Hc & _);
    [|exact (conj Hp Hc)].
  apply (run_weak_reachable code_orders weak_schedule). vm_compute. reflexivity.
Defined.

(** Each of the four orders is needed: with one of them relaxed there is a race. *)
Definition race (o : orders) (es : list (nat * option Z)) : bool :=
  match run_weak o es (weak_start (ring_of 2 [])) with Some Undefined => true | _ => false end.

Definition third_write : list (nat * option Z) := writing 0 1 ++ reading 1 ++ writing 1 2 ++ reading 2 ++ writing 2 3.

Example orders_needed :
  race (mkOrders acquire relaxed acquire release) (writing 0 1 ++ reading 1) = true
  /\ race (mkOrders acquire release relaxed release) (writing 0 1 ++ reading 1) = true
  /\ race (mkOrders relaxed release acquire release) third_write = true
  /\ race (mkOrders acquire release acquire relaxed) third_write = true
  /\ race code_orders third_write = false.
Proof. vm_compute. split_and!; reflexivity. Qed.
