(* ===== verification/WeakReader.v ===== *)
(** A third thread at the ring of models/IterableQueueModel.hpp: [back] as the tasks of the
    request handler call it, while the producer goes on and the consumer is held back by
    the handler's mutex, under the memory orders of the code. *)
From S2P Require Import Prelude IterableQueue SpscQueue SpscWeak.

Section reader.
Context {T : Type}.

(** Inside [back], and at the element whose pointer it gave. *)
Inductive reader_pc :=
| Outside
| LoadedWrite (currentWrite : Z)
| AtElement (i : Z)
| NoElement
| HasRead (x : T).

(** [seen_writes] and [seen_reads] are the newest values of the two indices it has seen,
    [known] is what happens before its next access. *)
Record reader := mkReader {
  seen_writes : nat;
  seen_reads : nat;
  known : clock;
  reader_at : reader_pc }.

Implicit Types (m : weak T) (rd : reader).

(** A read of an element, of its timestamp say, races with an access that does not happen before. *)
Definition reader_access (i : Z) m rd : outcome T :=
  if (default 0 (last_p m !! i) <=? (known rd).1)%nat && (default 0 (last_c m !! i) <=? (known rd).2)%nat
  then slot_read (records_ (shared (base m))) i else Undefined.

(** One access, which loads the [k]-th value of an index if it loads one; [o] is the order of
    the load of [writeIndex_]. *)
Definition back_step (o : memory_order) (k : nat) m rd : option (outcome reader) :=
  match reader_at rd with
  | Outside =>
      if (k <? seen_writes rd)%nat then None
      else msg ← writes m !! k;
           Some (Ret (mkReader k (seen_reads rd) (observe o msg (known rd)) (LoadedWrite (value msg))))
  | LoadedWrite currentWrite =>
      if (k <? seen_reads rd)%nat then None
      else msg ← reads m !! k;
           Some (Ret (mkReader (seen_writes rd) k (observe acquire msg (known rd))
             (if currentWrite =? value msg then NoElement
              else AtElement (if currentWrite =? 0 then size_ (shared (base m)) - 1 else currentWrite - 1))))
  | AtElement i => Some (x ← reader_access i m rd; Ret (mkReader (seen_writes rd) (seen_reads rd) (known rd) (HasRead x)))
  | NoElement | HasRead _ => None
  end.

(** The order of the code. *)
Definition back_order : memory_order := relaxed.

(** A [back] without pause: the values it loads, and what comes of the pointer. *)
Definition back_result (o : memory_order) (k j : nat) m rd : option (outcome reader) :=
  match back_step o k m rd with
  | Some (Ret rd) => match back_step o j m rd with Some (Ret rd) => back_step o 0 m rd | r => r end
  | r => r
  end.
End reader.
Arguments reader : clear implicits.

(** ** Lemmas *)
Section lemmas.
Context {T : Type} (n r0 : nat).
Implicit Types (m : weak T) (rd : reader T).

Lemma slot_before (k : nat) :
  (2 <= n)%nat -> (0 < k)%nat ->
  (if slot_of n r0 k =? 0 then Z.of_nat n - 1 else slot_of n r0 k - 1) = slot_of n r0 (k - 1).
Proof.
  intros Hn Hk. unfold slot_of.
  assert (E : ((r0 + k) mod n = ((r0 + (k - 1)) mod n + 1) mod n)%nat)
    by (rewrite Nat.Div0.add_mod_idemp_l; f_equal; lia).
  rewrite E. pose proof (Nat.mod_upper_bound (r0 + (k - 1)) n ltac:(lia)) as Hlt. set (x := ((r0 + (k - 1)) mod n)%nat) in *.
  destruct (decide (x + 1 < n)%nat) as [H|H].
  - rewrite Nat.mod_small by done. destruct (Z.eqb_spec (Z.of_nat (x + 1)) 0); lia.
  - replace (x + 1)%nat with n by lia. rewrite Nat.Div0.mod_same. change (Z.of_nat 0) with 0. cbn [Z.eqb]. lia.
Qed.

(** Both loads of a [back] of the [k]-th value, while element [k - 1] is stored. *)
Lemma back_loads o (k : nat) m rd :
  weak_inv n r0 m -> reader_at rd = Outside -> (seen_writes rd <= k <= length (produced (base m)))%nat ->
  (seen_reads rd <= length (consumed (base m)) < k)%nat ->
  exists msg msg', writes m !! k = Some msg /\ reads m !! length (consumed (base m)) = Some msg'
    /\ back_result o k (length (consumed (base m))) m rd
       = back_step o 0 m (mkReader k (length (consumed (base m)))
           (observe acquire msg' (observe o msg (known rd))) (AtElement (slot_of n r0 (k - 1)))).
Proof.
  intros Hm Hat Hk Hr. pose proof (inv_size_bounds n r0 m Hm) as [Hn Hmax]. pose proof Hm as [].
  destruct (lookup_lt_is_Some_2 (writes m) k) as [msg Hmsg]; [lia|].
  destruct (lookup_lt_is_Some_2 (reads m) (length (consumed (base m)))) as [msg' Hmsg']; [lia|].
  exists msg, msg'. split; [done|]. split; [done|]. unfold back_result. unfold back_step at 1.
  rewrite Hat, (proj2 (Nat.ltb_ge _ _)), Hmsg by lia. cbn [mbind option_bind]. unfold back_step at 1.
  cbn [reader_at seen_reads seen_writes known]. rewrite (proj2 (Nat.ltb_ge _ _)), Hmsg' by lia. cbn [mbind option_bind].
  destruct (wi_write_values _ _ Hmsg) as [-> _]. destruct (wi_read_values _ _ Hmsg') as [-> _].
  destruct (Z.eqb_spec (slot_of n r0 k) (slot_of n r0 (length (consumed (base m))))) as [E|E].
  { destruct (slot_of_eq n r0 (length (consumed (base m))) k); [lia|done]. }
  by rewrite wi_n, slot_before by lia.
Qed.

(** The newest access of the producer to the slot of a stored element is the construction
    of that element. *)
Lemma stored_last_p m (j : nat) :
  weak_inv n r0 m -> (length (consumed (base m)) <= j < length (produced (base m)))%nat ->
  last_p m !! slot_of n r0 j = Some (S j).
Proof.
  intros Hm Hj. pose proof (inv_size_bounds n r0 m Hm) as [Hn _]. pose proof Hm as [].
  assert (Hle : (length (produced (base m)) <= (p_clock m).1 <= S (length (produced (base m))))%nat).
  { rewrite wi_p_clock. destruct (producer (base m)); cbn; lia. }
  destruct (wi_accessed j ltac:(lia)) as (e & He & Hje). destruct (wi_last_p _ _ He) as (i & -> & Hi & Hle').
  destruct (decide (i = j)) as [->|Hne]; [done|]. unfold slot_of in Hi.
  pose proof (same_slot n r0 j i ltac:(lia) ltac:(lia)) as Hround.
  assert (i = length (produced (base m)))%nat as -> by lia.
  destruct (producer (base m)); cbn in wi_p_clock; lia.
Qed.
End lemmas.

(** A stored element is in its slot, while the consumer is between two calls. *)
Lemma stored_element {T} (n r0 : nat) (m : weak T) (j : nat) x :
  weak_inv n r0 m -> consumer (base m) = CIdle -> (length (consumed (base m)) <= j)%nat ->
  produced (base m) !! j = Some x -> slot_read (records_ (shared (base m))) (slot_of n r0 j) = Ret x.
Proof.
  intros Hm Hc Hj Hx. pose proof (inv_size_bounds n r0 m Hm) as [Hn _]. pose proof Hm as [].
  destruct wi_base as (c & k & l & r & w & [Hrec Hsz Hrng Hrd Hlt Hroom Hw Hwr Hring Hh Hp _]).
  assert (Hl : length l = n) by lia. rewrite Hrec. unfold slot_of.
  rewrite Hh, lookup_app_r in Hx by done. pose proof (lookup_lt_Some _ _ _ Hx) as Hlen.
  assert (Hr : r = ((r0 + length (consumed (base m))) mod n)%nat) by (unfold slot_of in *; lia).
  assert (Hslot : ((r0 + j) mod n = wrap (length l) (r + (j - length (consumed (base m)))))%nat).
  { rewrite wrap_is_mod, Hl, Hr, Nat.Div0.add_mod_idemp_l by lia. f_equal. lia. }
  rewrite Hslot. apply slot_read_Block.
  pose proof (ring_lookup _ _ _ (j - length (consumed (base m))) x Hring) as Hlook.
  rewrite length_views in Hlook. specialize (Hlook ltac:(lia) Hx).
  rewrite Hc in Hlook. cbn [consumer_view] in Hlook. destruct (producer (base m)); cbn [producer_view] in Hlook; try done.
  rewrite list_lookup_insert_ne in Hlook; [done|]. subst w. intros E. apply wrap_inj in E; lia.
Qed.

(** ** The property *)

(** C32: [back] by a thread that is not the producer.  Whatever the producer and the consumer have
    done, while the consumer is held back: if the relaxed load of [writeIndex_] gives a value
    the thread has not synchronised with otherwise, the pointer it returns is to an element whose
    construction does not happen before, and reading it is a data race, undefined behaviour;
    were the load an acquire, as in [front], reading it would give the newest element. *)
Theorem back_races {T} (q : queue T) (m : weak T) (rd : reader T) (k : nat) :
  repr q [] -> rtc (weak_step code_orders) (weak_start q) m ->
  reader_at rd = Outside -> consumer (base m) = CIdle ->
  (seen_writes rd <= k <= length (produced (base m)))%nat ->
  (seen_reads rd <= length (consumed (base m)) < k)%nat ->
  (2 * length (consumed (base m)) <= (known rd).2)%nat ->
  ((known rd).1 < k)%nat -> (forall msg, reads m !! length (consumed (base m)) = Some msg -> (released msg).1 < k)%nat ->
  back_result back_order k (length (consumed (base m))) m rd = Some Undefined
  /\ exists x rd', produced (base m) !! (k - 1)%nat = Some x
       /\ back_result acquire k (length (consumed (base m))) m rd = Some (Ret rd') /\ reader_at rd' = HasRead x.
Proof.
  intros Hq Hr Hat Hc Hk Hrd Hknown Hnew Hrel. set (n := Z.to_nat (size_ q)). set (r0 := Z.to_nat (readIndex_ q)).
  assert (Hm : weak_inv n r0 m) by (by apply (reachable_weak_inv q)).
  assert (Hlast : last_p m !! slot_of n r0 (k - 1) = Some (S (k - 1))) by (apply stored_last_p; [done|lia]).
  replace (S (k - 1)) with k in Hlast by lia. split.
  - destruct (back_loads n r0 back_order k m rd Hm Hat Hk Hrd) as (msg & msg' & _ & Hmsg' & ->).
    unfold back_step, reader_access, back_order. cbn [reader_at known observe join fst snd]. rewrite Hlast. cbn [default Datatypes.id].
    specialize (Hrel _ Hmsg'). destruct (Nat.leb_spec k (max (known rd).1 (released msg').1)); [lia|done].
  - destruct (back_loads n r0 acquire k m rd Hm Hat Hk Hrd) as (msg & msg' & Hmsg & _ & ->).
    destruct (lookup_lt_is_Some_2 (produced (base m)) (k - 1)) as [x Hx]; [lia|].
    pose proof (stored_element n r0 m (k - 1) x Hm Hc ltac:(lia) Hx) as Hread.
    unfold back_step, reader_access. cbn [reader_at known observe join fst snd]. rewrite Hlast. cbn [default Datatypes.id].
    pose proof Hm as []. destruct (wi_write_values _ _ Hmsg) as (_ & Hms & _).
    destruct (Nat.leb_spec k (max (max (known rd).1 (released msg).1) (released msg').1)); [|lia].
    assert (Hlc : (default 0 (last_c m !! slot_of n r0 (k - 1)) <= 2 * length (consumed (base m)))%nat).
    { destruct (last_c m !! _) as [e|] eqn:Ee; [|cbn; lia]. destruct (wi_last_c _ _ Ee) as (j & _ & _ & He). cbn.
      rewrite wi_c_clock, Hc in He. cbn in He. lia. }
    destruct (Nat.leb_spec (default 0%nat (last_c m !! slot_of n r0 (k - 1)))
      (max (max (known rd).2 (released msg).2) (released msg').2)); [|lia]. cbn [andb].
    rewrite Hread. outcome. eexists _, _. split; [done|]. split; [reflexivity|done].
Qed.

(** ** The property at work: one element written, and a task that comes along *)
Definition fresh_reader : reader Z := mkReader 0 0 (0, 0)%nat Outside.

Lemma back_races_witness :
  let m := weak_result (writing 0 1) in
  back_result back_order 1 0 m fresh_reader = Some Undefined
  /\ exists x rd', produced (base m) !! 0%nat = Some x
       /\ back_result acquire 1 0 m fresh_reader = Some (Ret rd') /\ reader_at rd' = HasRead x.
Proof.
  refine (back_races (ring_of 2 []) (weak_result (writing 0 1)) fresh_reader 1 weak_ring_repr _ eq_refl eq_refl _ _ _ _ _).
  - apply (run_weak_reachable code_orders (writing 0 1)). vm_compute. reflexivity.
  - vm_compute. lia.
  - vm_compute. lia.
  - vm_compute. lia.
  - vm_compute. lia.
  - intros msg Hmsg. vm_compute in Hmsg. injection Hmsg as <-. vm_compute. lia.
Defined.
