(* ===== verification/ReadoutTypes.v ===== *)
(** What the templates of the library require of a ReadoutType, and the dummy
    frame of ReadoutTypes.hpp. *)
From S2P Require Import Prelude.

(** ** The order of the elements

    [operator<] of an element, which the searches and the skip list go by; and what makes
    it a strict weak order, of which some elements may be equivalent. *)
Class Less (T : Type) := element_lt : T -> T -> bool.
#[export] Hint Mode Less ! : typeclass_instances.

Class LessLaws (T : Type) `{Less T} := {
  element_lt_irrefl (x : T) : element_lt x x = false;
  element_lt_trans (x y z : T) : element_lt x y = true -> element_lt y z = true -> element_lt x z = true;
  element_lt_cotrans (x y z : T) : element_lt x z = true -> element_lt x y = true \/ element_lt y z = true }.
#[export] Hint Mode LessLaws ! - : typeclass_instances.

(** ** The ReadoutType interface

    The elements of a latency buffer come from other packages; the templates use
    the members below.  [frames x] is the range [x.begin(), x.end()), and
    [frame_timestamp] is [get_frame_iterator_timestamp]. *)
Class ReadoutType (T : Type) := {
  #[global] readout_less :: Less T;
  FrameType : Type;
  get_timestamp : T -> Z;
  set_timestamp : Z -> T -> T;
  default_element : T;
  get_num_frames : T -> Z;
  expected_tick_difference : Z;
  get_payload_size : T -> Z;
  get_frame_size : T -> Z;
  frames : T -> list FrameType;
  frame_timestamp : FrameType -> Z }.
#[export] Hint Mode ReadoutType ! : typeclass_instances.
Arguments FrameType T {_}.
Arguments default_element T {_}.
Arguments expected_tick_difference T {_}.

(** What those members promise: timestamps are 64-bit, [set_timestamp] sets
    them, and every element has the same number of frames, spaced by the tick. *)
Class ReadoutLaws (T : Type) `{ReadoutType T} := {
  timestamp_range (x : T) : 0 <= get_timestamp x <= UINT64_MAX;
  get_set_timestamp (t : Z) (x : T) :
    0 <= t <= UINT64_MAX -> get_timestamp (set_timestamp t x) = t;
  num_frames_const (x : T) : get_num_frames x = get_num_frames (default_element T);
  num_frames_pos : 1 <= get_num_frames (default_element T);
  tick_pos : 1 <= expected_tick_difference T;
  element_ticks_range :
    get_num_frames (default_element T) * expected_tick_difference T <= UINT64_MAX;
  frames_length (x : T) : Z.of_nat (length (frames x)) = get_num_frames x;
  frames_timestamp (x : T) (k : nat) (f : FrameType T) : frames x !! k = Some f ->
    get_timestamp x + Z.of_nat k * expected_tick_difference T <= UINT64_MAX ->
    frame_timestamp f = get_timestamp x + Z.of_nat k * expected_tick_difference T }.
#[export] Hint Mode ReadoutLaws ! - : typeclass_instances.

(** Elements ordered by their timestamps and nothing else; and those whose timestamps
    come first in a composite key. *)
Class TimestampOrder (T : Type) `{ReadoutType T} :=
  element_lt_timestamp (x y : T) : element_lt x y = (get_timestamp x <? get_timestamp y).
#[export] Hint Mode TimestampOrder ! - : typeclass_instances.

Class TimestampFirst (T : Type) `{ReadoutType T} :=
  element_lt_first (x y : T) : element_lt x y = true -> get_timestamp x <= get_timestamp y.
#[export] Hint Mode TimestampFirst ! - : typeclass_instances.

Section timestamp_order.
Context {T : Type} `{TimestampOrder T}.

#[export] Instance timestamp_less : LessLaws T.
Proof.
  split; [intros x|intros x y z|intros x y z]; rewrite !element_lt_timestamp.
  - apply Z.ltb_irrefl.
  - rewrite !Z.ltb_lt. lia.
  - rewrite !Z.ltb_lt. lia.
Qed.

#[export] Instance timestamp_first : TimestampFirst T.
Proof. intros x y. rewrite element_lt_timestamp, Z.ltb_lt. lia. Qed.
End timestamp_order.

(** *** Lists in order *)
Section ordered.
Context {T : Type} `{Less T}.
Implicit Types (x y : T) (c : list T).

(** None of two is before the other. *)
Definition equivalent x y : bool := negb (element_lt x y) && negb (element_lt y x).

Definition ordered c : Prop :=
  forall i j x y, c !! i = Some x -> c !! j = Some y -> (i < j)%nat -> element_lt x y = true.

(** The elements from the first one on that is not before [key]. *)
Fixpoint from_key (key : T) c : list T :=
  match c with
  | [] => []
  | x :: c' => if element_lt x key then from_key key c' else c
  end.

Lemma ordered_nil : ordered [].
Proof. intros i j x y Hx. done. Qed.

Lemma ordered_cons x c : ordered (x :: c) <-> (forall y, y ∈ c -> element_lt x y = true) /\ ordered c.
Proof.
  split.
  - intros Hc. split.
    + intros y Hy. apply list_elem_of_lookup in Hy as [i Hy]. apply (Hc 0%nat (S i) x y eq_refl Hy). lia.
    + intros i j y z Hy Hz Hij. apply (Hc (S i) (S j) y z Hy Hz). lia.
  - intros [Hx Hc] [|i] [|j] y z Hy Hz Hij; try lia; cbn in *.
    + injection Hy as <-. apply Hx. by eapply list_elem_of_lookup_2.
    + apply (Hc i j y z Hy Hz). lia.
Qed.

Lemma ordered_sublist c c' : sublist c c' -> ordered c' -> ordered c.
Proof.
  induction 1 as [|x c c' Hs IH|x c c' Hs IH]; [done|..]; rewrite ?ordered_cons; intros [Hx Hc].
  - split; [|by apply IH]. intros y Hy. apply Hx. by eapply elem_of_sublist.
  - by apply IH.
Qed.

Lemma from_key_suffix key c : exists j, from_key key c = drop j c.
Proof. induction c as [|x c [j IH]]; cbn; [by exists 0%nat|]. destruct (element_lt x key); [by exists (S j)|by exists 0%nat]. Qed.

Lemma element_lt_asym `{!LessLaws T} x y : element_lt x y = true -> element_lt y x = false.
Proof.
  intros Hxy. destruct (element_lt y x) eqn:Hyx; [|done].
  by rewrite <- (element_lt_irrefl x), (element_lt_trans x y x).
Qed.
End ordered.

Section readout.
Context `{ReadoutLaws T}.

(** The ticks one element covers. *)
Definition element_ticks : Z := get_num_frames (default_element T) * expected_tick_difference T.

Lemma element_ticks_bounds : 1 <= element_ticks <= UINT64_MAX.
Proof.
  unfold element_ticks. pose proof (num_frames_pos (T:=T)). pose proof (tick_pos (T:=T)).
  pose proof (element_ticks_range (T:=T)). nia.
Qed.

Lemma element_ticks_of (x : T) : get_num_frames x * expected_tick_difference T = element_ticks.
Proof. unfold element_ticks. by rewrite num_frames_const. Qed.

(** A buffer whose timestamps only increase. *)
Definition increasing (c : list T) : Prop :=
  forall i j x y, c !! i = Some x -> c !! j = Some y -> (i < j)%nat ->
    get_timestamp x < get_timestamp y.

Lemma increasing_cons x c :
  increasing (x :: c) <-> (forall y, y ∈ c -> get_timestamp x < get_timestamp y) /\ increasing c.
Proof.
  split.
  - intros Hc. split.
    + intros y Hy. apply list_elem_of_lookup in Hy as [i Hy].
      apply (Hc 0%nat (S i) x y eq_refl Hy). lia.
    + intros i j y z Hy Hz Hij. apply (Hc (S i) (S j) y z Hy Hz). lia.
  - intros [Hx Hc] [|i] [|j] y z Hy Hz Hij; try lia; cbn in *.
    + injection Hy as <-. apply Hx. by eapply list_elem_of_lookup_2.
    + apply (Hc i j y z Hy Hz). lia.
Qed.

Lemma increasing_nil : increasing [].
Proof. intros i j x y Hx. done. Qed.

Lemma increasing_sublist c c' : sublist c c' -> increasing c' -> increasing c.
Proof.
  induction 1 as [|x c c' Hs IH|x c c' Hs IH]; [done|..]; rewrite ?increasing_cons; intros [Hx Hc].
  - split; [|by apply IH]. intros y Hy. apply Hx. by eapply elem_of_sublist.
  - by apply IH.
Qed.

(** The newest element. *)
Lemma increasing_end c x y : increasing c -> last c = Some x -> y ∈ c -> get_timestamp y <= get_timestamp x.
Proof.
  intros Hc Hx Hy. apply list_elem_of_lookup in Hy as [i Hy]. rewrite last_lookup in Hx.
  pose proof (lookup_lt_Some _ _ _ Hy). destruct (decide (i = pred (length c))) as [->|].
  - rewrite Hx in Hy. injection Hy as ->. lia.
  - pose proof (Hc i (pred (length c)) y x Hy Hx ltac:(lia)). lia.
Qed.

(** In the order of the timestamps it is the order of [operator<]. *)
Lemma ordered_increasing `{!TimestampOrder T} c : ordered c <-> increasing c.
Proof.
  unfold ordered, increasing. split; intros Hc i j x y Hx Hy Hij; specialize (Hc i j x y Hx Hy Hij);
    rewrite element_lt_timestamp, Z.ltb_lt in *; done.
Qed.

(** A buffer of consecutive elements, none missing. *)
Definition equally_spaced (c : list T) : Prop :=
  forall (i : nat) x y, c !! i = Some x -> head c = Some y ->
    get_timestamp x = get_timestamp y + Z.of_nat i * element_ticks.

Lemma equally_spaced_increasing c : equally_spaced c -> increasing c.
Proof.
  intros Hc i j x y Hx Hy Hij. destruct c as [|z c]; [done|].
  rewrite (Hc i x z Hx), (Hc j y z Hy) by done. pose proof element_ticks_bounds. nia.
Qed.

(** No element of the buffer ends after the last 64-bit timestamp. *)
Definition no_wrap (c : list T) : Prop :=
  forall x, last c = Some x -> get_timestamp x + element_ticks <= UINT64_MAX.

Definition regular (c : list T) : Prop := equally_spaced c /\ no_wrap c.

Lemma equally_spaced_prefix c c' : equally_spaced (c ++ c') -> equally_spaced c.
Proof.
  intros Hc i x y Hx Hy. apply (Hc i x y); [by apply lookup_app_l_Some|].
  destruct c; [done|exact Hy].
Qed.

(** In a regular buffer every element ends before the timestamps do. *)
Lemma regular_fit c (i : nat) x :
  regular c -> c !! i = Some x -> get_timestamp x + element_ticks <= UINT64_MAX.
Proof.
  intros [Hs Hw] Hx. pose proof (lookup_lt_Some _ _ _ Hx) as Hi.
  destruct c as [|y c]; [done|]. destruct (last (y :: c)) as [z|] eqn:Hz; [|by apply last_None in Hz].
  specialize (Hw z Hz). rewrite last_lookup in Hz. cbn [length pred] in Hz, Hi.
  rewrite (Hs _ _ y Hz eq_refl) in Hw. rewrite (Hs _ _ y Hx eq_refl).
  pose proof element_ticks_bounds. nia.
Qed.

Lemma regular_prefix c c' : regular (c ++ c') -> regular c.
Proof.
  intros Hr. split; [by apply equally_spaced_prefix with c', Hr|].
  intros x Hx. rewrite last_lookup in Hx.
  apply (regular_fit (c ++ c') (pred (length c))); [done|]. by apply lookup_app_l_Some.
Qed.

(** The elements from the first one whose timestamp is at least [t] on. *)
Fixpoint from_timestamp (t : Z) (c : list T) : list T :=
  match c with
  | [] => []
  | x :: c' => if get_timestamp x <? t then from_timestamp t c' else c
  end.

Lemma from_key_timestamp `{!TimestampOrder T} key c : from_key key c = from_timestamp (get_timestamp key) c.
Proof. induction c as [|x c IH]; cbn; [done|]. by rewrite element_lt_timestamp, IH. Qed.

Lemma from_timestamp_drop t c (j : nat) :
  (forall i x, c !! i = Some x -> (i < j)%nat -> get_timestamp x < t) ->
  (forall x, c !! j = Some x -> t <= get_timestamp x) ->
  from_timestamp t c = drop j c.
Proof.
  revert j. induction c as [|x c IH]; intros j Hlt Hge; cbn; [by rewrite drop_nil|].
  destruct j as [|j].
  - destruct (Z.ltb_spec (get_timestamp x) t); [|done]. specialize (Hge x eq_refl). lia.
  - destruct (Z.ltb_spec (get_timestamp x) t); [|specialize (Hlt 0%nat x eq_refl); lia].
    cbn. apply IH; [|done]. intros i y Hy Hi. apply (Hlt (S i) y Hy). lia.
Qed.

(** In an increasing buffer nothing is skipped but what is below [t]. *)
Lemma from_timestamp_filter t c :
  increasing c -> from_timestamp t c = filter (fun x => t <= get_timestamp x) c.
Proof.
  induction c as [|x c IH]; intros Hc; [done|]. cbn [from_timestamp].
  assert (Hc' : increasing c) by (intros i j y z Hy Hz Hij; apply (Hc (S i) (S j) y z Hy Hz); lia).
  rewrite filter_cons. destruct (Z.ltb_spec (get_timestamp x) t); case_decide; try lia; [by auto|].
  f_equal. symmetry. apply list_filter_all_in. intros y Hy. apply list_elem_of_lookup in Hy as [i Hy].
  pose proof (Hc 0%nat (S i) x y eq_refl Hy ltac:(lia)). lia.
Qed.

(** Where a queue search for [t] stops: before the oldest element it gives up. *)
Definition search_queue (t : Z) (c : list T) : list T :=
  match c with
  | [] => []
  | x :: _ => if t <? get_timestamp x then [] else from_timestamp t c
  end.
End readout.
Arguments element_ticks T {_}.

(** ** The dummy frame (ReadoutTypes.hpp) *)
Module DUMMY.

Definition DUMMY_FRAME_SIZE : Z := 1024.

Record DUMMY_FRAME_STRUCT := mkDummy { timestamp : Z; another_key : Z; data : list Z }.

(** [std::tie(timestamp, another_key) < std::tie(other.timestamp, other.another_key)] *)
Definition lt (a b : DUMMY_FRAME_STRUCT) : bool :=
  if timestamp a <? timestamp b then true
  else if timestamp b <? timestamp a then false
  else another_key a <? another_key b.

#[global] Instance dummy_less : Less DUMMY_FRAME_STRUCT := lt.

(** A lexicographic order of the two keys. *)
#[global] Instance dummy_less_laws : LessLaws DUMMY_FRAME_STRUCT.
Proof.
  assert (Hlt : forall x y, lt x y = true <->
    timestamp x < timestamp y \/ (timestamp x = timestamp y /\ another_key x < another_key y)).
  { intros x y. unfold lt. destruct (Z.ltb_spec (timestamp x) (timestamp y));
      destruct (Z.ltb_spec (timestamp y) (timestamp x)); rewrite ?Z.ltb_lt; split; intros; try done; lia. }
  split; unfold element_lt, dummy_less.
  - intros x. apply not_true_iff_false. rewrite Hlt. lia.
  - intros x y z. rewrite !Hlt. lia.
  - intros x y z. rewrite !Hlt. lia.
Qed.

Definition get_timestamp (f : DUMMY_FRAME_STRUCT) : Z := timestamp f.

Definition set_another_key (compkey : Z) (f : DUMMY_FRAME_STRUCT) : DUMMY_FRAME_STRUCT :=
  mkDummy (timestamp f) compkey (data f).

Definition set_timestamp (ts : Z) (f : DUMMY_FRAME_STRUCT) : DUMMY_FRAME_STRUCT :=
  mkDummy ts (another_key f) (data f).

Definition fake_timestamp (first_timestamp offset : Z) (f : DUMMY_FRAME_STRUCT)
    : DUMMY_FRAME_STRUCT := f.

Definition frame_size : Z := DUMMY_FRAME_SIZE.

Definition frames_per_element : Z := 1.

Definition element_size : Z := DUMMY_FRAME_SIZE.
End DUMMY.

(** ** A concrete readout type: elements of two frames, ten ticks apart *)
Module Chunk.

Record chunk := mkChunk { chunk_ts : Z }.

#[export] Instance chunk_readout : ReadoutType chunk := {
  readout_less x y := u64 (chunk_ts x) <? u64 (chunk_ts y);
  FrameType := Z;
  get_timestamp x := u64 (chunk_ts x);
  set_timestamp t _ := mkChunk t;
  default_element := mkChunk 0;
  get_num_frames _ := 2;
  expected_tick_difference := 10;
  get_payload_size _ := 200;
  get_frame_size _ := 100;
  frames x := [u64 (chunk_ts x); u64 (chunk_ts x) + 10];
  frame_timestamp f := f }.

#[export] Instance chunk_laws : ReadoutLaws chunk.
Proof.
  split; cbn; unfold UINT64_MAX in *; try done || lia.
  - intros x. pose proof (u64_range (chunk_ts x)). lia.
  - intros t x Ht. machine. done.
  - intros x [|[|k]] f; cbn; intros [= <-]; lia.
Qed.

#[export] Instance chunk_order : TimestampOrder chunk.
Proof. done. Qed.

(** Consecutive elements. *)
Definition sample : list chunk := [mkChunk 100; mkChunk 120; mkChunk 140].

Lemma sample_spaced : equally_spaced sample.
Proof. intros [|[|[|i]]] x y; cbn; intros [= <-] [= <-]; reflexivity. Qed.

Lemma sample_increasing : increasing sample.
Proof. apply equally_spaced_increasing, sample_spaced. Qed.
End Chunk.
