(* ===== verification/LatencyBuffer.v ===== *)
(** The contract of concepts/LatencyBufferConcept.hpp: the operations a latency
    buffer offers to the request handlers and the data handling model, and the
    laws their theorems rely on.  BinarySearchQueue.v, FixedRateQueue.v and
    SkipListBuffer.v discharge them. *)
From S2P Require Import Prelude ReadoutTypes.

(** [B] is the buffer's state and [It] its iterator, which refers to the buffer. *)
Class LatencyBuffer (T B It : Type) := {
  lb_occupancy : B -> Z;
  lb_write : T -> B -> outcome (bool * B);
  lb_front : B -> outcome (option T);
  lb_back : B -> outcome (option T);
  lb_pop : Z -> B -> outcome B;
  lb_flush : B -> outcome B;
  lb_begin : B -> It;
  lb_end : It;
  lb_lower_bound : B -> T -> bool -> outcome It;
  lb_good : B -> It -> bool;
  lb_deref : B -> It -> outcome T;
  lb_next : B -> It -> It;
  lb_eqb : It -> It -> bool }.

(** [lb_model b c]: [b] holds [c], oldest first; [lb_rest b c it rest]: from [it]
    on the iteration visits [rest].  [lb_searchable] is what [lower_bound] needs
    of the contents, [lb_finds_older] whether it answers a key before the oldest
    element with that element or with [end()]. *)
Class LatencyBufferLaws (T B It : Type) `{ReadoutType T} `{!LatencyBuffer T B It} := {
  lb_model : B -> list T -> Prop;
  lb_rest : B -> list T -> It -> list T -> Prop;
  lb_searchable : bool -> list T -> Prop;
  lb_finds_older : bool;
  lb_occupancy_spec b c : lb_model b c -> lb_occupancy b = Z.of_nat (length c);
  lb_length b c : lb_model b c -> Z.of_nat (length c) <= INT_MAX;
  lb_front_spec b c : lb_model b c -> lb_front b = Ret (head c);
  lb_back_spec b c : lb_model b c -> lb_back b = Ret (last c);
  lb_begin_spec b c : lb_model b c -> lb_rest b c (lb_begin b) c;
  lb_good_spec b c it rest : lb_rest b c it rest -> lb_good b it = bool_decide (rest <> []);
  lb_step_spec b c it x rest :
    lb_rest b c it (x :: rest) -> lb_deref b it = Ret x /\ lb_rest b c (lb_next b it) rest;
  lb_done_spec b c it : lb_rest b c it [] -> lb_deref b it = Undefined;
  lb_eqb_spec b c it1 it2 rest1 rest2 :
    lb_rest b c it1 rest1 -> lb_rest b c it2 rest2 -> rest2 <> [] ->
    lb_eqb it1 it2 = bool_decide (length rest1 = length rest2);
  lb_end_spec b c it rest : lb_rest b c it rest -> rest <> [] -> lb_eqb it lb_end = false;
  lb_searchable_increasing e c : lb_searchable e c -> increasing c;
  lb_lower_bound_spec b c key e :
    lb_model b c -> lb_searchable e c -> c <> [] ->
    exists it, lb_lower_bound b key e = Ret it
      /\ lb_rest b c it (if lb_finds_older then from_timestamp (get_timestamp key) c
                         else search_queue (get_timestamp key) c) }.
#[export] Hint Mode LatencyBufferLaws ! ! ! - - : typeclass_instances.

(** Buffers whose [pop] removes the oldest elements, and whose [write] adds a
    newest one unless the buffer is full. *)
Class FifoLaws (T B It : Type) `{LatencyBufferLaws T B It} := {
  lb_room : B -> nat;
  lb_pop_spec b c (n : nat) : lb_model b c -> (n <= length c)%nat ->
    exists b', lb_pop (Z.of_nat n) b = Ret b' /\ lb_model b' (drop n c);
  lb_write_spec b c x : lb_model b c ->
    if decide (length c < lb_room b)%nat
    then exists b', lb_write x b = Ret (true, b') /\ lb_model b' (c ++ [x]) /\ lb_room b' = lb_room b
    else exists b', lb_write x b = Ret (false, b') /\ lb_model b' c /\ lb_room b' = lb_room b }.

Section collect.
Context {T B It : Type} `{LB : LatencyBuffer T B It}.

(** The elements visited by [for (; it.good(); ++it)]. *)
Fixpoint lb_collect (fuel : nat) (b : B) (it : It) : outcome (list T) :=
  if lb_good b it then
    match fuel with
    | O => OutOfFuel
    | S fuel =>
        x ← lb_deref b it;
        l ← lb_collect fuel b (lb_next b it);
        Ret (x :: l)
    end
  else Ret [].
End collect.

Lemma lb_collect_rest `{Laws : LatencyBufferLaws T B It} (fuel : nat) b c it rest :
  lb_rest b c it rest -> (length rest <= fuel)%nat -> lb_collect fuel b it = Ret rest.
Proof.
  revert it rest. induction fuel as [|fuel IH]; intros it rest Hr Hf; cbn [lb_collect];
    rewrite (lb_good_spec b c it rest Hr); destruct rest as [|x rest]; cbn in Hf; try done; try lia.
  rewrite bool_decide_true by done.
  apply lb_step_spec in Hr as [-> Hr]. outcome. rewrite (IH _ rest Hr) by lia. done.
Qed.

Section search.
Context `{ReadoutLaws T}.
Implicit Types (c : list T).

Lemma from_timestamp_suffix t c : exists j, (j <= length c)%nat /\ from_timestamp t c = drop j c.
Proof.
  induction c as [|x c (j & Hj & E)]; [by exists 0%nat|]. cbn.
  destruct (_ <? _).
  - exists (S j). split; [lia|done].
  - exists 0%nat. split; [lia|done].
Qed.

Lemma from_timestamp_all t c x : head c = Some x -> t <= get_timestamp x -> from_timestamp t c = c.
Proof.
  destruct c as [|y c]; [done|]. intros [= ->] Ht. cbn.
  destruct (Z.ltb_spec (get_timestamp x) t); [lia|done].
Qed.
Lemma from_timestamp_split t c :
  exists c1, c = c1 ++ from_timestamp t c /\ forall x, x ∈ c1 -> get_timestamp x < t.
Proof.
  induction c as [|x c (c1 & E & Hc1)]; cbn.
  { exists []. split; [done|]. by intros y ?%elem_of_nil. }
  destruct (Z.ltb_spec (get_timestamp x) t).
  - exists (x :: c1). split; [by rewrite E at 1|]. intros y [->|Hy]%elem_of_cons; auto.
  - exists []. split; [done|]. by intros y ?%elem_of_nil.
Qed.

Lemma from_timestamp_nonempty t c x : x ∈ c -> t <= get_timestamp x -> from_timestamp t c <> [].
Proof.
  intros Hx Ht E. destruct (from_timestamp_split t c) as (c1 & Hc & Hc1).
  rewrite E, app_nil_r in Hc. subst c1. specialize (Hc1 x Hx). lia.
Qed.
End search.
