(* ===== verification/BinarySearchQueue.v ===== *)
(** models/BinarySearchQueueModel.hpp and models/detail/BinarySearchQueueModel.hxx:
    [lower_bound] by bisection over the ring of IterableQueue.v, and the ring as
    an instance of the latency buffer contract. *)
From S2P Require Import Prelude IterableQueue ReadoutTypes LatencyBuffer.

Section search.
Context `{ReadoutType T}.
Implicit Types (q : queue T) (element : T).

(** The [while (true)] of [lower_bound]. *)
Fixpoint search_loop (fuel : nat) q element (start_index end_index : Z) : outcome Z :=
  match fuel with
  | O => OutOfFuel
  | S fuel =>
      let diff := if start_index <=? end_index then u32 (end_index - start_index)
                  else u32 (u32 (size_ q + end_index) - start_index) in
      let middle_index := u32 (start_index + u32 (diff + 1) / 2) in
      let middle_index := if size_ q <=? middle_index then u32 (middle_index - size_ q)
                          else middle_index in
      element_between ← slot_read (records_ q) middle_index;
      if get_timestamp element =? get_timestamp element_between then Ret middle_index
      else if diff =? 0 then
        if element_lt element element_between then Ret middle_index
        else
          let middle_index := u32 (middle_index + 1) in
          Ret (if size_ q <=? middle_index then u32 (middle_index - size_ q) else middle_index)
      else if element_lt element element_between then
        search_loop fuel q element start_index
          (if negb (middle_index =? 0) then u32 (middle_index - 1) else u32 (size_ q - 1))
      else search_loop fuel q element middle_index end_index
  end.

(** Each turn halves the distance, so the logarithm of the size bounds the turns. *)
Definition search_fuel (n : Z) : nat := (2 + Nat.log2 (Z.to_nat n))%nat.

(** The second argument of [lower_bound] is not used. *)
Definition lower_bound q element (_ : bool) : outcome Z :=
  let start_index := readIndex_ q in
  let end_index := writeIndex_ q in
  if start_index =? end_index then Ret iter_end
  else
    let end_index := if end_index =? 0 then u32 (size_ q - 1) else u32 (end_index - 1) in
    left_element ← slot_read (records_ q) start_index;
    if element_lt element left_element then Ret iter_end
    else search_loop (search_fuel (size_ q)) q element start_index end_index.
End search.

Section correct.
Context `{ReadoutLaws T} `{!TimestampOrder T}.
Implicit Types (q : queue T) (c : list T) (key : T).

Lemma prev_wrap (n r i : nat) :
  Z.of_nat n <= INT_MAX -> (r < n)%nat -> (1 <= i < n)%nat ->
  (if Z.of_nat (wrap n (r + i)) =? 0 then u32 (Z.of_nat n - 1)
   else u32 (Z.of_nat (wrap n (r + i)) - 1)) = Z.of_nat (wrap n (r + (i - 1))).
Proof.
  unfold INT_MAX. intros Hn Hr Hi. pose proof (wrap_lt n (r + i) ltac:(lia)).
  destruct (Z.eqb_spec (Z.of_nat (wrap n (r + i))) 0); machine; wrap_lia.
Qed.

Lemma iter_rest_at q c k l r (j : nat) :
  repr_at q c k l r -> (j <= length c)%nat ->
  iter_rest q c (Z.of_nat (wrap (length l) (r + j))) (drop j c).
Proof.
  intros Hq Hj. destruct (decide (j < length c)%nat).
  - left. by exists k, l, r, j.
  - right. split; [by exists k, l, r|]. pose proof Hq as [].
    rewrite (iter_good_at q c k l r j), bool_decide_false by (done || lia).
    by rewrite drop_ge by lia.
Qed.

(** Equal indices, the second of them good, are equal positions. *)
Lemma iter_rest_eqb q c it1 it2 rest1 rest2 :
  iter_rest q c it1 rest1 -> iter_rest q c it2 rest2 -> rest2 <> [] ->
  (it1 =? it2) = bool_decide (length rest1 = length rest2).
Proof.
  intros H1 H2 Hne. pose proof (iter_rest_good q c it1 rest1 H1) as Hg1.
  pose proof (iter_rest_good q c it2 rest2 H2) as Hg2.
  rewrite (bool_decide_true (rest2 <> [])) in Hg2 by done.
  destruct H2 as [(k & l & r & j2 & Hq & Hj2 & -> & ->)|(_ & Hg & _)]; [|congruence].
  destruct H1 as [(k' & l' & r' & j1 & Hq' & Hj1 & -> & ->)|(_ & Hg & ->)].
  - pose proof Hq as [Hrec Hsz _ Hrd Hlt Hroom _ _].
    pose proof Hq' as [Hrec' _ _ Hrd' _ _ _ _]. rewrite Hrec in Hrec'. injection Hrec' as <- <-.
    assert (r' = r) as -> by lia. rewrite !length_drop. apply eq_bool_prop_intro.
    rewrite bool_decide_spec, Is_true_true, Z.eqb_eq. split.
    + intros E. apply Nat2Z.inj, wrap_inj in E; lia.
    + intros E. by assert (j1 = j2) as -> by lia.
  - rewrite bool_decide_false.
    + apply Z.eqb_neq. intros E. rewrite E in Hg. congruence.
    + rewrite length_drop. cbn. lia.
Qed.

(** Between the positions [a] and [b] of increasing elements that can be read from slot
    [r] on, with the key not before [a] and before everything after [b], the loop finds
    the lower bound. *)
Lemma search_loop_reads q c (n r : nat) key (fuel a b : nat) :
  size_ q = Z.of_nat n -> Z.of_nat n <= INT_MAX -> (r < n)%nat -> (length c < n)%nat ->
  (forall j x, c !! j = Some x -> slot_read (records_ q) (Z.of_nat (wrap n (r + j))) = Ret x) ->
  increasing c ->
  (a <= b < length c)%nat -> (2 + Nat.log2 (b - a) <= fuel)%nat \/ (a = b /\ 1 <= fuel)%nat ->
  (forall x, c !! a = Some x -> get_timestamp x <= get_timestamp key) ->
  (forall j x, (b < j)%nat -> c !! j = Some x -> get_timestamp key < get_timestamp x) ->
  exists j, search_loop fuel q key (Z.of_nat (wrap n (r + a)))
      (Z.of_nat (wrap n (r + b))) = Ret (Z.of_nat (wrap n (r + j)))
    /\ (j <= length c)%nat /\ from_timestamp (get_timestamp key) c = drop j c.
Proof.
  intros Hsz Hrng Hlt Hroom Hread Hc. unfold INT_MAX in *.
  revert a b. induction fuel as [|fuel IH]; intros a b Hab Hfuel Ha Hb; [lia|].
  pose proof (wrap_lt n (r + a) ltac:(lia)) as Hwa.
  pose proof (wrap_lt n (r + b) ltac:(lia)) as Hwb.
  cbn [search_loop]. set (m := (a + (b - a + 1) / 2)%nat).
  assert (Hm : (a <= m <= b)%nat).
  { unfold m. pose proof (Nat.div_mod_eq (b - a + 1) 2).
    pose proof (Nat.mod_upper_bound (b - a + 1) 2). lia. }
  set (diff := if Z.of_nat (wrap n (r + a)) <=? Z.of_nat (wrap n (r + b)) then _ else _).
  assert (Ediff : diff = Z.of_nat (b - a)).
  { unfold diff. rewrite Hsz.
    destruct (Z.leb_spec (Z.of_nat (wrap n (r + a))) (Z.of_nat (wrap n (r + b))));
      machine; wrap_lia. }
  rewrite Ediff. clear diff Ediff.
  rewrite (u32_small (Z.of_nat (b - a) + 1)) by lia.
  replace ((Z.of_nat (b - a) + 1) / 2) with (Z.of_nat (m - a)).
  2:{ unfold m. replace (a + (b - a + 1) / 2 - a)%nat with ((b - a + 1) / 2)%nat by lia.
      rewrite Nat2Z.inj_div. f_equal. lia. }
  machine. rewrite Hsz.
  replace (if Z.of_nat n <=? _ then _ else _) with (Z.of_nat (wrap n (r + m))).
  2:{ destruct (Z.leb_spec (Z.of_nat n) (Z.of_nat (wrap n (r + a)) + Z.of_nat (m - a)));
      machine; wrap_lia. }
  destruct (lookup_lt_is_Some_2 c m ltac:(lia)) as [x Hx].
  rewrite (Hread m x Hx). outcome.
  pose proof (wrap_lt n (r + m) ltac:(lia)) as Hwm.
  destruct (Z.eqb_spec (get_timestamp key) (get_timestamp x)) as [Et|Et].
  { exists m. split; [done|]. split; [lia|]. apply from_timestamp_drop.
    - intros i y Hy Hi. pose proof (Hc i m y x Hy Hx Hi). lia.
    - intros y. rewrite Hx. intros [= <-]. lia. }
  destruct (Z.eqb_spec (Z.of_nat (b - a)) 0) as [Ed|Ed].
  { assert (m = a) by lia. subst m.
    replace (a + (b - a + 1) / 2)%nat with a in * by lia.
    specialize (Ha x Hx). rewrite element_lt_timestamp.
    destruct (Z.ltb_spec (get_timestamp key) (get_timestamp x)); [lia|].
    exists (S a). split; [|split; [lia|]].
    - f_equal. machine.
      destruct (Z.leb_spec (Z.of_nat n) (Z.of_nat (wrap n (r + a)) + 1));
        machine; wrap_lia.
    - apply from_timestamp_drop.
      + intros i y Hy Hi. destruct (decide (i = a)) as [->|]; [congruence || (rewrite Hx in Hy; injection Hy as <-; lia)|].
        pose proof (Hc i a y x Hy Hx ltac:(lia)). lia.
      + intros y Hy. pose proof (Hb (S a) y ltac:(lia) Hy). lia. }
  assert (Hlog : (b - a <= 1 \/ Nat.log2 ((b - a) / 2) < Nat.log2 (b - a))%nat).
  { destruct (decide (b - a <= 1)%nat); [by left|right].
    pose proof (Nat.log2_double ((b - a) / 2)) as Hd.
    assert (0 < (b - a) / 2)%nat by (apply Nat.div_str_pos; lia).
    pose proof (Nat.log2_le_mono (2 * ((b - a) / 2)) (b - a)) as Hle.
    pose proof (Nat.Div0.mul_div_le (b - a) 2). lia. }
  assert (Hm1 : (m - 1 - a <= (b - a) / 2 /\ b - m <= (b - a) / 2)%nat).
  { unfold m. pose proof (Nat.div_mod_eq (b - a + 1) 2). pose proof (Nat.div_mod_eq (b - a) 2).
    pose proof (Nat.mod_upper_bound (b - a + 1) 2). pose proof (Nat.mod_upper_bound (b - a) 2). lia. }
  assert (Hm2 : (a < m)%nat).
  { unfold m. assert (0 < (b - a + 1) / 2)%nat by (apply Nat.div_str_pos; lia). lia. }
  assert (Hnext : forall a' b', (a' <= b')%nat -> (b' - a' <= (b - a) / 2)%nat ->
      (2 + Nat.log2 (b' - a') <= fuel)%nat \/ (a' = b' /\ 1 <= fuel)%nat).
  { intros a' b' Ha' Hle. destruct Hlog as [H1|H1].
    - right. assert ((b - a) / 2 = 0)%nat by (apply Nat.div_small; lia). lia.
    - left. pose proof (Nat.log2_le_mono _ _ Hle). lia. }
  rewrite element_lt_timestamp.
  destruct (Z.ltb_spec (get_timestamp key) (get_timestamp x)) as [Hl|Hl].
  - replace (if negb _ then _ else _) with (Z.of_nat (wrap n (r + (m - 1)))).
    2:{ rewrite <- prev_wrap by (unfold INT_MAX; lia).
        destruct (_ =? _); cbn [negb]; [by machine|done]. }
    apply IH; [lia|apply Hnext; lia|done|].
    intros j y Hj Hy. destruct (decide (j = m)) as [->|].
    { rewrite Hx in Hy. by injection Hy as <-. }
    pose proof (Hc m j x y Hx Hy ltac:(lia)). lia.
  - apply IH; [lia|apply Hnext; lia| |done].
    intros y. rewrite Hx. intros [= <-]. lia.
Qed.

Lemma search_loop_ring q c k l r key (fuel a b : nat) :
  repr_at q c k l r -> increasing c ->
  (a <= b < length c)%nat -> (2 + Nat.log2 (b - a) <= fuel)%nat \/ (a = b /\ 1 <= fuel)%nat ->
  (forall x, c !! a = Some x -> get_timestamp x <= get_timestamp key) ->
  (forall j x, (b < j)%nat -> c !! j = Some x -> get_timestamp key < get_timestamp x) ->
  exists j, search_loop fuel q key (Z.of_nat (wrap (length l) (r + a)))
      (Z.of_nat (wrap (length l) (r + b))) = Ret (Z.of_nat (wrap (length l) (r + j)))
    /\ (j <= length c)%nat /\ from_timestamp (get_timestamp key) c = drop j c.
Proof.
  intros [Hrec Hsz Hrng Hrd Hlt Hroom Hwr Hslots] Hc. apply search_loop_reads; try done; [lia|].
  intros j x Hj. rewrite Hrec. apply slot_read_Block. eapply ring_lookup; [done|lia|done].
Qed.

(** On an increasing ring [lower_bound] ends, and the iterator it returns
    visits exactly the elements from the key on. *)
Lemma lower_bound_repr q c key e :
  repr q c -> increasing c ->
  exists it, lower_bound q key e = Ret it
    /\ iter_rest q c it (search_queue (get_timestamp key) c).
Proof.
  intros Hq Hc. pose proof (isEmpty_repr q c Hq) as He. unfold isEmpty in He.
  unfold lower_bound. rewrite He. destruct c as [|x c].
  { rewrite bool_decide_true by done. exists iter_end. split; [done|]. by right. }
  rewrite bool_decide_false by done.
  destruct Hq as (k & l & r & Hq). pose proof Hq as [Hrec Hsz Hrng Hrd Hlt Hroom Hwr Hslots].
  unfold INT_MAX in *.
  rewrite Hrd, Hrec, (slot_read_Block _ _ _ x) by (by rewrite (ring_head l r (x :: c))). outcome.
  cbn [search_queue]. rewrite element_lt_timestamp.
  destruct (Z.ltb_spec (get_timestamp key) (get_timestamp x)) as [Hk|Hk].
  { exists iter_end. split; [done|]. right. split; [by exists k, l, r|done]. }
  pose proof (wrap_lt (length l) (r + length (x :: c)) ltac:(lia)) as Hw. rewrite Hwr.
  replace (if _ =? 0 then _ else _) with (Z.of_nat (wrap (length l) (r + length c))).
  2:{ rewrite Hsz, prev_wrap by (unfold INT_MAX; cbn [length] in *; lia).
      by rewrite Nat.sub_1_r. }
  replace (Z.of_nat r) with (Z.of_nat (wrap (length l) (r + 0))) by (by rewrite Nat.add_0_r, wrap_small).
  destruct (search_loop_ring q (x :: c) k l r key (search_fuel (size_ q)) 0 (length c))
    as (j & Hs & Hj & Hfrom); try done.
  - cbn. lia.
  - left. unfold search_fuel. rewrite Hsz, Nat2Z.id. cbn [length] in Hroom.
    pose proof (Nat.log2_le_mono (length c - 0) (length l)). lia.
  - intros y [= <-]. done.
  - intros i y Hi Hy. apply lookup_lt_Some in Hy. cbn in Hy. lia.
  - eexists. split; [exact Hs|]. rewrite Hfrom. by eapply iter_rest_at.
Qed.

(** A key before the oldest element is answered with [end()], *)
Lemma lower_bound_before q x c key e :
  repr q (x :: c) -> get_timestamp key < get_timestamp x -> lower_bound q key e = Ret iter_end.
Proof.
  intros Hq Hk. pose proof (isEmpty_repr q _ Hq) as He. unfold isEmpty in He.
  unfold lower_bound. rewrite He, bool_decide_false by done.
  destruct Hq as (k & l & r & []). rewrite repr_read, repr_records,
    (slot_read_Block _ _ _ x) by (by rewrite (ring_head l r (x :: c))). outcome.
  rewrite element_lt_timestamp. destruct (Z.ltb_spec (get_timestamp key) (get_timestamp x)); [done|lia].
Qed.

(** which must not be dereferenced. *)
Lemma slot_read_end q c : repr q c -> slot_read (records_ q) iter_end = Undefined.
Proof.
  intros (k & l & r & []). rewrite repr_records. unfold iter_end, UINT32_MAX, INT_MAX in *.
  cbn [slot_read]. rewrite lookup_ge_None_2 by lia. by destruct (_ <? _).
Qed.
End correct.

(** ** The ring as a latency buffer, for any [lower_bound] *)
Section buffer.
Context {T : Type} `{ReadoutLaws T} `{!TimestampOrder T} (p : platform).
Implicit Types (q : queue T) (c : list T).

Definition queue_buffer (search : queue T -> T -> bool -> outcome Z)
    : LatencyBuffer T (queue T) Z := {|
  lb_occupancy := occupancy;
  lb_write x q := write q x;
  lb_front q := deref_slot q (front q);
  lb_back q := deref_slot q (back q);
  lb_pop := pop p;
  lb_flush := flush p;
  lb_begin := iter_begin;
  lb_end := iter_end;
  lb_lower_bound := search;
  lb_good := iter_good;
  lb_deref := iter_deref;
  lb_next := iter_next;
  lb_eqb := Z.eqb |}.

(** All the laws but the search come from the ring. *)
Definition queue_laws search (searchable : bool -> list T -> Prop)
    (Hincr : forall e c, searchable e c -> increasing c)
    (Hsearch : forall q c key e, repr q c -> searchable e c -> c <> [] ->
       exists it, search q key e = Ret it /\ iter_rest q c it (search_queue (get_timestamp key) c))
    : LatencyBufferLaws T (queue T) Z (LatencyBuffer0 := queue_buffer search).
Proof.
  refine (Build_LatencyBufferLaws T (queue T) Z _ (queue_buffer search) repr iter_rest
            searchable false _ _ _ _ _ _ _ _ _ _ _ _); cbn.
  - apply occupancy_repr.
  - intros q c Hq. pose proof (repr_length q c Hq). destruct Hq as (k & l & r & []). lia.
  - apply front_repr.
  - apply back_repr.
  - apply iter_begin_rest.
  - apply iter_rest_good.
  - apply iter_rest_cons.
  - intros q c it [(k & l & r & j & Hq & Hj & _ & E)|(Hq & Hbad & _)]; [|by apply (iter_deref_bad q c)].
    apply (f_equal length) in E. rewrite length_drop in E. cbn in E. lia.
  - apply iter_rest_eqb.
  - intros q c it rest Hr Hne. apply Z.eqb_neq. intros ->.
    pose proof (iter_rest_good q c _ rest Hr) as Hg. rewrite iter_good_end in Hg.
    by rewrite bool_decide_true in Hg.
  - apply Hincr.
  - apply Hsearch.
Defined.

Definition queue_fifo search searchable Hincr Hsearch :
  FifoLaws T (queue T) Z (H0 := queue_laws search searchable Hincr Hsearch).
Proof.
  refine (Build_FifoLaws T (queue T) Z _ _ (queue_laws search searchable Hincr Hsearch)
            (fun q => Z.to_nat (size_ q - 1)) _ _); cbn.
  - intros q c n Hq Hn. unfold pop. rewrite Nat2Z.id.
    destruct (pop_loop_le p n q c Hq Hn) as (q' & -> & Hq' & _). by exists q'.
  - intros q c x Hq. pose proof (repr_length q c Hq). case_decide.
    + destruct (write_room q c x Hq) as (q' & -> & Hq' & Hs & _); [lia|].
      exists q'. rewrite Hs. done.
    + destruct (write_full q c x Hq) as [-> Hq']; [lia|]. by eexists.
Defined.

Definition binary_search_buffer : LatencyBuffer T (queue T) Z := queue_buffer lower_bound.

#[export] Instance binary_search_laws :
  LatencyBufferLaws T (queue T) Z (LatencyBuffer0 := binary_search_buffer).
Proof.
  refine (queue_laws lower_bound (fun _ => increasing) _ _).
  - done.
  - intros q c key e Hq Hc _. by apply lower_bound_repr.
Defined.
End buffer.

(** ** Properties *)

(** C20: on a ring whose timestamps increase, [lower_bound] always returns (the
    bisection takes at most [2 + log2 size_] turns); its iterator visits exactly
    the elements whose timestamp is at least the key's, oldest first, and is
    [end()] for an empty ring and for a key before the oldest element. *)
Theorem lower_bound_correct `{ReadoutLaws T} `{!TimestampOrder T} (q : queue T) (c : list T) (key : T) (e : bool) :
  repr q c -> increasing c ->
  exists it, lower_bound q key e = Ret it
    /\ (match head c with
        | Some oldest => if get_timestamp key <? get_timestamp oldest then it = iter_end
            else iter_collect q (length c) it
                 = Ret (filter (fun x => get_timestamp key <= get_timestamp x) c)
        | None => it = iter_end
        end).
Proof.
  intros Hq Hc. destruct (lower_bound_repr q c key e Hq Hc) as (it & Hit & Hrest).
  exists it. split; [done|]. destruct c as [|x c]; cbn [head search_queue] in *.
  - unfold lower_bound in Hit. pose proof (isEmpty_repr q [] Hq) as He. unfold isEmpty in He.
    rewrite He in Hit. by injection Hit as <-.
  - destruct (_ <? _) eqn:Hlt.
    + unfold lower_bound in Hit. pose proof (isEmpty_repr q _ Hq) as He. unfold isEmpty in He.
      rewrite He in Hit. rewrite bool_decide_false in Hit by done.
      apply bind_Ret_inv in Hit as (y & Hy & Hit).
      pose proof (front_repr q _ Hq) as Hf. unfold front in Hf. rewrite He in Hf.
      rewrite bool_decide_false in Hf by done. cbn [deref_slot] in Hf.
      rewrite Hy in Hf. injection Hf as ->. rewrite element_lt_timestamp, Hlt in Hit.
      by injection Hit as <-.
    + rewrite <- from_timestamp_filter by done.
      apply (iter_collect_rest q (x :: c)); [done|].
      destruct (from_timestamp_suffix (get_timestamp key) (x :: c)) as (j & _ & ->).
      rewrite length_drop. lia.
Qed.

Import Chunk.

Lemma sample_repr : repr (ring_of 4 sample) sample.
Proof. apply ring_of_repr; cbn; unfold INT_MAX; lia. Qed.

Lemma lower_bound_correct_witness :
  let q := ring_of 4 sample in
  exists it, lower_bound q (mkChunk 110) false = Ret it
    /\ iter_collect q 3 it = Ret [mkChunk 120; mkChunk 140].
Proof.
  exact (lower_bound_correct (ring_of 4 sample) sample (mkChunk 110) false sample_repr
           sample_increasing).
Defined.
