(* ===== verification/FixedRateQueue.v ===== *)
(** models/FixedRateQueueModel.hpp and models/detail/FixedRateQueueModel.hxx:
    [lower_bound] computed from the oldest timestamp, and its agreement with the
    bisection of BinarySearchQueue.v. *)
From S2P Require Import Prelude IterableQueue ReadoutTypes LatencyBuffer BinarySearchQueue.

Section lower_bound.
Context `{ReadoutType T}.

(** [last_ts], [n_frames] are read from the oldest slot, which must hold an
    element; the index computations are unsigned, as declared. *)
Definition fixed_lower_bound (q : queue T) (element : T) (with_errors : bool) : outcome Z :=
  if with_errors then lower_bound q element with_errors
  else
    let timestamp := get_timestamp element in
    let start_index := readIndex_ q in
    let occupancy_guess := occupancy q in
    oldest ← slot_read (records_ q) start_index;
    let last_ts := get_timestamp oldest in
    let n_frames := get_num_frames oldest in
    let tick := expected_tick_difference T in
    let newest_ts := u64 (last_ts + u64 (u64 (occupancy_guess * tick) * n_frames)) in
    if (timestamp <? last_ts) || (newest_ts <? timestamp) then Ret iter_end
    else
      let time_tick_diff := i64 (u64 (timestamp - last_ts)) in
      let num_element_offset := u32 (u64 time_tick_diff / tick / n_frames) in
      let target_index := u32 (start_index + num_element_offset) in
      let target_index :=
        if negb (u64 time_tick_diff mod u64 (tick * n_frames) =? 0) then u32 (target_index + 1)
        else target_index in
      Ret (if size_ q <=? target_index then u32 (target_index - size_ q) else target_index).
End lower_bound.

Section correct.
Context `{ReadoutLaws T} `{!TimestampOrder T}.
Implicit Types (q : queue T) (c : list T) (key : T).

(** The number of whole elements, rounded up, in [d] ticks. *)
Lemma round_up_bounds (d e : Z) :
  0 <= d -> 1 <= e ->
  exists n, n = (if negb (d mod e =? 0) then d / e + 1 else d / e)
    /\ 0 <= n /\ d <= n * e /\ (n - 1) * e < d.
Proof.
  intros Hd He. eexists; split; [reflexivity|].
  pose proof (Z.div_mod d e). pose proof (Z.mod_pos_bound d e). pose proof (Z.div_pos d e).
  destruct (Z.eqb_spec (d mod e) 0); cbn [negb]; nia.
Qed.

(** In a regular buffer the lower bound of a key is [n] elements on. *)
Lemma from_timestamp_regular c x t (n : nat) :
  equally_spaced (x :: c) ->
  t - get_timestamp x <= Z.of_nat n * element_ticks T ->
  (Z.of_nat n - 1) * element_ticks T < t - get_timestamp x ->
  from_timestamp t (x :: c) = drop n (x :: c).
Proof.
  intros Hc Hle Hlt. pose proof (element_ticks_bounds (T:=T)). apply from_timestamp_drop.
  - intros i y Hy Hi. rewrite (Hc i y x Hy eq_refl). nia.
  - intros y Hy. rewrite (Hc n y x Hy eq_refl). lia.
Qed.

Lemma index_of_offset (n r j : nat) :
  Z.of_nat n <= INT_MAX -> (r < n)%nat -> (j < n)%nat ->
  (if Z.of_nat n <=? Z.of_nat r + Z.of_nat j then u32 (Z.of_nat r + Z.of_nat j - Z.of_nat n)
   else Z.of_nat r + Z.of_nat j) = Z.of_nat (wrap n (r + j)).
Proof.
  unfold INT_MAX. intros. destruct (Z.leb_spec (Z.of_nat n) (Z.of_nat r + Z.of_nat j));
    machine; wrap_lia.
Qed.

Lemma fixed_lower_bound_repr q c key (e : bool) :
  repr q c -> (if e then increasing c else regular c) -> c <> [] ->
  exists it, fixed_lower_bound q key e = Ret it
    /\ iter_rest q c it (search_queue (get_timestamp key) c).
Proof.
  intros Hq Hc Hne. unfold fixed_lower_bound. destruct e; [by apply lower_bound_repr|].
  destruct Hc as [Hc Hw]. destruct c as [|x c]; [done|].
  rewrite (occupancy_repr q (x :: c)) by done.
  destruct Hq as (k & l & r & Hq). pose proof Hq as [Hrec Hsz Hrng Hrd Hlt Hroom Hwr Hslots].
  unfold INT_MAX in *. rewrite Hrd, Hrec, (slot_read_Block _ _ _ x), Hsz
    by (by rewrite (ring_head l r (x :: c))). outcome.
  rewrite (num_frames_const x).
  pose proof (element_ticks_bounds (T:=T)) as He. pose proof (num_frames_pos (T:=T)).
  pose proof (tick_pos (T:=T)). pose proof (timestamp_range x). pose proof (timestamp_range key).
  destruct (last (x :: c)) as [y|] eqn:Hy; [|by apply last_None in Hy].
  specialize (Hw y Hy). rewrite last_lookup in Hy. cbn [length pred] in Hy.
  rewrite (Hc _ _ _ Hy eq_refl) in Hw.
  assert (Hprod : Z.of_nat (length (x :: c)) * element_ticks T <= UINT64_MAX - get_timestamp x)
    by (cbn [length]; lia).
  unfold element_ticks, UINT64_MAX in *.
  set (nf := get_num_frames (default_element T)) in *. set (tick := expected_tick_difference T) in *.
  set (n := Z.of_nat (length (x :: c))) in *.
  assert (0 <= n * tick <= n * (nf * tick)) by nia.
  rewrite (u64_small (n * tick)) by lia.
  replace (n * tick * nf) with (n * (nf * tick)) by lia. machine.
  cbn [search_queue].
  destruct (Z.ltb_spec (get_timestamp key) (get_timestamp x)) as [Hk|Hk]; cbn [orb].
  { exists iter_end. split; [done|]. right. split; [by exists k, l, r|done]. }
  destruct (Z.ltb_spec (get_timestamp x + n * (nf * tick)) (get_timestamp key)) as [Hn|Hn].
  { exists iter_end. split; [done|]. right. split; [by exists k, l, r|]. split; [done|].
    rewrite (from_timestamp_drop _ _ (length (x :: c))); [by rewrite drop_all| |].
    - intros i z Hz Hi. rewrite (Hc i z x Hz eq_refl). unfold element_ticks.
      subst n. fold nf tick. nia.
    - intros z Hz. apply lookup_lt_Some in Hz. lia. }
  set (d := get_timestamp key - get_timestamp x) in *.
  assert (Hi64 : u64 (i64 (u64 d)) = d).
  { rewrite (u64_small d) by lia. unfold u64, i64.
    destruct (Z.lt_decidable d 9223372036854775808).
    - rewrite (Z.mod_small (d + _)) by lia. rewrite Z.mod_small; lia.
    - replace (d + 9223372036854775808)
        with (d - 9223372036854775808 + 1 * 18446744073709551616) by lia.
      rewrite Z.mod_add, (Z.mod_small (d - _)) by lia.
      replace (d - 9223372036854775808 - 9223372036854775808)
        with (d + (-1) * 18446744073709551616) by lia.
      rewrite Z.mod_add by lia. apply Z.mod_small. lia. }
  rewrite Hi64.
  rewrite Z.div_div by lia. replace (tick * nf) with (nf * tick) by lia.
  destruct (round_up_bounds d (nf * tick)) as (m & Hm & Hm0 & Hm1 & Hm2); [lia|lia|].
  assert (Hmn : m <= n) by (apply Z.nlt_ge; nia).
  assert (Hdm : 0 <= d / (nf * tick) <= m).
  { split; [apply Z.div_pos; lia|]. destruct (negb _); lia. }
  assert (n < Z.of_nat (length l)) by lia.
  machine. eexists; split; [|].
  - replace (if negb _ then _ else _) with (Z.of_nat r + Z.of_nat (Z.to_nat m)).
    + rewrite index_of_offset by (unfold INT_MAX; lia). reflexivity.
    + rewrite Z2Nat.id, Hm by lia. destruct (negb _); [|done]. machine. lia.
  - rewrite (from_timestamp_regular c x _ (Z.to_nat m)); [|done|..];
      [apply (iter_rest_at q (x :: c) k l r); [done|lia]| |];
      unfold element_ticks; fold nf tick; rewrite Z2Nat.id by lia; lia.
Qed.
End correct.

Section buffer.
Context `{ReadoutLaws T} `{!TimestampOrder T} (p : platform).

Definition fixed_rate_buffer : LatencyBuffer T (queue T) Z := queue_buffer p fixed_lower_bound.

#[export] Instance fixed_rate_laws :
  LatencyBufferLaws T (queue T) Z (LatencyBuffer0 := fixed_rate_buffer).
Proof.
  refine (queue_laws p fixed_lower_bound (fun (e : bool) c => if e then increasing c else regular c) _ _).
  - intros [] c Hc; [done|]. apply equally_spaced_increasing, Hc.
  - intros q c key e Hq Hc Hne. by apply fixed_lower_bound_repr.
Defined.
End buffer.

(** ** Properties *)

(** C22: on a buffer of consecutive elements that ends before the 64-bit
    timestamps do, the direct computation (with or without the error flag) and
    the bisection both return, with iterators that visit the same elements, for
    every key. *)
Theorem fixed_rate_agrees `{ReadoutLaws T} `{!TimestampOrder T} (q : queue T) (c : list T) (key : T) (e : bool) :
  repr q c -> regular c -> c <> [] ->
  exists it1 it2 rest, fixed_lower_bound q key e = Ret it1 /\ lower_bound q key e = Ret it2
    /\ iter_collect q (length c) it1 = Ret rest /\ iter_collect q (length c) it2 = Ret rest.
Proof.
  intros Hq Hc Hne. pose proof (equally_spaced_increasing c (proj1 Hc)) as Hi.
  destruct (fixed_lower_bound_repr q c key e Hq) as (it1 & H1 & R1); [by destruct e|done|].
  destruct (lower_bound_repr q c key e Hq Hi) as (it2 & H2 & R2).
  exists it1, it2, (search_queue (get_timestamp key) c).
  assert (length (search_queue (get_timestamp key) c) <= length c)%nat.
  { destruct c as [|x c]; [done|]. cbn [search_queue]. destruct (_ <? _); [cbn; lia|].
    destruct (from_timestamp_suffix (get_timestamp key) (x :: c)) as (j & _ & ->).
    rewrite length_drop. lia. }
  split_and!; [done|done|..]; by eapply iter_collect_rest.
Qed.

Import Chunk.

Lemma fixed_rate_agrees_witness :
  let q := ring_of 4 sample in
  exists it1 it2 rest, fixed_lower_bound q (mkChunk 110) false = Ret it1
    /\ lower_bound q (mkChunk 110) false = Ret it2
    /\ iter_collect q 3 it1 = Ret rest /\ iter_collect q 3 it2 = Ret rest.
Proof.
  refine (fixed_rate_agrees (ring_of 4 sample) sample (mkChunk 110) false sample_repr _ _).
  - split; [apply sample_spaced|]. intros x [= <-]. by vm_compute.
  - done.
Defined.
