(* ===== verification/SkipListBuffer.v ===== *)
(** models/SkipListLatencyBufferModel.hpp with its .hxx, and the cleanup of
    models/detail/DefaultSkipListRequestHandler.hxx, over folly's
    ConcurrentSkipList, of which only the documented interface is used. *)
From S2P Require Import Prelude ReadoutTypes LatencyBuffer.

(** ** folly::ConcurrentSkipList, as an interface

    [S] is the list's state, [N] its iterator.  A search for, and an iteration
    over, the elements goes by [operator<]; the list is an ordered set. *)
Class SkipList (T S N : Type) := {
  createInstance : Z -> S;
  sl_size : S -> Z;
  sl_insert : T -> S -> bool * S;
  sl_remove : T -> S -> bool * S;
  sl_pop_back : S -> bool * S;
  sl_first : S -> option T;
  sl_last : S -> option T;
  sl_begin : S -> N;
  sl_end : N;
  sl_lower_bound : S -> T -> N;
  sl_good : S -> N -> bool;
  sl_deref : S -> N -> option T;
  sl_next : S -> N -> N;
  sl_eqb : N -> N -> bool }.

Section ordered_set.
Context `{Less T}.

(** Insertion in, and removal from, a list in order: an equivalent element is the same key. *)
Fixpoint ordered_insert (x : T) (c : list T) : bool * list T :=
  match c with
  | [] => (true, [x])
  | y :: c' =>
      if element_lt x y then (true, x :: c)
      else if element_lt y x then let '(b, c'') := ordered_insert x c' in (b, y :: c'')
      else (false, c)
  end.

Definition ordered_remove (x : T) (c : list T) : bool * list T :=
  (existsb (equivalent x) c, filter (fun y => equivalent x y = false) c).
End ordered_set.

Class SkipListLaws (T S N : Type) `{Less T} `{!SkipList T S N} := {
  sl_model : S -> list T -> Prop;
  sl_rest : S -> list T -> N -> list T -> Prop;
  sl_ordered s c : sl_model s c -> ordered c;
  sl_create_spec h : sl_model (createInstance h) [];
  sl_size_spec s c : sl_model s c -> sl_size s = Z.of_nat (length c);
  sl_size_range s c : sl_model s c -> Z.of_nat (length c) <= INT_MAX;
  sl_insert_spec s c x : sl_model s c ->
    Z.of_nat (length (snd (ordered_insert x c))) <= INT_MAX ->
    fst (sl_insert x s) = fst (ordered_insert x c)
    /\ sl_model (snd (sl_insert x s)) (snd (ordered_insert x c));
  sl_remove_spec s c x : sl_model s c ->
    fst (sl_remove x s) = fst (ordered_remove x c)
    /\ sl_model (snd (sl_remove x s)) (snd (ordered_remove x c));
  sl_pop_back_spec s c : sl_model s c ->
    fst (sl_pop_back s) = negb (bool_decide (c = []))
    /\ sl_model (snd (sl_pop_back s)) (removelast c);
  sl_first_spec s c : sl_model s c -> sl_first s = head c;
  sl_last_spec s c : sl_model s c -> sl_last s = last c;
  sl_begin_spec s c : sl_model s c -> sl_rest s c (sl_begin s) c;
  sl_key_bound_spec s c x : sl_model s c -> sl_rest s c (sl_lower_bound s x) (from_key x c);
  sl_good_spec s c n rest : sl_rest s c n rest -> sl_good s n = bool_decide (rest <> []);
  sl_step_spec s c n x rest : sl_rest s c n (x :: rest) ->
    sl_deref s n = Some x /\ sl_rest s c (sl_next s n) rest;
  sl_eqb_spec s c n1 n2 rest1 rest2 :
    sl_rest s c n1 rest1 -> sl_rest s c n2 rest2 -> rest2 <> [] ->
    sl_eqb n1 n2 = bool_decide (length rest1 = length rest2);
  sl_end_spec s c n rest : sl_rest s c n rest -> rest <> [] -> sl_eqb n sl_end = false;
  sl_done_spec s c n : sl_rest s c n [] -> sl_eqb n sl_end = true;
  sl_null_spec s c n : sl_rest s c n [] -> sl_deref s n = None }.
#[export] Hint Mode SkipListLaws ! ! ! - - : typeclass_instances.

(** What they say of elements ordered by timestamp alone. *)
Section by_timestamp.
Context {T S N : Type} `{TimestampOrder T} `{!ReadoutLaws T} `{!SkipList T S N} `{!SkipListLaws T S N}.
Implicit Types (s : S) (c : list T) (x y : T).

Lemma sl_increasing s c : sl_model s c -> increasing c.
Proof. intros Hs. by apply ordered_increasing, (sl_ordered s). Qed.

Lemma sl_lower_bound_spec s c x : sl_model s c ->
  sl_rest s c (sl_lower_bound s x) (from_timestamp (get_timestamp x) c).
Proof. rewrite <- from_key_timestamp. apply sl_key_bound_spec. Qed.

Lemma ordered_insert_cons x y c :
  ordered_insert x (y :: c) =
  (if get_timestamp x <? get_timestamp y then (true, x :: y :: c)
   else if get_timestamp x =? get_timestamp y then (false, y :: c)
   else let '(b, c') := ordered_insert x c in (b, y :: c')).
Proof.
  cbn. rewrite !element_lt_timestamp. destruct (Z.ltb_spec (get_timestamp x) (get_timestamp y)); [done|].
  destruct (Z.ltb_spec (get_timestamp y) (get_timestamp x)); destruct (Z.eqb_spec (get_timestamp x) (get_timestamp y));
    done || lia.
Qed.
End by_timestamp.

(** ** The latency buffer: one shared pointer to the list *)
Section buffer.
Context {T S N : Type} `{!SkipList T S N}.
Implicit Types (m_skip_list : S).

Definition unconfigured_head_height : Z := 2.

(** The constructor. *)
Definition new_skip_list : S := createInstance unconfigured_head_height.

Definition conf m_skip_list : S := createInstance unconfigured_head_height.

Definition scrap m_skip_list : S := createInstance unconfigured_head_height.

(** The [auto occupancy = 0] of the code is an [int]. *)
Definition occupancy m_skip_list : Z := u64 (i32 (sl_size m_skip_list)).

(** [generate_opmon_data]: the num_buffer_elements published. *)
Definition generate_skip_list_opmon_data m_skip_list : Z := occupancy m_skip_list.

Definition write (new_element : T) m_skip_list : bool * S := sl_insert new_element m_skip_list.

Definition put (new_element : T) m_skip_list : bool * S := sl_insert new_element m_skip_list.

(** Copies the first element out, and leaves it in the list. *)
Definition read m_skip_list : option T * S :=
  let lb_node := sl_begin m_skip_list in
  if sl_good m_skip_list lb_node then (sl_deref m_skip_list lb_node, m_skip_list)
  else (None, m_skip_list).

(** Not implemented: the list allocates its nodes as they are inserted. *)
Definition allocate_memory (_ : Z) m_skip_list : S := m_skip_list.

Definition skip_begin m_skip_list : N := sl_begin m_skip_list.

Definition skip_end : N := sl_end.

Definition lower_bound m_skip_list (element : T) (_ : bool) : N :=
  sl_lower_bound m_skip_list element.

Definition front m_skip_list : option T := sl_first m_skip_list.

Definition back m_skip_list : option T := sl_last m_skip_list.

(** [for (unsigned i = 0; i < num; ++i) acc.pop_back()] *)
Fixpoint pop_loop (num : nat) m_skip_list : S :=
  match num with
  | O => m_skip_list
  | Datatypes.S num => pop_loop num (snd (sl_pop_back m_skip_list))
  end.

Definition pop (num : Z) m_skip_list : S := pop_loop (Z.to_nat num) m_skip_list.

Definition flush m_skip_list : S := pop (occupancy m_skip_list) m_skip_list.

(** *** DefaultSkipListRequestHandler::skip_list_cleanup_request *)
Context `{ReadoutType T}.

Definition m_max_ts_diff : Z := 625000000.

(** The [while (timediff >= m_max_ts_diff)] loop: how many elements it removed,
    and the list it leaves.  [head] is dereferenced without a test. *)
Fixpoint cleanup_loop (fuel : nat) (tailts timediff removed_ctr : Z) (head : option T) m_skip_list
    : outcome (Z * S) :=
  if m_max_ts_diff <=? timediff then
    match fuel with
    | O => OutOfFuel
    | Datatypes.S fuel =>
        h ← deref head;
        let '(removed, m_skip_list) := sl_remove h m_skip_list in
        let removed_ctr := if removed then u64 (removed_ctr + 1) else removed_ctr in
        let head := sl_first m_skip_list in
        h' ← deref head;
        cleanup_loop fuel tailts (u64 (tailts - get_timestamp h')) removed_ctr head m_skip_list
    end
  else Ret (removed_ctr, m_skip_list).

(** The counters of the request handler it updates. *)
Record cleanup_counters := mkCounters { m_pop_reqs : Z; m_pops_count : Z; m_num_buffer_cleanups : Z }.

Definition skip_list_cleanup_request (fuel : nat) m_skip_list (k : cleanup_counters)
    : outcome (S * cleanup_counters) :=
  '(m_skip_list, k) ←
    match sl_last m_skip_list, sl_first m_skip_list with
    | Some tail, Some head =>
        let tailts := get_timestamp tail in
        let headts := get_timestamp head in
        if m_max_ts_diff <? u64 (tailts - headts) then
          let k := mkCounters (i32 (m_pop_reqs k + 1)) (m_pops_count k) (m_num_buffer_cleanups k) in
          '(removed_ctr, m_skip_list) ←
            cleanup_loop fuel tailts m_max_ts_diff 0 (Some head) m_skip_list;
          Ret (m_skip_list,
               mkCounters (m_pop_reqs k) (i32 (m_pops_count k + removed_ctr)) (m_num_buffer_cleanups k))
        else Ret (m_skip_list, k)
    | _, _ => Ret (m_skip_list, k)
    end;
  Ret (m_skip_list, mkCounters (m_pop_reqs k) (m_pops_count k) (i32 (m_num_buffer_cleanups k + 1))).
End buffer.

Section correct.
Context {T S N : Type} `{LessLaws T} `{!SkipList T S N} `{!SkipListLaws T S N}.
Implicit Types (s : S) (c : list T) (x : T).

Lemma occupancy_spec s c : sl_model s c -> occupancy s = Z.of_nat (length c).
Proof.
  intros Hs. unfold occupancy. rewrite (sl_size_spec s c Hs).
  pose proof (sl_size_range s c Hs). unfold INT_MAX in *. by machine.
Qed.

Lemma removelast_take c : removelast c = take (length c - 1) c.
Proof.
  induction c as [|x [|y c] IH]; [done..|].
  change (removelast (x :: y :: c)) with (x :: removelast (y :: c)).
  cbn [length] in *. rewrite Nat.sub_1_r. cbn [pred take]. rewrite IH. f_equal. f_equal. lia.
Qed.

(** [pop] removes the newest elements, and stops at the empty list. *)
Lemma skip_pop_loop_spec (n : nat) s c :
  sl_model s c -> sl_model (pop_loop n s) (take (length c - n) c).
Proof.
  revert s c. induction n as [|n IH]; intros s c Hs; cbn [pop_loop].
  - rewrite take_ge by lia. done.
  - apply sl_pop_back_spec in Hs as [_ Hs]. apply IH in Hs.
    rewrite removelast_take, length_take, take_take in Hs.
    by replace (length c - Datatypes.S n)%nat with (min (min (length c - 1) (length c) - n) (length c - 1))%nat by lia.
Qed.

Lemma flush_spec s c : sl_model s c -> sl_model (flush s) [].
Proof.
  intros Hs. unfold flush, pop. rewrite (occupancy_spec s c), Nat2Z.id by done.
  apply (skip_pop_loop_spec (length c)) in Hs. by rewrite Nat.sub_diag in Hs.
Qed.

Lemma read_spec s c : sl_model s c -> read s = (head c, s).
Proof.
  intros Hs. pose proof (sl_begin_spec s c Hs) as Hb. unfold read.
  rewrite (sl_good_spec s c _ c Hb). destruct c as [|x c]; [done|].
  rewrite bool_decide_true by done. by apply sl_step_spec in Hb as [-> _].
Qed.

(** Removing the oldest element. *)
Lemma ordered_remove_head x c : ordered (x :: c) -> ordered_remove x (x :: c) = (true, c).
Proof.
  intros Hc. apply ordered_cons in Hc as [Hx _].
  assert (Hxx : equivalent x x = true) by (unfold equivalent; by rewrite element_lt_irrefl).
  unfold ordered_remove. cbn [existsb]. rewrite Hxx. f_equal.
  rewrite filter_cons_False by congruence.
  apply list_filter_all_in. intros y Hy. unfold equivalent. by rewrite (Hx y Hy).
Qed.

(** What a collection from an iterator gives. *)
Lemma skip_collect (LB : LatencyBuffer T S N) (fuel : nat) s c n rest :
  lb_good = sl_good -> lb_deref = (fun s n => deref (sl_deref s n)) -> lb_next = sl_next ->
  sl_rest s c n rest -> (length rest <= fuel)%nat -> lb_collect fuel s n = Ret rest.
Proof.
  intros Hg Hd Hx. revert n rest. induction fuel as [|fuel IH]; intros n rest Hr Hf; cbn [lb_collect];
    rewrite Hg, (sl_good_spec s c n rest Hr); destruct rest as [|x rest]; cbn in Hf; try done; try lia.
  rewrite bool_decide_true by done. apply sl_step_spec in Hr as [Hn Hr]. rewrite Hd, Hx, Hn. outcome.
  cbn [deref]. outcome. by rewrite (IH _ rest Hr) by lia.
Qed.
End correct.

Section cleanup_correct.
Context {T S N : Type} `{ReadoutLaws T} `{!TimestampFirst T} `{!LessLaws T} `{!SkipList T S N} `{!SkipListLaws T S N}.
Implicit Types (s : S) (c : list T) (x : T).

Lemma ordered_tail x c : ordered (x :: c) -> ordered c.
Proof. by intros [_ Hc]%ordered_cons. Qed.

Lemma ordered_last x c y : ordered (x :: c) -> last (x :: c) = Some y -> get_timestamp x <= get_timestamp y.
Proof.
  intros Hc Hy. rewrite last_lookup in Hy. cbn [length pred] in Hy.
  destruct c as [|z c]; [cbn in Hy; by injection Hy as ->|].
  apply element_lt_first, (Hc 0%nat (length (z :: c)) x y eq_refl Hy). cbn. lia.
Qed.

(** The loop removes the elements that are [m_max_ts_diff] or more behind. *)
Lemma cleanup_loop_spec (fuel : nat) s x c tail (removed_ctr : Z) :
  sl_model s (x :: c) -> last (x :: c) = Some tail -> (length c <= fuel)%nat ->
  0 <= removed_ctr -> removed_ctr + Z.of_nat (length c) <= INT_MAX ->
  let keep := fun y => get_timestamp tail - get_timestamp y < m_max_ts_diff in
  exists s', cleanup_loop fuel (get_timestamp tail) (get_timestamp tail - get_timestamp x)
      removed_ctr (Some x) s
    = Ret (removed_ctr + Z.of_nat (length (x :: c) - length (filter keep (x :: c))), s')
    /\ sl_model s' (filter keep (x :: c)).
Proof.
  cbn zeta. revert s x c removed_ctr.
  induction fuel as [|fuel IH]; intros s x c removed_ctr Hs Htail Hfuel Hctr Hmax;
    pose proof (sl_ordered _ _ Hs) as Hc; pose proof (ordered_last _ _ _ Hc Htail);
    cbn [cleanup_loop]; rewrite filter_cons.
  - destruct c; [|cbn in *; lia]. injection Htail as ->.
    rewrite Z.sub_diag. cbn. rewrite decide_True by (unfold m_max_ts_diff; lia).
    exists s. split; [|done]. do 2 f_equal. cbn. lia.
  - destruct (Z.leb_spec m_max_ts_diff (get_timestamp tail - get_timestamp x)) as [Hd|Hd].
    + rewrite decide_False by lia. cbn [deref]. outcome.
      destruct c as [|y c]; [injection Htail as ->; unfold m_max_ts_diff in Hd; lia|].
      destruct (sl_remove_spec s (x :: y :: c) x Hs) as [E1 E2].
      rewrite (ordered_remove_head x (y :: c) Hc) in E1, E2. cbn [fst snd] in E1, E2.
      destruct (sl_remove x s) as [b s1]. cbn [fst snd] in E1, E2. subst b.
      rewrite (sl_first_spec s1 _ E2). cbn [head deref]. outcome.
      change (last (x :: y :: c)) with (last (y :: c)) in Htail.
      pose proof (ordered_last _ _ _ (ordered_tail _ _ Hc) Htail).
      pose proof (timestamp_range tail). pose proof (timestamp_range y).
      unfold INT_MAX, UINT64_MAX in *. cbn [length] in Hmax, Hfuel. machine.
      destruct (IH s1 y c (removed_ctr + 1) E2 Htail) as (s' & -> & Hs'); [lia|lia|lia|].
      exists s'. split; [|done]. do 2 f_equal.
      pose proof (length_filter (fun z => get_timestamp tail - get_timestamp z < m_max_ts_diff) (y :: c)).
      cbn [length] in *. lia.
    + rewrite decide_True by lia. exists s.
      rewrite list_filter_all_in.
      * split; [|done]. do 2 f_equal. cbn [length]. lia.
      * intros y Hy. apply ordered_cons in Hc as [Hx _]. pose proof (element_lt_first _ _ (Hx y Hy)). lia.
Qed.
End cleanup_correct.

(** ** The skip list as a latency buffer *)
Section latency_buffer.
Context {T S N : Type} `{!SkipList T S N}.

Definition skip_list_buffer : LatencyBuffer T S N := {|
  lb_occupancy := occupancy;
  lb_write x s := Ret (write x s);
  lb_front s := Ret (front s);
  lb_back s := Ret (back s);
  lb_pop n s := Ret (pop n s);
  lb_flush s := Ret (flush s);
  lb_begin := skip_begin;
  lb_end := skip_end;
  lb_lower_bound s x e := Ret (lower_bound s x e);
  lb_good := sl_good;
  lb_deref s n := deref (sl_deref s n);
  lb_next := sl_next;
  lb_eqb := sl_eqb |}.

(** The contract speaks of timestamps, so it asks for elements ordered by them. *)
Context `{TimestampOrder T} `{!ReadoutLaws T} `{!SkipListLaws T S N}.

#[export] Instance skip_list_laws : LatencyBufferLaws T S N (LatencyBuffer0 := skip_list_buffer).
Proof.
  refine (Build_LatencyBufferLaws T S N _ skip_list_buffer sl_model sl_rest
            (fun _ => increasing) true _ _ _ _ _ _ _ _ _ _ _ _); cbn.
  - apply occupancy_spec.
  - apply sl_size_range.
  - intros s c Hs. unfold front. by rewrite (sl_first_spec s c).
  - intros s c Hs. unfold back. by rewrite (sl_last_spec s c).
  - apply sl_begin_spec.
  - apply sl_good_spec.
  - intros s c n x rest Hn. apply sl_step_spec in Hn as [-> Hn]. done.
  - intros s c n Hn. by rewrite (sl_null_spec s c n Hn).
  - apply sl_eqb_spec.
  - apply sl_end_spec.
  - done.
  - intros s c key e Hs _ _. eexists. split; [done|]. by apply sl_lower_bound_spec.
Defined.
End latency_buffer.

(** ** A list kept in order has the documented behaviour *)
Module OrderedList.
Section OrderedList.
Context `{LessLaws T}.
Implicit Types (x : T) (c : list T).

Record ordered_list := mkOrdered { elements : list T }.

(** An iterator is the elements from it on. *)
#[export] Instance ordered_skip_list : SkipList T ordered_list (list T) := {
  createInstance _ := mkOrdered [];
  sl_size s := Z.of_nat (length (elements s));
  sl_insert x s := (fst (ordered_insert x (elements s)), mkOrdered (snd (ordered_insert x (elements s))));
  sl_remove x s := (fst (ordered_remove x (elements s)), mkOrdered (snd (ordered_remove x (elements s))));
  sl_pop_back s := (negb (bool_decide (elements s = [])), mkOrdered (removelast (elements s)));
  sl_first s := head (elements s);
  sl_last s := last (elements s);
  sl_begin s := elements s;
  sl_end := [];
  sl_lower_bound s x := from_key x (elements s);
  sl_good _ n := negb (bool_decide (n = []));
  sl_deref _ n := head n;
  sl_next _ n := tail n;
  sl_eqb n1 n2 := (length n1 =? length n2)%nat }.

Lemma ordered_insert_elem x c y : y ∈ snd (ordered_insert x c) -> y = x \/ y ∈ c.
Proof.
  induction c as [|z c IH]; cbn; [intros ->%list_elem_of_singleton; by left|].
  destruct (element_lt x z); cbn; [by intros [->|Hy]%elem_of_cons; auto|].
  destruct (element_lt z x); cbn; [|by right].
  destruct (ordered_insert x c) as [b c'']; cbn in *.
  intros [->|Hy]%elem_of_cons; [right; by left|]. destruct (IH Hy); [by left|right; by right].
Qed.

Lemma ordered_insert_ordered x c : ordered c -> ordered (snd (ordered_insert x c)).
Proof.
  induction c as [|z c IH]; intros Hc; cbn.
  { rewrite ordered_cons. split; [by intros y ?%elem_of_nil|apply ordered_nil]. }
  pose proof Hc as [Hz Hc']%ordered_cons.
  destruct (element_lt x z) eqn:Hxz; cbn.
  { rewrite (ordered_cons x). split; [|done].
    intros y [->|Hy]%elem_of_cons; [done|]. by apply (element_lt_trans x z y), Hz. }
  destruct (element_lt z x) eqn:Hzx; cbn; [|done].
  pose proof (ordered_insert_elem x c) as Hin. specialize (IH Hc').
  destruct (ordered_insert x c) as [b c'']; cbn in *. rewrite ordered_cons. split; [|done].
  intros y Hy. destruct (Hin y Hy) as [->|]; auto.
Qed.

(** The documented laws hold of it, up to the number of elements an [int] counts. *)
#[export] Instance ordered_skip_list_laws : SkipListLaws T ordered_list (list T).
Proof.
  refine (Build_SkipListLaws T ordered_list (list T) _ _
    (fun s c => elements s = c /\ ordered c /\ Z.of_nat (length c) <= INT_MAX)
    (fun _ _ n rest => n = rest) _ _ _ _ _ _ _ _ _ _ _ _ _ _ _ _ _); cbn; unfold INT_MAX in *.
  - tauto.
  - intros _. split; [done|]. split; [apply ordered_nil|cbn; lia].
  - by intros s c (-> & _).
  - tauto.
  - intros s c x (-> & Hc & _) Hlen. auto using ordered_insert_ordered.
  - intros s c x (-> & Hc & Hlen). split_and!; [done|done|..].
    + eapply ordered_sublist; [apply sublist_filter|done].
    + pose proof (length_filter (fun y => equivalent x y = false) c). lia.
  - intros s c (-> & Hc & Hlen). split_and!; [done|done|..]; rewrite removelast_take.
    + eapply ordered_sublist; [apply sublist_take|done].
    + rewrite length_take. lia.
  - by intros s c (-> & _).
  - by intros s c (-> & _).
  - by intros s c (-> & _).
  - by intros s c x (-> & _).
  - intros s c n rest ->. by destruct rest.
  - by intros s c n x rest ->.
  - intros s c n1 n2 rest1 rest2 -> -> _. apply eq_bool_prop_intro.
    by rewrite bool_decide_spec, Is_true_true, Nat.eqb_eq.
  - intros s c n rest -> Hn. by destruct rest.
  - by intros s c n ->.
  - by intros s c n ->.
Defined.
End OrderedList.
End OrderedList.

(** ** The abstract buffer: a set in the order of [operator<] *)
Module OrderedSet.
Section OrderedSet.
Context {T : Type} `{Less T}.

Inductive op := OpWrite (x : T) | OpPut (x : T) | OpRead | OpPop (n : nat) | OpFlush
  | OpFront | OpBack | OpOccupancy | OpElementsFrom (key : T) | OpConf | OpScrap | OpAllocate (size : Z).

Inductive response := RBool (b : bool) | RElem (x : option T) | RUnit | RNum (n : Z)
  | RList (l : list T).

(** [OpPop] takes the newest elements away, and [OpRead] takes nothing away. *)
Definition exec (o : op) (c : list T) : response * list T :=
  match o with
  | OpWrite x | OpPut x =>
      (RBool (fst (ordered_insert x c)), snd (ordered_insert x c))
  | OpRead => (RElem (head c), c)
  | OpPop n => (RUnit, take (length c - n) c)
  | OpFlush | OpConf | OpScrap => (RUnit, [])
  | OpFront => (RElem (head c), c)
  | OpBack => (RElem (last c), c)
  | OpOccupancy => (RNum (Z.of_nat (length c)), c)
  | OpElementsFrom key => (RList (from_key key c), c)
  | OpAllocate _ => (RUnit, c)
  end.

Fixpoint run (os : list op) (c : list T) : list response * list T :=
  match os with
  | [] => ([], c)
  | o :: os => let '(r, c) := exec o c in let '(rs, c) := run os c in (r :: rs, c)
  end.
End OrderedSet.
Arguments op : clear implicits.
Arguments response : clear implicits.
End OrderedSet.

Section run.
Context {T S N : Type} `{Less T} `{!SkipList T S N}.
Import OrderedSet.

Definition exec_skip_list (o : op T) (s : S) : outcome (response T * S) :=
  match o with
  | OpWrite x => let '(b, s) := write x s in Ret (RBool b, s)
  | OpPut x => let '(b, s) := put x s in Ret (RBool b, s)
  | OpRead => let '(x, s) := read s in Ret (RElem x, s)
  | OpPop n => Ret (RUnit, pop (Z.of_nat n) s)
  | OpFlush => Ret (RUnit, flush s)
  | OpFront => Ret (RElem (front s), s)
  | OpBack => Ret (RElem (back s), s)
  | OpOccupancy => Ret (RNum (occupancy s), s)
  | OpElementsFrom key =>
      l ← lb_collect (LB := skip_list_buffer) (Z.to_nat (occupancy s)) s (lower_bound s key false);
      Ret (RList l, s)
  | OpConf => Ret (RUnit, conf s)
  | OpScrap => Ret (RUnit, scrap s)
  | OpAllocate size => Ret (RUnit, allocate_memory size s)
  end.

Fixpoint run_skip_list (os : list (op T)) (s : S) : outcome (list (response T) * S) :=
  match os with
  | [] => Ret ([], s)
  | o :: os =>
      '(r, s) ← exec_skip_list o s; '(rs, s) ← run_skip_list os s; Ret (r :: rs, s)
  end.
End run.

(** No step of the run holds more elements than an [int] counts. *)
Definition fits `{Less T} (os : list (OrderedSet.op T)) (c : list T) : Prop :=
  forall n, Z.of_nat (length (snd (OrderedSet.run (take n os) c))) <= INT_MAX.

Section simulation.
Context {T S N : Type} `{LessLaws T} `{!SkipList T S N} `{!SkipListLaws T S N}.
Implicit Types (s : S) (c : list T) (o : OrderedSet.op T).

Lemma exec_skip_list_refines o s c :
  sl_model s c -> Z.of_nat (length (snd (OrderedSet.exec o c))) <= INT_MAX ->
  exists s', exec_skip_list o s = Ret (fst (OrderedSet.exec o c), s')
    /\ sl_model s' (snd (OrderedSet.exec o c)).
Proof.
  intros Hs Hlen. destruct o as [x|x| |n| | | | |key| | |size]; cbn [exec_skip_list OrderedSet.exec fst snd] in *.
  - unfold write. destruct (sl_insert_spec s c x Hs Hlen) as [E Hs'].
    destruct (sl_insert x s) as [b s']. cbn in E, Hs'. subst b. by exists s'.
  - unfold put. destruct (sl_insert_spec s c x Hs Hlen) as [E Hs'].
    destruct (sl_insert x s) as [b s']. cbn in E, Hs'. subst b. by exists s'.
  - rewrite (read_spec s c Hs). by exists s.
  - unfold pop. rewrite Nat2Z.id. eexists. split; [done|]. by apply skip_pop_loop_spec.
  - eexists. split; [done|]. by apply flush_spec with c.
  - unfold front. rewrite (sl_first_spec s c Hs). by exists s.
  - unfold back. rewrite (sl_last_spec s c Hs). by exists s.
  - rewrite (occupancy_spec s c Hs). by exists s.
  - rewrite (occupancy_spec s c Hs), Nat2Z.id.
    rewrite (skip_collect skip_list_buffer _ s c _ (from_key key c)); try done.
    + outcome. by exists s.
    + by apply sl_key_bound_spec.
    + destruct (from_key_suffix key c) as (j & ->). rewrite length_drop. lia.
  - eexists. split; [done|]. apply sl_create_spec.
  - eexists. split; [done|]. apply sl_create_spec.
  - by exists s.
Qed.

(** A new list is empty. *)
Lemma new_skip_list_empty : sl_model (T:=T) (S:=S) (N:=N) (new_skip_list (T:=T) (N:=N)) [].
Proof. apply sl_create_spec. Qed.
End simulation.

(** ** Properties *)

(** C29: every sequence of operations on the skip list buffer gives exactly the
    responses of a set in the order of [operator<], whatever strict weak order it is: a
    write is refused only for an element equivalent to one already there (the same composite
    key), reading leaves the element in, [pop] removes the newest elements, and the iteration
    from a key visits the elements not before it, in order. *)
Theorem skip_list_refines {T S N : Type} `{LessLaws T} `{!SkipList T S N} `{!SkipListLaws T S N}
    (os : list (OrderedSet.op T)) (s : S) (c : list T) :
  sl_model s c -> fits os c ->
  exists s', run_skip_list os s = Ret (fst (OrderedSet.run os c), s')
    /\ sl_model s' (snd (OrderedSet.run os c)).
Proof.
  revert s c. induction os as [|o os IH]; intros s c Hs Hfit; cbn [run_skip_list OrderedSet.run].
  { by exists s. }
  pose proof (Hfit 1%nat) as H1. cbn in H1.
  destruct (exec_skip_list_refines o s c Hs) as (s1 & -> & Hs1).
  { destruct (OrderedSet.exec o c). destruct os; done. }
  destruct (OrderedSet.exec o c) as [r c1] eqn:Eo. cbn [fst snd] in *. outcome.
  destruct (IH s1 c1 Hs1) as (s' & -> & Hs').
  { intros n. specialize (Hfit (Datatypes.S n)). cbn in Hfit. rewrite Eo in Hfit.
    by destruct (OrderedSet.run (take n os) c1). }
  outcome. exists s'. by destruct (OrderedSet.run os c1).
Qed.

(** The elements less than [m_max_ts_diff] behind [newest]. *)
Definition recent `{ReadoutType T} (newest : T) (c : list T) : list T :=
  filter (fun y => get_timestamp newest - get_timestamp y < m_max_ts_diff) c.

(** The cleanup of the skip list handler always ends without dereferencing
    the null head of an emptied list.  When the stored span exceeds
    [m_max_ts_diff] it removes exactly the elements that are that far or farther
    behind the newest one, which stays, and counts them; otherwise it removes
    nothing. *)
Theorem cleanup_request_correct {T S N : Type} `{ReadoutLaws T} `{!TimestampFirst T} `{!LessLaws T} `{!SkipList T S N}
    `{!SkipListLaws T S N} (s : S) (c : list T) (k : cleanup_counters) :
  sl_model s c ->
  match head c, last c with
  | Some oldest, Some newest =>
      if decide (m_max_ts_diff < get_timestamp newest - get_timestamp oldest)
      then exists s', skip_list_cleanup_request (length c) s k
             = Ret (s', mkCounters (i32 (m_pop_reqs k + 1))
                      (i32 (m_pops_count k + Z.of_nat (length c - length (recent newest c))))
                      (i32 (m_num_buffer_cleanups k + 1)))
           /\ sl_model s' (recent newest c)
      else skip_list_cleanup_request (length c) s k
           = Ret (s, mkCounters (m_pop_reqs k) (m_pops_count k) (i32 (m_num_buffer_cleanups k + 1)))
  | _, _ => skip_list_cleanup_request (length c) s k
           = Ret (s, mkCounters (m_pop_reqs k) (m_pops_count k) (i32 (m_num_buffer_cleanups k + 1)))
  end.
Proof.
  intros Hs. unfold skip_list_cleanup_request.
  rewrite (sl_first_spec s c Hs), (sl_last_spec s c Hs).
  destruct c as [|x c]; [done|]. cbn [head]. destruct (last (x :: c)) as [tail|] eqn:Htail; [|done].
  pose proof (ordered_last _ _ _ (sl_ordered _ _ Hs) Htail).
  pose proof (sl_size_range _ _ Hs) as Hlen. cbn [length] in Hlen.
  pose proof (timestamp_range tail). pose proof (timestamp_range x). unfold INT_MAX, UINT64_MAX in *. machine.
  destruct (Z.ltb_spec m_max_ts_diff (get_timestamp tail - get_timestamp x));
    case_decide; try lia; [|done].
  destruct (cleanup_loop_spec (length (x :: c)) s x c tail 0 Hs Htail) as (s' & E & Hs');
    [cbn; lia|lia|unfold INT_MAX; lia|].
  exists s'. split; [|done].
  replace (cleanup_loop (length (x :: c)) (get_timestamp tail) m_max_ts_diff 0 (Some x) s)
    with (cleanup_loop (length (x :: c)) (get_timestamp tail)
            (get_timestamp tail - get_timestamp x) 0 (Some x) s).
  - rewrite E. done.
  - cbn [cleanup_loop length].
    destruct (Z.leb_spec m_max_ts_diff (get_timestamp tail - get_timestamp x)); [|lia].
    by rewrite Z.leb_refl.
Qed.

Import Chunk.
Import OrderedList.

(** The insertions of test/apps/test_composite_key_app.cxx and what it looks for: four
    payloads of one timestamp, of which only the one with both keys of another is refused. *)
Definition payload (ts key : Z) : DUMMY.DUMMY_FRAME_STRUCT :=
  DUMMY.set_another_key key (DUMMY.set_timestamp ts (DUMMY.mkDummy 0 0 [])).

Definition composite_key_app : list (OrderedSet.op DUMMY.DUMMY_FRAME_STRUCT) :=
  [OrderedSet.OpWrite (payload 12342 3); OrderedSet.OpWrite (payload 12342 2); OrderedSet.OpWrite (payload 12342 2);
   OrderedSet.OpWrite (payload 12340 1); OrderedSet.OpWrite (payload 12345 4); OrderedSet.OpWrite (payload 12342 1);
   OrderedSet.OpOccupancy; OrderedSet.OpElementsFrom (payload 12342 2); OrderedSet.OpElementsFrom (payload 12340 1)].

Definition composite_key_dump : list DUMMY.DUMMY_FRAME_STRUCT :=
  [payload 12340 1; payload 12342 1; payload 12342 2; payload 12342 3; payload 12345 4].

Lemma skip_list_refines_witness :
  exists s', run_skip_list composite_key_app (mkOrdered [])
    = Ret ([OrderedSet.RBool true; OrderedSet.RBool true; OrderedSet.RBool false; OrderedSet.RBool true;
            OrderedSet.RBool true; OrderedSet.RBool true; OrderedSet.RNum 5;
            OrderedSet.RList (drop 2 composite_key_dump); OrderedSet.RList composite_key_dump], s')
    /\ sl_model s' composite_key_dump.
Proof.
  refine (skip_list_refines composite_key_app (mkOrdered []) [] _ _).
  - split_and!; [done|apply ordered_nil|by vm_compute].
  - intros n. do 9 (destruct n as [|n]; [by vm_compute|]). rewrite take_ge by (cbn; lia). by vm_compute.
Defined.

(** Two elements, the older one too far behind. *)
Definition stale_sample : list chunk := [mkChunk 100; mkChunk 1000000000].

Lemma cleanup_request_correct_witness :
  exists s', skip_list_cleanup_request 2 (mkOrdered stale_sample) (mkCounters 0 0 0)
    = Ret (s', mkCounters 1 1 1) /\ sl_model s' [mkChunk 1000000000].
Proof.
  assert (Hs : sl_model (mkOrdered stale_sample) stale_sample).
  { split_and!; [done| |by vm_compute].
    intros [|[|i]] [|[|j]] x y [= <-] [= <-] Hij; try lia. by vm_compute. }
  pose proof (cleanup_request_correct (mkOrdered stale_sample) stale_sample (mkCounters 0 0 0) Hs) as H.
  cbn [head last stale_sample] in H.
  assert (Hr : recent (mkChunk 1000000000) stale_sample = [mkChunk 1000000000]) by (by vm_compute).
  rewrite Hr in H. destruct (decide _) as [_|Hd] in H; [exact H|]. exfalso. by apply Hd.
Defined.
