(* ===== verification/FrameErrorRegistry.v ===== *)
(** FrameErrorRegistry.hpp: the map from an error's name to its latest interval. *)
From S2P Require Import Prelude.

Record ErrorInterval := mkErrorInterval { start_ts : Z; end_ts : Z }.

#[export] Instance ErrorInterval_eq_dec : EqDecision ErrorInterval.
Proof. solve_decision. Defined.

Definition ErrorInterval_lt (a b : ErrorInterval) : bool := end_ts a <? end_ts b.

Definition ErrorInterval_gt (a b : ErrorInterval) : bool := end_ts b <? end_ts a.

(** [m_errors], a [std::map]. *)
Abbreviation registry := (gmap string ErrorInterval).

(** [std::map::insert] keeps an element that is already there. *)
Definition std_insert (name : string) (e : ErrorInterval) (m : registry) : registry :=
  match m !! name with Some _ => m | None => <[name := e]> m end.

Definition add_error (error_name : string) (error : ErrorInterval) (m_errors : registry) : registry :=
  std_insert error_name error (delete error_name m_errors).

(** The loop of [remove_errors_until] over the entries still ahead of [it]. *)
Fixpoint remove_loop (ts : Z) (it : list (string * ErrorInterval)) (m_errors : registry) : registry :=
  match it with
  | [] => m_errors
  | (name, e) :: it =>
      if end_ts e <? ts then remove_loop ts it (delete name m_errors)
      else remove_loop ts it m_errors
  end.

Definition remove_errors_until (ts : Z) (m_errors : registry) : registry :=
  remove_loop ts (map_to_list m_errors) m_errors.

(** [has_error(error_name)]. *)
Definition has_error_named (error_name : string) (m_errors : registry) : bool :=
  match m_errors !! error_name with Some _ => true | None => false end.

(** [has_error()]. *)
Definition has_error (m_errors : registry) : bool := negb (bool_decide (m_errors = ∅)).

(** The calls that change the registry. *)
Inductive call := AddError (name : string) (e : ErrorInterval) | RemoveErrorsUntil (ts : Z).

Definition apply_call (m : registry) (c : call) : registry :=
  match c with
  | AddError name e => add_error name e m
  | RemoveErrorsUntil ts => remove_errors_until ts m
  end.

Definition run_calls (cs : list call) (m : registry) : registry := foldl apply_call m cs.

(** The interval of [name] that is still open: the last one added, unless a
    later removal was past its end. *)
Definition open_interval (name : string) (e : option ErrorInterval) (c : call)
    : option ErrorInterval :=
  match c with
  | AddError n e' => if decide (n = name) then Some e' else e
  | RemoveErrorsUntil ts =>
      match e with Some i => if end_ts i <? ts then None else Some i | None => None end
  end.

Lemma add_error_lookup name e m n :
  add_error name e m !! n = if decide (name = n) then Some e else m !! n.
Proof.
  unfold add_error, std_insert. rewrite lookup_delete_eq. case_decide as Hn.
  - subst n. by rewrite lookup_insert_eq.
  - by rewrite lookup_insert_ne, lookup_delete_ne.
Qed.

(** An entry goes when the entries ahead hold its name with an interval that is over. *)
Definition over (ts : Z) (name : string) (p : string * ErrorInterval) : Prop :=
  p.1 = name /\ end_ts p.2 < ts.

#[export] Instance over_dec ts name p : Decision (over ts name p).
Proof. unfold over. apply _. Defined.

Lemma remove_loop_lookup ts it m name :
  remove_loop ts it m !! name = if decide (Exists (over ts name) it) then None else m !! name.
Proof.
  revert m. induction it as [|[n e] it IH]; intros m; cbn.
  { rewrite decide_False; [done|]. by intros ?%Exists_nil. }
  destruct (Z.ltb_spec (end_ts e) ts) as [Hl|Hl]; rewrite IH.
  - destruct (decide (n = name)) as [->|Hne].
    + rewrite lookup_delete_eq. rewrite (decide_True (P := Exists _ (_ :: _))); [by case_decide|].
      by left.
    + rewrite lookup_delete_ne by done. apply decide_ext. rewrite Exists_cons. unfold over. cbn. tauto.
  - apply decide_ext. rewrite Exists_cons. unfold over. cbn. split; [tauto|]. intros [[]|]; [lia|done].
Qed.

Lemma remove_errors_until_lookup ts m name :
  remove_errors_until ts m !! name
  = match m !! name with Some i => if end_ts i <? ts then None else Some i | None => None end.
Proof.
  unfold remove_errors_until. rewrite remove_loop_lookup.
  destruct (m !! name) as [i|] eqn:Hm; [|by case_decide].
  destruct (Z.ltb_spec (end_ts i) ts).
  - rewrite decide_True; [done|]. apply Exists_exists. exists (name, i).
    split; [by apply elem_of_map_to_list|done].
  - rewrite decide_False; [done|]. rewrite Exists_exists. intros ([n e] & He & Hn & Ht).
    cbn in *. subst n. apply elem_of_map_to_list in He. rewrite Hm in He. injection He as ->. lia.
Qed.

(** ** Properties *)

(** After any sequence of calls the registry holds, for every name, the
    interval added last if no later [remove_errors_until] was past its end, and
    nothing otherwise; [has_error(name)] and [has_error()] say so. *)
Theorem registry_tracks (cs : list call) (m : registry) (name : string) :
  run_calls cs m !! name = foldl (open_interval name) (m !! name) cs
  /\ has_error_named name (run_calls cs m)
     = bool_decide (is_Some (foldl (open_interval name) (m !! name) cs))
  /\ (has_error (run_calls cs m) = true <->
      exists n, is_Some (foldl (open_interval n) (m !! n) cs)).
Proof.
  assert (Hrun : forall n, run_calls cs m !! n = foldl (open_interval n) (m !! n) cs).
  { intros n. revert m. induction cs as [|c cs IH]; intros m; [done|]. cbn.
    fold (run_calls cs (apply_call m c)). rewrite IH. f_equal. destruct c; cbn.
    - apply add_error_lookup.
    - apply remove_errors_until_lookup. }
  split; [apply Hrun|]. unfold has_error_named, has_error. rewrite <- !Hrun. split.
  - destruct (run_calls cs m !! name) eqn:E; [by rewrite bool_decide_true|].
    rewrite bool_decide_false; [done|]. by intros [? ?].
  - case_bool_decide as He; cbn [negb].
    + rewrite He in Hrun. split; [done|]. intros (n & Hn). rewrite <- Hrun, lookup_empty in Hn. by destruct Hn.
    + split; [|done]. intros _. apply map_choose in He as (n & e & Hn).
      exists n. rewrite <- Hrun, Hn. done.
Qed.
