(* ===== verification/CallbackRegistry.v ===== *)
(** DataMoveCallbackRegistry.hpp and detail/DataMoveCallbackRegistry.hxx: the
    process-wide map from an identifier to a typed callback. *)
From S2P Require Import Prelude.

Section registry.
(** The payload types, and the callbacks themselves (std::function). *)
Context {type callback : Type} `{!EqDecision type}.

(** A DataMoveCallback<DataType> behind its base class: its dynamic type and
    what it calls. *)
Record DataMoveCallback := mkDataMoveCallback { data_type : type; m_callback : callback }.

Abbreviation callback_map := (gmap string DataMoveCallback).

(** [DataMoveCallbackRegistry::get()]: the instance is made at the first call. *)
Definition get (s_instance : option callback_map) : callback_map :=
  match s_instance with None => ∅ | Some m => m end.

(** A second registration under the same identifier is ignored. *)
Definition register_callback (DataType : type) (id : string) (f : callback) (m : callback_map)
    : callback_map :=
  match m !! id with
  | None => <[id := mkDataMoveCallback DataType f]> m
  | Some _ => m
  end.

(** [dynamic_cast] gives a null pointer for another type, and the code
    dereferences it. *)
Definition get_callback (DataType : type) (id : string) (m : callback_map)
    : outcome (option callback) :=
  match m !! id with
  | Some c => if decide (data_type c = DataType) then Ret (Some (m_callback c)) else Undefined
  | None => Ret None
  end.

Definition registration : Type := type * string * callback.

Definition register_all (rs : list registration) (m : callback_map) : callback_map :=
  foldl (fun m '(t, i, f) => register_callback t i f m) m rs.

(** The first registration under an identifier. *)
Definition first_registration (i : string) (rs : list registration) : option registration :=
  head (filter (fun r => r.1.2 = i) rs).

Lemma register_all_lookup (rs : list registration) (m : callback_map) (i : string) :
  register_all rs m !! i
  = match m !! i with
    | Some c => Some c
    | None => (fun r => mkDataMoveCallback r.1.1 r.2) <$> first_registration i rs
    end.
Proof.
  unfold register_all, first_registration. revert m.
  induction rs as [|[[t j] f] rs IH]; intros m; cbn [foldl]; [by destruct (m !! i)|].
  rewrite IH, filter_cons. cbn. unfold register_callback.
  destruct (decide (j = i)) as [->|Hne].
  - destruct (m !! i) as [c|] eqn:Hm; [by rewrite Hm|]. by rewrite lookup_insert_eq.
  - destruct (m !! j) as [c|] eqn:Hm; [done|]. by rewrite lookup_insert_ne.
Qed.
End registry.

(** ** Properties *)

(** After any registrations, asking for an identifier gives the callback
    registered first under it when asked with that registration's type, null when
    nothing is registered, and is undefined when asked with any other type. *)
Theorem get_callback_first {type callback : Type} `{!EqDecision type}
    (rs : list (@registration type callback)) (t : type) (i : string) :
  get_callback t i (register_all rs (get None))
  = match first_registration i rs with
    | None => Ret None
    | Some r => if decide (r.1.1 = t) then Ret (Some r.2) else Undefined
    end.
Proof.
  unfold get_callback. rewrite register_all_lookup. cbn [get]. rewrite lookup_empty.
  by destruct (first_registration i rs).
Qed.
