(* ===== verification/FragmentSearch.v ===== *)
(** DefaultRequestHandlerModel::get_fragment_pieces: the search of a readout
    window in a latency buffer, against its specification: exactly the frames
    that overlap the window. *)
From S2P Require Import Prelude IterableQueue BinarySearchQueue ReadoutTypes LatencyBuffer FrameErrorRegistry.

(** RequestHandlerConcept::ResultCode. *)
Inductive ResultCode :=
  kFound | kNotFound | kTooOld | kNotYet | kPartial | kPartiallyOld | kCleanup | kUnknown.

#[export] Instance ResultCode_eq_dec : EqDecision ResultCode.
Proof. solve_decision. Defined.

(** [ResultCodeStrings[rc]]: [operator[]] adds an empty string for a code the
    map does not have, which is [kPartial]. *)
Definition resultCodeAsString (rc : ResultCode) : string :=
  match rc with
  | kFound => "FOUND"
  | kNotFound => "NOT_FOUND"
  | kTooOld => "TOO_OLD"
  | kNotYet => "NOT_YET_PRESENT"
  | kPartiallyOld => "PARTIALLY_PASSED"
  | kCleanup => "CLEANUP"
  | kUnknown => "UNKNOWN"
  | kPartial => ""
  end%string.

(** A fragment piece: what the pointer points to, and the size that is copied.
    A whole element is a pointer to its first frame. *)
Inductive piece (T : Type) `{ReadoutType T} :=
| WholeElement (x : T) (size : Z)
| SingleFrame (f : FrameType T) (size : Z).
Arguments WholeElement {T _} x size.
Arguments SingleFrame {T _} f size.

Section search.
Context {T B It : Type} `{ReadoutType T} `{LB : LatencyBuffer T B It}.
Implicit Types (b : B) (x : T) (start_win_ts end_win_ts : Z).

(** [ts + num_frames * expected_tick_difference], as a 64-bit timestamp. *)
Definition element_end x : Z :=
  u64 (get_timestamp x + u64 (get_num_frames x * expected_tick_difference T)).

(** The body of the [while] loop: the pieces one element adds. *)
Definition element_pieces start_win_ts end_win_ts x : list (piece T) :=
  if element_end x <=? start_win_ts then []
  else if (1 <? get_num_frames x)
          && (((get_timestamp x <? start_win_ts) && (start_win_ts <? element_end x))
              || (end_win_ts <? element_end x)) then
    (fun f => SingleFrame f (get_frame_size x)) <$>
      base.filter (fun f => u64 (start_win_ts - expected_tick_difference T) < frame_timestamp f
                       /\ frame_timestamp f < end_win_ts) (frames x)
  else [WholeElement x (get_payload_size x)].

(** [&( *it )], which forms an address and reads nothing through it: of an element, or, at
    [end()], of none ([records_[UINT32_MAX]] on the ring, the data of a null node in the skip
    list).  [strict] is for the letter of the C++ standard, by which the latter is already
    undefined behaviour; otherwise only reading through it is. *)
Definition element_address (strict : bool) b (it : It) : outcome (option T) :=
  match lb_deref b it with
  | Ret x => Ret (Some x)
  | _ => if strict then Undefined else Ret None
  end.

(** The [while] loop, with its last line [element = &( *start_iter )]. *)
Fixpoint pieces_loop (strict : bool) (fuel : nat) b start_win_ts end_win_ts (start_iter : It) (element : option T)
    : outcome (list (piece T)) :=
  if lb_good b start_iter then
    x ← deref element;
    if get_timestamp x <? end_win_ts then
      match fuel with
      | O => OutOfFuel
      | S fuel =>
          let start_iter := lb_next b start_iter in
          element ← element_address strict b start_iter;
          rest ← pieces_loop strict fuel b start_win_ts end_win_ts start_iter element;
          Ret (element_pieces start_win_ts end_win_ts x ++ rest)
      end
    else Ret []
  else Ret [].

(** One turn per element of the buffer is enough. *)
Definition pieces_fuel b : nat := Z.to_nat (lb_occupancy b).

(** [request_element], an element before the window. *)
Definition search_key start_win_ts : T :=
  let request_element := default_element T in
  set_timestamp (u64 (start_win_ts - u64 (get_num_frames request_element * expected_tick_difference T)))
    request_element.

Definition search_pieces (strict : bool) b (errors : registry) start_win_ts end_win_ts (result_code : ResultCode)
    : outcome (list (piece T) * ResultCode) :=
  front_element ← lb_front b;
  last_element ← lb_back b;
  oldest ← deref front_element;
  newest ← deref last_element;
  let last_ts := get_timestamp oldest in
  let newest_ts := get_timestamp newest in
  if newest_ts <? start_win_ts then Ret ([], kNotYet)
  else if end_win_ts <? last_ts then Ret ([], kTooOld)
  else
    let request_element := search_key start_win_ts in
    start_iter ← (if has_error_named "MISSING_FRAMES" errors
                  then lb_lower_bound b request_element true
                  else lb_lower_bound b request_element false);
    if negb (lb_good b start_iter) then Ret ([], kNotFound)
    else
      let result_code :=
        if newest_ts <? end_win_ts then kPartial
        else if start_win_ts <? last_ts then kPartiallyOld
        else kFound in
      element ← element_address strict b start_iter;
      frag_pieces ← pieces_loop strict (pieces_fuel b) b start_win_ts end_win_ts start_iter element;
      Ret (frag_pieces, result_code).

Definition get_fragment_pieces b (errors : registry) start_win_ts end_win_ts (result_code : ResultCode)
    : outcome (list (piece T) * ResultCode) :=
  search_pieces false b errors start_win_ts end_win_ts result_code.
End search.

(** ** What a window asks for *)
Section specification.
Context `{ReadoutLaws T}.
Implicit Types (x : T) (c : list T).

(** A frame covers one tick; it is wanted when it overlaps [[s, e)]. *)
Definition in_window (s e : Z) (f : FrameType T) : Prop :=
  s < frame_timestamp f + expected_tick_difference T /\ frame_timestamp f < e.

#[export] Instance in_window_dec s e f : Decision (in_window s e f).
Proof. unfold in_window. apply _. Defined.

Lemma search_key_timestamp (s : Z) : get_timestamp (search_key (T:=T) s) = u64 (s - element_ticks T).
Proof.
  pose proof (element_ticks_bounds (T:=T)). unfold search_key. rewrite element_ticks_of, (u64_small (element_ticks T))
    by (unfold UINT64_MAX in *; lia).
  apply get_set_timestamp. pose proof (u64_range (s - element_ticks T)). unfold UINT64_MAX. lia.
Qed.

(** The frames a piece copies. *)
Definition piece_frames (p : piece T) : list (FrameType T) :=
  match p with WholeElement x _ => frames x | SingleFrame f _ => [f] end.

(** Every timestamp of the buffer, and of the end of its last element, fits. *)
Definition all_fit c : Prop :=
  Forall (fun x => get_timestamp x + element_ticks T <= UINT64_MAX) c.

Lemma element_end_fit x :
  get_timestamp x + element_ticks T <= UINT64_MAX ->
  element_end x = get_timestamp x + element_ticks T.
Proof.
  intros Hx. unfold element_end. rewrite element_ticks_of.
  pose proof (timestamp_range x). pose proof (element_ticks_bounds (T:=T)).
  unfold UINT64_MAX in *. by machine.
Qed.

Lemma frame_bounds x f :
  get_timestamp x + element_ticks T <= UINT64_MAX -> f ∈ frames x ->
  get_timestamp x <= frame_timestamp f
  /\ frame_timestamp f + expected_tick_difference T <= get_timestamp x + element_ticks T.
Proof.
  intros Hx Hf. apply list_elem_of_lookup in Hf as [k Hf].
  pose proof (lookup_lt_Some _ _ _ Hf) as Hk. pose proof (frames_length x) as Hl.
  pose proof (element_ticks_of x) as Ht. pose proof (tick_pos (T:=T)).
  rewrite (frames_timestamp x k f Hf); nia.
Qed.

Lemma concat_piece_frames_single (sz : Z) (l : list (FrameType T)) :
  concat (piece_frames <$> ((fun f => SingleFrame f sz) <$> l)) = l.
Proof. induction l as [|f l IH]; [done|]. cbn. by rewrite IH. Qed.

(** One element contributes exactly its frames in the window. *)
Lemma element_pieces_frames (s e : Z) x :
  get_timestamp x + element_ticks T <= UINT64_MAX ->
  expected_tick_difference T <= s <= UINT64_MAX -> get_timestamp x < e ->
  concat (piece_frames <$> element_pieces s e x) = base.filter (in_window s e) (frames x).
Proof.
  intros Hx Hs He. unfold element_pieces. rewrite (element_end_fit x Hx).
  pose proof (element_ticks_of x) as Ht. pose proof (tick_pos (T:=T)).
  destruct (Z.leb_spec (get_timestamp x + element_ticks T) s) as [Hend|Hend].
  { symmetry. apply filter_none. intros f Hf [Ha Hb]. pose proof (frame_bounds x f Hx Hf). lia. }
  destruct (_ && _) eqn:Epart.
  - rewrite concat_piece_frames_single. apply filter_ext_in. intros f Hf.
    unfold in_window, UINT64_MAX in *. machine. lia.
  - cbn. rewrite app_nil_r. symmetry. apply list_filter_all_in. intros f Hf.
    pose proof (frame_bounds x f Hx Hf). unfold in_window.
    apply andb_false_iff in Epart as [Hn|Hp].
    + apply Z.ltb_ge in Hn. pose proof (num_frames_pos (T:=T)). pose proof (num_frames_const x).
      assert (get_num_frames x = 1) by lia. lia.
    + apply orb_false_iff in Hp as [Ha Hb]. apply Z.ltb_ge in Hb.
      apply andb_false_iff in Ha as [Ha|Ha]; apply Z.ltb_ge in Ha; lia.
Qed.

(** No frame of an element that starts at or after [e] is in the window. *)
Lemma later_frames (s e : Z) c :
  all_fit c -> (forall x, x ∈ c -> e <= get_timestamp x) ->
  base.filter (in_window s e) (concat (frames <$> c)) = [].
Proof.
  unfold all_fit. intros Hc He. apply filter_none. intros f Hf [_ Hlt].
  apply list_elem_of_In, in_concat in Hf as (l & Hl & Hf). apply list_elem_of_In in Hl, Hf.
  apply list_elem_of_fmap in Hl as (x & -> & Hx).
  rewrite Forall_forall in Hc. pose proof (frame_bounds x f (Hc x Hx) Hf). specialize (He x Hx). lia.
Qed.

(** Nor is one of an element that ends at or before [s]. *)
Lemma earlier_frames (s e : Z) c :
  all_fit c -> (forall x, x ∈ c -> get_timestamp x + element_ticks T <= s) ->
  base.filter (in_window s e) (concat (frames <$> c)) = [].
Proof.
  unfold all_fit. intros Hc Hs. apply filter_none. intros f Hf [Hlt _].
  apply list_elem_of_In, in_concat in Hf as (l & Hl & Hf). apply list_elem_of_In in Hl, Hf.
  apply list_elem_of_fmap in Hl as (x & -> & Hx).
  rewrite Forall_forall in Hc. pose proof (frame_bounds x f (Hc x Hx) Hf). specialize (Hs x Hx). lia.
Qed.
End specification.

Section correct.
Context {T B It : Type} `{RT : ReadoutType T} `{!ReadoutLaws T}
  `{LB : LatencyBuffer T B It} `{!LatencyBufferLaws T B It}.
Implicit Types (b : B) (x : T) (c : list T) (s e : Z).

(** A piece of the buffer [c], with the size its kind has. *)
Definition piece_of c (p : piece T) : Prop :=
  match p with
  | WholeElement x size => x ∈ c /\ size = get_payload_size x
  | SingleFrame f size => exists x, x ∈ c /\ f ∈ frames x /\ size = get_frame_size x
  end.

(** The pieces are those of the window: they cover its frames, in order. *)
Definition pieces_of_window c s e (ps : list (piece T)) : Prop :=
  Forall (piece_of c) ps
  /\ concat (piece_frames <$> ps) = base.filter (in_window s e) (concat (frames <$> c)).

Lemma element_pieces_of c s e x : x ∈ c -> Forall (piece_of c) (element_pieces s e x).
Proof.
  intros Hx. unfold element_pieces. destruct (_ <=? _); [done|]. destruct (_ && _).
  - apply Forall_forall. intros p Hp. apply list_elem_of_fmap in Hp as (f & -> & Hf).
    apply list_elem_of_filter in Hf as [_ Hf]. exists x. done.
  - by apply Forall_singleton.
Qed.

Lemma concat_piece_frames_app (l1 l2 : list (piece T)) :
  concat (piece_frames <$> (l1 ++ l2)) = concat (piece_frames <$> l1) ++ concat (piece_frames <$> l2).
Proof. by rewrite fmap_app, concat_app. Qed.

(** The address of the element an iterator is at. *)
Lemma element_address_rest strict b c it rest :
  lb_rest b c it rest -> strict = false \/ rest <> [] -> element_address strict b it = Ret (head rest).
Proof.
  intros Hr Hs. unfold element_address. destruct rest as [|x rest].
  - rewrite (lb_done_spec b c it Hr). by destruct Hs as [->|?].
  - by apply lb_step_spec in Hr as [-> _].
Qed.

Lemma pieces_loop_rest c b s e it rest (fuel : nat) :
  lb_rest b c it rest -> (length rest <= fuel)%nat -> all_fit rest -> increasing rest ->
  (forall x, x ∈ rest -> x ∈ c) -> expected_tick_difference T <= s <= UINT64_MAX ->
  exists ps, pieces_loop false fuel b s e it (head rest) = Ret ps /\ Forall (piece_of c) ps
    /\ concat (piece_frames <$> ps) = base.filter (in_window s e) (concat (frames <$> rest)).
Proof.
  intros Hr Hf Hfit Hincr Hin Hs. revert it rest Hr Hf Hfit Hincr Hin.
  induction fuel as [|fuel IH]; intros it rest Hr Hf Hfit Hincr Hin; cbn [pieces_loop];
    rewrite (lb_good_spec b c it rest Hr); destruct rest as [|x rest]; cbn in Hf; try lia;
    try (by exists []).
  rewrite bool_decide_true by done. apply lb_step_spec in Hr as [_ Hr]. cbn [head deref]. outcome.
  apply Forall_cons in Hfit as [Hx Hfit]. pose proof Hincr as [Hlt Hincr']%increasing_cons.
  destruct (Z.ltb_spec (get_timestamp x) e) as [He|He].
  - rewrite (element_address_rest false b c _ rest Hr) by (by left). outcome.
    destruct (IH _ rest Hr) as (ps & -> & Hps & Hcover); [lia|done|done|..].
    { intros y Hy. apply Hin. by right. }
    outcome. eexists. split; [done|]. split.
    + apply Forall_app. split; [|done]. apply element_pieces_of, Hin. by left.
    + rewrite concat_piece_frames_app, Hcover, (element_pieces_frames s e x) by done.
      cbn. by rewrite filter_app.
  - exists []. split; [done|]. split; [done|]. symmetry.
    apply (later_frames s e (x :: rest)); [by apply Forall_cons|].
    intros y [->|Hy]%elem_of_cons; [done|]. specialize (Hlt y Hy). lia.
Qed.

End correct.

(** ** The search as a whole *)

(** The search down to the loop over the elements from the window's start on. *)
Lemma search_pieces_loop {T B It : Type} `{ReadoutLaws T}
    `{LB : LatencyBuffer T B It} `{!LatencyBufferLaws T B It}
    (strict : bool) (b : B) (c : list T) (errors : registry) (s e : Z) (rc : ResultCode) (oldest newest : T) :
  lb_model b c -> lb_searchable (has_error_named "MISSING_FRAMES" errors) c ->
  head c = Some oldest -> last c = Some newest -> element_ticks T <= s <= UINT64_MAX ->
  if get_timestamp newest <? s then search_pieces strict b errors s e rc = Ret ([], kNotYet)
  else if e <? get_timestamp oldest then search_pieces strict b errors s e rc = Ret ([], kTooOld)
  else if lb_finds_older || (get_timestamp oldest <=? s - element_ticks T) then
    exists it, let rest := from_timestamp (s - element_ticks T) c in
      lb_lower_bound b (search_key s) (has_error_named "MISSING_FRAMES" errors) = Ret it /\
      lb_rest b c it rest /\ rest <> []
      /\ search_pieces strict b errors s e rc
         = (ps ← pieces_loop strict (length c) b s e it (head rest);
            Ret (ps, if get_timestamp newest <? e then kPartial
                     else if s <? get_timestamp oldest then kPartiallyOld else kFound))
  else search_pieces strict b errors s e rc = Ret ([], kNotFound).
Proof.
  intros Hb Hsearch Hold Hnew Hs. unfold search_pieces.
  rewrite (lb_front_spec b c Hb), (lb_back_spec b c Hb), Hold, Hnew. outcome. cbn [deref]. outcome.
  destruct (Z.ltb_spec (get_timestamp newest) s) as [|Hns]; [done|].
  destruct (Z.ltb_spec e (get_timestamp oldest)) as [|Heo]; [done|].
  pose proof (element_ticks_bounds (T:=T)) as Ht. pose proof (lb_searchable_increasing _ _ Hsearch) as Hc.
  set (key := search_key s).
  assert (Hkey : get_timestamp key = s - element_ticks T)
    by (unfold key; rewrite search_key_timestamp; unfold UINT64_MAX in *; by machine).
  destruct (lb_lower_bound_spec b c key _ Hb Hsearch) as (it & Hit & Hrest); [by destruct c|].
  replace (if has_error_named _ _ then _ else _) with (Ret it)
    by (rewrite <- Hit; by destruct (has_error_named _ _)).
  outcome. rewrite Hkey in Hrest.
  assert (Hnewin : newest ∈ c) by (by apply last_Some_elem_of in Hnew).
  assert (Hfound : lb_finds_older || (get_timestamp oldest <=? s - element_ticks T) = true ->
    lb_rest b c it (from_timestamp (s - element_ticks T) c)).
  { intros Ho. destruct lb_finds_older; [done|]. cbn in Ho. apply Z.leb_le in Ho.
    destruct c as [|x c]; [done|]. injection Hold as ->. cbn [search_queue] in Hrest.
    destruct (Z.ltb_spec (s - element_ticks T) (get_timestamp oldest)); [lia|done]. }
  destruct (_ || _) eqn:Eolder.
  - specialize (Hfound eq_refl). exists it.
    assert (Hne : from_timestamp (s - element_ticks T) c <> []) by (eapply from_timestamp_nonempty; [done|lia]).
    split; [exact Hit|]. split; [exact Hfound|]. split; [exact Hne|].
    rewrite (lb_good_spec _ _ _ _ Hfound), bool_decide_true by done. cbn [negb].
    rewrite (element_address_rest strict b c it _ Hfound) by (by right). outcome.
    unfold pieces_fuel. by rewrite (lb_occupancy_spec b c Hb), Nat2Z.id.
  - destruct lb_finds_older; [done|]. cbn in Eolder. apply Z.leb_gt in Eolder.
    destruct c as [|x c]; [done|]. injection Hold as ->. cbn [search_queue] in Hrest.
    destruct (Z.ltb_spec (s - element_ticks T) (get_timestamp oldest)); [|lia].
    by rewrite (lb_good_spec _ _ _ _ Hrest).
Qed.

Lemma get_fragment_pieces_window {T B It : Type} `{ReadoutLaws T}
    `{LB : LatencyBuffer T B It} `{!LatencyBufferLaws T B It}
    (b : B) (c : list T) (errors : registry) (s e : Z) (rc : ResultCode) (oldest newest : T) :
  lb_model b c -> lb_searchable (has_error_named "MISSING_FRAMES" errors) c -> all_fit c ->
  head c = Some oldest -> last c = Some newest -> element_ticks T <= s <= UINT64_MAX ->
  if get_timestamp newest <? s then get_fragment_pieces b errors s e rc = Ret ([], kNotYet)
  else if e <? get_timestamp oldest then get_fragment_pieces b errors s e rc = Ret ([], kTooOld)
  else if lb_finds_older || (get_timestamp oldest <=? s - element_ticks T) then
    exists ps, get_fragment_pieces b errors s e rc
        = Ret (ps, if get_timestamp newest <? e then kPartial
                   else if s <? get_timestamp oldest then kPartiallyOld else kFound)
      /\ pieces_of_window c s e ps
  else get_fragment_pieces b errors s e rc = Ret ([], kNotFound).
Proof.
  intros Hb Hsearch Hfit Hold Hnew Hs. unfold get_fragment_pieces.
  pose proof (search_pieces_loop false b c errors s e rc oldest newest Hb Hsearch Hold Hnew Hs) as Hloop.
  destruct (_ <? s); [done|]. destruct (e <? _); [done|]. destruct (_ || _); [|done].
  destruct Hloop as (it & _ & Hrest & _ & ->).
  pose proof (lb_searchable_increasing _ _ Hsearch) as Hc. pose proof (tick_pos (T:=T)). pose proof (num_frames_pos (T:=T)).
  destruct (from_timestamp_split (s - element_ticks T) c) as (c1 & Ec & Hc1).
  remember (from_timestamp _ c) as rest eqn:Erest. clear Erest.
  rewrite Ec in Hfit. apply Forall_app in Hfit as [Hfit1 Hfit].
  destruct (pieces_loop_rest c b s e it rest (length c) Hrest) as (ps & -> & Hps & Hcover); [|done|..].
  - rewrite Ec, length_app. lia.
  - eapply increasing_sublist; [|exact Hc]. rewrite Ec. by apply sublist_inserts_l.
  - intros x Hx. rewrite Ec. apply elem_of_app. by right.
  - unfold element_ticks in *. nia.
  - outcome. exists ps. split; [done|]. split; [done|]. rewrite Hcover, Ec.
    rewrite fmap_app, concat_app, filter_app, (earlier_frames s e c1); [done|done|].
    intros x Hx. specialize (Hc1 x Hx). lia.
Qed.

Lemma get_fragment_pieces_early {T B It : Type} `{ReadoutLaws T}
    `{LB : LatencyBuffer T B It} `{!LatencyBufferLaws T B It}
    (b : B) (c : list T) (errors : registry) (s e : Z) (rc : ResultCode) (oldest newest : T) :
  lb_model b c -> lb_searchable (has_error_named "MISSING_FRAMES" errors) c -> all_fit c ->
  head c = Some oldest -> last c = Some newest -> 0 <= s <= get_timestamp newest ->
  get_timestamp oldest <= e ->
  s < element_ticks T \/ (lb_finds_older = false /\ s < get_timestamp oldest + element_ticks T) ->
  get_fragment_pieces b errors s e rc = Ret ([], kNotFound).
Proof.
  intros Hb Hsearch Hfit Hold Hnew Hs He Hearly. unfold get_fragment_pieces, search_pieces.
  rewrite (lb_front_spec b c Hb), (lb_back_spec b c Hb), Hold, Hnew. outcome. cbn [deref]. outcome.
  destruct (Z.ltb_spec (get_timestamp newest) s) as [|Hns]; [lia|].
  destruct (Z.ltb_spec e (get_timestamp oldest)) as [|Heo]; [lia|].
  pose proof (element_ticks_bounds (T:=T)) as Ht. pose proof (timestamp_range newest).
  unfold UINT64_MAX in *. set (key := search_key s).
  pose proof (search_key_timestamp (T:=T) s) as Hkey. fold key in Hkey.
  destruct (lb_lower_bound_spec b c key _ Hb Hsearch) as (it & Hit & Hrest); [by destruct c|].
  replace (if has_error_named _ _ then _ else _) with (Ret it)
    by (rewrite <- Hit; by destruct (has_error_named _ _)).
  outcome. rewrite Hkey in Hrest. rewrite (lb_good_spec _ _ _ _ Hrest).
  rewrite bool_decide_false; [done|]. intros Hne. apply Hne. clear Hne Hrest.
  assert (Hlast : forall x, x ∈ c -> get_timestamp x + element_ticks T <= 18446744073709551615)
    by (unfold all_fit in Hfit; by rewrite Forall_forall in Hfit).
  destruct c as [|x c]; [done|]. injection Hold as ->.
  destruct (decide (s < element_ticks T)) as [Hwrap|Hwrap].
  - assert (Hall : from_timestamp (u64 (s - element_ticks T)) (oldest :: c) = []).
    { rewrite (from_timestamp_drop _ _ (length (oldest :: c))); [by rewrite drop_all|..].
      - intros i y Hy _. apply list_elem_of_lookup_2, Hlast in Hy.
        replace (s - element_ticks T) with (s - element_ticks T + 18446744073709551616 - 18446744073709551616) by lia.
        unfold u64. rewrite <- (Z.mod_unique _ _ (-1) (s - element_ticks T + 18446744073709551616)); lia.
      - intros y Hy. apply lookup_lt_Some in Hy. lia. }
    cbn [search_queue]. rewrite Hall. destruct lb_finds_older; [done|]. by destruct (_ <? _).
  - destruct Hearly as [|[-> Hearly]]; [lia|]. cbn [search_queue].
    rewrite u64_small by lia. destruct (Z.ltb_spec (s - element_ticks T) (get_timestamp oldest)); [done|lia].
Qed.

(** The search of a buffer with data always answers; the codes for which it
    returns pieces are those for which they cover the window. *)
Lemma get_fragment_pieces_total {T B It : Type} `{ReadoutLaws T}
    `{LB : LatencyBuffer T B It} `{!LatencyBufferLaws T B It}
    (b : B) (c : list T) (errors : registry) (s e : Z) (rc : ResultCode) :
  lb_model b c -> lb_searchable (has_error_named "MISSING_FRAMES" errors) c -> all_fit c ->
  c <> [] -> 0 <= s <= UINT64_MAX ->
  exists ps rc', get_fragment_pieces b errors s e rc = Ret (ps, rc')
    /\ rc' <> kUnknown /\ rc' <> kCleanup
    /\ if decide (rc' = kFound \/ rc' = kPartial \/ rc' = kPartiallyOld)
       then pieces_of_window c s e ps else ps = [].
Proof.
  intros Hb Hsearch Hfit Hne Hs.
  destruct (head c) as [oldest|] eqn:Hold; [|by destruct c].
  destruct (last c) as [newest|] eqn:Hnew; [|by apply last_None in Hnew].
  destruct (decide (element_ticks T <= s)) as [Ht|Ht].
  - pose proof (get_fragment_pieces_window b c errors s e rc oldest newest Hb Hsearch Hfit Hold Hnew) as Hw.
    specialize (Hw ltac:(lia)).
    destruct (_ <? s); [by exists [], kNotYet|]. destruct (_ <? _); [by exists [], kTooOld|].
    destruct (_ || _); [|by exists [], kNotFound]. destruct Hw as (ps & -> & Hps).
    exists ps. eexists. split; [done|].
    destruct (_ <? _); [|destruct (_ <? _)]; rewrite decide_True by auto; done.
  - destruct (Z.lt_decidable (get_timestamp newest) s) as [Hn|Hn];
      [|destruct (Z.lt_decidable e (get_timestamp oldest)) as [He|He]].
    1-2: unfold get_fragment_pieces, search_pieces; rewrite (lb_front_spec b c Hb), (lb_back_spec b c Hb), Hold, Hnew;
      outcome; cbn [deref]; outcome.
    + destruct (Z.ltb_spec (get_timestamp newest) s); [|lia]. by exists [], kNotYet.
    + destruct (Z.ltb_spec (get_timestamp newest) s); [by exists [], kNotYet|].
      destruct (Z.ltb_spec e (get_timestamp oldest)); [|lia]. by exists [], kTooOld.
    + exists [], kNotFound. split; [|done].
      apply (get_fragment_pieces_early b c errors s e rc oldest newest); [done..|lia|lia|left; lia].
Qed.

(** ** Properties *)

(** C1: the answer to a window [[s, e)] that starts at least one element's ticks
    after zero.  It is NotYet exactly when the window starts after the newest
    element and TooOld when it ends before the oldest; otherwise the search
    always ends and the pieces cover exactly the frames of the buffer that
    overlap the window, each once and in order, with the sizes of their kinds,
    and the code is Partial when the window ends after the newest element,
    PartiallyOld when it starts before the oldest, Found when neither.  The
    exception: when [lower_bound] does not answer for keys before the oldest
    element, a window that starts less than one element after it is NotFound. *)
Theorem get_fragment_pieces_correct {T B It : Type} `{ReadoutLaws T}
    `{LB : LatencyBuffer T B It} `{!LatencyBufferLaws T B It}
    (b : B) (c : list T) (errors : registry) (s e : Z) (rc : ResultCode) (oldest newest : T) :
  lb_model b c -> lb_searchable (has_error_named "MISSING_FRAMES" errors) c -> all_fit c ->
  head c = Some oldest -> last c = Some newest -> element_ticks T <= s <= UINT64_MAX ->
  if get_timestamp newest <? s then get_fragment_pieces b errors s e rc = Ret ([], kNotYet)
  else if e <? get_timestamp oldest then get_fragment_pieces b errors s e rc = Ret ([], kTooOld)
  else if lb_finds_older || (get_timestamp oldest <=? s - element_ticks T) then
    exists ps, get_fragment_pieces b errors s e rc
        = Ret (ps, if get_timestamp newest <? e then kPartial
                   else if s <? get_timestamp oldest then kPartiallyOld else kFound)
      /\ pieces_of_window c s e ps
  else get_fragment_pieces b errors s e rc = Ret ([], kNotFound).
Proof. apply get_fragment_pieces_window. Qed.


(** C35: data that overlaps the window is not found when the window starts within
    one element's ticks of zero (the key wraps around), whatever the buffer, or
    within one element's ticks of the oldest element in a buffer whose
    [lower_bound] gives up before its oldest element; with such a buffer the
    code PartiallyOld is never given. *)
Theorem early_window_not_found {T B It : Type} `{ReadoutLaws T}
    `{LB : LatencyBuffer T B It} `{!LatencyBufferLaws T B It}
    (b : B) (c : list T) (errors : registry) (s e : Z) (rc : ResultCode) (oldest newest : T) :
  lb_model b c -> lb_searchable (has_error_named "MISSING_FRAMES" errors) c -> all_fit c ->
  head c = Some oldest -> last c = Some newest -> 0 <= s <= get_timestamp newest ->
  get_timestamp oldest <= e ->
  s < element_ticks T \/ (lb_finds_older = false /\ s < get_timestamp oldest + element_ticks T) ->
  get_fragment_pieces b errors s e rc = Ret ([], kNotFound).
Proof. apply get_fragment_pieces_early. Qed.

(** ** The properties at work: three elements in a ring, two frames in each *)
Import Chunk.

Lemma sample_fits : all_fit sample.
Proof. by repeat constructor. Qed.

Lemma get_fragment_pieces_correct_witness :
  exists ps, get_fragment_pieces (LB := binary_search_buffer sample_platform)
      (ring_of 4 sample) ∅ 125 135 kUnknown = Ret (ps, kFound)
    /\ pieces_of_window sample 125 135 ps.
Proof.
  refine (get_fragment_pieces_correct (LB := binary_search_buffer sample_platform)
    (ring_of 4 sample) sample ∅ 125 135 kUnknown (mkChunk 100) (mkChunk 140)
    sample_repr sample_increasing sample_fits eq_refl eq_refl _).
  by vm_compute.
Defined.

Lemma early_window_not_found_witness :
  get_fragment_pieces (LB := binary_search_buffer sample_platform)
    (ring_of 4 sample) ∅ 110 135 kUnknown = Ret ([], kNotFound).
Proof.
  refine (early_window_not_found (LB := binary_search_buffer sample_platform)
    (ring_of 4 sample) sample ∅ 110 135 kUnknown (mkChunk 100) (mkChunk 140)
    sample_repr sample_increasing sample_fits eq_refl eq_refl _ _ _).
  - by vm_compute.
  - by vm_compute.
  - right. by vm_compute.
Defined.

