(* ===== verification/LiveRequest.v ===== *)
(** A data request on a buffer that changes while it is read: [data_request] and
    [get_fragment_pieces] of models/detail/DefaultRequestHandlerModel.hxx, access by
    access, over an interface that the ring (LiveRing.v) and the skip list
    (LiveSkipList.v) implement. *)
From S2P Require Import Prelude ReadoutTypes LatencyBuffer FrameErrorRegistry FragmentSearch.

(** ** The accesses of a request

    [Q] is the buffer's state, [N] a place in it, which an iterator or a pointer refers
    to (a slot of the ring, a node of the list), and [B] what [lower_bound] reads before
    it searches.  [live_address] is what [&( *it )] gives, no element's address ([None]) at
    [end()], and [live_read] what reads through one.  [live_elements] is what the buffer
    holds, for the history only. *)
Class LiveBuffer (T Q N B : Type) := {
  live_elements : Q -> list T;
  live_write : T -> Q -> outcome (bool * Q);
  live_occupancy : Q -> Z;
  live_front : Q -> option N;
  live_back : Q -> option N;
  live_read : Q -> N -> outcome T;
  live_bounds : Q -> B;
  live_search : Q -> T -> B -> outcome N;
  live_good : Q -> N -> bool;
  live_address : Q -> N -> option N;
  live_next : Q -> N -> N }.

(** A pointer to a whole element, or to the [k]-th frame of the element, in a place of
    the buffer, with the size to copy. *)
Inductive pointer (N : Type) :=
| WholeAt (node : N) (size : Z)
| FrameAt (node : N) (k : nat) (size : Z).
Arguments WholeAt {N} _ _.
Arguments FrameAt {N} _ _ _.

Record window := mkWindow { window_begin : Z; window_end : Z }.

(** Where [data_request] is, with its local variables. *)
Inductive place (T N B : Type) `{ReadoutType T} :=
| AtOccupancy
| AtFront
| AtBack (front_element : option N)
| AtOldest (front_element last_element : option N)
| AtNewest (last_element : option N) (last_ts : Z)
| AtBounds (last_ts newest_ts : Z)
| AtSearch (last_ts newest_ts : Z) (bounds : B)
| AtFound (last_ts newest_ts : Z) (start_iter : N)
| AtTest (result_code : ResultCode) (start_iter : N) (element : option N) (frag_pieces : list (pointer N)) (elements_handled : nat)
| AtElement (result_code : ResultCode) (start_iter : N) (element : option N) (frag_pieces : list (pointer N)) (elements_handled : nat)
| AtNext (result_code : ResultCode) (start_iter : N) (frag_pieces : list (pointer N)) (elements_handled : nat)
| AtLog (result_code : ResultCode) (frag_pieces : list (pointer N))
| AtCopy (result_code : ResultCode) (frag_pieces : list (pointer N))
| Answer (result_code : ResultCode) (data : list (FrameType T)).
Arguments AtOccupancy {T N B _}.
Arguments AtFront {T N B _}.
Arguments AtBack {T N B _} _.
Arguments AtOldest {T N B _} _ _.
Arguments AtNewest {T N B _} _ _.
Arguments AtBounds {T N B _} _ _.
Arguments AtSearch {T N B _} _ _ _.
Arguments AtFound {T N B _} _ _ _.
Arguments AtTest {T N B _} _ _ _ _ _.
Arguments AtElement {T N B _} _ _ _ _ _.
Arguments AtNext {T N B _} _ _ _ _.
Arguments AtLog {T N B _} _ _.
Arguments AtCopy {T N B _} _ _.
Arguments Answer {T N B _} _ _.

(** The pieces one element adds, as pointers. *)
Definition element_pointers {T N : Type} `{ReadoutType T} (w : window) (node : N) (x : T) : list (pointer N) :=
  if element_end x <=? window_begin w then []
  else if (1 <? get_num_frames x)
          && (((get_timestamp x <? window_begin w) && (window_begin w <? element_end x))
              || (window_end w <? element_end x)) then
    (fun kf => FrameAt node kf.1 (get_frame_size x)) <$>
      base.filter (fun kf => u64 (window_begin w - expected_tick_difference T) < frame_timestamp kf.2
                             /\ frame_timestamp kf.2 < window_end w)
        (imap pair (frames x))
  else [WholeAt node (get_payload_size x)].

Definition request_key {T : Type} `{ReadoutType T} (w : window) : T :=
  let request_element := default_element T in
  set_timestamp
    (u64 (window_begin w - u64 (get_num_frames request_element * expected_tick_difference T)))
    request_element.

Section request.
Context {T Q N B : Type} `{RT : ReadoutType T} `{!LiveBuffer T Q N B}.
Implicit Types (q : Q) (x : T) (w : window).

(** What a pointer points to when the fragment is made. *)
Definition fetch q (ptr : pointer N) : outcome (list (FrameType T)) :=
  match ptr with
  | WholeAt node _ => x ← live_read q node; Ret (frames x)
  | FrameAt node k _ => x ← live_read q node; f ← deref (frames x !! k); Ret [f]
  end.

Fixpoint copy_fragment q (ptrs : list (pointer N)) : outcome (list (FrameType T)) :=
  match ptrs with
  | [] => Ret []
  | ptr :: ptrs => fs ← fetch q ptr; rest ← copy_fragment q ptrs; Ret (fs ++ rest)
  end.

(** One access of the request to the buffer; [None] once it has its answer. *)
Definition request_step q w (pl : place T N B) : option (outcome (place T N B)) :=
  match pl with
  | AtOccupancy => Some (Ret (if live_occupancy q =? 0 then AtCopy kNotFound [] else AtFront))
  | AtFront => Some (Ret (AtBack (live_front q)))
  | AtBack front_element => Some (Ret (AtOldest front_element (live_back q)))
  | AtOldest front_element last_element => Some (
      node ← deref front_element;
      x ← live_read q node;
      Ret (AtNewest last_element (get_timestamp x)))
  | AtNewest last_element last_ts => Some (
      node ← deref last_element;
      x ← live_read q node;
      let newest_ts := get_timestamp x in
      Ret (if newest_ts <? window_begin w then AtLog kNotYet []
           else if window_end w <? last_ts then AtLog kTooOld []
           else AtBounds last_ts newest_ts))
  | AtBounds last_ts newest_ts => Some (Ret (AtSearch last_ts newest_ts (live_bounds q)))
  | AtSearch last_ts newest_ts bounds => Some (
      start_iter ← live_search q (request_key w) bounds;
      Ret (AtFound last_ts newest_ts start_iter))
  | AtFound last_ts newest_ts start_iter => Some (Ret (
      if negb (live_good q start_iter) then AtLog kNotFound []
      else
        let result_code :=
          if newest_ts <? window_end w then kPartial
          else if window_begin w <? last_ts then kPartiallyOld
          else kFound in
        AtTest result_code start_iter (live_address q start_iter) [] 0))
  | AtTest rc start_iter element frag_pieces n => Some (Ret (
      if live_good q start_iter then AtElement rc start_iter element frag_pieces n else AtLog rc frag_pieces))
  | AtElement rc start_iter element frag_pieces n => Some (
      node ← deref element;
      element ← live_read q node;
      Ret (if get_timestamp element <? window_end w
           then AtNext rc start_iter (frag_pieces ++ element_pointers w start_iter element) (S n)
           else AtLog rc frag_pieces))
  | AtNext rc start_iter frag_pieces n => Some (
      let start_iter := live_next q start_iter in
      Ret (AtTest rc start_iter (live_address q start_iter) frag_pieces n))
  | AtLog rc frag_pieces => Some (
      front_element ← deref (live_front q);
      last_element ← deref (live_back q);
      _ ← live_read q front_element;
      _ ← live_read q last_element;
      Ret (AtCopy rc frag_pieces))
  | AtCopy rc frag_pieces => Some (data ← copy_fragment q frag_pieces; Ret (Answer rc data))
  | Answer _ _ => None
  end.

Definition answered (pl : place T N B) : bool := match pl with Answer _ _ => true | _ => false end.
End request.

(** The frames of a window. *)
Definition frames_in {T : Type} `{ReadoutType T} (w : window) (c : list T) : list (FrameType T) :=
  base.filter (in_window (window_begin w) (window_end w)) (concat (frames <$> c)).

Lemma frames_in_app {T : Type} `{ReadoutType T} w (c1 c2 : list T) :
  frames_in w (c1 ++ c2) = frames_in w c1 ++ frames_in w c2.
Proof. unfold frames_in. by rewrite fmap_app, concat_app, filter_app. Qed.

Lemma frames_in_cons {T : Type} `{ReadoutType T} w x (c : list T) :
  frames_in w (x :: c) = base.filter (in_window (window_begin w) (window_end w)) (frames x) ++ frames_in w c.
Proof. unfold frames_in. by rewrite fmap_cons, <- filter_app. Qed.

(** A window that does not start within an element of zero. *)
Definition valid_window {T : Type} `{ReadoutType T} (w : window) : Prop :=
  element_ticks T <= window_begin w <= UINT64_MAX /\ window_begin w <= window_end w.

Lemma all_fit_sublist {T : Type} `{ReadoutType T} (h h' : list T) : sublist h h' -> all_fit h' -> all_fit h.
Proof. unfold all_fit. rewrite !Forall_forall. intros Hs Hf x Hx. apply Hf. by eapply elem_of_sublist. Qed.

Section windows.
Context {T : Type} `{ReadoutLaws T} (w : window) (Hw : valid_window (T:=T) w).

Lemma window_bounds :
  expected_tick_difference T <= element_ticks T <= window_begin w /\ 0 < element_ticks T
  /\ window_begin w <= UINT64_MAX /\ window_begin w <= window_end w.
Proof.
  destruct Hw as [? ?]. pose proof (tick_pos (T:=T)). pose proof (num_frames_pos (T:=T)).
  unfold element_ticks in *. nia.
Qed.

Lemma request_key_timestamp : get_timestamp (request_key (T:=T) w) = window_begin w - element_ticks T.
Proof.
  pose proof window_bounds. unfold request_key. rewrite element_ticks_of. unfold UINT64_MAX in *. machine.
  apply get_set_timestamp. unfold UINT64_MAX. lia.
Qed.
End windows.

(** ** The pieces and what they point to *)
Section pointers.
Context {T Q N B : Type} `{ReadoutLaws T} `{!LiveBuffer T Q N B}.
Implicit Types (q : Q) (w : window) (node : N) (v : list (N * T)).

Lemma copy_app q ptrs1 ptrs2 :
  copy_fragment q (ptrs1 ++ ptrs2) =
  (l1 ← copy_fragment q ptrs1; l2 ← copy_fragment q ptrs2; Ret (l1 ++ l2)).
Proof.
  induction ptrs1 as [|ptr ptrs1 IH]; cbn.
  - by destruct (copy_fragment q ptrs2).
  - rewrite IH. destruct (fetch q ptr); try done. cbn. destruct (copy_fragment q ptrs1); try done. cbn.
    destruct (copy_fragment q ptrs2); try done. cbn. by rewrite app_assoc.
Qed.

(** The frames picked one by one. *)
Lemma copy_frames q node x (size : Z) (P : FrameType T -> Prop) `{!forall f, Decision (P f)} :
  live_read q node = Ret x ->
  copy_fragment q ((fun kf => FrameAt node kf.1 size) <$> base.filter (fun kf => P kf.2) (imap pair (frames x)))
  = Ret (base.filter P (frames x)).
Proof.
  intros Hx.
  assert (Hgen : forall (n : nat) fs, (forall i f, fs !! i = Some f -> frames x !! (n + i)%nat = Some f) ->
    copy_fragment q ((fun kf => FrameAt node kf.1 size) <$>
      base.filter (fun kf => P kf.2) (imap (fun i f => ((n + i)%nat, f)) fs)) = Ret (base.filter P fs)).
  { intros n fs. revert n. induction fs as [|f fs IH]; intros n Hfs; [done|]. cbn [imap].
    rewrite !filter_cons. cbn [snd].
    assert (Hrest : copy_fragment q ((fun kf => FrameAt node kf.1 size) <$>
      base.filter (fun kf => P kf.2) (imap ((fun i f => ((n + i)%nat, f)) ∘ S) fs)) = Ret (base.filter P fs)).
    { rewrite <- (IH (S n)).
      - do 3 f_equal. apply imap_ext. intros i g _. cbn. by rewrite Nat.add_succ_r.
      - intros i g Hg. rewrite Nat.add_succ_comm. by apply Hfs. }
    case_decide as Hf; [|done].
    rewrite fmap_cons. cbn [copy_fragment fetch fst]. rewrite Hx. outcome.
    specialize (Hfs 0%nat f eq_refl). rewrite Nat.add_0_r in Hfs. rewrite Nat.add_0_r, Hfs. cbn [deref]. outcome.
    by rewrite Hrest. }
  apply (Hgen 0%nat). done.
Qed.

Lemma copy_element q w node x :
  live_read q node = Ret x ->
  copy_fragment q (element_pointers w node x)
  = Ret (concat (piece_frames <$> element_pieces (window_begin w) (window_end w) x)).
Proof.
  intros Hx. unfold element_pointers, element_pieces. destruct (_ <=? _); [done|].
  destruct (_ && _).
  - rewrite concat_piece_frames_single.
    etrans; [|apply (copy_frames q node x (get_frame_size x) (fun f =>
      u64 (window_begin w - expected_tick_difference T) < frame_timestamp f
      /\ frame_timestamp f < window_end w) Hx)].
    done.
  - cbn. by rewrite Hx.
Qed.

(** The pieces of some elements, with the places they are in. *)
Definition pieces_at w v : list (pointer N) := concat ((fun nx => element_pointers w nx.1 nx.2) <$> v).

Lemma pieces_at_app w v1 v2 : pieces_at w (v1 ++ v2) = pieces_at w v1 ++ pieces_at w v2.
Proof. unfold pieces_at. by rewrite fmap_app, concat_app. Qed.

Lemma pieces_at_snoc w v node x : pieces_at w (v ++ [(node, x)]) = pieces_at w v ++ element_pointers w node x.
Proof. rewrite pieces_at_app. unfold pieces_at at 2. cbn. by rewrite app_nil_r. Qed.

(** An element that ends before the window adds none. *)
Lemma pieces_at_early w v :
  Forall (fun nx => get_timestamp nx.2 + element_ticks T <= UINT64_MAX /\ get_timestamp nx.2 + element_ticks T <= window_begin w) v ->
  pieces_at w v = [].
Proof.
  induction 1 as [|[node x] v [Hx He] _ IH]; [done|]. unfold pieces_at in *. cbn in *. rewrite IH, app_nil_r.
  unfold element_pointers. rewrite element_end_fit by done.
  by destruct (Z.leb_spec (get_timestamp x + element_ticks T) (window_begin w)); [|lia].
Qed.

(** The fragment made from the pieces of elements that are still in their places. *)
Lemma copy_pieces_at q w v :
  valid_window (T:=T) w ->
  Forall (fun nx => live_read q nx.1 = Ret nx.2 /\ get_timestamp nx.2 + element_ticks T <= UINT64_MAX /\ get_timestamp nx.2 < window_end w) v ->
  copy_fragment q (pieces_at w v) = Ret (frames_in w v.*2).
Proof.
  intros Hw. pose proof (window_bounds w Hw) as Hb. induction 1 as [|[node x] v (Hx & Hfit & Hlt) _ IH]; [done|].
  change (pieces_at w ((node, x) :: v)) with (element_pointers w node x ++ pieces_at w v).
  rewrite copy_app, (copy_element q w node x Hx). outcome. rewrite IH. outcome.
  rewrite element_pieces_frames by (done || lia). by rewrite fmap_cons, frames_in_cons.
Qed.
End pointers.

(** ** What the buffer promises to the requests that read it

    [h] is the history of the buffer, all it has accepted; [before] and [held] are that
    history and the contents when a request began.  [live_inv] is what holds between two
    operations; [live_running] what a request may rely on where it is, whatever is written
    meanwhile; [live_honest] what its answer says.  [live_turns] bounds the accesses it
    still takes, and a write adds at most [live_growth]. *)
Class LiveLaws (T Q N B : Type) `{ReadoutLaws T} `{!LiveBuffer T Q N B} := {
  live_accepts : list T -> Prop;
  live_inv : Q -> list T -> Prop;
  live_running : Q -> list T -> list T -> list T -> window -> place T N B -> Prop;
  live_honest : window -> list T -> list T -> list T -> ResultCode -> list (FrameType T) -> Prop;
  live_turns : Q -> window -> place T N B -> nat;
  live_growth : nat;
  live_accepts_sublist h h' : sublist h h' -> live_accepts h' -> live_accepts h;
  live_begin q h w :
    live_inv q h -> valid_window (T:=T) w -> live_running q h h (live_elements q) w AtOccupancy;
  live_write_spec q h x : live_inv q h -> live_accepts (h ++ [x]) ->
    exists b q', live_write x q = Ret (b, q')
      /\ let h' := if b : bool then h ++ [x] else h in
         live_inv q' h'
         /\ forall before held w pl, live_running q h before held w pl ->
              live_running q' h' before held w pl
              /\ (live_turns q' w pl <= live_turns q w pl + live_growth)%nat;
  live_turn q h before held w pl :
    live_inv q h -> valid_window (T:=T) w -> live_running q h before held w pl ->
    answered pl = true \/ exists pl', request_step q w pl = Some (Ret pl')
      /\ live_running q h before held w pl' /\ (live_turns q w pl' < live_turns q w pl)%nat;
  live_answer_honest q h before held w rc data :
    live_inv q h -> live_running q h before held w (Answer rc data) -> live_honest w before held h rc data;
  live_honest_grows w before held h x rc data :
    live_honest w before held h rc data -> live_honest w before held (h ++ [x]) rc data }.
#[export] Hint Mode LiveLaws ! - - - - - - : typeclass_instances.
