(* ===== verification/Float32.v ===== *)
(** The single-precision arithmetic of the auto-pop settings (binary32, round to
    nearest even), on the specification floats of the Standard Library. *)
From Stdlib Require Export SpecFloat.
From S2P Require Import Prelude.

Definition float32 : Type := spec_float.

Definition f32_mul (x y : float32) : float32 := SFmul 24 128 x y.

Definition f32_sub (x y : float32) : float32 := SFsub 24 128 x y.

(** [x < y]; false when either is a NaN. *)
Definition f32_ltb (x y : float32) : bool := SFltb x y.

(** The conversion of an integer. *)
Definition f32_of_Z (n : Z) : float32 := binary_normalize 24 128 n 0 false.

(** A conversion to an unsigned type of values below [bound]: the fraction is
    dropped, and a value out of range is undefined. *)
Definition f32_to_unsigned (bound : Z) (x : float32) : outcome Z :=
  match x with
  | S754_zero _ => Ret 0
  | S754_finite s m e =>
      let n := if 0 <=? e then Z.shiftl (Zpos m) e else Z.shiftr (Zpos m) (- e) in
      if s then (if n =? 0 then Ret 0 else Undefined)
      else if n <? bound then Ret n else Undefined
  | _ => Undefined
  end.

Lemma f32_to_unsigned_range bound x n :
  0 < bound -> f32_to_unsigned bound x = Ret n -> 0 <= n < bound.
Proof.
  intros Hb. unfold f32_to_unsigned. destruct x as [s|s| |s m e]; try done; [intros [= <-]; lia|].
  assert (0 <= (if 0 <=? e then Z.shiftl (Zpos m) e else Z.shiftr (Zpos m) (- e)))
    by (destruct (0 <=? e); [apply Z.shiftl_nonneg|apply Z.shiftr_nonneg]; lia).
  destruct s; [destruct (_ =? _); [intros [= <-]; lia|done]|].
  destruct (Z.ltb_spec (if 0 <=? e then Z.shiftl (Zpos m) e else Z.shiftr (Zpos m) (- e)) bound);
    [intros [= <-]; lia|done].
Qed.
