(* ===== verification/TestUtilities.v ===== *)
(** testutils/TestUtilities.hpp: the checks of the repository for latency buffers and for
    the search of windows, as functions that return what every check says. *)
From S2P Require Import Prelude IterableQueue ReadoutTypes LatencyBuffer BinarySearchQueue FixedRateQueue SkipListBuffer.
From S2P Require Import FrameErrorRegistry FragmentSearch Float32.

(** *** Division of timestamps by way of [float] *)

Definition f32_div (x y : float32) : float32 := SFdiv 24 128 x y.

(** [std::floor] and [std::ceil] of a [float], but for the sign of a zero. *)
Definition f32_floor (x : float32) : float32 :=
  match x with
  | S754_finite s m e => if 0 <=? e then x else f32_of_Z (Z.shiftr (cond_Zopp s (Zpos m)) (- e))
  | _ => x
  end.

Definition f32_ceil (x : float32) : float32 :=
  match x with
  | S754_finite s m e => if 0 <=? e then x else f32_of_Z (- Z.shiftr (- cond_Zopp s (Zpos m)) (- e))
  | _ => x
  end.

(** The frame a timestamp falls in, and the one after the frame that ends there. *)
Definition float_floor (t ticks : Z) : outcome Z :=
  f32_to_unsigned 18446744073709551616 (f32_floor (f32_div (f32_of_Z t) (f32_of_Z ticks))).

Definition float_ceil (t ticks : Z) : outcome Z :=
  f32_to_unsigned 18446744073709551616 (f32_ceil (f32_div (f32_of_Z t) (f32_of_Z ticks))).

Section tests.
Context {T B It : Type} `{RT : ReadoutType T} `{LB : LatencyBuffer T B It}.

(** [fake_timestamps] of a TypeAdapter; [std::make_shared] of a buffer and [allocate_memory]. *)
Context (fake_timestamps : Z -> T -> T) (make_buffer : Z -> outcome B).
Implicit Types (b : B).

(** ** [fill_buffer] *)

Fixpoint fill_loop (fuel : nat) (obj_to_skip : gset Z) (n_obj i i_obj next_timestamp : Z) b : outcome B :=
  if i_obj <? n_obj then
    match fuel with
    | O => OutOfFuel
    | S fuel =>
        let frame := fake_timestamps next_timestamp (default_element T) in
        let next_timestamp := u64 (next_timestamp + u64 (get_num_frames frame * expected_tick_difference T)) in
        if bool_decide (i ∈ obj_to_skip) then fill_loop fuel obj_to_skip n_obj (u64 (i + 1)) i_obj next_timestamp b
        else
          '(_, b) ← lb_write frame b;
          fill_loop fuel obj_to_skip n_obj (u64 (i + 1)) (u64 (i_obj + 1)) next_timestamp b
    end
  else Ret b.

(** Every object is stored or skipped, so that many turns are enough. *)
Definition fill_fuel (n_obj : Z) (obj_to_skip : gset Z) : nat := (Z.to_nat n_obj + size obj_to_skip)%nat.

Definition fill_buffer (init_timestamp n_obj : Z) (obj_to_skip : gset Z) : outcome B :=
  b ← make_buffer n_obj;
  fill_loop (fill_fuel n_obj obj_to_skip) obj_to_skip n_obj 0 0 init_timestamp b.

(** ** [print_buffer]: the timestamps of the message *)

Fixpoint print_loop (fuel : nat) b (iter : It) : outcome (list Z) :=
  if lb_eqb iter lb_end then Ret []
  else match fuel with
  | O => OutOfFuel
  | S fuel =>
      x ← lb_deref b iter;
      l ← print_loop fuel b (lb_next b iter);
      Ret (get_timestamp x :: l)
  end.

Definition print_buffer b : outcome (list Z) := print_loop (Z.to_nat (lb_occupancy b)) b (lb_begin b).

(** ** [test_queue_model] *)

Fixpoint scan_loop (fuel : nat) b (scan_el prev_el return_el : It) : outcome It :=
  if lb_eqb scan_el return_el then Ret prev_el
  else match fuel with
  | O => OutOfFuel
  | S fuel =>
      let scan_el := lb_next b scan_el in
      if lb_eqb scan_el return_el then Ret prev_el
      else scan_loop fuel b scan_el (lb_next b prev_el) return_el
  end.

(** What its three checks say. *)
Definition test_lower_bound b (test_ts expected_idx : Z) (with_errors : bool) : outcome (list bool) :=
  let test_element := set_timestamp test_ts (default_element T) in
  let expected_el := Nat.iter (Z.to_nat expected_idx) (lb_next b) (lb_begin b) in
  return_el ← lb_lower_bound b test_element with_errors;
  prev_el ← scan_loop (Z.to_nat (lb_occupancy b)) b (lb_begin b) (lb_begin b) return_el;
  expected ← lb_deref b expected_el;
  returned ← lb_deref b return_el;
  prev ← lb_deref b prev_el;
  Ret [get_timestamp expected =? get_timestamp returned; test_ts <=? get_timestamp returned;
       (get_timestamp prev <? test_ts) || lb_eqb return_el (lb_begin b)].

Fixpoint test_lower_bounds b (with_errors : bool) (tests : list (Z * Z)) : outcome (list bool) :=
  match tests with
  | [] => Ret []
  | (test_ts, expected_idx) :: tests =>
      r ← test_lower_bound b test_ts expected_idx with_errors;
      rs ← test_lower_bounds b with_errors tests;
      Ret (r ++ rs)
  end.

Definition test_queue_model : outcome (list bool) :=
  let ticks_between := u64 (expected_tick_difference T * get_num_frames (default_element T)) in
  let ticks n := u64 (ticks_between * n) in
  buffer_noskip ← fill_buffer 0 10 ∅;
  _ ← print_buffer buffer_noskip;
  r1 ← test_lower_bounds buffer_noskip false [(ticks 2, 2)];
  r2 ← (if 1 <? ticks_between
        then test_lower_bounds buffer_noskip false [(ticks 5 / 2, 3); (u64 (ticks_between + 1), 2)] else Ret []);
  buffer_skip ← fill_buffer 0 10 {[2; 3]};
  _ ← print_buffer buffer_skip;
  r3 ← test_lower_bounds buffer_skip true [(ticks 2, 2); (ticks 3, 2); (ticks_between, 1); (ticks 4, 2)];
  r4 ← (if 1 <? ticks_between
        then test_lower_bounds buffer_skip true
               [(ticks 3 / 2, 2); (ticks 5 / 2, 2); (ticks 7 / 2, 2); (ticks 1 / 2, 1); (ticks 9 / 2, 3);
                (ticks 11 / 2, 4); (u64 (ticks_between + 1), 2); (u64 (ticks 2 + 1), 2); (1, 1)]
        else Ret []);
  Ret (r1 ++ r2 ++ r3 ++ r4).

(** ** [test_request_model] *)

(** [sizeof(TypeAdapter::FrameType)] *)
Context (sizeof_FrameType : Z).

Definition piece_size (p : piece T) : Z := match p with WholeElement _ size | SingleFrame _ size => size end.

(** The frame [offset] bytes after a pointer of the fragment. *)
Definition frame_at (p : piece T) (offset : Z) : outcome (FrameType T) :=
  if (offset <? 0) || negb (offset mod sizeof_FrameType =? 0) then Undefined
  else deref (match p with WholeElement x _ => frames x | SingleFrame f _ => [f] end
              !! Z.to_nat (offset / sizeof_FrameType)).

(** The object a timestamp belongs to is among those skipped. *)
Definition skipped (ticks_between : Z) (objects_skipped : gset Z) (ts : Z) : bool :=
  bool_decide (u64 (ts - ts mod ticks_between) / ticks_between ∈ objects_skipped).

Fixpoint start_loop (fuel : nat) (ticks_per_frame ticks_between : Z) (objects_skipped : gset Z)
    (expected_start expected_end : Z) : outcome Z :=
  if skipped ticks_between objects_skipped expected_start && (expected_start <? expected_end) then
    match fuel with
    | O => OutOfFuel
    | S fuel => start_loop fuel ticks_per_frame ticks_between objects_skipped
                  (u64 (expected_start + ticks_per_frame)) expected_end
    end
  else Ret expected_start.

(** The object of the end is computed once: the loop assigns [expected_start_obj] instead. *)
Fixpoint end_loop (fuel : nat) (end_skipped : bool) (ticks_per_frame expected_start expected_end : Z) : outcome Z :=
  if end_skipped && (u64 (expected_start + ticks_per_frame) <? expected_end) then
    match fuel with
    | O => OutOfFuel
    | S fuel => end_loop fuel end_skipped ticks_per_frame expected_start (u64 (expected_end - ticks_per_frame))
    end
  else Ret expected_end.

(** What its checks say, up to the first required one that does not hold. *)
Definition test_req_bounds b (start_win end_win : Z) (objects_skipped : gset Z) : outcome (list bool) :=
  let n_frames := get_num_frames (default_element T) in
  let ticks_per_frame := expected_tick_difference T in
  let ticks_between := u64 (ticks_per_frame * n_frames) in
  '(ret, result_code) ← get_fragment_pieces b ∅ start_win end_win kUnknown;
  let found := bool_decide (result_code = kFound) in
  first ← deref (head ret);
  if piece_size first <=? 0 then Ret [found; false]
  else
    last_piece ← deref (last ret);
    if piece_size last_piece <=? 0 then Ret [found; true; false]
    else
      first_frame ← frame_at first 0;
      last_frame ← frame_at last_piece (if n_frames =? 1 then 0 else piece_size last_piece - sizeof_FrameType);
      let first_ts := frame_timestamp first_frame in
      let last_ts := frame_timestamp last_frame in
      let all := bool_decide (objects_skipped = ∅) in
      start_frame ← float_floor start_win ticks_per_frame;
      end_frame ← float_ceil end_win ticks_per_frame;
      let expected_start := u64 (expected_tick_difference T * start_frame) in
      let expected_end := u64 (expected_tick_difference T * end_frame) in
      let fuel := Z.to_nat (expected_end / ticks_per_frame) in
      expected_start ← start_loop fuel ticks_per_frame ticks_between objects_skipped expected_start expected_end;
      expected_end ← end_loop fuel
        (skipped ticks_between objects_skipped (u64 (expected_end - ticks_per_frame)))
        ticks_per_frame expected_start expected_end;
      Ret ([found; true; true]
           ++ (if all then [first_ts <=? start_win] else [])
           ++ [start_win <? u64 (first_ts + ticks_per_frame); last_ts <? end_win]
           ++ (if all then [end_win <=? u64 (last_ts + ticks_per_frame)] else [])
           ++ [first_ts =? expected_start; u64 (last_ts + expected_tick_difference T) =? expected_end]).

Fixpoint test_windows b (objects_skipped : gset Z) (windows : list (Z * Z)) : outcome (list bool) :=
  match windows with
  | [] => Ret []
  | (start_win, end_win) :: windows =>
      r ← test_req_bounds b start_win end_win objects_skipped;
      rs ← test_windows b objects_skipped windows;
      Ret (r ++ rs)
  end.

Definition test_request_model : outcome (list bool) :=
  let n_frames := u64 (get_num_frames (default_element T)) in
  let ticks_between := u64 (u64 (expected_tick_difference T) * n_frames) in
  let ticks n := u64 (ticks_between * n) in
  buffer_noskip ← fill_buffer 0 10 ∅;
  _ ← print_buffer buffer_noskip;
  r1 ← test_windows buffer_noskip ∅
         [(ticks 2, ticks 5); (ticks 3 / 2, ticks 9 / 2); (ticks 11 / 5, ticks 21 / 5); (u64 (ticks 2 + 1), u64 (ticks 5 + 1))];
  buffer_skip ← fill_buffer 0 10 {[2; 3]};
  _ ← print_buffer buffer_skip;
  r2 ← test_windows buffer_skip {[2; 3]}
         ([(ticks 2, ticks 5); (ticks 3 / 2, ticks 9 / 2)]
          ++ (if u64 (4 * ticks_between) <? ticks 21 / 5 then [(ticks 11 / 5, ticks 21 / 5)] else [])
          ++ [(u64 (ticks 2 + 1), u64 (ticks 5 + 1))]);
  Ret (r1 ++ r2).
End tests.

(** ** The contract the tests rely on

    A write adds a newest element while there are places; the iteration reaches [end()]. *)
Class TestedLaws (T B It : Type) `{LatencyBufferLaws T B It} := {
  lb_places : B -> nat;
  lb_append_spec b c x : lb_model b c -> increasing (c ++ [x]) -> Z.of_nat (length c) < INT_MAX ->
    exists ok b', lb_write x b = Ret (ok, b') /\ lb_places b' = lb_places b
      /\ lb_model b' (if decide (length c < lb_places b)%nat then c ++ [x] else c);
  lb_begin_end b : lb_model b [] -> lb_eqb (lb_begin b) lb_end = true;
  lb_next_end b c it x : lb_rest b c it [x] -> lb_eqb (lb_next b it) lb_end = true }.

Section rings.
Context {T : Type} `{ReadoutLaws T} `{!TimestampOrder T} (p : platform).

(** Rings have it, whatever their [lower_bound]. *)
Definition queue_tested search searchable Hincr Hsearch :
  TestedLaws T (queue T) Z (H0 := queue_laws p search searchable Hincr Hsearch).
Proof.
  refine (Build_TestedLaws T (queue T) Z _ _ (queue_laws p search searchable Hincr Hsearch)
            (fun q => Z.to_nat (size_ q - 1)) _ _ _); cbn.
  - intros q c x Hq _ _. pose proof (repr_length q c Hq). case_decide.
    + destruct (write_room q c x Hq) as (q' & -> & Hq' & Hs & _); [lia|]. do 2 eexists. by rewrite Hs.
    + destruct (write_full q c x Hq) as [-> Hq']; [lia|]. by do 2 eexists.
  - intros q Hq. unfold iter_begin. pose proof (isEmpty_repr q [] Hq) as He. unfold isEmpty in He.
    rewrite He. by rewrite bool_decide_true.
  - intros q c it x Hr. apply iter_rest_cons in Hr as [_ Hr]. apply iter_rest_good in Hr.
    rewrite bool_decide_false in Hr by auto. unfold iter_next in *.
    destruct (iter_good q (if iter_good q it then _ else it)) eqn:Eg; cbn [negb] in *; [congruence|done].
Defined.
End rings.

Section skip_list.
Context {T S N : Type} `{ReadoutLaws T} `{!TimestampOrder T} `{!SkipList T S N} `{!SkipListLaws T S N}.

(** A skip list takes elements up to the number an [int] counts. *)
Definition skip_list_tested : TestedLaws T S N (H0 := skip_list_laws).
Proof.
  refine (Build_TestedLaws T S N _ skip_list_buffer skip_list_laws (fun _ => Z.to_nat INT_MAX) _ _ _); cbn.
  - intros s c x Hs Hi Hlen. rewrite decide_True by lia. unfold write.
    assert (E : ordered_insert x c = (true, c ++ [x])).
    { clear Hs Hlen. induction c as [|y c IH]; [done|]. cbn [app] in *.
      apply increasing_cons in Hi as [Hy Hi]. specialize (Hy x ltac:(apply elem_of_app; right; by left)).
      rewrite ordered_insert_cons. destruct (Z.ltb_spec (get_timestamp x) (get_timestamp y)); [lia|].
      destruct (Z.eqb_spec (get_timestamp x) (get_timestamp y)); [lia|]. by rewrite (IH Hi). }
    pose proof (sl_insert_spec s c x Hs) as Hins. rewrite E in Hins. cbn [fst snd] in Hins.
    destruct Hins as [_ Hm]; [rewrite length_app; cbn [length]; lia|].
    destruct (sl_insert x s) as [ok s']. by exists ok, s'.
  - intros s Hs. eapply sl_done_spec. by apply sl_begin_spec.
  - intros s c n x Hr. apply sl_step_spec in Hr as [_ Hr]. by eapply sl_done_spec.
Defined.
End skip_list.

(** ** The tests on any buffer with the contract *)
Section correct.
Context {T B It : Type} `{RT : ReadoutType T} `{!ReadoutLaws T} `{LB : LatencyBuffer T B It}
  `{!LatencyBufferLaws T B It} `{!TestedLaws T B It}.
Context (fake_timestamps : Z -> T -> T) (make_buffer : Z -> outcome B).
Implicit Types (b : B) (c : list T).

(** The first frame gets the timestamp; a new buffer is empty. *)
Definition fakes : Prop :=
  forall t x, 0 <= t <= UINT64_MAX -> get_timestamp (fake_timestamps t x) = t.

(** *** What is stored *)

(** The object number [i]. *)
Definition object (i : Z) : T := fake_timestamps (i * element_ticks T) (default_element T).

(** The objects from number [i] on, [n] of them, without those to skip. *)
Fixpoint objects (fuel : nat) (obj_to_skip : gset Z) (i n : Z) : list Z :=
  match fuel with
  | O => []
  | S fuel =>
      if 0 <? n then
        if bool_decide (i ∈ obj_to_skip) then objects fuel obj_to_skip (i + 1) n
        else i :: objects fuel obj_to_skip (i + 1) (n - 1)
      else []
  end.

Lemma fill_loop_objects (fuel : nat) skip (n i i_obj : Z) b c :
  fakes -> lb_model b c -> (length c <= lb_places b)%nat ->
  0 <= i -> 0 <= i_obj <= n -> n <= 12 -> i + Z.of_nat fuel <= 12 -> 12 * element_ticks T <= UINT64_MAX ->
  increasing (c ++ (object <$> objects fuel skip i (n - i_obj))) ->
  (Z.of_nat (length c) <= i) ->
  Z.of_nat (length (objects fuel skip i (n - i_obj))) = n - i_obj ->
  exists b', fill_loop fake_timestamps fuel skip n i i_obj (i * element_ticks T) b = Ret b'
    /\ lb_model b' (take (lb_places b) (c ++ (object <$> objects fuel skip i (n - i_obj)))).
Proof.
  intros Hfake. revert i i_obj b c. induction fuel as [|fuel IH]; intros i i_obj b c Hb Hroom Hi Ho Hn Hfuel Ht Hinc Hlen Hobj;
    cbn [fill_loop objects] in *.
  { destruct (Z.ltb_spec i_obj n); [cbn in Hobj; lia|]. exists b. split; [done|]. cbn. by rewrite app_nil_r, take_ge. }
  destruct (Z.ltb_spec i_obj n) as [Hlt|Hge]; destruct (Z.ltb_spec 0 (n - i_obj)); try lia.
  2:{ exists b. split; [done|]. cbn. by rewrite app_nil_r, take_ge. }
  pose proof (element_ticks_bounds (T:=T)) as Hb1. unfold UINT64_MAX, INT_MAX in *.
  rewrite (element_ticks_of (fake_timestamps _ _)). rewrite (u64_small (element_ticks T)) by lia.
  rewrite (u64_small (i * element_ticks T + element_ticks T)) by nia.
  replace (i * element_ticks T + element_ticks T) with ((i + 1) * element_ticks T) by lia.
  rewrite !u64_small by lia. fold (object i).
  destruct (bool_decide (i ∈ skip)).
  { apply IH; try done; lia. }
  rewrite fmap_cons, cons_middle, app_assoc in Hinc |- *.
  destruct (lb_append_spec b c (object i) Hb) as (ok & b' & Hw & Hp & Hb').
  { eapply increasing_sublist; [|exact Hinc]. by apply sublist_inserts_r. }
  { unfold INT_MAX. lia. }
  rewrite Hw. outcome. replace (n - i_obj - 1) with (n - (i_obj + 1)) in * by lia. case_decide as Hd.
  - destruct (IH (i + 1) (i_obj + 1) b' (c ++ [object i])) as (b2 & -> & Hb2); try done; try lia.
    + rewrite length_app, Hp. cbn [length]. lia.
    + rewrite length_app. cbn [length]. lia.
    + cbn [length] in Hobj. lia.
    + exists b2. split; [done|]. by rewrite <- Hp.
  - destruct (IH (i + 1) (i_obj + 1) b' c) as (b2 & -> & Hb2); try done; try lia.
    + eapply increasing_sublist; [|exact Hinc]. apply sublist_app; [|done]. by apply sublist_inserts_r.
    + cbn [length] in Hobj. lia.
    + exists b2. split; [done|]. rewrite Hp in Hb2. rewrite take_app_ge in Hb2 by lia.
      rewrite <- app_assoc, take_app_ge by lia. by replace (lb_places b - length c)%nat with 0%nat in * by lia.
Qed.

(** *** What every test says *)

Lemma iter_rest_drop b c (j : nat) :
  lb_model b c -> (j <= length c)%nat -> lb_rest b c (Nat.iter j (lb_next b) (lb_begin b)) (drop j c).
Proof.
  intros Hb. induction j as [|j IH]; intros Hj; [by apply lb_begin_spec|].
  destruct (lookup_lt_is_Some_2 c j ltac:(lia)) as [x Hx].
  specialize (IH ltac:(lia)). rewrite (drop_S c x j Hx) in IH. by apply lb_step_spec in IH as [_ IH].
Qed.

Lemma print_loop_rest (fuel : nat) b c it x rest :
  lb_rest b c it (x :: rest) -> (S (length rest) <= fuel)%nat ->
  print_loop fuel b it = Ret (get_timestamp <$> (x :: rest)).
Proof.
  revert it x rest. induction fuel as [|fuel IH]; intros it x rest Hr Hf; [lia|]. cbn [print_loop].
  rewrite (lb_end_spec b c it (x :: rest) Hr) by done. pose proof Hr as Hr0.
  apply lb_step_spec in Hr as [-> Hr]. outcome. destruct rest as [|y rest].
  - destruct fuel; cbn [print_loop]; by rewrite (lb_next_end b c it x Hr0).
  - rewrite (IH (lb_next b it) y rest) by (done || cbn in Hf; lia). by outcome.
Qed.

(** The message has all the timestamps. *)
Lemma print_buffer_all b c : lb_model b c -> print_buffer b = Ret (get_timestamp <$> c).
Proof.
  intros Hb. unfold print_buffer. rewrite (lb_occupancy_spec b c Hb), Nat2Z.id. destruct c as [|x c].
  - cbn [length print_loop]. by rewrite (lb_begin_end b Hb).
  - apply (print_loop_rest _ b (x :: c)); [by apply lb_begin_spec|done].
Qed.

Lemma scan_loop_prev (fuel : nat) b c (j idx : nat) return_el :
  lb_model b c -> lb_rest b c return_el (drop idx c) -> (idx < length c)%nat -> (j <= idx)%nat -> (idx - j <= fuel)%nat ->
  let at_ i := Nat.iter i (lb_next b) (lb_begin b) in
  scan_loop fuel b (at_ j) (at_ j) return_el = Ret (at_ (if decide (j = idx) then idx else pred idx)).
Proof.
  intros Hb Hret Hidx. cbn zeta.
  assert (Heq : forall i, (i <= idx)%nat ->
    lb_eqb (Nat.iter i (lb_next b) (lb_begin b)) return_el = bool_decide (i = idx)).
  { intros i Hi. assert (Hne : drop idx c <> []).
    { intros E. apply (f_equal length) in E. rewrite length_drop in E. cbn in E. lia. }
    rewrite (lb_eqb_spec b c _ return_el (drop i c) (drop idx c)) by (done || apply iter_rest_drop; (done || lia)).
    apply bool_decide_ext. rewrite !length_drop. lia. }
  revert j. induction fuel as [|fuel IH]; intros j Hj Hf; cbn [scan_loop]; rewrite (Heq j Hj).
  - rewrite bool_decide_true by lia. rewrite decide_True by lia. by replace j with idx by lia.
  - case_bool_decide as Hj'; [by rewrite decide_True by done; subst|]. rewrite decide_False by done.
    change (lb_next b (Nat.iter j (lb_next b) (lb_begin b))) with (Nat.iter (S j) (lb_next b) (lb_begin b)).
    rewrite Heq by lia. case_bool_decide as Hs; [by subst|]. rewrite IH by lia. by rewrite decide_False by done.
Qed.

(** The lower bound of [test_ts] is the element [idx]. *)
Definition bounded_by c (test_ts : Z) (idx : nat) : Prop :=
  (exists x, c !! 0%nat = Some x /\ get_timestamp x <= test_ts <= UINT64_MAX)
  /\ (exists x, c !! idx = Some x /\ test_ts <= get_timestamp x)
  /\ forall i x, (i < idx)%nat -> c !! i = Some x -> get_timestamp x < test_ts.

Lemma test_lower_bound_passes b c (test_ts : Z) (idx : nat) (e : bool) :
  lb_model b c -> lb_searchable e c -> bounded_by c test_ts idx ->
  test_lower_bound b test_ts (Z.of_nat idx) e = Ret [true; true; true].
Proof.
  intros Hb Hs ((z & Hz & Hzt & Hmax) & (x & Hx & Hxt) & Hlt). unfold test_lower_bound.
  pose proof (timestamp_range z). pose proof (lookup_lt_Some _ _ _ Hx) as Hidx.
  destruct (lb_lower_bound_spec b c (set_timestamp test_ts (default_element T)) e Hb Hs) as (it & -> & Hr).
  { by intros ->. }
  outcome. rewrite get_set_timestamp in Hr by lia.
  assert (Hfrom : from_timestamp test_ts c = drop idx c).
  { apply from_timestamp_drop; [intros i y Hy Hi; by apply (Hlt i)|]. intros y Hy. rewrite Hx in Hy. by injection Hy as <-. }
  replace (if lb_finds_older then _ else _) with (drop idx c) in Hr.
  2:{ rewrite <- Hfrom. destruct lb_finds_older; [done|]. destruct c as [|z' c]; [done|]. injection Hz as ->.
      cbn [search_queue]. destruct (Z.ltb_spec test_ts (get_timestamp z)); [lia|done]. }
  rewrite (lb_occupancy_spec b c Hb), !Nat2Z.id.
  set (k := if decide (0%nat = idx) then idx else pred idx).
  assert (Hscan : scan_loop (length c) b (lb_begin b) (lb_begin b) it
    = Ret (Nat.iter k (lb_next b) (lb_begin b)))
    by (apply (scan_loop_prev (length c) b c 0 idx it Hb Hr Hidx); lia).
  rewrite Hscan. outcome.
  pose proof (iter_rest_drop b c idx Hb ltac:(lia)) as Hexp. rewrite (drop_S c x idx Hx) in Hexp, Hr.
  apply lb_step_spec in Hexp as [-> _]. pose proof Hr as Hret. apply lb_step_spec in Hr as [-> _]. outcome.
  assert (Hk : (k < length c)%nat) by (unfold k; case_decide; lia).
  destruct (lookup_lt_is_Some_2 c k Hk) as [y Hy].
  pose proof (iter_rest_drop b c k Hb ltac:(lia)) as Hprev. rewrite (drop_S c y k Hy) in Hprev.
  apply lb_step_spec in Hprev as [-> _]. outcome. rewrite Z.eqb_refl.
  destruct (Z.leb_spec test_ts (get_timestamp x)); [|lia]. do 3 f_equal.
  destruct (decide (0%nat = idx)) as [E|E].
  - subst idx. rewrite (lb_eqb_spec b c it _ (x :: drop 1 c) c Hret (lb_begin_spec b c Hb)) by (by intros ->).
    rewrite bool_decide_true; [by rewrite orb_true_r|]. rewrite <- (drop_S c x 0 Hx). done.
  - unfold k in Hy. pose proof (Hlt (pred idx) y ltac:(lia) Hy).
    destruct (Z.ltb_spec (get_timestamp y) test_ts); [done|lia].
Qed.

Lemma test_lower_bounds_pass b c (e : bool) (tests : list (Z * Z)) :
  lb_model b c -> lb_searchable e c ->
  Forall (fun t => 0 <= t.2 /\ bounded_by c t.1 (Z.to_nat t.2)) tests ->
  exists l, test_lower_bounds b e tests = Ret l /\ Forall (eq true) l /\ length l = (3 * length tests)%nat.
Proof.
  intros Hb Hs. induction 1 as [|[ts idx] tests [Hidx Ht] _ (l & E & Hl & Hlen)]; cbn [test_lower_bounds]; [by exists []|].
  cbn in Hidx, Ht. pose proof (test_lower_bound_passes b c ts (Z.to_nat idx) e Hb Hs Ht) as Hone.
  rewrite Z2Nat.id in Hone by done. rewrite Hone, E. outcome. eexists. split; [reflexivity|].
  split; [by repeat constructor|]. rewrite length_app, Hlen. cbn. lia.
Qed.

(** *** What the filled buffers hold *)

Context (Hfake : fakes) (Hticks : 12 * element_ticks T <= UINT64_MAX).

Lemma object_timestamp (i : Z) : 0 <= i <= 11 -> get_timestamp (object i) = i * element_ticks T.
Proof. intros Hi. pose proof (element_ticks_bounds (T:=T)). apply Hfake. nia. Qed.

(** Numbers of objects, in order. *)
Definition numbers (l : list Z) : Prop :=
  Forall (fun i => 0 <= i <= 11) l /\ forall (a b : nat) i j, l !! a = Some i -> l !! b = Some j -> (a < b)%nat -> i < j.

Lemma objects_increasing l : numbers l -> increasing (object <$> l).
Proof.
  intros [Hr Hl] a b x y Hx Hy Hab. rewrite Forall_lookup in Hr.
  rewrite list_lookup_fmap in Hx, Hy. destruct (l !! a) as [i|] eqn:Hi; [|done]. destruct (l !! b) as [j|] eqn:Hj; [|done].
  injection Hx as <-. injection Hy as <-. rewrite !object_timestamp by eauto.
  pose proof (Hl a b i j Hi Hj Hab). pose proof (element_ticks_bounds (T:=T)). nia.
Qed.

Lemma fill_buffer_objects (skip : gset Z) b (l : list Z) :
  make_buffer 10 = Ret b -> lb_model b [] -> objects (fill_fuel 10 skip) skip 0 10 = l ->
  (fill_fuel 10 skip <= 12)%nat -> length l = 10%nat -> numbers l ->
  exists b', fill_buffer fake_timestamps make_buffer 0 10 skip = Ret b' /\ lb_model b' (take (lb_places b) (object <$> l)).
Proof.
  intros Hb Hm Hl Hfuel Hlen Hn. unfold fill_buffer. rewrite Hb. outcome.
  destruct (fill_loop_objects (fill_fuel 10 skip) skip 10 0 0 b []) as (b' & E & Hb'); rewrite ?Z.sub_0_r, ?Hl;
    try done; try (cbn [length]; lia); [by apply objects_increasing|].
  rewrite Z.sub_0_r, Hl in Hb'. by exists b'.
Qed.

(** The test of a lower bound, in terms of the numbers of the objects. *)
Lemma bounded_objects (places : nat) l (test_ts : Z) (idx : nat) k :
  (9 <= places)%nat -> numbers l -> (idx < 9)%nat -> head l = Some 0 -> l !! idx = Some k ->
  0 <= test_ts <= k * element_ticks T -> Forall (fun i => i * element_ticks T < test_ts) (take idx l) ->
  bounded_by (take places (object <$> l)) test_ts idx.
Proof.
  intros Hp [Hr _] Hidx Hhead Hk Hts Hearly. rewrite Forall_lookup in Hr. rewrite head_lookup in Hhead.
  pose proof (element_ticks_bounds (T:=T)).
  assert (Hlook : forall i m, (i < 9)%nat -> l !! i = Some m -> take places (object <$> l) !! i = Some (object m)).
  { intros i m Hi Hm. rewrite lookup_take_lt by lia. by rewrite list_lookup_fmap, Hm. }
  split; [|split].
  - exists (object 0). split; [by apply Hlook; [lia|]|]. rewrite object_timestamp by lia. pose proof (Hr idx k Hk). nia.
  - exists (object k). split; [by apply Hlook|]. rewrite object_timestamp by (by apply (Hr idx)). lia.
  - intros i x Hi Hx. rewrite lookup_take_lt, list_lookup_fmap in Hx by lia.
    destruct (l !! i) as [m|] eqn:Hm; [|done]. injection Hx as <-. rewrite object_timestamp by (by apply (Hr i)).
    rewrite Forall_lookup in Hearly. apply (Hearly i). by rewrite lookup_take_lt.
Qed.

Lemma numbers_all : numbers (seqZ 0 10).
Proof.
  split; [by repeat constructor|]. intros a b i j Ha Hb Hab. apply lookup_seqZ in Ha as [-> _], Hb as [-> _]. lia.
Qed.

Lemma numbers_skip : numbers (0 :: 1 :: seqZ 4 8).
Proof.
  split; [by repeat constructor|]. intros a b i j Ha Hb Hab.
  destruct a as [|[|a]], b as [|[|b]]; try lia; cbn [lookup list_lookup] in Ha, Hb; simplify_eq;
    rewrite ?lookup_seqZ in *; lia.
Qed.

(** All the objects, consecutive. *)
Lemma all_regular (places : nat) : regular (take places (object <$> seqZ 0 10)).
Proof.
  assert (Hat : forall i x, take places (object <$> seqZ 0 10) !! i = Some x ->
    get_timestamp x = Z.of_nat i * element_ticks T /\ (i < 10)%nat).
  { intros i x Hx. apply lookup_take_Some in Hx as [Hx _]. rewrite list_lookup_fmap in Hx.
    destruct (seqZ 0 10 !! i) as [k|] eqn:Hk; [|done]. injection Hx as <-. apply lookup_seqZ in Hk as [-> Hk].
    rewrite object_timestamp by lia. split; lia. }
  split.
  - intros i x y Hx Hy. rewrite head_lookup in Hy. destruct (Hat i x Hx) as [-> _]. destruct (Hat 0%nat y Hy) as [-> _]. lia.
  - intros x Hx. rewrite last_lookup in Hx. destruct (Hat _ x Hx) as [-> Hlt].
    pose proof (element_ticks_bounds (T:=T)). nia.
Qed.

Context (b0 : B) (Hnew : make_buffer 10 = Ret b0) (Hempty : lb_model b0 []) (Hroom : (9 <= lb_places b0)%nat).
Context (Hregular : forall c, regular c -> lb_searchable false c) (Hincr : forall c, increasing c -> lb_searchable true c).

Lemma lower_bounds_pass b l (e : bool) (tests : list (Z * Z)) :
  lb_model b (take (lb_places b0) (object <$> l)) -> lb_searchable e (take (lb_places b0) (object <$> l)) ->
  numbers l -> head l = Some 0 ->
  Forall (fun t => 0 <= t.2 <= 8 /\ exists k, l !! Z.to_nat t.2 = Some k /\ 0 <= t.1 <= k * element_ticks T
    /\ Forall (fun i => i * element_ticks T < t.1) (take (Z.to_nat t.2) l)) tests ->
  exists r, test_lower_bounds b e tests = Ret r /\ Forall (eq true) r /\ length r = (3 * length tests)%nat.
Proof.
  intros Hb Hs Hn Hhead Ht. apply (test_lower_bounds_pass b _ e tests Hb Hs).
  eapply Forall_impl; [exact Ht|]. intros [ts idx] [Hidx (k & Hk & Hts & Hearly)]. cbn in *. split; [lia|].
  apply (bounded_objects _ l ts _ k Hroom Hn); try done. lia.
Qed.

(** One test after the other, by arithmetic. *)
Ltac try_tests :=
  repeat apply Forall_cons_2; try apply Forall_nil_2; cbn [fst snd]; (split; [lia|]);
  (eexists; split; [reflexivity|]; split; [|repeat constructor]; Z.to_euclidean_division_equations; lia).

Lemma tests_of_lower_bound :
  exists r, test_queue_model fake_timestamps make_buffer = Ret r /\ Forall (eq true) r
    /\ length r = if 1 <? element_ticks T then 48%nat else 15%nat.
Proof.
  pose proof (element_ticks_bounds (T:=T)) as Hb. unfold test_queue_model.
  rewrite (Z.mul_comm (expected_tick_difference T)), element_ticks_of.
  rewrite (u64_small (element_ticks T)) by (unfold UINT64_MAX in *; lia).
  assert (Hu : forall n, 1 <= n <= 11 -> u64 (element_ticks T * n) = element_ticks T * n)
    by (intros n Hn; apply u64_small; unfold UINT64_MAX in *; nia).
  rewrite !Hu by lia. rewrite !u64_small by (unfold UINT64_MAX in *; lia).
  destruct (fill_buffer_objects ∅ b0 (seqZ 0 10) Hnew Hempty) as (b1 & -> & Hb1); try done; [by apply Nat.leb_le; vm_compute|apply numbers_all|].
  destruct (fill_buffer_objects {[2; 3]} b0 (0 :: 1 :: seqZ 4 8) Hnew Hempty) as (b2 & -> & Hb2);
    try done; [apply numbers_skip|].
  outcome. rewrite (print_buffer_all _ _ Hb1), (print_buffer_all _ _ Hb2). outcome.
  pose proof (Hregular _ (all_regular (lb_places b0))) as Hs1.
  assert (Hs2 : lb_searchable true (take (lb_places b0) (object <$> 0 :: 1 :: seqZ 4 8))).
  { apply Hincr. eapply increasing_sublist; [apply sublist_take|]. apply objects_increasing, numbers_skip. }
  set (T1 := element_ticks T) in *.
  pose proof (lower_bounds_pass b1 (seqZ 0 10) false) as Hpass1. pose proof (lower_bounds_pass b2 (0 :: 1 :: seqZ 4 8) true) as Hpass2.
  specialize (fun tests => Hpass1 tests Hb1 Hs1 numbers_all eq_refl) as Hnoskip.
  specialize (fun tests => Hpass2 tests Hb2 Hs2 numbers_skip eq_refl) as Hskip. clear Hpass1 Hpass2.
  destruct (Hnoskip [(T1 * 2, 2)]) as (r1 & -> & Hr1 & L1); [try_tests|].
  destruct (Hskip [(T1 * 2, 2); (T1 * 3, 2); (T1, 1); (T1 * 4, 2)]) as (r3 & -> & Hr3 & L3); [try_tests|]. outcome.
  destruct (Z.ltb_spec 1 T1) as [Hlt|Hge].
  - destruct (Hnoskip [(T1 * 5 / 2, 3); (T1 + 1, 2)]) as (r2 & -> & Hr2 & L2); [try_tests|].
    destruct (Hskip [(T1 * 3 / 2, 2); (T1 * 5 / 2, 2); (T1 * 7 / 2, 2); (T1 * 1 / 2, 1); (T1 * 9 / 2, 3);
      (T1 * 11 / 2, 4); (T1 + 1, 2); (T1 * 2 + 1, 2); (1, 1)]) as (r4 & -> & Hr4 & L4); [try_tests|].
    outcome. eexists. split; [reflexivity|]. split; [by repeat (apply Forall_app; split)|].
    rewrite !length_app, L1, L2, L3, L4. done.
  - outcome. eexists. split; [reflexivity|]. split; [by repeat (apply Forall_app; split)|].
    rewrite !length_app, L1, L3. done.
Qed.
End correct.

(** ** Properties *)

(** C30: the repository's own test of latency buffers passes for every buffer with the
    contract and at least nine places, and every type of element whose first twelve
    objects have 64-bit timestamps: it always ends, prints the buffer, and each of its 48
    checks holds (15 when an object has a single tick). *)
Theorem test_queue_model_passes {T B It : Type} `{RT : ReadoutType T} `{!ReadoutLaws T} `{LB : LatencyBuffer T B It}
    `{!LatencyBufferLaws T B It} `{!TestedLaws T B It}
    (fake_timestamps : Z -> T -> T) (make_buffer : Z -> outcome B) (b : B) :
  fakes fake_timestamps -> 12 * element_ticks T <= UINT64_MAX ->
  make_buffer 10 = Ret b -> lb_model b [] -> (9 <= lb_places b)%nat ->
  (forall c, regular c -> lb_searchable false c) -> (forall c, increasing c -> lb_searchable true c) ->
  exists r, test_queue_model fake_timestamps make_buffer = Ret r /\ Forall (eq true) r
    /\ length r = if 1 <? element_ticks T then 48%nat else 15%nat.
Proof. intros. by eapply tests_of_lower_bound. Qed.

(** ** The tests at work: rings of ten slots, which hold nine of the ten objects *)
Import Chunk.

Definition chunk_fake (t : Z) (_ : chunk) : chunk := mkChunk t.

Definition chunk_ring (size : Z) : outcome (queue chunk) :=
  allocate_memory_concept sample_platform 8 (new_queue sample_platform 8) size.

Lemma chunk_fakes : fakes chunk_fake.
Proof. intros t x Ht. cbn. unfold UINT64_MAX in *. by machine. Qed.

Lemma test_queue_model_passes_witness :
  exists r, test_queue_model (LB := fixed_rate_buffer sample_platform) chunk_fake chunk_ring = Ret r
    /\ Forall (eq true) r /\ length r = 48%nat.
Proof.
  destruct (test_queue_model_passes (LB := fixed_rate_buffer sample_platform)
    (LatencyBufferLaws0 := fixed_rate_laws sample_platform)
    (TestedLaws0 := queue_tested sample_platform _ _ _ _)
    chunk_fake chunk_ring (ring_of 10 []) chunk_fakes ltac:(by vm_compute) eq_refl
    (ring_of_repr 10 [] ltac:(cbn; lia) ltac:(by vm_compute)) ltac:(cbn; lia)
    (fun c H => H) (fun c H => H)) as (r & E & Hr & Hl).
  exists r. split; [exact E|]. split; [exact Hr|exact Hl].
Defined.

(** The test of the windows on the rings, with elements of two frames of ten ticks. *)
Example request_test_binary_search :
  exists n, test_request_model (LB := binary_search_buffer sample_platform) chunk_fake chunk_ring 100 = Ret (replicate n true).
Proof. exists 64%nat. vm_compute. reflexivity. Qed.

Example request_test_fixed_rate :
  exists n, test_request_model (LB := fixed_rate_buffer sample_platform) chunk_fake chunk_ring 100 = Ret (replicate n true).
Proof. exists 64%nat. vm_compute. reflexivity. Qed.

(** The ten objects of the message are nine: a ring of ten slots refuses the last one. *)
Example fill_buffer_refuses :
  (b ← fill_buffer (LB := binary_search_buffer sample_platform) chunk_fake chunk_ring 0 10 ∅;
   print_buffer (LB := binary_search_buffer sample_platform) b)
  = Ret [0; 20; 40; 60; 80; 100; 120; 140; 160].
Proof. vm_compute. reflexivity. Qed.

(** The expected end goes by way of [float], which has 24 bits: one tick into the sixth
    element of 2^22 ticks, the test would expect the window to end with the fifth. *)
Example float_ceil_rounds : float_ceil (5 * 4194304 + 1) 4194304 = Ret 5.
Proof. vm_compute. reflexivity. Qed.
