(* ===== verification/RequestHandler.v ===== *)
(** models/DefaultRequestHandlerModel.hpp and models/detail/DefaultRequestHandlerModel.hxx
    without the recording thread: configuration, run control, the answer to a
    data request, the retries of delayed requests, the cleanup of the latency
    buffer, the counters; and models/detail/EmptyFragmentRequestHandlerModel.hxx. *)
From S2P Require Import Prelude IterableQueue BinarySearchQueue Float32 ReadoutTypes LatencyBuffer FrameErrorRegistry FragmentSearch.

(** ** Data of other packages, as far as the handler reads or writes it *)

(** dfmessages::DataRequest. *)
Record DataRequest := mkDataRequest {
  request_number : Z;
  trigger_number : Z;
  sequence_number : Z;
  run_number : Z;
  trigger_timestamp : Z;
  window_begin : Z;
  window_end : Z;
  data_destination : string }.

#[export] Instance DataRequest_eq_dec : EqDecision DataRequest.
Proof. solve_decision. Defined.

(** daqdataformats::FragmentHeader. *)
Record FragmentHeader := mkFragmentHeader {
  fh_size : Z;
  fh_trigger_number : Z;
  fh_trigger_timestamp : Z;
  fh_window_begin : Z;
  fh_window_end : Z;
  fh_run_number : Z;
  fh_fragment_type : Z;
  fh_sequence_number : Z;
  fh_detector_id : Z;
  fh_element_id : SourceID;
  error_bits : Z }.

(** What daqdataformats and the ReadoutType fix: the size of a header, the error
    bits a new one has, the positions of two of them, two identifiers. *)
Record formats := mkFormats {
  sizeof_header : Z;
  default_error_bits : Z;
  kDataNotFound : nat;
  kIncomplete : nat;
  fragment_type : Z;
  rdt_subsystem : Z }.

(** The positions are different bits of a 32-bit field, clear in a new header. *)
Definition formats_ok (f : formats) : Prop :=
  kDataNotFound f <> kIncomplete f /\ (kDataNotFound f < 31)%nat /\ (kIncomplete f < 31)%nat
  /\ Z.testbit (default_error_bits f) (Z.of_nat (kDataNotFound f)) = false
  /\ Z.testbit (default_error_bits f) (Z.of_nat (kIncomplete f)) = false.

(** ** The counters: [std::atomic<int>], but for the two of the periodic sends,
    which are [std::atomic<uint64_t>] (and which nothing here increments) *)
Inductive counter :=
| m_num_buffer_cleanups | m_pop_reqs | m_pops_count | m_occupancy
| m_num_requests_found | m_num_requests_bad | m_num_requests_old_window
| m_num_requests_delayed | m_num_requests_uncategorized | m_num_requests_timed_out
| m_handled_requests | m_response_time_acc | m_response_time_min | m_response_time_max
| m_payloads_written | m_bytes_written
| m_num_periodic_sent | m_num_periodic_send_failed.

#[export] Instance counter_eq_dec : EqDecision counter.
Proof. solve_decision. Defined.

Definition stats := counters counter.

(** ** Configuration *)

(** appmodel's settings, as [conf] reads them.  Each Fragment output has a send
    timeout and an identifier. *)
Record output_conf := mkOutput {
  get_data_type : string;
  get_send_timeout_ms : Z;
  UID : string }.

Record recorder_conf := mkRecorderConf {
  get_output_file : string;
  get_streaming_buffer_size : Z;
  get_compression_algorithm : string;
  get_use_o_direct : bool }.

Record handler_conf := mkHandlerConf {
  get_source_id : Z;
  get_detector_id : Z;
  get_pop_limit_pct : float32;
  get_pop_size_pct : float32;
  get_latency_buffer_size : Z;
  get_handler_threads : Z;
  get_request_timeout : Z;
  get_outputs : list output_conf;
  get_data_recorder : option recorder_conf;
  get_warn_on_timeout : bool;
  get_warn_on_empty_buffer : bool;
  get_periodic_data_transmission_ms : Z }.

Record settings := mkSettings {
  m_sourceid : SourceID;
  m_detid : Z;
  m_pop_limit_pct : float32;
  m_pop_size_pct : float32;
  m_pop_limit_size : Z;
  m_max_requested_elements : Z;
  m_buffer_capacity : Z;
  m_num_request_handling_threads : Z;
  m_request_timeout_ms : Z;
  m_fragment_send_timeout_ms : Z;
  m_frag_out_conn_ids : list string;
  m_recording_configured : bool;
  m_output_file : string;
  m_stream_buffer_size : Z;
  m_warn_on_timeout : bool;
  m_warn_about_empty_buffer : bool;
  m_periodic_data_transmission_ms : Z }.

Section configuration.
Context (f : formats).

(** [BufferedFileWriter::open], which may throw. *)
Context (open_writer : string -> Z -> string -> bool -> outcome unit).

(** The loop over the outputs keeps the timeout of the last Fragment output. *)
Definition scan_output (acc : Z * list string) (output : output_conf) : Z * list string :=
  if decide (get_data_type output = "Fragment"%string)
  then (get_send_timeout_ms output, acc.2 ++ [UID output]) else acc.

Definition pct_out_of_range (pct : float32) : bool :=
  f32_ltb pct (f32_of_Z 0) || f32_ltb (f32_of_Z 1) pct.

(** Returns the settings and the issues reported with [ers::error]. *)
Definition conf (s : settings) (cfg : handler_conf) : outcome (settings * list issue) :=
  let sourceid := mkSourceID (rdt_subsystem f) (get_source_id cfg) in
  let pop_limit_pct := get_pop_limit_pct cfg in
  let pop_size_pct := get_pop_size_pct cfg in
  let buffer_capacity := get_latency_buffer_size cfg in
  let '(timeout, ids) :=
    foldl scan_output (m_fragment_send_timeout_ms s, m_frag_out_conn_ids s) (get_outputs cfg) in
  '(configured, file, size) ←
    match m_recording_configured s, get_data_recorder cfg with
    | false, Some dr =>
        _ ← open_writer (get_output_file dr) (get_streaming_buffer_size dr)
              (get_compression_algorithm dr) (get_use_o_direct dr);
        Ret (true, get_output_file dr, get_streaming_buffer_size dr)
    | configured, _ => Ret (configured, m_output_file s, m_stream_buffer_size s)
    end;
  '(limit, elements, issues) ←
    (if pct_out_of_range pop_limit_pct || pct_out_of_range pop_size_pct then
       Ret (m_pop_limit_size s, m_max_requested_elements s,
            [ConfigurationError sourceid "Auto-pop percentage out of range."])
     else
       limit ← f32_to_unsigned 4294967296 (f32_mul pop_limit_pct (f32_of_Z buffer_capacity));
       elements ← f32_to_unsigned 18446744073709551616
         (f32_sub (f32_of_Z limit) (f32_mul (f32_of_Z limit) pop_size_pct));
       Ret (limit, elements, []));
  Ret (mkSettings sourceid (u16 (get_detector_id cfg)) pop_limit_pct pop_size_pct limit elements
         buffer_capacity (get_handler_threads cfg) (get_request_timeout cfg) timeout ids
         configured file size (get_warn_on_timeout cfg) (get_warn_on_empty_buffer cfg)
         (get_periodic_data_transmission_ms cfg),
       issues).
End configuration.

(** ** The answer to a data request *)

Record Fragment (T : Type) `{ReadoutType T} := mkFragment {
  fragment_header : FragmentHeader;
  fragment_pieces : list (piece T) }.
Arguments mkFragment {T _} _ _.
Arguments fragment_header {T _} _.
Arguments fragment_pieces {T _} _.

Record RequestResult (T : Type) `{ReadoutType T} := mkRequestResult {
  result_code : ResultCode;
  data_request_of : DataRequest;
  fragment : Fragment T }.
Arguments mkRequestResult {T _} _ _ _.
Arguments result_code {T _} _.
Arguments data_request_of {T _} _.
Arguments fragment {T _} _.

Section answer.
Context {T B It : Type} `{RT : ReadoutType T} `{LB : LatencyBuffer T B It}.
Context (f : formats) (cfg : settings).
Implicit Types (dr : DataRequest) (s : stats).

Definition create_fragment_header dr : FragmentHeader :=
  mkFragmentHeader (sizeof_header f) (trigger_number dr) (trigger_timestamp dr)
    (window_begin dr) (window_end dr) (run_number dr) (fragment_type f) (sequence_number dr)
    (m_detid cfg) (mkSourceID (subsystem (m_sourceid cfg)) (id (m_sourceid cfg)))
    (default_error_bits f).

(** [frag_header.error_bits |= (0x1 << bit)] *)
Definition raise_bit (bit : nat) (h : FragmentHeader) : FragmentHeader :=
  mkFragmentHeader (fh_size h) (fh_trigger_number h) (fh_trigger_timestamp h) (fh_window_begin h)
    (fh_window_end h) (fh_run_number h) (fh_fragment_type h) (fh_sequence_number h)
    (fh_detector_id h) (fh_element_id h)
    (Z.lor (error_bits h) (u32 (i32 (Z.shiftl 1 (Z.of_nat bit))))).

Definition create_empty_fragment dr : Fragment T :=
  mkFragment (raise_bit (kDataNotFound f) (create_fragment_header dr)) [].

(** The [switch] on the result code: the header and the counters. *)
Definition categorize (rc : ResultCode) (h : FragmentHeader) s : FragmentHeader * stats :=
  match rc with
  | kTooOld =>
      (raise_bit (kDataNotFound f) h, incr m_num_requests_bad (incr m_num_requests_old_window s))
  | kPartiallyOld =>
      (raise_bit (kDataNotFound f) (raise_bit (kIncomplete f) h),
       incr m_num_requests_found (incr m_num_requests_old_window s))
  | kFound => (h, incr m_num_requests_found s)
  | kPartial => (raise_bit (kIncomplete f) h, incr m_num_requests_delayed s)
  | kNotYet => (raise_bit (kDataNotFound f) h, incr m_num_requests_delayed s)
  | _ => (raise_bit (kDataNotFound f) h, incr m_num_requests_bad s)
  end.

(** Also returns the issues reported with [ers::warning]. *)
Definition data_request (b : B) (errors : registry) dr s
    : outcome (RequestResult T * stats * list issue) :=
  let frag_header := create_fragment_header dr in
  '(rc, frag_header, frag_pieces, s, issues) ←
    (if lb_occupancy b =? 0 then
       Ret (kNotFound, raise_bit (kDataNotFound f) frag_header, [], incr m_num_requests_bad s,
            if m_warn_about_empty_buffer cfg
            then [RequestOnEmptyBuffer (m_sourceid cfg) "Data not found"] else [])
     else
       '(frag_pieces, rc) ←
         get_fragment_pieces b errors (window_begin dr) (window_end dr) kUnknown;
       front_element ← lb_front b;
       last_element ← lb_back b;
       _ ← deref front_element;
       _ ← deref last_element;
       let '(frag_header, s) := categorize rc frag_header s in
       Ret (rc, frag_header, frag_pieces, s, []));
  Ret (mkRequestResult rc dr (mkFragment frag_header frag_pieces), s, issues).
End answer.

(** ** Requests that wait *)

(** RequestElement: the request and when it was put aside, in nanoseconds. *)
Record RequestElement := mkRequestElement { request : DataRequest; start_time : Z }.

(** What is handed to the sender of a destination. *)
Inductive send_event (T : Type) `{ReadoutType T} :=
| Sent (destination : string) (fragment : Fragment T)
| SendFailed (destination : string) (fragment : Fragment T).
Arguments Sent {T _} _ _.
Arguments SendFailed {T _} _ _.

Section requests.
Context {T B It : Type} `{RT : ReadoutType T} `{LB : LatencyBuffer T B It}.
Context (f : formats) (cfg : settings).

(** Whether the sender takes the fragment, or throws an [ers::Issue]. *)
Context (send : string -> Fragment T -> bool).

Definition send_fragment (destination : string) (fr : Fragment T) : send_event T * list issue :=
  if send destination fr then (Sent destination fr, [])
  else (SendFailed destination fr, [CannotWriteToQueue (m_sourceid cfg) destination]).

(** The time bookkeeping at the end of the task; times in nanoseconds. *)
Definition account_time (t_req_begin t_req_end : Z) (s : stats) : stats :=
  let us_req_took := Z.quot (t_req_end - t_req_begin) 1000 in
  let s := add_counter m_response_time_acc (i32 us_req_took) s in
  let s := if s m_response_time_max <? us_req_took
           then set_counter m_response_time_max (i32 us_req_took) s else s in
  let s := if us_req_took <? s m_response_time_min
           then set_counter m_response_time_min (i32 us_req_took) s else s in
  incr m_handled_requests s.

(** What the task does with the result: put the request aside, or send. *)
Inductive disposition := Requeued (e : RequestElement) | Answered (e : send_event T).

(** The task [issue_request] posts to the thread pool, from the moment it may
    run: the times are its three readings of the clock. *)
Definition request_task (b : B) (errors : registry) (datarequest : DataRequest) (is_retry : bool)
    (t_req_begin t_requeue t_req_end : Z) (s : stats)
    : outcome (disposition * stats * list issue) :=
  '(result, s, issues) ← data_request f cfg b errors datarequest s;
  let '(d, send_issues) :=
    if (bool_decide (result_code result = kNotYet) || bool_decide (result_code result = kPartial))
       && (0 <? m_request_timeout_ms cfg) && negb is_retry
    then (Requeued (mkRequestElement datarequest t_requeue), [])
    else let '(e, l) := send_fragment (data_destination datarequest) (fragment result) in
         (Answered e, l) in
  Ret (d, account_time t_req_begin t_req_end s, issues ++ send_issues).

(** EmptyFragmentRequestHandlerModel::issue_request, which answers at once. *)
Definition empty_issue_request (datarequest : DataRequest) (is_retry : bool)
    : send_event T * list issue :=
  let fr := mkFragment (raise_bit (kDataNotFound f) (create_fragment_header f cfg datarequest)) [] in
  if send (data_destination datarequest) fr then (Sent (data_destination datarequest) fr, [])
  else (SendFailed (data_destination datarequest) fr,
        [CannotWriteToQueue (m_sourceid cfg) "fragment queue"]).

(** One pass of [check_waiting_requests] over [m_waiting_requests]; [clock n] is
    the [n]-th reading of the clock in the pass.  Returns the requests issued as
    retries, those kept, the counters and the warnings. *)
Fixpoint waiting_loop (clock : nat -> Z) (n : nat) (newest_ts : Z) (waiting : list RequestElement)
    (s : stats) : list DataRequest * list RequestElement * stats * list issue :=
  match waiting with
  | [] => ([], [], s, [])
  | e :: waiting =>
      let r := request e in
      if window_end r <? newest_ts then
        let '(issued, kept, s, issues) := waiting_loop clock n newest_ts waiting s in
        (r :: issued, kept, s, issues)
      else if m_request_timeout_ms cfg <=? Z.quot (clock n - start_time e) 1000000 then
        let w := if m_warn_on_timeout cfg
                 then [VerboseRequestTimedOut (m_sourceid cfg) (trigger_number r) (sequence_number r)
                         (run_number r) (window_begin r) (window_end r) (data_destination r)]
                 else [] in
        let s := incr m_num_requests_timed_out (incr m_num_requests_bad s) in
        let '(issued, kept, s, issues) := waiting_loop clock (S n) newest_ts waiting s in
        (r :: issued, kept, s, w ++ issues)
      else
        let '(issued, kept, s, issues) := waiting_loop clock (S n) newest_ts waiting s in
        (issued, e :: kept, s, issues)
  end.

Definition waiting_pass (clock : nat -> Z) (b : B) (waiting : list RequestElement) (s : stats)
    : outcome (list DataRequest * list RequestElement * stats * list issue) :=
  match waiting with
  | [] => Ret ([], [], s, [])
  | _ =>
      last_frame ← lb_back b;
      let newest_ts := match last_frame with None => 0 | Some x => get_timestamp x end in
      Ret (waiting_loop clock 0 newest_ts waiting s)
  end.
End requests.

(** ** Cleanup of the latency buffer *)
Section cleanup.
Context {T B It : Type} `{RT : ReadoutType T} `{LB : LatencyBuffer T B It}.
Context (cfg : settings) (m_next_timestamp_to_record : Z).

(** The [for] loop: pops up to [to_pop] elements older than what is still to be
    recorded; [front()] is dereferenced without a test. *)
Fixpoint pop_loop (to_pop : nat) (popped : Z) (b : B) : outcome (Z * B) :=
  match to_pop with
  | O => Ret (popped, b)
  | S to_pop =>
      front ← lb_front b;
      x ← deref front;
      if get_timestamp x <? m_next_timestamp_to_record then
        b ← lb_pop 1 b;
        pop_loop to_pop (u32 (popped + 1)) b
      else Ret (popped, b)
  end.

(** [m_pop_size_pct * m_latency_buffer->occupancy()] *)
Definition to_pop_of (occupancy : Z) : outcome Z :=
  f32_to_unsigned 4294967296 (f32_mul (m_pop_size_pct cfg) (f32_of_Z occupancy)).

Definition cleanup (b : B) (errors : registry) (s : stats) : outcome (B * registry * stats) :=
  let size_guess := lb_occupancy b in
  '(b, errors, s) ←
    (if m_pop_limit_size cfg <? size_guess then
       let s := incr m_pop_reqs s in
       to_pop ← to_pop_of (lb_occupancy b);
       '(popped, b) ← pop_loop (Z.to_nat to_pop) 0 b;
       let s := set_counter m_occupancy (i32 (lb_occupancy b)) s in
       let s := add_counter m_pops_count popped s in
       front ← lb_front b;
       x ← deref front;
       Ret (b, remove_errors_until (get_timestamp x) errors, s)
     else Ret (b, errors, s));
  Ret (b, errors, incr m_num_buffer_cleanups s).

(** The part of [cleanup_check] under the lock, once no request is running. *)
Definition cleanup_check_body (b : B) (errors : registry) (s : stats)
    : outcome (B * registry * stats) :=
  if m_pop_limit_size cfg <? lb_occupancy b then cleanup b errors s else Ret (b, errors, s).
End cleanup.

(** ** Monitoring and run control *)

(** opmon::RequestHandlerInfo and opmon::RecordingInfo, with the fields
    [generate_opmon_data] sets. *)
Record RequestHandlerInfo := mkRequestHandlerInfo {
  num_requests_handled : Z;
  num_requests_found : Z;
  num_requests_bad : Z;
  num_requests_old_window : Z;
  num_requests_delayed : Z;
  num_requests_uncategorized : Z;
  num_requests_timed_out : Z;
  num_requests_waiting : Z;
  avg_request_response_time : Z;
  tot_request_response_time : Z;
  min_request_response_time : Z;
  max_request_response_time : Z;
  num_buffer_cleanups : Z;
  num_periodic_sent : Z;
  num_periodic_send_failed : Z }.

Record RecordingInfo := mkRecordingInfo {
  recording_status : string;
  packets_recorded : Z;
  bytes_recorded : Z }.

Definition reported : list counter :=
  [m_handled_requests; m_num_requests_found; m_num_requests_bad; m_num_requests_old_window;
   m_num_requests_delayed; m_num_requests_uncategorized; m_num_requests_timed_out;
   m_response_time_acc; m_response_time_max; m_pop_reqs; m_pops_count; m_num_buffer_cleanups;
   m_num_periodic_sent; m_num_periodic_send_failed; m_payloads_written; m_bytes_written].

(** The [int]s are stored in 64-bit unsigned fields; [recording] is [m_recording]. *)
Definition generate_opmon_data (recording : bool) (waiting : list RequestElement) (s : stats)
    : RequestHandlerInfo * RecordingInfo * stats :=
  let handled := u64 (s m_handled_requests) in
  let tot := u64 (s m_response_time_acc) in
  (mkRequestHandlerInfo handled (u64 (s m_num_requests_found)) (u64 (s m_num_requests_bad))
     (u64 (s m_num_requests_old_window)) (u64 (s m_num_requests_delayed))
     (u64 (s m_num_requests_uncategorized)) (u64 (s m_num_requests_timed_out))
     (u64 (Z.of_nat (length waiting)))
     (if 0 <? handled then tot / handled else 0) tot
     (u64 (s m_response_time_min)) (u64 (s m_response_time_max))
     (u64 (s m_num_buffer_cleanups)) (u64 (s m_num_periodic_sent))
     (u64 (s m_num_periodic_send_failed)),
   mkRecordingInfo (if recording then "Y" else "N") (u64 (s m_payloads_written))
     (u64 (s m_bytes_written)),
   set_counter m_response_time_min INT_MAX (exchange0 reported s)).

(** The counters [start] clears: the occupancy and the extreme response times stay. *)
Definition start_stats (s : stats) : stats :=
  exchange0 [m_num_requests_found; m_num_requests_bad; m_num_requests_old_window;
    m_num_requests_delayed; m_num_requests_uncategorized; m_num_buffer_cleanups;
    m_num_requests_timed_out; m_handled_requests; m_response_time_acc; m_pop_reqs;
    m_pops_count; m_payloads_written; m_bytes_written] s.

(** ** Lemmas *)

Section header.
Context (f : formats) (Hf : formats_ok f).

Lemma raise_bit_testbit (bit : nat) h (i : nat) :
  (bit < 31)%nat ->
  Z.testbit (error_bits (raise_bit bit h)) (Z.of_nat i)
  = Z.testbit (error_bits h) (Z.of_nat i) || bool_decide (i = bit).
Proof.
  intros Hb. cbn [raise_bit error_bits].
  assert (Hbits : Z.shiftl 1 (Z.of_nat bit) < 2147483648).
  { rewrite Z.shiftl_1_l. replace 2147483648 with (2 ^ 31) by reflexivity.
    apply Z.pow_lt_mono_r; lia. }
  assert (0 <= Z.shiftl 1 (Z.of_nat bit)) by (apply Z.shiftl_nonneg; lia).
  machine. rewrite Z.lor_spec. f_equal. rewrite Z.shiftl_1_l, Z.pow2_bits_eqb by lia.
  case_bool_decide as Hi; [subst; apply Z.eqb_refl|]. apply Z.eqb_neq. lia.
Qed.

Lemma raise_bit_fields (bit : nat) h :
  fh_size (raise_bit bit h) = fh_size h /\ fh_trigger_number (raise_bit bit h) = fh_trigger_number h
  /\ fh_window_begin (raise_bit bit h) = fh_window_begin h
  /\ fh_window_end (raise_bit bit h) = fh_window_end h
  /\ fh_element_id (raise_bit bit h) = fh_element_id h.
Proof. done. Qed.

(** The two bits the code sets say which part of the window is missing. *)
Lemma categorize_bits cfg dr rc s :
  let h := fst (categorize f rc (create_fragment_header f cfg dr) s) in
  Z.testbit (error_bits h) (Z.of_nat (kDataNotFound f))
    = negb (bool_decide (rc = kFound \/ rc = kPartial))
  /\ Z.testbit (error_bits h) (Z.of_nat (kIncomplete f))
    = bool_decide (rc = kPartial \/ rc = kPartiallyOld).
Proof.
  destruct Hf as (Hne & Hd & Hi & Hd0 & Hi0).
  assert (Hdi : bool_decide (kDataNotFound f = kIncomplete f) = false) by (by apply bool_decide_false).
  assert (Hid : bool_decide (kIncomplete f = kDataNotFound f) = false)
    by (apply bool_decide_false; congruence).
  assert (Hdd : bool_decide (kDataNotFound f = kDataNotFound f) = true) by (by apply bool_decide_true).
  assert (Hii : bool_decide (kIncomplete f = kIncomplete f) = true) by (by apply bool_decide_true).
  destruct rc; cbn [categorize fst]; rewrite ?raise_bit_testbit by done;
    cbn [create_fragment_header error_bits]; rewrite ?Hd0, ?Hi0, ?Hdi, ?Hid, ?Hdd, ?Hii; done.
Qed.
End header.

Section cleanup_lemmas.
Context {T B It : Type} `{RT : ReadoutType T} `{!ReadoutLaws T}
  `{LB : LatencyBuffer T B It} `{!LatencyBufferLaws T B It} `{!FifoLaws T B It}.
Implicit Types (b : B) (c : list T).

(** How many of the first [n] elements the loop pops: those before [next], up to
    the first that is not. *)
Fixpoint poppable (next : Z) (n : nat) c : nat :=
  match n, c with
  | S n, x :: c => if get_timestamp x <? next then S (poppable next n c) else 0
  | _, _ => 0
  end.

Lemma poppable_le next n c : (poppable next n c <= n)%nat /\ (poppable next n c <= length c)%nat.
Proof.
  revert c. induction n as [|n IH]; intros [|x c]; cbn; try lia.
  destruct (_ <? _); [specialize (IH c)|]; lia.
Qed.

(** What the loop pops is old, and it stops at its share or at an element to keep. *)
Lemma poppable_spec next n c oldest rest :
  drop (poppable next n c) c = oldest :: rest ->
  Forall (fun x => get_timestamp x < next) (take (poppable next n c) c)
  /\ (poppable next n c = n \/ next <= get_timestamp oldest).
Proof.
  revert c. induction n as [|n IH]; intros [|x c]; cbn; try done.
  - intros _. split; [done|by left].
  - destruct (Z.ltb_spec (get_timestamp x) next) as [Hx|Hx]; cbn.
    + intros Hd. destruct (IH c Hd) as [H1 H2]. split; [by constructor|]. destruct H2; [left; lia|by right].
    + intros [= <- <-]. split; [done|by right].
Qed.

(** As long as one element stays, the loop ends without a null front. *)
Lemma pop_loop_spec next (n : nat) popped b c :
  lb_model b c -> (n < length c)%nat -> 0 <= popped -> popped + Z.of_nat n <= UINT32_MAX ->
  exists b', pop_loop next n popped b = Ret (popped + Z.of_nat (poppable next n c), b')
    /\ lb_model b' (drop (poppable next n c) c).
Proof.
  revert popped b c. induction n as [|n IH]; intros popped b c Hb Hn Hp Hmax; cbn [pop_loop poppable].
  - exists b. by rewrite Z.add_0_r.
  - rewrite (lb_front_spec b c Hb). destruct c as [|x c]; cbn [length] in Hn; [lia|].
    cbn [head]. outcome. cbn [deref]. outcome.
    destruct (_ <? _); [|by exists b; rewrite Z.add_0_r].
    destruct (lb_pop_spec b (x :: c) 1 Hb) as (b1 & E & Hb1); [cbn; lia|].
    change (Z.of_nat 1) with 1 in E. rewrite E. outcome. cbn [drop] in Hb1. rewrite drop_0 in Hb1.
    unfold UINT32_MAX in *. machine.
    destruct (IH (popped + 1) b1 c Hb1) as (b' & -> & Hb'); [lia|lia|lia|].
    exists b'. split; [|done]. do 2 f_equal. lia.
Qed.

(** When every element may go and all are asked for, the front is null. *)
Lemma pop_loop_empties next (n : nat) popped b c :
  lb_model b c -> (length c < n)%nat -> (forall x, x ∈ c -> get_timestamp x < next) ->
  pop_loop next n popped b = Undefined.
Proof.
  revert popped b c. induction n as [|n IH]; intros popped b c Hb Hn Hall; [lia|]. cbn [pop_loop].
  rewrite (lb_front_spec b c Hb). destruct c as [|x c]; [done|].
  cbn [head]. outcome. cbn [deref]. outcome. cbn [length] in Hn.
  destruct (Z.ltb_spec (get_timestamp x) next) as [|Hx]; [|specialize (Hall x ltac:(by left)); lia].
  destruct (lb_pop_spec b (x :: c) 1 Hb) as (b1 & E & Hb1); [cbn; lia|].
  change (Z.of_nat 1) with 1 in E. rewrite E. outcome. cbn [drop] in Hb1. rewrite drop_0 in Hb1.
  apply (IH _ b1 c Hb1); [lia|]. intros y Hy. apply Hall. by right.
Qed.

(** Asked for exactly the elements there are, it may empty the buffer. *)
Lemma pop_loop_all next popped b c :
  lb_model b c -> (forall x, x ∈ c -> get_timestamp x < next) ->
  exists k b', pop_loop next (length c) popped b = Ret (k, b') /\ lb_model b' [].
Proof.
  revert popped b. induction c as [|x c IH]; intros popped b Hb Hall; cbn [length pop_loop].
  - by exists popped, b.
  - rewrite (lb_front_spec b (x :: c) Hb). cbn [head]. outcome. cbn [deref]. outcome.
    destruct (Z.ltb_spec (get_timestamp x) next) as [|Hx]; [|specialize (Hall x ltac:(by left)); lia].
    destruct (lb_pop_spec b (x :: c) 1 Hb) as (b1 & E & Hb1); [cbn; lia|].
    change (Z.of_nat 1) with 1 in E. rewrite E. outcome. cbn [drop] in Hb1. rewrite drop_0 in Hb1.
    apply IH; [done|]. intros y Hy. apply Hall. by right.
Qed.

(** A cleanup whose share leaves an element takes away some of the oldest
    elements, none of them to be recorded. *)
Lemma cleanup_drops (cfg : settings) next b c errors (s : stats) (n : Z) :
  lb_model b c -> to_pop_of cfg (Z.of_nat (length c)) = Ret n -> n < Z.of_nat (length c) ->
  exists b' errors' s' m, cleanup cfg next b errors s = Ret (b', errors', s')
    /\ lb_model b' (drop m c) /\ (m < length c)%nat
    /\ Forall (fun x => get_timestamp x < next) (take m c).
Proof.
  intros Hb Hn Hlt. unfold cleanup. rewrite (lb_occupancy_spec b c Hb).
  destruct (_ <? _).
  2:{ exists b, errors, (incr m_num_buffer_cleanups s), 0%nat. split_and!; [done|done| |done].
      pose proof (f32_to_unsigned_range 4294967296 _ n ltac:(lia) Hn). lia. }
  rewrite Hn. outcome.
  pose proof (f32_to_unsigned_range 4294967296 _ n ltac:(lia) Hn) as Hrange.
  destruct (pop_loop_spec next (Z.to_nat n) 0 b c Hb) as (b' & -> & Hb');
    [lia|lia|unfold UINT32_MAX; lia|]. outcome.
  pose proof (poppable_le next (Z.to_nat n) c) as [Hk1 Hk2].
  set (k := poppable next (Z.to_nat n) c) in *.
  destruct (drop k c) as [|oldest rest] eqn:Hdrop.
  { apply (f_equal length) in Hdrop. rewrite length_drop in Hdrop. cbn in Hdrop. lia. }
  rewrite (lb_front_spec b' _ Hb'). cbn [head]. outcome. cbn [deref]. outcome.
  do 3 eexists. exists k. split; [reflexivity|]. rewrite Hdrop. split; [done|]. split; [lia|].
  by apply (poppable_spec next (Z.to_nat n) c oldest rest Hdrop).
Qed.
End cleanup_lemmas.

(** A cleanup of the ring leaves its size and its block as they are. *)
Section cleanup_shape.
Context {T : Type} `{RT : ReadoutType T} (p : platform) (cfg : settings) (next : Z).
#[local] Instance cleaned_ring : LatencyBuffer T (queue T) Z := binary_search_buffer p.

Lemma handler_pop_shape (n : nat) popped (q : queue T) (k : Z) q' :
  pop_loop next n popped q = Ret (k, q') -> shape q' = shape q.
Proof.
  revert popped q. induction n as [|n IH]; intros popped q; cbn [pop_loop]; [by intros [= _ <-]|].
  intros (front & _ & (x & _ & H)%bind_Ret_inv)%bind_Ret_inv. destruct (_ <? _); [|by injection H as _ <-].
  apply bind_Ret_inv in H as (q1 & H1 & H). apply IH in H. rewrite H.
  exact (pop_loop_shape p (Z.to_nat 1) q q1 H1).
Qed.

Lemma cleanup_shape (q : queue T) errors s q' errors' s' :
  cleanup cfg next q errors s = Ret (q', errors', s') -> shape q' = shape q.
Proof.
  unfold cleanup. intros ([[q1 e1] s1] & H & [= <- _ _])%bind_Ret_inv.
  destruct (_ <? _); [|by injection H as <- _ _].
  apply bind_Ret_inv in H as (n & _ & H). apply bind_Ret_inv in H as ([k q2] & H1 & H).
  apply bind_Ret_inv in H as (front & _ & H). apply bind_Ret_inv in H as (x & _ & [= <- _ _]).
  by eapply handler_pop_shape.
Qed.
End cleanup_shape.

(** ** Properties *)

(** The counter of the three kinds of answer a result code belongs to. *)
Definition outcome_counter (rc : ResultCode) : counter :=
  match rc with
  | kFound | kPartiallyOld => m_num_requests_found
  | kPartial | kNotYet => m_num_requests_delayed
  | _ => m_num_requests_bad
  end.

Lemma categorize_counts f cfg dr rc s k :
  k ∈ [m_num_requests_found; m_num_requests_bad; m_num_requests_delayed] ->
  snd (categorize f rc (create_fragment_header f cfg dr) s) k
  = if decide (k = outcome_counter rc) then i32 (s k + 1) else s k.
Proof.
  intros Hk. rewrite !elem_of_cons, elem_of_nil in Hk.
  destruct Hk as [->|[->|[->|[]]]]; by destruct rc.
Qed.

Lemma categorize_fields f cfg dr rc s :
  let h := fst (categorize f rc (create_fragment_header f cfg dr) s) in
  fh_trigger_number h = trigger_number dr /\ fh_sequence_number h = sequence_number dr
  /\ fh_run_number h = run_number dr /\ fh_trigger_timestamp h = trigger_timestamp dr
  /\ fh_window_begin h = window_begin dr /\ fh_window_end h = window_end dr
  /\ fh_element_id h = m_sourceid cfg /\ fh_detector_id h = m_detid cfg.
Proof. cbn zeta. destruct (m_sourceid cfg) eqn:E; destruct rc; cbn; rewrite ?E; done. Qed.

Section properties.
Context {T B It : Type} `{RT : ReadoutType T} `{!ReadoutLaws T}
  `{LB : LatencyBuffer T B It} `{!LatencyBufferLaws T B It}.
Implicit Types (b : B) (c : list T).

(** An answer is honest: its fragment identifies the request, carries the frames
    of the window when the code says it has some and nothing otherwise, raises
    DataNotFound unless the data reach back to the start of the window and
    Incomplete when a side is cut off, and the request is counted once. *)
Definition honest_answer (f : formats) (cfg : settings) c dr (s : stats)
    (rres : RequestResult T) (s' : stats) : Prop :=
  let h := fragment_header (fragment rres) in
  let rc := result_code rres in
  data_request_of rres = dr
  /\ (fh_trigger_number h = trigger_number dr /\ fh_sequence_number h = sequence_number dr
      /\ fh_run_number h = run_number dr /\ fh_trigger_timestamp h = trigger_timestamp dr
      /\ fh_window_begin h = window_begin dr /\ fh_window_end h = window_end dr
      /\ fh_element_id h = m_sourceid cfg /\ fh_detector_id h = m_detid cfg)
  /\ Z.testbit (error_bits h) (Z.of_nat (kDataNotFound f)) = negb (bool_decide (rc = kFound \/ rc = kPartial))
  /\ Z.testbit (error_bits h) (Z.of_nat (kIncomplete f)) = bool_decide (rc = kPartial \/ rc = kPartiallyOld)
  /\ (if decide (rc = kFound \/ rc = kPartial \/ rc = kPartiallyOld)
      then pieces_of_window c (window_begin dr) (window_end dr) (fragment_pieces (fragment rres))
      else fragment_pieces (fragment rres) = [])
  /\ (forall k, k ∈ [m_num_requests_found; m_num_requests_bad; m_num_requests_delayed] ->
      s' k = if decide (k = outcome_counter rc) then i32 (s k + 1) else s k).

Lemma data_request_honest (f : formats) (cfg : settings) b c errors dr (s : stats) :
  formats_ok f -> lb_model b c -> lb_searchable (has_error_named "MISSING_FRAMES" errors) c ->
  all_fit c -> 0 <= window_begin dr <= UINT64_MAX ->
  exists rres s' issues, data_request f cfg b errors dr s = Ret (rres, s', issues)
    /\ honest_answer f cfg c dr s rres s'
    /\ (c = [] -> result_code rres = kNotFound
        /\ issues = if m_warn_about_empty_buffer cfg
                    then [RequestOnEmptyBuffer (m_sourceid cfg) "Data not found"] else []).
Proof.
  intros Hf Hb Hsearch Hfit Hs. unfold data_request. rewrite (lb_occupancy_spec b c Hb).
  destruct (decide (c = [])) as [->|Hne].
  - cbn [length Z.of_nat Z.eqb]. outcome. do 3 eexists. split; [reflexivity|]. split; [|done].
    pose proof (categorize_bits f Hf cfg dr kNotFound s) as [Hd Hi].
    unfold honest_answer. cbn [fragment fragment_header fragment_pieces result_code data_request_of].
    split; [done|]. split; [exact (categorize_fields f cfg dr kNotFound s)|].
    split; [exact Hd|]. split; [exact Hi|]. split; [done|].
    intros k Hk. apply (categorize_counts f cfg dr kNotFound s k Hk).
  - destruct (Z.eqb_spec (Z.of_nat (length c)) 0) as [E|_]; [destruct c; [done|cbn in E; lia]|].
    destruct (get_fragment_pieces_total b c errors (window_begin dr) (window_end dr) kUnknown)
      as (ps & rc & -> & _ & _ & Hps); [done..|]. outcome.
    rewrite (lb_front_spec b c Hb), (lb_back_spec b c Hb).
    destruct (head c) as [oldest|] eqn:Hold; [|by destruct c].
    destruct (last c) as [newest|] eqn:Hnew; [|by apply last_None in Hnew].
    outcome. cbn [deref]. outcome.
    pose proof (categorize_bits f Hf cfg dr rc s) as [Hd Hi].
    pose proof (categorize_fields f cfg dr rc s) as Hfields.
    pose proof (fun k => categorize_counts f cfg dr rc s k) as Hcounts.
    destruct (categorize f rc (create_fragment_header f cfg dr) s) as [h s'].
    cbn [fst snd] in *. do 3 eexists. split; [reflexivity|]. split; [|done].
    unfold honest_answer. cbn [fragment fragment_header fragment_pieces result_code data_request_of].
    done.
Qed.
End properties.

(** C2: every data request gets an honest answer, on an empty buffer and on every
    searchable one (increasing timestamps, and frames at their distance where the
    computed search is used), when no timestamp is so near the end of the 64-bit
    range that it wraps around.  The window is arbitrary.  [data_request] returns,
    without an exception, a failed assertion or a read outside the buffer: up to
    the address of end() that an answer Partial forms and does not read through
    ([partial_answers_form_end]). *)
Theorem data_request_correct {T B It : Type} `{ReadoutLaws T}
    `{LB : LatencyBuffer T B It} `{!LatencyBufferLaws T B It}
    (f : formats) (cfg : settings) (b : B) (c : list T) (errors : registry) (dr : DataRequest)
    (s : stats) :
  formats_ok f -> lb_model b c -> lb_searchable (has_error_named "MISSING_FRAMES" errors) c ->
  all_fit c -> 0 <= window_begin dr <= UINT64_MAX ->
  exists rres s' issues, data_request f cfg b errors dr s = Ret (rres, s', issues)
    /\ honest_answer f cfg c dr s rres s'
    /\ (c = [] -> result_code rres = kNotFound
        /\ issues = if m_warn_about_empty_buffer cfg
                    then [RequestOnEmptyBuffer (m_sourceid cfg) "Data not found"] else []).
Proof. apply data_request_honest. Qed.

(** C23: above the limit, a cleanup whose share leaves an element removes exactly
    the oldest elements, up to the share and never one that is still to be
    recorded; it drops the errors that ended before the new oldest element and
    counts what it popped.  At or below the limit the buffer is not touched. *)
Theorem cleanup_correct {T B It : Type} `{ReadoutLaws T}
    `{LB : LatencyBuffer T B It} `{!LatencyBufferLaws T B It} `{!FifoLaws T B It}
    (cfg : settings) (next : Z) (b : B) (c : list T) (errors : registry) (s : stats) (n : Z) :
  lb_model b c -> to_pop_of cfg (Z.of_nat (length c)) = Ret n -> n < Z.of_nat (length c) ->
  if m_pop_limit_size cfg <? Z.of_nat (length c) then
    exists b' s' oldest, let k := poppable next (Z.to_nat n) c in
      cleanup cfg next b errors s = Ret (b', remove_errors_until (get_timestamp oldest) errors, s')
      /\ lb_model b' (drop k c) /\ head (drop k c) = Some oldest
      /\ Forall (fun x => get_timestamp x < next) (take k c)
      /\ (Z.of_nat k = n \/ next <= get_timestamp oldest)
      /\ s' m_pops_count = i32 (s m_pops_count + Z.of_nat k)
      /\ s' m_occupancy = Z.of_nat (length c - k)
      /\ s' m_num_buffer_cleanups = i32 (s m_num_buffer_cleanups + 1)
      /\ s' m_pop_reqs = i32 (s m_pop_reqs + 1)
  else cleanup cfg next b errors s = Ret (b, errors, incr m_num_buffer_cleanups s).
Proof.
  intros Hb Hn Hlt. unfold cleanup. rewrite (lb_occupancy_spec b c Hb).
  destruct (_ <? _); [|done]. rewrite Hn. outcome.
  pose proof (f32_to_unsigned_range 4294967296 _ n ltac:(lia) Hn) as Hrange.
  destruct (pop_loop_spec next (Z.to_nat n) 0 b c Hb) as (b' & -> & Hb');
    [lia|lia|unfold UINT32_MAX; lia|]. outcome.
  pose proof (poppable_le next (Z.to_nat n) c) as [Hk1 Hk2].
  set (k := poppable next (Z.to_nat n) c) in *.
  destruct (drop k c) as [|oldest rest] eqn:Hdrop.
  { apply (f_equal length) in Hdrop. rewrite length_drop in Hdrop. cbn in Hdrop. lia. }
  rewrite (lb_front_spec b' _ Hb'). cbn [head]. outcome. cbn [deref]. outcome.
  exists b'. eexists. exists oldest. cbn zeta. fold k. split; [reflexivity|]. rewrite ?Hdrop.
  destruct (poppable_spec next (Z.to_nat n) c oldest rest Hdrop) as [Hpop1 Hpop2]. fold k in Hpop1, Hpop2.
  assert (Hpop2' : Z.of_nat k = n \/ next <= get_timestamp oldest) by lia. clear Hpop2.
  pose proof (lb_occupancy_spec b' _ Hb') as Hocc. pose proof (lb_length b c Hb) as Hlen.
  rewrite <- Hdrop, length_drop in Hocc. unfold INT_MAX in *.
  unfold incr, add_counter. rewrite Hocc.
  repeat first [rewrite set_counter_eq | rewrite set_counter_ne by done].
  replace (0 + Z.of_nat k) with (Z.of_nat k) by lia. machine. done.
Qed.

(** A share of the whole buffer (a pop size of 100%, which [conf] accepts)
    makes the cleanup dereference the null front of an emptied buffer, unless an
    element is held back for the recording. *)
Theorem cleanup_whole_buffer {T B It : Type} `{ReadoutLaws T}
    `{LB : LatencyBuffer T B It} `{!LatencyBufferLaws T B It} `{!FifoLaws T B It}
    (cfg : settings) (next : Z) (b : B) (c : list T) (errors : registry) (s : stats) (n : Z) :
  lb_model b c -> m_pop_limit_size cfg < Z.of_nat (length c) ->
  to_pop_of cfg (Z.of_nat (length c)) = Ret n -> Z.of_nat (length c) <= n ->
  (forall x, x ∈ c -> get_timestamp x < next) ->
  cleanup cfg next b errors s = Undefined.
Proof.
  intros Hb Hlim Hn Hle Hall. unfold cleanup. rewrite (lb_occupancy_spec b c Hb).
  destruct (Z.ltb_spec (m_pop_limit_size cfg) (Z.of_nat (length c))); [|lia].
  rewrite Hn. outcome. destruct (decide (length c < Z.to_nat n)%nat) as [Hlt|Hge].
  { by rewrite (pop_loop_empties next _ 0 b c Hb Hlt Hall). }
  pose proof (f32_to_unsigned_range 4294967296 _ n ltac:(lia) Hn).
  assert (En : Z.to_nat n = length c) by lia. rewrite En. clear Hge.
  destruct (pop_loop_all next 0 b c Hb Hall) as (k & b' & -> & Hb'). outcome.
  by rewrite (lb_front_spec b' [] Hb').
Qed.

(** Whether a waiting request is due: data past its window have arrived, or its
    time is over at a reading [now] of the clock. *)
Definition complete (newest_ts : Z) (e : RequestElement) : Prop :=
  window_end (request e) < newest_ts.

Definition timed_out (cfg : settings) (now : Z) (e : RequestElement) : Prop :=
  m_request_timeout_ms cfg <= Z.quot (now - start_time e) 1000000.

Lemma waiting_loop_spec (cfg : settings) (clock : nat -> Z) newest_ts waiting :
  forall n s, exists due kept s' issues,
    waiting_loop cfg clock n newest_ts waiting s = (request <$> due, kept, s', issues)
    /\ waiting ≡ₚ due ++ kept /\ sublist kept waiting
    /\ Forall (fun e => complete newest_ts e \/ exists i, timed_out cfg (clock i) e) due
    /\ Forall (fun e => ~ complete newest_ts e /\ exists i, ~ timed_out cfg (clock i) e) kept
    /\ length issues = (if m_warn_on_timeout cfg
         then length (filter (fun e => newest_ts <= window_end (request e)) due) else 0%nat)
    /\ (forall k, k <> m_num_requests_timed_out -> k <> m_num_requests_bad -> s' k = s k).
Proof.
  induction waiting as [|e waiting IH]; intros n s; cbn [waiting_loop].
  { exists [], [], s, []. split_and!; try done. by destruct (m_warn_on_timeout cfg). }
  destruct (Z.ltb_spec (window_end (request e)) newest_ts) as [Hc|Hc];
    [|destruct (Z.leb_spec (m_request_timeout_ms cfg) (Z.quot (clock n - start_time e) 1000000)) as [Ht|Ht]].
  - destruct (IH n s) as (due & kept & s' & issues & -> & Hperm & Hsub & Hdue & Hkept & Hlen & Hs).
    exists (e :: due), kept, s', issues. split; [done|]. split; [cbn; by rewrite <- Hperm|].
    split; [by constructor|]. split; [constructor; [by left|done]|]. split; [done|]. split; [|done].
    rewrite Hlen, filter_cons_False by lia. done.
  - destruct (IH (S n) (incr m_num_requests_timed_out (incr m_num_requests_bad s)))
      as (due & kept & s' & issues & -> & Hperm & Hsub & Hdue & Hkept & Hlen & Hs).
    exists (e :: due), kept, s'. eexists. split; [done|]. split; [cbn; by rewrite <- Hperm|].
    split; [by constructor|]. split; [constructor; [right; by exists n|done]|]. split; [done|]. split.
    + rewrite length_app, Hlen, filter_cons_True by lia. by destruct (m_warn_on_timeout cfg).
    + intros k H1 H2. rewrite Hs by done. unfold incr, add_counter. by rewrite !set_counter_ne.
  - destruct (IH (S n) s) as (due & kept & s' & issues & -> & Hperm & Hsub & Hdue & Hkept & Hlen & Hs).
    exists due, (e :: kept), s', issues. split; [done|].
    split; [rewrite Hperm; by apply Permutation_middle|].
    split; [by constructor|]. split; [done|]. split; [|done].
    constructor; [|done]. unfold complete, timed_out. split; [lia|]. exists n. lia.
Qed.

(** A pass over the waiting requests reissues, in their order, exactly the
    requests that are due (their window ends before the newest element, or their
    timeout is over), keeps the others in place, loses and duplicates none, and
    warns (when configured) once for each one that timed out. *)
Theorem waiting_pass_partition {T B It : Type} `{ReadoutLaws T}
    `{LB : LatencyBuffer T B It} `{!LatencyBufferLaws T B It}
    (cfg : settings) (clock : nat -> Z) (b : B) (c : list T) (waiting : list RequestElement) (s : stats) :
  lb_model b c ->
  let newest_ts := match last c with None => 0 | Some x => get_timestamp x end in
  exists due kept s' issues,
    waiting_pass cfg clock b waiting s = Ret (request <$> due, kept, s', issues)
    /\ waiting ≡ₚ due ++ kept /\ sublist kept waiting
    /\ Forall (fun e => complete newest_ts e \/ exists i, timed_out cfg (clock i) e) due
    /\ Forall (fun e => ~ complete newest_ts e /\ exists i, ~ timed_out cfg (clock i) e) kept
    /\ length issues = (if m_warn_on_timeout cfg
         then length (filter (fun e => newest_ts <= window_end (request e)) due) else 0%nat).
Proof.
  intros Hb newest_ts. destruct waiting as [|e waiting].
  - exists [], [], s, []. split_and!; try done. by destruct (m_warn_on_timeout cfg).
  - destruct (waiting_loop_spec cfg clock newest_ts (e :: waiting) 0 s)
      as (due & kept & s' & issues & E & Hperm & Hsub & Hdue & Hkept & Hlen & _).
    exists due, kept, s', issues. split_and!; try done.
    unfold waiting_pass. rewrite (lb_back_spec b c Hb). outcome. by rewrite <- E.
Qed.

(** C9: a task always comes to an end with an honest answer.  It is put aside
    only when it is not a retry, its answer was NotYet or Partial and a timeout
    is configured; otherwise, and for every retry, the answer's fragment is
    handed to the sender of the request's destination, with one warning when the
    sender refuses it. *)
Theorem request_task_answers {T B It : Type} `{ReadoutLaws T}
    `{LB : LatencyBuffer T B It} `{!LatencyBufferLaws T B It}
    (f : formats) (cfg : settings) (send : string -> Fragment T -> bool) (b : B) (c : list T)
    (errors : registry) (dr : DataRequest) (retry : bool) (t1 t2 t3 : Z) (s : stats) :
  formats_ok f -> lb_model b c -> lb_searchable (has_error_named "MISSING_FRAMES" errors) c ->
  all_fit c -> 0 <= window_begin dr <= UINT64_MAX ->
  exists rres s1 s' issues d,
    request_task f cfg send b errors dr retry t1 t2 t3 s = Ret (d, s', issues)
    /\ honest_answer f cfg c dr s rres s1
    /\ s' m_handled_requests = i32 (s1 m_handled_requests + 1)
    /\ d = (if decide ((result_code rres = kNotYet \/ result_code rres = kPartial)
                      /\ 0 < m_request_timeout_ms cfg /\ retry = false)
           then Requeued (mkRequestElement dr t2)
           else Answered (if send (data_destination dr) (fragment rres)
                          then Sent (data_destination dr) (fragment rres)
                          else SendFailed (data_destination dr) (fragment rres)))
    /\ (match d with
        | Answered (SendFailed _ _) => CannotWriteToQueue (m_sourceid cfg) (data_destination dr) ∈ issues
        | _ => True
        end).
Proof.
  intros Hf Hb Hsearch Hfit Hs. unfold request_task.
  destruct (data_request_honest f cfg b c errors dr s Hf Hb Hsearch Hfit Hs)
    as (rres & s1 & l1 & -> & Hhonest & _). outcome.
  set (requeue := _ && _ && _).
  assert (Hreq : requeue = true <-> (result_code rres = kNotYet \/ result_code rres = kPartial)
      /\ 0 < m_request_timeout_ms cfg /\ retry = false).
  { unfold requeue. rewrite !andb_true_iff, orb_true_iff, !bool_decide_eq_true, Z.ltb_lt, negb_true_iff. tauto. }
  assert (Hhandled : forall t1 t2 s2, s2 = s1 ->
      account_time t1 t2 s2 m_handled_requests = i32 (s1 m_handled_requests + 1)).
  { intros u1 u2 s2 ->. unfold account_time, incr, add_counter. rewrite set_counter_eq.
    f_equal. f_equal. repeat case_match; by rewrite ?set_counter_ne by done. }
  exists rres, s1. destruct requeue.
  - do 3 eexists. split; [reflexivity|]. split; [done|]. split; [by apply Hhandled|].
    split; [|done]. by rewrite decide_True by (by apply Hreq).
  - unfold send_fragment. destruct (send _ _) eqn:Esend.
    all: do 3 eexists; split; [reflexivity|]; split; [done|]; split; [by apply Hhandled|].
    all: split; [rewrite decide_False by (intros Hx; by apply Hreq in Hx); done|].
    + done.
    + apply elem_of_app. right. by left.
Qed.

(** ** The properties at work: the ring of three elements *)
Import Chunk.

Definition sample_formats : formats := mkFormats 72 0 0 1 3 1.

Definition sample_settings (pop_size_pct : float32) : settings :=
  mkSettings (mkSourceID 1 7) 3 (f32_of_Z 0) pop_size_pct 2 0 4 1 1000 10
    ["fragments"%string] false ""%string 0 true true 0.

Definition sample_request : DataRequest := mkDataRequest 0 5 0 1 130 125 135 "trb"%string.

Definition half : float32 := SpecFloat.SFdiv 24 128 (f32_of_Z 1) (f32_of_Z 2).

Definition no_stats : stats := fun _ => 0.

Lemma sample_formats_ok : formats_ok sample_formats.
Proof. split_and!; cbn; done || lia. Qed.

Lemma data_request_correct_witness :
  exists rres s' issues,
    data_request (LB := binary_search_buffer sample_platform) sample_formats (sample_settings half)
      (ring_of 4 sample) ∅ sample_request no_stats = Ret (rres, s', issues)
    /\ honest_answer sample_formats (sample_settings half) sample sample_request no_stats rres s'.
Proof.
  destruct (data_request_correct (LB := binary_search_buffer sample_platform)
    (LatencyBufferLaws0 := binary_search_laws sample_platform) sample_formats
    (sample_settings half) (ring_of 4 sample) sample ∅ sample_request no_stats
    sample_formats_ok sample_repr sample_increasing sample_fits ltac:(by vm_compute))
    as (rres & s' & issues & E & Hh & _).
  by exists rres, s', issues.
Defined.

Lemma cleanup_correct_witness :
  exists b' s' oldest,
    cleanup (LB := binary_search_buffer sample_platform) (sample_settings half) 200
      (ring_of 4 sample) ∅ no_stats = Ret (b', remove_errors_until (get_timestamp oldest) ∅, s')
    /\ repr b' [mkChunk 120; mkChunk 140] /\ oldest = mkChunk 120 /\ s' m_pops_count = 1.
Proof.
  destruct (cleanup_correct (LB := binary_search_buffer sample_platform)
    (LatencyBufferLaws0 := binary_search_laws sample_platform)
    (FifoLaws0 := queue_fifo sample_platform _ _ _ _)
    (sample_settings half) 200 (ring_of 4 sample) sample ∅ no_stats 1
    sample_repr ltac:(by vm_compute) ltac:(by vm_compute))
    as (b' & s' & oldest & E & Hb & Ho & _ & _ & Hp & _).
  exists b', s', oldest. split; [exact E|]. split; [exact Hb|]. split; [by injection Ho|exact Hp].
Defined.

Lemma cleanup_whole_buffer_witness :
  cleanup (LB := binary_search_buffer sample_platform) (sample_settings (f32_of_Z 1)) 200
    (ring_of 4 sample) ∅ no_stats = Undefined.
Proof.
  refine (cleanup_whole_buffer (LB := binary_search_buffer sample_platform)
    (LatencyBufferLaws0 := binary_search_laws sample_platform)
    (FifoLaws0 := queue_fifo sample_platform _ _ _ _)
    (sample_settings (f32_of_Z 1)) 200 (ring_of 4 sample) sample ∅ no_stats 3
    sample_repr _ _ _ _); [by vm_compute..|].
  apply (proj1 (Forall_forall (fun x => get_timestamp x < 200) sample)). by repeat constructor.
Defined.

Lemma waiting_pass_partition_witness :
  exists due kept s' issues,
    waiting_pass (LB := binary_search_buffer sample_platform) (sample_settings half)
      (fun n => Z.of_nat n) (ring_of 4 sample) [mkRequestElement sample_request 0] no_stats
    = Ret (request <$> due, kept, s', issues)
    /\ [mkRequestElement sample_request 0] ≡ₚ due ++ kept.
Proof.
  destruct (waiting_pass_partition (LB := binary_search_buffer sample_platform)
    (LatencyBufferLaws0 := binary_search_laws sample_platform) (sample_settings half)
    (fun n => Z.of_nat n) (ring_of 4 sample) sample [mkRequestElement sample_request 0] no_stats
    sample_repr) as (due & kept & s' & issues & E & Hp & _).
  by exists due, kept, s', issues.
Defined.

Definition sample_send : string -> Fragment chunk -> bool := fun _ _ => true.

(** What the task of the sample request does. *)
Definition sample_task : outcome (disposition * stats * list issue) :=
  request_task (LB := binary_search_buffer sample_platform) sample_formats (sample_settings half)
    sample_send (ring_of 4 sample) ∅ sample_request false 0 0 5000 no_stats.

Lemma request_task_answers_witness :
  exists rres s1 s' issues d, sample_task = Ret (d, s', issues)
    /\ honest_answer sample_formats (sample_settings half) sample sample_request no_stats rres s1
    /\ s' m_handled_requests = i32 (s1 m_handled_requests + 1).
Proof.
  destruct (request_task_answers (LB := binary_search_buffer sample_platform)
    (LatencyBufferLaws0 := binary_search_laws sample_platform) sample_formats (sample_settings half)
    sample_send (ring_of 4 sample) sample ∅ sample_request false 0 0 5000 no_stats
    sample_formats_ok sample_repr sample_increasing sample_fits ltac:(by vm_compute))
    as (rres & s1 & s' & issues & d & E & Hh & Hs & _).
  by exists rres, s1, s', issues, d.
Defined.
