(* ===== verification/RequestSync.v ===== *)
(** The agreement between the request tasks and the cleanup thread over
    m_cv_mutex, m_cv, m_cleanup_requested and m_requests_running
    (DefaultRequestHandlerModel.hxx: issue_request and cleanup_check), in all
    interleavings, with the releases and wake-ups of the condition variable. *)
From S2P Require Import Prelude.

(** Where a request task stands.  It holds the mutex at [TEnter] and [TLeave]. *)
Inductive task_pc :=
| TStart     (* before its first lock *)
| TEnter     (* locked, about to test !m_cleanup_requested *)
| TWait      (* asleep in m_cv.wait *)
| TWoken     (* notified, has to lock again *)
| TNotifyIn  (* m_requests_running incremented, unlocked, about to notify_all *)
| TRun       (* in data_request *)
| TLeave     (* locked, about to decrement m_requests_running *)
| TNotifyOut (* unlocked, about to notify_all *)
| TDone.

(** Where the cleanup thread stands in [cleanup_check].  It holds the mutex at
    [CCheck], [CTest], [CClean] and [CNotify]. *)
Inductive cleaner_pc :=
| CIdle      (* between two checks *)
| CCheck     (* locked, about to test the occupancy and m_cleanup_requested *)
| CTest      (* locked, about to test m_requests_running == 0 *)
| CWait      (* asleep in m_cv.wait *)
| CWoken     (* notified, has to lock again *)
| CClean     (* locked, in cleanup() *)
| CNotify.   (* locked, m_cleanup_requested cleared, about to notify_all *)

#[export] Instance task_pc_eq_dec : EqDecision task_pc.
Proof. solve_decision. Defined.

#[export] Instance cleaner_pc_eq_dec : EqDecision cleaner_pc.
Proof. solve_decision. Defined.

Inductive thread := Task (i : nat) | Cleaner.

Record sync := mkSync {
  tasks : list task_pc;
  cleaner : cleaner_pc;
  mutex : option thread;
  m_cleanup_requested : bool;
  m_requests_running : Z }.

(** [notify_all]. *)
Definition wake_task (pc : task_pc) : task_pc := match pc with TWait => TWoken | _ => pc end.

Definition wake_cleaner (pc : cleaner_pc) : cleaner_pc :=
  match pc with CWait => CWoken | _ => pc end.

(** The next step of task [i], which stands at [pc]; [None] when it has to wait. *)
Definition task_step (st : sync) (i : nat) (pc : task_pc) : option sync :=
  let goto pc' m req run := Some (mkSync (<[i := pc']> (tasks st)) (cleaner st) m req run) in
  let req := m_cleanup_requested st in
  let run := m_requests_running st in
  let notify pc' :=
    Some (mkSync (<[i := pc']> (wake_task <$> tasks st)) (wake_cleaner (cleaner st)) (mutex st) req run) in
  match pc, mutex st with
  | TStart, None | TWoken, None => goto TEnter (Some (Task i)) req run
  | TEnter, _ => if req then goto TWait None req run
                 else goto TNotifyIn None req (i32 (run + 1))
  | TNotifyIn, _ => notify TRun
  | TRun, None => goto TLeave (Some (Task i)) req run
  | TLeave, _ => goto TNotifyOut None req (i32 (run - 1))
  | TNotifyOut, _ => notify TDone
  | _, _ => None
  end.

(** The next step of the cleanup thread; [full] is what it sees of the occupancy. *)
Definition cleaner_step (st : sync) (full : bool) : option sync :=
  let goto pc m req := Some (mkSync (tasks st) pc m req (m_requests_running st)) in
  let req := m_cleanup_requested st in
  match cleaner st, mutex st with
  | CIdle, None => goto CCheck (Some Cleaner) req
  | CCheck, _ => if full && negb req then goto CTest (mutex st) true else goto CIdle None req
  | CTest, _ => if m_requests_running st =? 0 then goto CClean (mutex st) req
                else goto CWait None req
  | CWoken, None => goto CTest (Some Cleaner) req
  | CClean, _ => goto CNotify (mutex st) false
  | CNotify, _ => Some (mkSync (wake_task <$> tasks st) CIdle None req (m_requests_running st))
  | _, _ => None
  end.

(** A waiting thread may also wake up without a notification. *)
Inductive sync_step : sync -> sync -> Prop :=
| step_task st i pc st' : tasks st !! i = Some pc -> task_step st i pc = Some st' -> sync_step st st'
| step_cleaner st full st' : cleaner_step st full = Some st' -> sync_step st st'
| step_spurious_task st i : tasks st !! i = Some TWait ->
    sync_step st (mkSync (<[i := TWoken]> (tasks st)) (cleaner st) (mutex st)
                    (m_cleanup_requested st) (m_requests_running st))
| step_spurious_cleaner st : cleaner st = CWait ->
    sync_step st (mkSync (tasks st) CWoken (mutex st) (m_cleanup_requested st) (m_requests_running st)).

Definition start (n : nat) : sync := mkSync (replicate n TStart) CIdle None false 0.

(** ** The invariant *)

Definition task_locked (pc : task_pc) : bool := 
  match pc with TEnter | TLeave => true | _ => false end.

Definition cleaner_locked (pc : cleaner_pc) : bool :=
  match pc with CCheck | CTest | CClean | CNotify => true | _ => false end.

(** Between the two updates of [m_requests_running]. *)
Definition inside (pc : task_pc) : bool :=
  match pc with TNotifyIn | TRun | TLeave => true | _ => false end.

Definition count (l : list task_pc) : nat := length (filter (fun pc => inside pc = true) l).

(** Between setting and clearing [m_cleanup_requested]. *)
Definition requesting (pc : cleaner_pc) : bool :=
  match pc with CTest | CWait | CWoken | CClean => true | _ => false end.

Record inv (st : sync) : Prop := {
  inv_task_lock i pc : tasks st !! i = Some pc ->
    task_locked pc = true <-> mutex st = Some (Task i);
  inv_cleaner_lock : cleaner_locked (cleaner st) = true <-> mutex st = Some Cleaner;
  inv_lock_range i : mutex st = Some (Task i) -> (i < length (tasks st))%nat;
  inv_count : m_requests_running st = Z.of_nat (count (tasks st));
  inv_few : Z.of_nat (length (tasks st)) <= INT_MAX;
  inv_requesting : m_cleanup_requested st = requesting (cleaner st);
  inv_clean : cleaner st = CClean -> count (tasks st) = 0%nat;
  inv_cleaner_wakes : cleaner st = CWait ->
    exists pc, pc ∈ tasks st /\ (inside pc = true \/ pc = TNotifyOut);
  inv_task_wakes i : tasks st !! i = Some TWait ->
    requesting (cleaner st) = true \/ cleaner st = CNotify }.

#[global] Arguments count : simpl never.

Lemma count_le l : (count l <= length l)%nat.
Proof. apply length_filter. Qed.

Lemma count_insert l (i : nat) pc pc' :
  l !! i = Some pc ->
  (count (<[i := pc']> l) + (if inside pc then 1 else 0) = count l + (if inside pc' then 1 else 0))%nat.
Proof.
  intros Hi. unfold count. rewrite (insert_take_drop l i pc') by (by eapply lookup_lt_Some).
  rewrite <- (take_drop_middle l i pc Hi) at 3.
  rewrite !filter_app, !length_app, !filter_cons.
  repeat case_decide; destruct (inside pc), (inside pc'); try done; cbn [length]; lia.
Qed.

Lemma inside_wake pc : inside (wake_task pc) = inside pc.
Proof. by destruct pc. Qed.

Lemma count_wake l : count (wake_task <$> l) = count l.
Proof.
  unfold count. induction l as [|pc l IH]; [done|].
  rewrite fmap_cons, !filter_cons, inside_wake.
  case_decide; cbn; by rewrite IH.
Qed.

Lemma count_positive l pc : pc ∈ l -> inside pc = true -> (0 < count l)%nat.
Proof.
  intros Hpc Hin. unfold count. destruct (filter _ l) eqn:E; [|cbn; lia].
  assert (Hf : pc ∈ filter (fun pc => inside pc = true) l) by (by apply list_elem_of_filter).
  rewrite E in Hf. by apply elem_of_nil in Hf.
Qed.

Lemma sync_start_inv (n : nat) : Z.of_nat n <= INT_MAX -> inv (start n).
Proof.
  intros Hn. assert (Hs : forall i pc, replicate n TStart !! i = Some pc -> pc = TStart)
    by (intros i pc [-> _]%lookup_replicate; done).
  split; cbn; try done.
  - intros i pc Hi. by rewrite (Hs i pc Hi).
  - unfold count. rewrite filter_none; [done|]. intros pc [-> _]%elem_of_replicate. done.
  - by rewrite length_replicate.
  - intros i Hi. by apply Hs in Hi.
Qed.

(** Taking and releasing the mutex, as seen by the other tasks. *)
Lemma insert_lookup_cases (l : list task_pc) (i j : nat) pc pc0 pc' :
  l !! i = Some pc0 -> <[i := pc']> l !! j = Some pc ->
  (j = i /\ pc = pc') \/ (j <> i /\ l !! j = Some pc).
Proof.
  intros Hi Hj. destruct (decide (j = i)) as [->|Hne].
  - rewrite list_lookup_insert_eq in Hj by (by eapply lookup_lt_Some).
    injection Hj as <-. by left.
  - rewrite list_lookup_insert_ne in Hj by done. by right.
Qed.

Definition woken (st : sync) : sync :=
  mkSync (wake_task <$> tasks st) (wake_cleaner (cleaner st)) (mutex st)
    (m_cleanup_requested st) (m_requests_running st).

Lemma woken_inv st : inv st -> inv (woken st).
Proof.
  intros []. split; cbn.
  - intros i pc Hi. rewrite list_lookup_fmap in Hi.
    destruct (tasks st !! i) as [pc0|] eqn:E; [|done]. injection Hi as <-.
    rewrite <- (inv_task_lock0 i pc0 E). by destruct pc0.
  - rewrite <- inv_cleaner_lock0. by destruct (cleaner st).
  - intros i Hi. rewrite length_fmap. auto.
  - by rewrite count_wake.
  - by rewrite length_fmap.
  - rewrite inv_requesting0. by destruct (cleaner st).
  - intros Hc. rewrite count_wake. apply inv_clean0. by destruct (cleaner st).
  - by destruct (cleaner st).
  - intros i Hi. rewrite list_lookup_fmap in Hi. by destruct (tasks st !! i) as [[]|].
Qed.

(** A task moves, and may take, give back or keep the mutex. *)
Lemma goto_inv st (i : nat) pc pc' m' run' :
  inv st -> tasks st !! i = Some pc ->
  (task_locked pc' = true <-> m' = Some (Task i)) ->
  (m' = Some Cleaner <-> mutex st = Some Cleaner) ->
  (forall j, j <> i -> m' = Some (Task j) <-> mutex st = Some (Task j)) ->
  run' = Z.of_nat (count (<[i := pc']> (tasks st))) ->
  (cleaner st = CClean -> inside pc' = false) ->
  (cleaner st = CWait -> (inside pc = true \/ pc = TNotifyOut) ->
    inside pc' = true \/ pc' = TNotifyOut) ->
  (pc' = TWait -> requesting (cleaner st) = true) ->
  inv (mkSync (<[i := pc']> (tasks st)) (cleaner st) m' (m_cleanup_requested st) run').
Proof.
  intros [] Hi Hlock Hcl Hother Hrun Hclean Hwake Hwait. split; cbn; try done.
  - intros j pcj Hj. destruct (insert_lookup_cases _ _ _ _ _ _ Hi Hj) as [[-> ->]|[Hne Hj']]; [done|].
    rewrite Hother by done. auto.
  - by rewrite Hcl.
  - intros j Hj. rewrite length_insert. destruct (decide (j = i)) as [->|Hne].
    + by eapply lookup_lt_Some.
    + apply inv_lock_range0. by apply Hother.
  - by rewrite length_insert.
  - intros Hc. pose proof (count_insert (tasks st) i pc pc' Hi) as Hcount.
    rewrite (Hclean Hc), (inv_clean0 Hc) in Hcount. lia.
  - intros Hc. destruct (inv_cleaner_wakes0 Hc) as (pcj & Hin & Hpcj).
    apply list_elem_of_lookup in Hin as [j Hj]. destruct (decide (j = i)) as [->|Hne].
    + rewrite Hi in Hj. injection Hj as <-. exists pc'. split; [|by apply Hwake].
      eapply list_elem_of_lookup_2. apply list_lookup_insert_eq. by eapply lookup_lt_Some.
    + exists pcj. split; [|done]. eapply list_elem_of_lookup_2.
      rewrite list_lookup_insert_ne by done. exact Hj.
  - intros j Hj. destruct (insert_lookup_cases _ _ _ _ _ _ Hi Hj) as [[-> E]|[Hne Hj']].
    + left. by apply Hwait.
    + by apply (inv_task_wakes0 j).
Qed.

(** The cleanup thread moves. *)
Lemma cleaner_goto_inv st pc' m' req' :
  inv st ->
  (cleaner_locked pc' = true <-> m' = Some Cleaner) ->
  (forall j, m' = Some (Task j) <-> mutex st = Some (Task j)) ->
  req' = requesting pc' ->
  (pc' = CClean -> count (tasks st) = 0%nat) ->
  (pc' = CWait -> (0 < count (tasks st))%nat) ->
  (forall i, tasks st !! i = Some TWait -> requesting (cleaner st) = true \/ cleaner st = CNotify ->
    requesting pc' = true \/ pc' = CNotify) ->
  inv (mkSync (tasks st) pc' m' req' (m_requests_running st)).
Proof.
  intros [] Hlock Hother Hreq Hclean Hwait Htask. split; cbn; try done.
  - intros i pc Hi. rewrite Hother. auto.
  - intros i Hi. apply inv_lock_range0. by apply Hother.
  - intros Hc. specialize (Hwait Hc). unfold count in Hwait.
    destruct (filter _ (tasks st)) as [|pc l] eqn:E; [cbn in Hwait; lia|].
    assert (Hpc : pc ∈ filter (fun pc => inside pc = true) (tasks st)) by (rewrite E; by left).
    apply list_elem_of_filter in Hpc as [Hpc Hin]. exists pc. auto.
  - intros i Hi. apply (Htask i Hi). by apply (inv_task_wakes0 i).
Qed.

Lemma task_step_inv st i pc st' :
  inv st -> tasks st !! i = Some pc -> task_step st i pc = Some st' -> inv st'.
Proof.
  intros Hst Hi Hstep. pose proof Hst as [].
  pose proof (count_insert (tasks st) i pc) as Hcount. pose proof (count_le (tasks st)) as Hle.
  pose proof (inv_task_lock0 i pc Hi) as Hlock. unfold INT_MAX in *.
  assert (Hclean : mutex st <> Some Cleaner -> cleaner st <> CClean)
    by (intros Hm Hc; apply Hm, inv_cleaner_lock0; by rewrite Hc).
  destruct pc; cbn in Hstep, Hlock; try done.
  - destruct (mutex st) eqn:Em; [done|]. injection Hstep as <-.
    apply (goto_inv st i TStart); try done; try (intros; split; congruence).
    + rewrite inv_count0. specialize (Hcount TEnter Hi). cbn in Hcount. lia.
    + intros _ [|]; done.
  - assert (Em : mutex st = Some (Task i)) by (by apply Hlock).
    destruct (m_cleanup_requested st) eqn:Er; injection Hstep as <-.
    + pose proof (goto_inv st i TEnter TWait None (m_requests_running st) Hst Hi) as Hgoto.
      rewrite Er in Hgoto. apply Hgoto; try done; try (intros; split; congruence).
      * rewrite inv_count0. specialize (Hcount TWait Hi). cbn in Hcount. lia.
      * intros _ [|]; done.
    + specialize (Hcount TNotifyIn Hi). cbn in Hcount.
      pose proof (goto_inv st i TEnter TNotifyIn None (i32 (m_requests_running st + 1)) Hst Hi) as Hgoto.
      rewrite Er in Hgoto. apply Hgoto; try done; try (intros; split; congruence).
      * pose proof (count_le (<[i := TNotifyIn]> (tasks st))) as Hle'. rewrite length_insert in Hle'.
        rewrite inv_count0. machine. lia.
      * intros Hc. exfalso. apply Hclean; [congruence|done].
      * by left.
  - destruct (mutex st) eqn:Em; [done|]. injection Hstep as <-.
    apply (goto_inv st i TWoken); try done; try (intros; split; congruence).
    + rewrite inv_count0. specialize (Hcount TEnter Hi). cbn in Hcount. lia.
    + intros _ [|]; done.
  - injection Hstep as <-. pose proof (woken_inv st Hst) as Hw.
    assert (Hiw : tasks (woken st) !! i = Some TNotifyIn) by (cbn; by rewrite list_lookup_fmap, Hi).
    apply (goto_inv (woken st) i TNotifyIn); try done.
    + pose proof (count_insert (tasks (woken st)) i TNotifyIn TRun Hiw) as Hcw. cbn in Hcw.
      rewrite count_wake in Hcw. rewrite inv_count0. cbn. lia.
    + cbn. intros Hc. assert (Hc' : cleaner st = CClean) by (by destruct (cleaner st)).
      specialize (inv_clean0 Hc'). pose proof (count_positive (tasks st) TNotifyIn) as Hpos.
      exfalso. assert (0 < count (tasks st))%nat by (apply Hpos; [by eapply list_elem_of_lookup_2|done]). lia.
    + by left.
  - destruct (mutex st) eqn:Em; [done|]. injection Hstep as <-.
    apply (goto_inv st i TRun); try done; try (intros; split; congruence).
    + rewrite inv_count0. specialize (Hcount TLeave Hi). cbn in Hcount. lia.
    + intros Hc. exfalso. by apply Hclean.
    + by left.
  - assert (Em : mutex st = Some (Task i)) by (by apply Hlock). injection Hstep as <-.
    specialize (Hcount TNotifyOut Hi). cbn in Hcount.
    apply (goto_inv st i TLeave); try done; try (intros; split; congruence).
    + rewrite inv_count0. machine. lia.
    + by right.
  - injection Hstep as <-. pose proof (woken_inv st Hst) as Hw.
    assert (Hiw : tasks (woken st) !! i = Some TNotifyOut) by (cbn; by rewrite list_lookup_fmap, Hi).
    apply (goto_inv (woken st) i TNotifyOut); try done.
    + pose proof (count_insert (tasks (woken st)) i TNotifyOut TDone Hiw) as Hcw. cbn in Hcw.
      rewrite count_wake in Hcw. rewrite inv_count0. cbn. lia.
    + cbn. by destruct (cleaner st).
Qed.

Lemma cleaner_step_inv st full st' : inv st -> cleaner_step st full = Some st' -> inv st'.
Proof.
  intros Hst Hstep. pose proof Hst as []. unfold cleaner_step in Hstep.
  assert (Hfree : cleaner_locked (cleaner st) = true -> mutex st = Some Cleaner) by apply inv_cleaner_lock0.
  destruct (cleaner st) eqn:Ec; cbn in *; try done.
  - destruct (mutex st) eqn:Em; [done|]. injection Hstep as <-.
    apply cleaner_goto_inv; rewrite ?Em, ?Ec; try done. by intros i _ [|].
  - specialize (Hfree eq_refl). destruct (full && _); injection Hstep as <-;
      apply cleaner_goto_inv; rewrite ?Hfree, ?Ec; try done.
    all: by intros i _ [|].
  - specialize (Hfree eq_refl). destruct (Z.eqb_spec (m_requests_running st) 0) as [E|E];
      injection Hstep as <-; apply cleaner_goto_inv; rewrite ?Hfree, ?Ec; try done; try lia.
    all: intros; try (by left); by split.
  - destruct (mutex st) eqn:Em; [done|]. injection Hstep as <-.
    apply cleaner_goto_inv; rewrite ?Em, ?Ec; try done; try by split. intros; by left.
  - specialize (Hfree eq_refl). injection Hstep as <-.
    apply cleaner_goto_inv; rewrite ?Hfree, ?Ec; try done. intros; by right.
  - specialize (Hfree eq_refl). injection Hstep as <-. pose proof (woken_inv st Hst) as Hw.
    apply (cleaner_goto_inv (woken st) CIdle None); try done; cbn; rewrite ?Hfree; try done.
    intros i Hi. rewrite list_lookup_fmap in Hi. by destruct (tasks st !! i) as [[]|].
Qed.

Lemma sync_step_inv st st' : inv st -> sync_step st st' -> inv st'.
Proof.
  intros Hst Hs. destruct Hs as [st0 i pc st1 Hi Hstep|st0 full st1 Hstep|st0 i Hi|st0 Hc].
  - by eapply task_step_inv.
  - by eapply cleaner_step_inv.
  - pose proof Hst as []. pose proof (count_insert (tasks st0) i TWait TWoken Hi) as Hcount. cbn in Hcount.
    apply (goto_inv st0 i TWait); try done.
    + apply (inv_task_lock0 i TWait Hi).
    + rewrite inv_count0. lia.
    + intros _ [|]; done.
  - pose proof Hst as []. apply cleaner_goto_inv; rewrite ?Hc; try done.
    + rewrite <- inv_cleaner_lock0, Hc. done.
    + rewrite inv_requesting0, Hc. done.
    + intros; by left.
Qed.

(** A schedule: a step of task [i], or of the cleanup thread with what it sees. *)
Inductive event := TaskStep (i : nat) | CleanerStep (full : bool).

Definition do_event (st : sync) (e : event) : option sync :=
  match e with
  | TaskStep i => pc ← tasks st !! i; task_step st i pc
  | CleanerStep full => cleaner_step st full
  end.

Fixpoint run_events (es : list event) (st : sync) : option sync :=
  match es with
  | [] => Some st
  | e :: es => st ← do_event st e; run_events es st
  end.

Lemma run_events_reachable es st st' : run_events es st = Some st' -> rtc sync_step st st'.
Proof.
  revert st. induction es as [|e es IH]; intros st; cbn [run_events]; [by intros [= ->]|].
  intros (st1 & E & Hst)%bind_Some. eapply rtc_l; [|by apply IH].
  destruct e as [i|full]; cbn [do_event] in E; [|by eapply step_cleaner].
  apply bind_Some in E as (pc & Hpc & E). by eapply step_task.
Qed.

(** ** Properties *)

Definition reachable (n : nat) (st : sync) : Prop := rtc sync_step (start n) st.

Lemma sync_reachable_inv (n : nat) st : Z.of_nat n <= INT_MAX -> reachable n st -> inv st.
Proof.
  intros Hn Hr. apply sync_start_inv in Hn. unfold reachable in Hr.
  induction Hr as [|x y z Hxy _ IH]; [done|]. by apply IH, (sync_step_inv x).
Qed.

(** A thread that is not asleep and not at rest can move. *)
Definition can_move (st : sync) : Prop :=
  (exists i pc st', tasks st !! i = Some pc /\ task_step st i pc = Some st')
  \/ (cleaner st <> CIdle /\ exists full st', cleaner_step st full = Some st').

Lemma task_can_move st (i : nat) pc :
  inv st -> mutex st = None -> tasks st !! i = Some pc -> pc <> TWait -> pc <> TDone -> can_move st.
Proof.
  intros [] Hm Hi Hw Hd. left. exists i, pc. pose proof (inv_task_lock0 i pc Hi) as Hlock.
  unfold task_step. rewrite Hm in *. destruct pc; try done; try (by eexists);
    exfalso; assert (H : None = Some (Task i)) by (by apply Hlock); done.
Qed.

Lemma inv_can_move st :
  inv st -> Exists (fun pc => pc <> TDone) (tasks st) \/ cleaner st <> CIdle -> can_move st.
Proof.
  intros Hst Hbusy. pose proof Hst as []. destruct (mutex st) as [[i|]|] eqn:Em.
  - destruct (lookup_lt_is_Some_2 (tasks st) i) as [pc Hi]; [by apply inv_lock_range0|].
    assert (Hl : task_locked pc = true) by (by apply (inv_task_lock0 i pc Hi)).
    left. exists i, pc. unfold task_step. destruct pc; try done; [|by eexists].
    destruct (m_cleanup_requested st); by eexists.
  - assert (Hl : cleaner_locked (cleaner st) = true) by (by apply inv_cleaner_lock0).
    right. split; [by intros E; rewrite E in Hl|]. exists false. unfold cleaner_step.
    destruct (cleaner st); try done; cbn [andb]; try (by eexists). destruct (_ =? _); by eexists.
  - assert (Hcl : cleaner_locked (cleaner st) = false)
      by (destruct (cleaner_locked _); [|done]; by assert (None = Some Cleaner) by (by apply inv_cleaner_lock0)).
    assert (Hsleep : cleaner st = CWait \/ cleaner st = CWoken \/ cleaner st = CIdle)
      by (destruct (cleaner st); auto; done).
    assert (Hwoken : cleaner st = CWoken -> can_move st).
    { intros E. right. split; [by rewrite E|]. exists false. unfold cleaner_step. rewrite E, Em. by eexists. }
    assert (Hwait : cleaner st = CWait -> can_move st).
    { intros E. destruct (inv_cleaner_wakes0 E) as (pc & Hin & Hpc).
      apply list_elem_of_lookup in Hin as [i Hi]. apply (task_can_move st i pc Hst Em Hi);
        by destruct Hpc as [Hp| ->]; [destruct pc|]. }
    destruct Hsleep as [E|[E|E]]; [by apply Hwait|by apply Hwoken|].
    destruct Hbusy as [Hbusy|]; [|done]. apply Exists_exists in Hbusy as (pc & Hin & Hpc).
    apply list_elem_of_lookup in Hin as [i Hi]. apply (task_can_move st i pc Hst Em Hi); [|done].
    intros ->. destruct (inv_task_wakes0 i Hi) as [Hq|Hq]; by rewrite E in Hq.
Qed.

(** C10: however the threads interleave, the cleanup never runs while a request
    is inside [data_request], the two never hold the mutex together, and
    [m_requests_running] is the number of requests between its two updates. *)
Theorem cleanup_excludes_requests (n : nat) (st : sync) :
  Z.of_nat n <= INT_MAX -> reachable n st ->
  (cleaner st = CClean -> forall i, tasks st !! i <> Some TRun)
  /\ (cleaner_locked (cleaner st) = true -> forall i pc, tasks st !! i = Some pc -> task_locked pc = false)
  /\ (forall i j pc pc', tasks st !! i = Some pc -> tasks st !! j = Some pc' ->
       task_locked pc = true -> task_locked pc' = true -> i = j)
  /\ m_requests_running st = Z.of_nat (count (tasks st)).
Proof.
  intros Hn Hr. pose proof (sync_reachable_inv n st Hn Hr) as []. split_and!.
  - intros Hc i Hi. specialize (inv_clean0 Hc).
    pose proof (count_positive (tasks st) TRun (list_elem_of_lookup_2 _ _ _ Hi) eq_refl). lia.
  - intros Hc i pc Hi. apply inv_cleaner_lock0 in Hc. destruct (task_locked pc) eqn:E; [|done].
    apply (inv_task_lock0 i pc Hi) in E. congruence.
  - intros i j pc pc' Hi Hj Hpc Hpc'. apply (inv_task_lock0 i pc Hi) in Hpc.
    apply (inv_task_lock0 j pc' Hj) in Hpc'. congruence.
  - done.
Qed.

(** C13: no wake-up is lost.  While the cleanup thread sleeps some request is
    still to notify it, while a request sleeps a cleanup is under way that will,
    and as long as a request is unfinished or a check is under way, some thread
    that is not asleep can take its next step. *)
Theorem no_lost_wakeup (n : nat) (st : sync) :
  Z.of_nat n <= INT_MAX -> reachable n st ->
  (cleaner st = CWait -> exists pc, pc ∈ tasks st /\ (inside pc = true \/ pc = TNotifyOut))
  /\ (forall i, tasks st !! i = Some TWait -> cleaner st <> CIdle /\ cleaner st <> CCheck)
  /\ (Exists (fun pc => pc <> TDone) (tasks st) \/ cleaner st <> CIdle -> can_move st).
Proof.
  intros Hn Hr. pose proof (sync_reachable_inv n st Hn Hr) as Hst. split_and!.
  - apply (inv_cleaner_wakes st Hst).
  - intros i Hi. destruct (inv_task_wakes st Hst i Hi) as [Hq|Hq]; split; intros E; by rewrite E in Hq.
  - by apply inv_can_move.
Qed.

(** Task 0 reaches [data_request], the cleanup thread finds it there and sleeps;
    task 1 finds the cleanup requested and sleeps too. *)
Definition sample_events : list event :=
  [TaskStep 0; TaskStep 0; TaskStep 0; CleanerStep true; CleanerStep true; CleanerStep true;
   TaskStep 1; TaskStep 1].

Definition sample_sync : sync := default (start 2) (run_events sample_events (start 2)).

Lemma sample_sync_reachable : reachable 2 sample_sync.
Proof. by apply (run_events_reachable sample_events). Qed.

Lemma cleanup_excludes_requests_witness :
  tasks sample_sync = [TRun; TWait] /\ cleaner sample_sync = CWait
  /\ m_requests_running sample_sync = 1.
Proof.
  split; [reflexivity|]. split; [reflexivity|].
  exact (proj2 (proj2 (proj2 (cleanup_excludes_requests 2 sample_sync ltac:(by vm_compute)
    sample_sync_reachable)))).
Defined.

Lemma no_lost_wakeup_witness :
  (exists pc, pc ∈ tasks sample_sync /\ (inside pc = true \/ pc = TNotifyOut)) /\ can_move sample_sync.
Proof.
  destruct (no_lost_wakeup 2 sample_sync ltac:(by vm_compute) sample_sync_reachable) as (Hc & _ & Hm).
  split; [by apply Hc|]. apply Hm. by right.
Defined.
