(* ===== verification/Recording.v ===== *)
(** The recording thread of models/detail/DefaultRequestHandlerModel.hxx ([record]),
    and its agreement with the consumer and the cleanup over
    m_next_timestamp_to_record. *)
From S2P Require Import Prelude IterableQueue BinarySearchQueue ReadoutTypes LatencyBuffer.
From S2P Require Import FrameErrorRegistry Float32 RequestHandler.

Section record.
Context {T B It W : Type} `{RT : ReadoutType T} `{LB : LatencyBuffer T B It}.
Context (cfg : settings).

(** [m_buffered_writer.write] of an element's payload; [W] is the writer's state. *)
Context (write : T -> W -> bool * W).

(** [record], up to the start of the thread: whether it starts, and the errors. *)
Definition record (m_recording is_open : bool) : bool * list issue :=
  if m_recording then
    (false, [CommandError (m_sourceid cfg) "A recording is still running, no new recording was started!"])
  else if negb is_open then
    (false, [CommandError (m_sourceid cfg) "DLH is not configured for recording"])
  else (true, []).

(** What the thread reads and writes; [recorded] is the history: the elements
    handed to the writer. *)
Record recorder := mkRecorder {
  m_next_timestamp_to_record : Z;
  element_to_search : T;
  m_buffered_writer : W;
  rec_stats : stats;
  recorded : list T }.

(** The start of the thread. *)
Definition start_recording (w : W) (s : stats) : recorder :=
  mkRecorder 0 (default_element T) w s [].

(** The end of the thread: nothing is held back from the cleanup any more. *)
Definition end_recording (r : recorder) : recorder :=
  mkRecorder UINT64_MAX (element_to_search r) (m_buffered_writer r) (rec_stats r) (recorded r).

(** The writing of one element. *)
Definition record_one (x : T) (r : recorder) : recorder * list issue :=
  let '(ok, w) := write x (m_buffered_writer r) in
  let s := add_counter m_bytes_written (get_payload_size x) (incr m_payloads_written (rec_stats r)) in
  (mkRecorder (u64 (get_timestamp x + u64 (expected_tick_difference T * get_num_frames x)))
     (element_to_search r) w s (recorded r ++ [x]),
   if ok then [] else [CannotWriteToFile (m_output_file cfg)]).

(** The [for] loop, up to 1000 elements. *)
Fixpoint record_loop (fuel : nat) (b : B) (chunk_iter end_ : It) (processed_chunks_in_loop : Z)
    (r : recorder) : outcome (recorder * list issue) :=
  if negb (lb_eqb chunk_iter end_) && lb_good b chunk_iter && (processed_chunks_in_loop <? 1000) then
    match fuel with
    | O => OutOfFuel
    | S fuel =>
        x ← lb_deref b chunk_iter;
        let '(n, r, l1) :=
          if m_next_timestamp_to_record r <=? get_timestamp x
          then let '(r, l) := record_one x r in (processed_chunks_in_loop + 1, r, l)
          else (processed_chunks_in_loop, r, []) in
        '(r, l2) ← record_loop fuel b (lb_next b chunk_iter) end_ n r;
        Ret (r, l1 ++ l2)
    end
  else Ret (r, []).

Definition with_next (next : Z) (r : recorder) : recorder :=
  mkRecorder next (set_timestamp next (element_to_search r)) (m_buffered_writer r) (rec_stats r)
    (recorded r).

(** One turn of the [while] loop: [m_cleanup_requested] as it reads it; the
    search waits for a running cleanup to finish (RequestSync.v).  A turn is one
    step here; in the code the loop runs after the mutex is given back, and only
    m_next_timestamp_to_record keeps the cleanup from the elements it reads. *)
Definition record_turn (m_cleanup_requested : bool) (b : B) (r : recorder)
    : outcome (recorder * list issue) :=
  if negb m_cleanup_requested || (m_next_timestamp_to_record r =? 0) then
    next ←
      (if m_next_timestamp_to_record r =? 0 then
         front ← lb_front b;
         Ret (match front with None => 0 | Some x => get_timestamp x end)
       else Ret (m_next_timestamp_to_record r));
    let r := with_next next r in
    chunk_iter ← lb_lower_bound b (element_to_search r) true;
    record_loop (Z.to_nat (lb_occupancy b)) b chunk_iter lb_end 0 r
  else Ret (r, []).

(** *** A recording beside the consumer and the cleanup

    [stored] is the history: what the buffer held at the start of the recording
    and every element it took since. *)
Record scene := mkScene {
  buffer : B;
  errors : registry;
  cleanup_stats : stats;
  rec : recorder;
  stored : list T }.

(** The consumer writes, the cleanup thread cleans up, the recording takes a turn. *)
Inductive event := Store (x : T) | Clean | Turn (m_cleanup_requested : bool).

Definition scene_step (sc : scene) (e : event) : outcome scene :=
  match e with
  | Store x =>
      '(ok, b) ← lb_write x (buffer sc);
      Ret (mkScene b (errors sc) (cleanup_stats sc) (rec sc)
             (if ok : bool then stored sc ++ [x] else stored sc))
  | Clean =>
      '(b, errors, s) ← cleanup cfg (m_next_timestamp_to_record (rec sc)) (buffer sc) (errors sc)
                          (cleanup_stats sc);
      Ret (mkScene b errors s (rec sc) (stored sc))
  | Turn requested =>
      '(r, _) ← record_turn requested (buffer sc) (rec sc);
      Ret (mkScene (buffer sc) (errors sc) (cleanup_stats sc) r (stored sc))
  end.

Fixpoint scene_run (es : list event) (sc : scene) : outcome scene :=
  match es with
  | [] => Ret sc
  | e :: es => sc ← scene_step sc e; scene_run es sc
  end.

(** The payloads offered to the buffer. *)
Definition offered (es : list event) : list T :=
  omap (fun e => match e with Store x => Some x | _ => None end) es.

(** The start of a recording on a buffer that holds [c]. *)
Definition first_scene (b : B) (c : list T) (m : registry) (s : stats) (w : W) : scene :=
  mkScene b m s (start_recording w s) c.
End record.
Arguments recorder : clear implicits.
Arguments scene : clear implicits.
Arguments event : clear implicits.

(** ** Lemmas *)

Section lemmas.
Context {T B It W : Type} `{RT : ReadoutType T} `{!ReadoutLaws T}
  `{LB : LatencyBuffer T B It} `{!LatencyBufferLaws T B It}.
Context (cfg : settings) (write : T -> W -> bool * W).
Implicit Types (b : B) (c : list T) (r : recorder T W).

(** The loop as a function of the elements it visits. *)
Fixpoint record_list (n : Z) (rest : list T) r : recorder T W :=
  match rest with
  | [] => r
  | x :: rest =>
      if n <? 1000 then
        if m_next_timestamp_to_record r <=? get_timestamp x
        then record_list (n + 1) rest (fst (record_one cfg write x r))
        else record_list n rest r
      else r
  end.

Lemma record_loop_list (fuel : nat) b c it rest n r :
  lb_rest b c it rest -> (length rest <= fuel)%nat ->
  exists l, record_loop cfg write fuel b it lb_end n r = Ret (record_list n rest r, l).
Proof.
  revert it rest n r. induction fuel as [|fuel IH]; intros it rest n r Hr Hf; cbn [record_loop];
    rewrite (lb_good_spec b c it rest Hr); destruct rest as [|x rest]; cbn [length] in Hf; try lia.
  1-2: rewrite bool_decide_false by (by intros []); rewrite andb_false_r; by exists [].
  rewrite bool_decide_true, (lb_end_spec b c it (x :: rest) Hr) by done. cbn [negb andb record_list].
  destruct (n <? 1000); [|by exists []].
  apply lb_step_spec in Hr as [-> Hr]. outcome.
  destruct (m_next_timestamp_to_record r <=? get_timestamp x).
  - destruct (record_one cfg write x r) as [r1 l1] eqn:E. cbn [fst].
    destruct (IH (lb_next b it) rest (n + 1) r1 Hr) as (l & ->); [lia|]. outcome. by eexists.
  - destruct (IH (lb_next b it) rest n r Hr) as (l & ->); [lia|]. outcome. by eexists.
Qed.

(** Where the recording of a regular history stands after [k] elements. *)
Definition frontier c (k : nat) : Z :=
  match head c with Some x => get_timestamp x + Z.of_nat k * element_ticks T | None => 0 end.

Lemma frontier_lookup c (i : nat) x : equally_spaced c -> c !! i = Some x -> get_timestamp x = frontier c i.
Proof.
  intros Hc Hx. unfold frontier. destruct (head c) as [y|] eqn:Hy; [by apply (Hc i x y)|].
  by destruct c.
Qed.

(** Recording the rest of a regular history. *)
Lemma record_list_regular c (k : nat) (n : Z) r :
  regular c -> m_next_timestamp_to_record r = frontier c k -> 0 <= n <= 1000 -> (k <= length c)%nat ->
  let m := Nat.min (Z.to_nat (1000 - n)) (length c - k) in
  let r' := record_list n (drop k c) r in
  recorded r' = recorded r ++ take m (drop k c)
  /\ m_next_timestamp_to_record r' = frontier c (k + m).
Proof.
  intros Hc. remember (length c - k)%nat as d eqn:Hd. revert k n r Hd.
  induction d as [|d IH]; intros k n r Hd Hnext Hn Hk; cbn zeta.
  - rewrite drop_ge by lia. cbn [record_list]. rewrite Nat.min_0_r, take_0, app_nil_r, Nat.add_0_r. done.
  - destruct (lookup_lt_is_Some_2 c k ltac:(lia)) as [x Hx].
    rewrite (drop_S c x k Hx). cbn [record_list].
    pose proof (frontier_lookup c k x (proj1 Hc) Hx) as Ex.
    destruct (Z.ltb_spec n 1000) as [Hlt|Hge].
    2:{ replace (Z.to_nat (1000 - n)) with 0%nat by lia. cbn [Nat.min take].
        rewrite app_nil_r, Nat.add_0_r. done. }
    destruct (Z.leb_spec (m_next_timestamp_to_record r) (get_timestamp x)); [|lia].
    set (r1 := fst (record_one cfg write x r)).
    assert (E1 : recorded r1 = recorded r ++ [x] /\ m_next_timestamp_to_record r1 = frontier c (S k)).
    { unfold r1, record_one. destruct (write x (m_buffered_writer r)) as [ok w]. cbn. split; [done|].
      pose proof (regular_fit c k x Hc Hx). pose proof (timestamp_range x).
      pose proof (element_ticks_bounds (T:=T)).
      rewrite (Z.mul_comm (expected_tick_difference T)), element_ticks_of. unfold UINT64_MAX in *. machine.
      rewrite Ex. unfold frontier. destruct (head c) eqn:Eh; [lia|]. by destruct c. }
    destruct E1 as [E1 E2].
    destruct (IH (S k) (n + 1) r1) as [IH1 IH2]; [lia|done|lia|lia|].
    replace (Nat.min (Z.to_nat (1000 - n)) (S d)) with (S (Nat.min (Z.to_nat (1000 - (n + 1))) d)) by lia.
    rewrite IH1, IH2, E1. cbn [take]. rewrite <- app_assoc. split; [done|]. f_equal. lia.
Qed.

(** Every [lower_bound] with the error flag set searches any increasing buffer. *)
Context (Hsearch : forall c, increasing c -> lb_searchable true c).

(** Where a turn starts, and what its search visits. *)
Definition turn_next c r : Z :=
  if m_next_timestamp_to_record r =? 0
  then match head c with None => 0 | Some x => get_timestamp x end
  else m_next_timestamp_to_record r.

Definition search_result (t : Z) c : list T :=
  if lb_finds_older then from_timestamp t c else search_queue t c.

Lemma search_result_length t c : (length (search_result t c) <= length c)%nat.
Proof.
  assert (H : (length (from_timestamp t c) <= length c)%nat).
  { destruct (from_timestamp_suffix t c) as (j & _ & ->). rewrite length_drop. lia. }
  unfold search_result, search_queue. destruct lb_finds_older; [done|].
  destruct c as [|x c]; [done|]. destruct (_ <? _); [cbn; lia|done].
Qed.

Lemma record_turn_list (requested : bool) b c r :
  lb_model b c -> increasing c -> c <> [] ->
  let r1 := with_next (turn_next c r) r in
  exists l, record_turn cfg write requested b r
    = Ret (if negb requested || (m_next_timestamp_to_record r =? 0)
           then record_list 0 (search_result (get_timestamp (element_to_search r1)) c) r1 else r, l).
Proof.
  intros Hb Hc Hne r1. unfold record_turn.
  destruct (negb requested || (m_next_timestamp_to_record r =? 0)); [|by exists []].
  replace (if m_next_timestamp_to_record r =? 0 then _ else _) with (Ret (turn_next c r) : outcome Z).
  2:{ unfold turn_next. destruct (_ =? 0); [|done]. by rewrite (lb_front_spec b c Hb). }
  outcome. fold r1.
  destruct (lb_lower_bound_spec b c (element_to_search r1) true Hb (Hsearch c Hc) Hne) as (it & -> & Hr).
  outcome. rewrite (lb_occupancy_spec b c Hb), Nat2Z.id.
  apply (record_loop_list _ b c it); [exact Hr|apply search_result_length].
Qed.

(** The invariant: the recorded elements are the oldest of the history, the
    buffer holds at least the others, and the next timestamp lies between. *)
Record recording_inv (c : list T) (j k : nat) r : Prop := {
  ri_order : (j <= k <= length c)%nat;
  ri_buffer : (j < length c)%nat;
  ri_recorded : recorded r = take k c;
  ri_next : m_next_timestamp_to_record r = if decide (k = 0%nat) then 0 else frontier c k }.

Lemma frontier_range c (k : nat) :
  regular c -> c <> [] -> (k <= length c)%nat -> 0 <= frontier c k <= UINT64_MAX.
Proof.
  intros Hc Hne Hk. destruct c as [|x c]; [done|].
  destruct (lookup_lt_is_Some_2 (x :: c) (length c)) as [y Hy]; [cbn; lia|].
  pose proof (regular_fit _ _ y Hc Hy) as Hfit. pose proof (proj1 Hc _ y x Hy eq_refl) as E.
  pose proof (timestamp_range x). pose proof (element_ticks_bounds (T:=T)).
  unfold frontier. cbn [head length] in *. nia.
Qed.

(** The search of a turn gives what is not recorded. *)
Lemma search_result_regular c (j k : nat) :
  regular c -> (j < length c)%nat -> (j <= k <= length c)%nat ->
  search_result (frontier c k) (drop j c) = drop k c.
Proof.
  intros Hc Hj Hk.
  assert (Hts : forall i x, drop j c !! i = Some x -> get_timestamp x = frontier c (j + i)).
  { intros i x Hx. rewrite lookup_drop in Hx. by apply (frontier_lookup c _ x (proj1 Hc)). }
  pose proof (element_ticks_bounds (T:=T)) as Ht.
  assert (Hmono : forall i i', frontier c i <= frontier c i' <-> (i <= i')%nat).
  { intros i i'. unfold frontier. destruct c as [|y c]; [cbn in Hj; lia|]. cbn [head]. nia. }
  assert (Efrom : from_timestamp (frontier c k) (drop j c) = drop k c).
  { rewrite (from_timestamp_drop _ _ (k - j)), drop_drop; [f_equal; lia| |].
    - intros i x Hx Hi. rewrite (Hts i x Hx). apply Z.nle_gt. rewrite Hmono. lia.
    - intros x Hx. rewrite (Hts _ x Hx). apply Hmono. lia. }
  unfold search_result. destruct lb_finds_older; [exact Efrom|].
  destruct (drop j c) as [|x c'] eqn:Ed; [by rewrite <- Efrom|]. cbn [search_queue].
  pose proof (Hts 0%nat x eq_refl) as E. rewrite Nat.add_0_r in E. rewrite E.
  destruct (Z.ltb_spec (frontier c k) (frontier c j)) as [Hlt|_]; [|done].
  pose proof (proj2 (Hmono j k) ltac:(lia)). lia.
Qed.

(** A turn records the next elements, up to 1000. *)
Lemma record_turn_regular (requested : bool) b c (j k : nat) r :
  lb_model b (drop j c) -> regular c -> recording_inv c j k r ->
  exists r' l k', record_turn cfg write requested b r = Ret (r', l)
    /\ recording_inv c j k' r'
    /\ (requested = false -> k' = Nat.min (k + 1000) (length c)).
Proof.
  intros Hb Hc [Ho Hj Hrec Hnext].
  assert (Hne : drop j c <> []) by (intros E; apply (f_equal length) in E; rewrite length_drop in E; cbn in E; lia).
  assert (Hcne : c <> []) by (intros ->; cbn in Hj; lia).
  pose proof (equally_spaced_increasing c (proj1 Hc)) as Hi.
  destruct (record_turn_list requested b (drop j c) r Hb) as (l & E); [|done|].
  { eapply increasing_sublist; [apply sublist_drop|done]. }
  destruct (negb requested || (m_next_timestamp_to_record r =? 0)) eqn:Ego.
  2:{ exists r, l, k. split; [exact E|]. split; [by split|]. intros ->. done. }
  set (r1 := with_next (turn_next (drop j c) r) r) in E.
  assert (Enext : turn_next (drop j c) r = frontier c k).
  { unfold turn_next. rewrite Hnext. case_decide as Hk.
    - subst k. assert (j = 0%nat) by lia. subst j. rewrite drop_0. unfold frontier. destruct (head c); cbn; lia.
    - destruct (Z.eqb_spec (frontier c k) 0) as [E0|]; [|done].
      unfold frontier in E0. destruct c as [|x c]; [done|]. cbn [head] in E0.
      pose proof (timestamp_range x). pose proof (element_ticks_bounds (T:=T)). nia. }
  assert (Ekey : get_timestamp (element_to_search r1) = frontier c k).
  { unfold r1, with_next. cbn [element_to_search]. rewrite Enext. apply get_set_timestamp.
    apply frontier_range; [done|done|lia]. }
  rewrite Ekey, (search_result_regular c j k Hc Hj Ho) in E.
  destruct (record_list_regular c k 0 r1 Hc) as [H1 H2]; [done|lia|lia|].
  change (Z.to_nat (1000 - 0)) with 1000%nat in *.
  set (m := Nat.min 1000 (length c - k)) in *.
  exists (record_list 0 (drop k c) r1), l, (k + m)%nat. split; [exact E|]. split; [|lia].
  split; [lia|done| |].
  - rewrite H1. unfold r1, with_next. cbn [recorded]. rewrite Hrec.
    rewrite <- (take_drop k (take (k + m) c)), take_take, Nat.min_l by lia.
    by rewrite skipn_firstn_comm, Nat.add_comm, Nat.add_sub.
  - rewrite H2. rewrite decide_False; [done|]. lia.
Qed.
End lemmas.

Section scene_lemmas.
Context {T B It W : Type} `{RT : ReadoutType T} `{!ReadoutLaws T}
  `{LB : LatencyBuffer T B It} `{!LatencyBufferLaws T B It} `{!FifoLaws T B It}.
Context (cfg : settings) (write : T -> W -> bool * W).
Context (Hsearch : forall c, increasing c -> lb_searchable true c).
Implicit Types (sc : scene T B W) (es : list (event T)).

(** The share of every cleanup leaves an element. *)
Definition leaves_one (N : nat) : Prop :=
  forall n, (0 < n <= N)%nat -> exists m, to_pop_of cfg (Z.of_nat n) = Ret m /\ m < Z.of_nat n.

Definition scene_inv sc : Prop :=
  exists j, lb_model (buffer sc) (drop j (stored sc)) /\ (j < length (stored sc))%nat
    /\ (regular (stored sc) -> exists k, recording_inv (stored sc) j k (rec sc)).

Lemma recording_inv_store c (j k : nat) r x :
  recording_inv c j k r -> recording_inv (T:=T) (W:=W) (c ++ [x]) j k r.
Proof.
  intros [Ho Hj Hrec Hnext]. split; rewrite ?length_app; cbn [length]; [lia|lia| |].
  - by rewrite take_app_le by lia.
  - rewrite Hnext. unfold frontier. destruct c; [cbn in Hj; lia|done].
Qed.

Lemma recording_inv_clean c (j k m : nat) r :
  regular c -> (m < length (drop j c))%nat ->
  Forall (fun x => get_timestamp x < m_next_timestamp_to_record r) (take m (drop j c)) ->
  recording_inv c j k r -> recording_inv (T:=T) (W:=W) c (j + m) k r.
Proof.
  intros Hc Hm Hall [Ho Hj Hrec Hnext]. rewrite length_drop in Hm. split; [|lia|done|done].
  destruct m as [|m]; [lia|].
  destruct (lookup_lt_is_Some_2 c (j + m) ltac:(lia)) as [x Hx].
  assert (Hlt : get_timestamp x < m_next_timestamp_to_record r).
  { rewrite Forall_forall in Hall. apply Hall, (list_elem_of_lookup_2 _ m).
    rewrite lookup_take_lt by lia. by rewrite lookup_drop. }
  rewrite Hnext, (frontier_lookup c _ x (proj1 Hc) Hx) in Hlt.
  pose proof (element_ticks_bounds (T:=T)). pose proof (timestamp_range x) as Hr.
  rewrite (frontier_lookup c _ x (proj1 Hc) Hx) in Hr.
  case_decide; [lia|]. unfold frontier in *. destruct (head c); [nia|lia].
Qed.

Lemma scene_step_inv (N : nat) sc (e : event T) :
  leaves_one N -> (length (stored sc) <= N)%nat -> increasing (stored sc) -> scene_inv sc ->
  exists sc1, scene_step cfg write sc e = Ret sc1 /\ scene_inv sc1
    /\ (stored sc1 = stored sc \/ exists x, e = Store x /\ stored sc1 = stored sc ++ [x]).
Proof.
  intros Hshare HN Hi (j & Hb & Hj & Hrec). destruct e as [x| |requested]; cbn [scene_step].
  - pose proof (lb_write_spec (buffer sc) (drop j (stored sc)) x Hb) as Hw. case_decide.
    + destruct Hw as (b' & -> & Hb' & _). outcome. eexists. split; [reflexivity|].
      split; [|right; by exists x]. exists j. cbn [buffer stored rec].
      rewrite drop_app_le, length_app by lia. cbn [length]. split; [done|]. split; [lia|].
      intros Hreg. destruct (Hrec (regular_prefix _ _ Hreg)) as (k & Hk).
      exists k. by apply recording_inv_store.
    + destruct Hw as (b' & -> & Hb' & _). outcome. eexists. split; [reflexivity|].
      split; [by exists j|by left].
  - destruct (Hshare (length (drop j (stored sc)))) as (n & Hn & Hlt); [rewrite length_drop; lia|].
    destruct (cleanup_drops cfg (m_next_timestamp_to_record (rec sc)) (buffer sc) _ (errors sc)
      (cleanup_stats sc) n Hb Hn Hlt) as (b' & errors' & s' & m & -> & Hb' & Hm & Hall). outcome.
    eexists. split; [reflexivity|]. split; [|by left]. exists (j + m)%nat. cbn [buffer stored rec].
    rewrite drop_drop in Hb'. split; [done|]. pose proof Hm as Hm'. rewrite length_drop in Hm'.
    split; [lia|]. intros Hreg. destruct (Hrec Hreg) as (k & Hk).
    exists k. by apply recording_inv_clean.
  - assert (Ht : exists r1 l, record_turn cfg write requested (buffer sc) (rec sc) = Ret (r1, l)).
    { eexists. apply (record_turn_list cfg write Hsearch requested _ (drop j (stored sc))); [done| |].
      - eapply increasing_sublist; [apply sublist_drop|done].
      - intros E. apply (f_equal length) in E. rewrite length_drop in E. cbn in E. lia. }
    destruct Ht as (r1 & l & E). rewrite E. outcome. eexists. split; [reflexivity|].
    split; [|by left]. exists j. cbn [buffer stored rec]. split; [done|]. split; [done|].
    intros Hreg. destruct (Hrec Hreg) as (k & Hk).
    destruct (record_turn_regular cfg write Hsearch requested (buffer sc) (stored sc) j k (rec sc) Hb Hreg Hk)
      as (r' & l' & k' & E' & Hk' & _).
    rewrite E in E'. injection E' as -> _. by exists k'.
Qed.

Lemma scene_run_inv (N : nat) es sc :
  leaves_one N -> (length (stored sc ++ offered es) <= N)%nat -> increasing (stored sc ++ offered es) ->
  scene_inv sc ->
  exists sc1, scene_run cfg write es sc = Ret sc1 /\ scene_inv sc1
    /\ exists xs, stored sc1 = stored sc ++ xs /\ sublist xs (offered es).
Proof.
  intros Hshare. revert sc. induction es as [|e es IH]; intros sc HN Hi Hsc; cbn [scene_run].
  { exists sc. split; [done|]. split; [done|]. exists []. by rewrite app_nil_r. }
  destruct (scene_step_inv N sc e Hshare) as (sc1 & -> & Hsc1 & Hstored);
    [rewrite length_app in HN; lia| |done|].
  { eapply increasing_sublist; [|exact Hi]. apply sublist_inserts_r. done. }
  outcome.
  assert (Hsub : exists ys, stored sc1 = stored sc ++ ys /\ sublist (ys ++ offered es) (offered (e :: es))).
  { destruct Hstored as [E|(x & -> & E)].
    - exists []. rewrite app_nil_r. split; [done|]. destruct e; cbn; [by constructor|done..].
    - exists [x]. split; [done|]. done. }
  destruct Hsub as (ys & Ey & Hsub).
  destruct (IH sc1) as (sc2 & E2 & Hsc2 & xs & Exs & Hxs); rewrite ?Ey, <- ?app_assoc.
  - rewrite length_app in *. apply sublist_length in Hsub. rewrite length_app in *. lia.
  - eapply increasing_sublist; [|exact Hi]. by apply sublist_app.
  - done.
  - exists sc2. split; [done|]. split; [done|]. exists (ys ++ xs). rewrite Exs, Ey, <- app_assoc.
    split; [done|]. etrans; [|exact Hsub]. by apply sublist_app.
Qed.

(** A step of a recording that waits for a timestamp no longer stored. *)
Lemma stalled_step sc (e : event T) c oldest (N : nat) :
  lb_finds_older = false -> leaves_one N -> lb_model (buffer sc) c -> head c = Some oldest ->
  0 < m_next_timestamp_to_record (rec sc) < get_timestamp oldest -> increasing c ->
  (length c <= N)%nat ->
  exists sc1 ys, scene_step cfg write sc e = Ret sc1
    /\ lb_model (buffer sc1) (c ++ ys) /\ recorded (rec sc1) = recorded (rec sc)
    /\ m_next_timestamp_to_record (rec sc1) = m_next_timestamp_to_record (rec sc)
    /\ forall es, sublist (ys ++ offered es) (offered (e :: es)).
Proof.
  intros Hold Hshare Hb Hhead Hnext Hc HN. assert (Hne : c <> []) by (by intros ->).
  destruct e as [x| |requested]; cbn [scene_step].
  - pose proof (lb_write_spec (buffer sc) c x Hb) as Hw. case_decide.
    + destruct Hw as (b' & -> & Hb' & _). outcome. eexists _, [x]. split; [reflexivity|]. by split.
    + destruct Hw as (b' & -> & Hb' & _). outcome. eexists _, []. split; [reflexivity|].
      rewrite app_nil_r. split_and!; [done|done|done|]. by constructor.
  - destruct (Hshare (length c)) as (n & Hn & Hlt); [destruct c; [done|cbn in *; lia]|].
    destruct (cleanup_drops cfg (m_next_timestamp_to_record (rec sc)) (buffer sc) c (errors sc)
      (cleanup_stats sc) n Hb Hn Hlt) as (b' & errors' & s' & m & -> & Hb' & Hm & Hall). outcome.
    eexists _, []. split; [reflexivity|]. rewrite app_nil_r. split_and!; try done.
    cbn [buffer]. destruct m as [|m]; [done|]. destruct c as [|y c]; [done|]. injection Hhead as ->.
    cbn in Hall. apply Forall_cons in Hall as [Hlt' _]. lia.
  - destruct (record_turn_list cfg write Hsearch requested (buffer sc) c (rec sc) Hb Hc Hne) as (l & ->).
    outcome. eexists _, []. split; [reflexivity|]. rewrite app_nil_r. cbn [buffer rec].
    assert (En : turn_next c (rec sc) = m_next_timestamp_to_record (rec sc)).
    { unfold turn_next. destruct (Z.eqb_spec (m_next_timestamp_to_record (rec sc)) 0); [lia|done]. }
    pose proof (timestamp_range oldest).
    assert (Es : search_result (get_timestamp (element_to_search
        (with_next (turn_next c (rec sc)) (rec sc)))) c = []).
    { rewrite En. cbn [with_next element_to_search].
      rewrite get_set_timestamp by (unfold UINT64_MAX in *; lia).
      unfold search_result, search_queue. rewrite Hold. destruct c as [|y c]; [done|]. injection Hhead as ->.
      destruct (Z.ltb_spec (m_next_timestamp_to_record (rec sc)) (get_timestamp oldest)); [done|lia]. }
    rewrite Es. cbn [record_list]. rewrite En. by destruct (_ || _).
Qed.
End scene_lemmas.

(** ** Properties *)

(** C24: a recording loses nothing.  However the turns of the recording thread
    interleave with writes of the consumer and cleanups (whose share leaves an
    element), every step succeeds; and if the elements stored are consecutive,
    those handed to the writer are at any time exactly the oldest ones of what was
    stored, once each and in order, with all the others still in the buffer, and
    the next turn that no cleanup holds back records up to 1000 of them. *)
Theorem recording_complete {T B It W : Type} `{ReadoutLaws T} `{LB : LatencyBuffer T B It}
    `{!LatencyBufferLaws T B It} `{!FifoLaws T B It}
    (cfg : settings) (write : T -> W -> bool * W) (es : list (event T)) (b : B) (c : list T)
    (m : registry) (s : stats) (w : W) :
  (forall c', increasing c' -> lb_searchable true c') -> leaves_one cfg (length (c ++ offered es)) ->
  lb_model b c -> c <> [] -> increasing (c ++ offered es) ->
  exists sc, scene_run cfg write es (first_scene b c m s w) = Ret sc
    /\ (regular (stored sc) ->
        exists j k, (j <= k <= length (stored sc))%nat
          /\ lb_model (buffer sc) (drop j (stored sc))
          /\ recorded (rec sc) = take k (stored sc)
          /\ exists r l, record_turn cfg write false (buffer sc) (rec sc) = Ret (r, l)
               /\ recorded r = take (k + 1000) (stored sc)).
Proof.
  intros Hsearch Hshare Hb Hne Hi.
  destruct (scene_run_inv cfg write Hsearch (length (c ++ offered es)) es (first_scene b c m s w) Hshare)
    as (sc & E & (j & Hbuf & Hj & Hrec) & _); [done|done| |].
  { exists 0%nat. cbn [first_scene buffer stored rec]. rewrite drop_0. split; [done|].
    assert (0 < length c)%nat by (destruct c; [done|cbn; lia]). split; [done|].
    intros _. exists 0%nat. split; [lia|done|done|done]. }
  exists sc. split; [done|]. intros Hreg. destruct (Hrec Hreg) as (k & Hk).
  destruct (record_turn_regular cfg write Hsearch false (buffer sc) (stored sc) j k (rec sc) Hbuf Hreg Hk)
    as (r & l & k' & Et & [_ _ Hr' _] & Hk'). destruct Hk as [Ho _ Hr _].
  exists j, k. split; [done|]. split; [done|]. split; [done|]. exists r, l. split; [done|].
  rewrite Hr', Hk' by done. destruct (decide (k + 1000 <= length (stored sc))%nat).
  - by rewrite Nat.min_l by lia.
  - by rewrite Nat.min_r, firstn_all, take_ge by lia.
Qed.

(** On a buffer whose [lower_bound] gives up before its oldest element, a
    recording whose next timestamp is no longer stored stands still for good:
    whatever the consumer stores, no turn hands anything to the writer, and no
    cleanup removes anything. *)
Theorem recording_stalls {T B It W : Type} `{ReadoutLaws T} `{LB : LatencyBuffer T B It}
    `{!LatencyBufferLaws T B It} `{!FifoLaws T B It}
    (cfg : settings) (write : T -> W -> bool * W) (es : list (event T)) (sc : scene T B W)
    (c : list T) (oldest : T) :
  lb_finds_older = false -> (forall c', increasing c' -> lb_searchable true c') ->
  leaves_one cfg (length (c ++ offered es)) ->
  lb_model (buffer sc) c -> head c = Some oldest ->
  0 < m_next_timestamp_to_record (rec sc) < get_timestamp oldest -> increasing (c ++ offered es) ->
  exists sc' xs, scene_run cfg write es sc = Ret sc' /\ lb_model (buffer sc') (c ++ xs)
    /\ recorded (rec sc') = recorded (rec sc).
Proof.
  intros Hold Hsearch. revert sc c. induction es as [|e es IH]; intros sc c Hshare Hb Hhead Hnext Hi;
    cbn [scene_run].
  { exists sc, []. by rewrite app_nil_r. }
  destruct (stalled_step cfg write Hsearch sc e c oldest (length (c ++ offered (e :: es))) Hold Hshare Hb Hhead)
    as (sc1 & ys & -> & Hb1 & Hr1 & Hn1 & Hsub).
  { done. }
  { eapply increasing_sublist; [apply sublist_inserts_r|exact Hi]; done. }
  { rewrite length_app. lia. }
  outcome. specialize (Hsub es).
  destruct (IH sc1 (c ++ ys)) as (sc2 & xs & E2 & Hb2 & Hr2).
  - intros n Hn. apply Hshare. apply sublist_length in Hsub. rewrite !length_app in *. lia.
  - done.
  - by destruct c.
  - by rewrite Hn1.
  - rewrite <- app_assoc. eapply increasing_sublist; [|exact Hi]. by apply sublist_app.
  - exists sc2, (ys ++ xs). rewrite app_assoc. split; [done|]. split; [done|]. by rewrite Hr2.
Qed.

(** ** The properties at work: the ring of three elements, a writer that counts *)
Import Chunk.

Definition sample_writer : chunk -> Z -> bool * Z := fun x w => (true, w + get_payload_size x).

Definition sample_recording_events : list (event chunk) :=
  [Turn false; Clean; Store (mkChunk 160); Turn true; Store (mkChunk 180); Clean].

Lemma half_leaves_one (N : nat) : (N <= 5)%nat -> leaves_one (sample_settings half) N.
Proof.
  intros HN n Hn.
  assert (Hcases : n = 1%nat \/ n = 2%nat \/ n = 3%nat \/ n = 4%nat \/ n = 5%nat) by lia.
  destruct Hcases as [->|[->|[->|[->| ->]]]].
  - exists 0. by split; vm_compute.
  - exists 1. by split; vm_compute.
  - exists 1. by split; vm_compute.
  - exists 2. by split; vm_compute.
  - exists 2. by split; vm_compute.
Qed.

Lemma sample_increasing_more : increasing (sample ++ [mkChunk 160; mkChunk 180]).
Proof.
  apply equally_spaced_increasing. intros [|[|[|[|[|i]]]]] x y; cbn; intros [= <-] [= <-]; reflexivity.
Qed.

Lemma recording_complete_witness :
  exists sc, scene_run (LB := binary_search_buffer sample_platform) (sample_settings half) sample_writer
      sample_recording_events (first_scene (ring_of 4 sample) sample ∅ no_stats 0) = Ret sc
    /\ (regular (stored sc) -> exists k, recorded (rec sc) = take k (stored sc)).
Proof.
  destruct (recording_complete (LB := binary_search_buffer sample_platform)
    (LatencyBufferLaws0 := binary_search_laws sample_platform)
    (FifoLaws0 := queue_fifo sample_platform _ _ _ _)
    (sample_settings half) sample_writer sample_recording_events (ring_of 4 sample) sample ∅ no_stats 0
    (fun c H => H) (half_leaves_one 5 ltac:(lia)) sample_repr ltac:(done) sample_increasing_more)
    as (sc & E & Hk).
  exists sc. split; [exact E|]. intros Hreg. destruct (Hk Hreg) as (j & k & _ & _ & Hr & _). by exists k.
Defined.

(** The next timestamp is 90, the oldest element 100. *)
Definition stalled_scene : scene chunk (queue chunk) Z :=
  mkScene (ring_of 4 sample) ∅ no_stats (mkRecorder 90 (mkChunk 90) 0 no_stats []) sample.

Lemma recording_stalls_witness :
  exists sc' xs, scene_run (LB := binary_search_buffer sample_platform) (sample_settings half) sample_writer
      sample_recording_events stalled_scene = Ret sc'
    /\ repr (buffer sc') (sample ++ xs) /\ recorded (rec sc') = [].
Proof.
  refine (recording_stalls (LB := binary_search_buffer sample_platform)
    (LatencyBufferLaws0 := binary_search_laws sample_platform)
    (FifoLaws0 := queue_fifo sample_platform _ _ _ _)
    (sample_settings half) sample_writer sample_recording_events stalled_scene sample (mkChunk 100)
    eq_refl (fun c H => H) (half_leaves_one 5 ltac:(lia)) sample_repr eq_refl _ sample_increasing_more).
  by split; vm_compute.
Defined.
