(* ===== verification/SkipListHandler.v ===== *)
(** models/DefaultSkipListRequestHandler.hpp and its .hxx: [cleanup] of the request
    handler for skip lists, what it does to the members the handler inherits, and to a
    recording of the inherited [record]. *)
From S2P Require Import Prelude ReadoutTypes LatencyBuffer SkipListBuffer FrameErrorRegistry Float32 RequestHandler Recording.

Section cleanup.
Context {T S N : Type} `{ReadoutType T} `{!SkipList T S N}.
Implicit Types (s : S) (c : list T).

(** [cleanup() override { skip_list_cleanup_request(); }], on the counters it inherits;
    neither the error registry nor [m_next_timestamp_to_record] matters to it. *)
Definition skip_list_cleanup (m_next_timestamp_to_record : Z) s (errors : registry) (k : stats)
    : outcome (S * registry * stats) :=
  '(s, c) ← skip_list_cleanup_request (Z.to_nat (occupancy s)) s
    (mkCounters (k m_pop_reqs) (k m_pops_count) (k m_num_buffer_cleanups));
  Ret (s, errors,
    set_counter m_pop_reqs (SkipListBuffer.m_pop_reqs c)
      (set_counter m_pops_count (SkipListBuffer.m_pops_count c)
        (set_counter m_num_buffer_cleanups (SkipListBuffer.m_num_buffer_cleanups c) k))).

(** The contents span more than the cleanup allows. *)
Definition overfull c : Prop :=
  match head c, last c with
  | Some oldest, Some newest => m_max_ts_diff < get_timestamp newest - get_timestamp oldest
  | _, _ => False
  end.

#[export] Instance overfull_dec c : Decision (overfull c).
Proof. unfold overfull. destruct (head c), (last c); apply _. Defined.

(** What a cleanup leaves. *)
Definition kept c : list T :=
  match last c with Some newest => if decide (overfull c) then recent newest c else c | None => c end.
End cleanup.

Section correct.
Context {T S N : Type} `{ReadoutLaws T} `{!TimestampOrder T} `{!SkipList T S N} `{!SkipListLaws T S N}.
Implicit Types (s : S) (c : list T) (x : T).

Lemma kept_sublist c : sublist (kept c) c.
Proof. unfold kept. destruct (last c); [|done]. case_decide; [apply sublist_filter|done]. Qed.

Lemma kept_elem c x newest :
  last c = Some newest -> overfull c -> m_max_ts_diff <= get_timestamp newest - get_timestamp x -> x ∉ kept c.
Proof.
  intros Hl Ho Hx. unfold kept. rewrite Hl, decide_True by done. intros [Hlt _]%list_elem_of_filter. lia.
Qed.

Lemma overfull_ends c :
  overfull c -> exists oldest newest, head c = Some oldest /\ last c = Some newest
    /\ m_max_ts_diff < get_timestamp newest - get_timestamp oldest.
Proof. unfold overfull. destruct (head c) as [x|], (last c) as [y|]; try done. by exists x, y. Qed.

Lemma cleanup_request_kept s c (k : cleanup_counters) :
  sl_model s c ->
  exists s', sl_model s' (kept c) /\ skip_list_cleanup_request (length c) s k
    = Ret (s', mkCounters
        (if decide (overfull c) then i32 (SkipListBuffer.m_pop_reqs k + 1) else SkipListBuffer.m_pop_reqs k)
        (if decide (overfull c) then i32 (SkipListBuffer.m_pops_count k + Z.of_nat (length c - length (kept c)))
         else SkipListBuffer.m_pops_count k)
        (i32 (SkipListBuffer.m_num_buffer_cleanups k + 1))).
Proof.
  intros Hs. pose proof (cleanup_request_correct s c k Hs) as Hc. unfold kept. destruct (decide (overfull c)) as [Ho|Ho].
  - destruct (overfull_ends c Ho) as (x & y & Hx & Hy & Hlt). rewrite Hx, Hy, decide_True in Hc by done.
    destruct Hc as (s' & E & Hs'). rewrite Hy. eauto.
  - assert (E : skip_list_cleanup_request (length c) s k = Ret (s, mkCounters (SkipListBuffer.m_pop_reqs k)
      (SkipListBuffer.m_pops_count k) (i32 (SkipListBuffer.m_num_buffer_cleanups k + 1)))).
    { unfold overfull in Ho. destruct (head c), (last c); try done. by rewrite decide_False in Hc. }
    exists s. rewrite E. split; [by destruct (last c)|done].
Qed.

(** Whatever is to be recorded, the cleanup of the skip list handler leaves the elements
    that are not too far behind the newest, and counts the others; the errors
    stay registered. *)
Lemma skip_list_cleanup_correct next s c errors (k : stats) :
  sl_model s c ->
  exists s' k', skip_list_cleanup next s errors k = Ret (s', errors, k') /\ sl_model s' (kept c)
    /\ k' m_pop_reqs = (if decide (overfull c) then i32 (k m_pop_reqs + 1) else k m_pop_reqs)
    /\ k' m_pops_count = (if decide (overfull c) then i32 (k m_pops_count + Z.of_nat (length c - length (kept c)))
                          else k m_pops_count)
    /\ k' m_num_buffer_cleanups = i32 (k m_num_buffer_cleanups + 1)
    /\ forall n, n <> m_pop_reqs -> n <> m_pops_count -> n <> m_num_buffer_cleanups -> k' n = k n.
Proof.
  intros Hs. unfold skip_list_cleanup. rewrite (occupancy_spec s c Hs), Nat2Z.id.
  destruct (cleanup_request_kept s c (mkCounters (k m_pop_reqs) (k m_pops_count) (k m_num_buffer_cleanups)) Hs)
    as (s' & Hs' & ->). outcome. do 2 eexists. split; [reflexivity|]. split_and!; try done.
  intros n H1 H2 H3. by rewrite !set_counter_ne.
Qed.

Context {W : Type} (cfg : settings) (write : T -> W -> bool * W).
Implicit Types (r : recorder T W).

(** A loop of the recording adds only elements it visits. *)
Lemma record_list_elem (n : Z) rest r x : x ∈ recorded (record_list cfg write n rest r) -> x ∈ recorded r \/ x ∈ rest.
Proof.
  revert n r. induction rest as [|y rest IH]; intros n r; cbn [record_list]; [by left|].
  destruct (_ <? _); [|by left]. destruct (_ <=? _).
  - intros [Hx|Hx]%IH; [|right; by right]. unfold record_one in Hx. destruct (write y (m_buffered_writer r)) as [ok w].
    cbn in Hx. apply elem_of_app in Hx as [Hx|Hx%list_elem_of_singleton]; [by left|right; subst; by left].
  - intros [Hx|Hx]%IH; [by left|right; by right].
Qed.

Lemma record_turn_elem (requested : bool) s c r x :
  sl_model s c -> c <> [] ->
  exists r' l, record_turn (LB := skip_list_buffer) cfg write requested s r = Ret (r', l)
    /\ (x ∈ recorded r' -> x ∈ recorded r \/ x ∈ c).
Proof.
  intros Hs Hne.
  destruct (record_turn_list (LatencyBufferLaws0 := skip_list_laws) cfg write (fun _ Hi => Hi) requested s c r Hs
    (sl_increasing s c Hs) Hne) as (l & E). eexists _, l. split; [exact E|].
  destruct (_ || _); [|by left]. intros [Hx|Hx]%record_list_elem; [by left|right].
  assert (Hfrom : forall t, x ∈ from_timestamp t c -> x ∈ c).
  { intros t Ht. destruct (from_timestamp_suffix t c) as (j & _ & Ej). rewrite Ej in Ht.
    eapply elem_of_sublist; [exact Ht|apply sublist_drop]. }
  by eapply Hfrom.
Qed.

(** A cleanup beside a recording: an element that is still to be recorded but too far
    behind the newest is removed all the same, and no turn of the recording that follows
    can find it. *)
Lemma skip_recording_loses s c x newest errors (k : stats) r (requested : bool) :
  sl_model s c -> last c = Some newest -> overfull c -> x ∈ c ->
  m_next_timestamp_to_record r <= get_timestamp x -> x ∉ recorded r ->
  m_max_ts_diff <= get_timestamp newest - get_timestamp x ->
  exists s' k' r' l, skip_list_cleanup (m_next_timestamp_to_record r) s errors k = Ret (s', errors, k')
    /\ record_turn (LB := skip_list_buffer) cfg write requested s' r = Ret (r', l) /\ x ∉ recorded r'.
Proof.
  intros Hs Hl Ho Hx Hnext Hrec Hold.
  destruct (skip_list_cleanup_correct (m_next_timestamp_to_record r) s c errors k Hs) as (s' & k' & E & Hs' & _).
  destruct (record_turn_elem requested s' (kept c) r x Hs') as (r' & l & E' & Hin).
  - intros Hk. assert (Hn : newest ∈ kept c); [|rewrite Hk in Hn; by apply elem_of_nil in Hn].
    unfold kept. rewrite Hl, decide_True by done. apply list_elem_of_filter.
    split; [unfold m_max_ts_diff; lia|by apply last_Some_elem_of].
  - exists s', k', r', l. split_and!; try done. intros [|Hkept]%Hin; [done|]. by apply (kept_elem c x newest) in Hkept.
Qed.
End correct.

Import Chunk.
Import OrderedList.

(** A recording that begins with 100 and has not yet taken a turn. *)
Lemma skip_recording_loses_witness :
  exists s' k' r' l, skip_list_cleanup 0 (mkOrdered stale_sample) ∅ no_stats = Ret (s', ∅, k')
    /\ record_turn (LB := skip_list_buffer) (sample_settings half) (fun (_ : chunk) (_ : unit) => (true, tt)) false s'
         (start_recording tt no_stats) = Ret (r', l)
    /\ mkChunk 100 ∉ recorded r'.
Proof.
  refine (skip_recording_loses (sample_settings half) (fun (_ : chunk) (_ : unit) => (true, tt)) (mkOrdered stale_sample)
    stale_sample (mkChunk 100) (mkChunk 1000000000) ∅ no_stats (start_recording tt no_stats) false _ eq_refl _ _ _ _ _).
  - split_and!; [done| |by vm_compute].
    intros [|[|i]] [|[|j]] x y [= <-] [= <-] Hij; try lia. by vm_compute.
  - by vm_compute.
  - by left.
  - by vm_compute.
  - by intros ?%elem_of_nil.
  - by vm_compute.
Defined.
