(* ===== verification/Threads.v ===== *)
(** utilities::ReusableThread as an interface: the thread objects of
    models/DefaultRequestHandlerModel.hpp and models/SourceEmulatorModel.hpp. *)
From S2P Require Import Prelude.

(** ** The interface

    [W] says where the work is, [R] is the thread object. *)
Class ReusableThread (W R : Type) := {
  new_thread : R;
  set_work : W -> R -> bool * R;
  get_readiness : R -> bool;
  work_of : R -> option W;
  go_on : option W -> R -> R }.

(** Its documented behaviour: a thread takes work only when it has none, and is ready
    again when its work has returned.  [go_on] is the thread's own progress. *)
Class ReusableThreadLaws (W R : Type) `{ReusableThread W R} := {
  new_thread_idle : work_of (W:=W) (R:=R) new_thread = None;
  readiness_spec (r : R) : get_readiness r = match work_of (W:=W) r with None => true | Some _ => false end;
  set_work_spec (w : W) (r : R) :
    match work_of (W:=W) r with
    | None => fst (set_work w r) = true /\ work_of (snd (set_work w r)) = Some w
    | Some _ => set_work w r = (false, r)
    end;
  go_on_spec (w : option W) (r : R) : work_of (W:=W) r <> None -> work_of (go_on w r) = w }.
#[export] Hint Mode ReusableThreadLaws ! ! - : typeclass_instances.

Section thread.
Context {W R : Type} `{ReusableThreadLaws W R}.

Definition idle (r : R) : Prop := work_of (W:=W) r = None.

Lemma idle_readiness (r : R) : get_readiness (W:=W) r = true <-> idle r.
Proof. unfold idle. rewrite readiness_spec. by destruct (work_of r). Qed.

Lemma set_work_idle (w : W) (r : R) : idle r -> work_of (snd (set_work w r)) = Some w.
Proof. unfold idle. intros Hr. pose proof (set_work_spec w r) as Hs. rewrite Hr in Hs. apply Hs. Qed.

Lemma set_work_busy (w : W) (r : R) : ~ idle r -> set_work w r = (false, r).
Proof. unfold idle. intros Hr. pose proof (set_work_spec w r) as Hs. by destruct (work_of r). Qed.

Lemma readiness_or_work (r : R) : get_readiness (W:=W) r = true \/ exists w : W, work_of r = Some w.
Proof. rewrite readiness_spec. destruct (work_of r); [right; by eexists|by left]. Qed.
End thread.

(** ** An instance: the work itself *)
#[export] Instance option_thread {W : Type} : ReusableThread W (option W) := {
  new_thread := None;
  set_work w r := match r with None => (true, Some w) | Some _ => (false, r) end;
  get_readiness r := match r with None => true | Some _ => false end;
  work_of r := r;
  go_on w _ := w }.

#[export] Instance option_thread_laws {W : Type} : ReusableThreadLaws W (option W).
Proof. split; try done. by intros w [w'|]. Defined.
