(* ===== verification/LiveHandler.v ===== *)
(** The request tasks, the cleanup thread and the consumer of models/detail/DefaultRequestHandlerModel.hxx
    on one latency buffer, in all interleavings: the agreement of RequestSync.v decides
    who may move, a request reads the buffer one access at a time (LiveRequest.v), and the
    cleanup is the one of the class the handler belongs to. *)
From S2P Require Import Prelude ReadoutTypes LatencyBuffer FrameErrorRegistry FragmentSearch Float32.
From S2P Require Import RequestHandler RequestSync LiveRequest.

(** A request: its window, where [data_request] is, and what had been stored and was held
    when it began, which is history. *)
Record job (T N B : Type) `{ReadoutType T} := mkJob {
  job_window : window;
  job_place : place T N B;
  stored_before : list T;
  held_before : list T }.
Arguments mkJob {T N B _} _ _ _ _.
Arguments job_window {T N B _} _.
Arguments job_place {T N B _} _.
Arguments stored_before {T N B _} _.
Arguments held_before {T N B _} _.

(** [stored] is the history of the buffer, all it has accepted. *)
Record live (T Q N B : Type) `{ReadoutType T} := mkLive {
  buffer : Q;
  m_error_registry : registry;
  live_stats : stats;
  agreement : sync;
  jobs : list (job T N B);
  stored : list T }.
Arguments mkLive {T Q N B _} _ _ _ _ _ _.
Arguments buffer {T Q N B _} _.
Arguments m_error_registry {T Q N B _} _.
Arguments live_stats {T Q N B _} _.
Arguments agreement {T Q N B _} _.
Arguments jobs {T Q N B _} _.
Arguments stored {T Q N B _} _.

(** What may happen next: the consumer writes; a task takes a step of the agreement,
    or an access of its [data_request]; the cleanup thread moves, with
    [m_next_timestamp_to_record] as it finds it; a sleeper wakes up. *)
Inductive action (T : Type) :=
| Write (x : T)
| TaskMoves (i : nat)
| TaskReads (i : nat)
| CleanerMoves (m_next_timestamp_to_record : Z)
| TaskWakes (i : nat)
| CleanerWakes.
Arguments Write {T} _.
Arguments TaskMoves {T} _.
Arguments TaskReads {T} _.
Arguments CleanerMoves {T} _.
Arguments TaskWakes {T} _.
Arguments CleanerWakes {T}.

(** The payloads offered to the buffer. *)
Definition written {T : Type} (es : list (action T)) : list T :=
  omap (fun e => match e with Write x => Some x | _ => None end) es.

(** How often task [i] may take an access. *)
Definition reads_of {T : Type} (i : nat) (e : action T) : bool :=
  match e with TaskReads i' => bool_decide (i' = i) | _ => false end.

Definition reads {T : Type} (i : nat) (es : list (action T)) : nat :=
  length (filter (fun e => reads_of i e = true) es).

Section live.
Context {T Q N B : Type} `{RT : ReadoutType T} `{!LiveBuffer T Q N B} (cfg : settings).

(** [cleanup()], which derived classes override. *)
Context (cleanup : Z -> Q -> registry -> stats -> outcome (Q * registry * stats)).
Implicit Types (st : live T Q N B) (e : action T).

Definition with_agreement st (s : sync) : live T Q N B :=
  mkLive (buffer st) (m_error_registry st) (live_stats st) s (jobs st) (stored st).

Definition with_job st (i : nat) (j : job T N B) : live T Q N B :=
  mkLive (buffer st) (m_error_registry st) (live_stats st) (agreement st) (<[i := j]> (jobs st)) (stored st).

(** A step of task [i]; it calls [data_request], and goes on once it has the answer. *)
Definition task_moves st (i : nat) : option (live T Q N B) :=
  pc ← tasks (agreement st) !! i;
  j ← jobs st !! i;
  if bool_decide (pc = TRun) && negb (answered (job_place j)) then None
  else
    s ← task_step (agreement st) i pc;
    let st' := with_agreement st s in
    Some (if bool_decide (pc = TNotifyIn)
          then with_job st' i (mkJob (job_window j) AtOccupancy (stored st) (live_elements (buffer st)))
          else st').

Definition task_reads st (i : nat) : option (outcome (live T Q N B)) :=
  pc ← tasks (agreement st) !! i;
  j ← jobs st !! i;
  if bool_decide (pc = TRun) then
    o ← request_step (buffer st) (job_window j) (job_place j);
    Some (pl ← o; Ret (with_job st i (mkJob (job_window j) pl (stored_before j) (held_before j))))
  else None.

Definition cleaner_moves st (next : Z) : option (outcome (live T Q N B)) :=
  s ← cleaner_step (agreement st) (m_pop_limit_size cfg <? live_occupancy (buffer st));
  Some (
    if bool_decide (cleaner (agreement st) = CClean) then
      '(q, errors, stats) ← cleanup next (buffer st) (m_error_registry st) (live_stats st);
      Ret (mkLive q errors stats s (jobs st) (stored st))
    else Ret (with_agreement st s)).

(** [None] when the thread has to wait. *)
Definition live_event st e : option (outcome (live T Q N B)) :=
  let s := agreement st in
  let woken tasks cl := with_agreement st (mkSync tasks cl (mutex s) (m_cleanup_requested s) (m_requests_running s)) in
  match e with
  | Write x => Some (
      '(ok, q) ← live_write x (buffer st);
      Ret (mkLive q (m_error_registry st) (live_stats st) s (jobs st)
             (if ok : bool then stored st ++ [x] else stored st)))
  | TaskMoves i => Ret <$> task_moves st i
  | TaskReads i => task_reads st i
  | CleanerMoves next => cleaner_moves st next
  | TaskWakes i =>
      if decide (tasks s !! i = Some TWait) then Some (Ret (woken (<[i := TWoken]> (tasks s)) (cleaner s))) else None
  | CleanerWakes => if decide (cleaner s = CWait) then Some (Ret (woken (tasks s) CWoken)) else None
  end.

(** A schedule; a thread that has to wait stays where it is. *)
Fixpoint live_run (es : list (action T)) st : outcome (live T Q N B) :=
  match es with
  | [] => Ret st
  | e :: es => st ← default (Ret st) (live_event st e); live_run es st
  end.

(** The start: a buffer that holds [c], a request for each window. *)
Definition live_start (q : Q) (c : list T) (m : registry) (s : stats) (ws : list window) : live T Q N B :=
  mkLive q m s (start (length ws)) ((fun w => mkJob w AtOccupancy [] []) <$> ws) c.
End live.

(** ** The invariant *)
Section invariant.
Context {T Q N B : Type} `{LL : LiveLaws T Q N B} (cfg : settings).
Context (cleanup : Z -> Q -> registry -> stats -> outcome (Q * registry * stats)).
Implicit Types (st : live T Q N B) (j : job T N B) (q : Q) (h : list T) (i : nat) (e : action T) (es : list (action T)).

Definition job_ok q h (pc : task_pc) j : Prop :=
  valid_window (T:=T) (job_window j)
  /\ match pc with
     | TRun => live_running q h (stored_before j) (held_before j) (job_window j) (job_place j)
     | TLeave | TNotifyOut | TDone => exists rc data, job_place j = Answer rc data
         /\ live_honest (job_window j) (stored_before j) (held_before j) h rc data
     | _ => job_place j = AtOccupancy
     end.

Record live_ok st : Prop := {
  live_sync : inv (agreement st);
  live_buffer : live_inv (buffer st) (stored st);
  live_jobs : length (jobs st) = length (tasks (agreement st));
  live_job i pc j : tasks (agreement st) !! i = Some pc -> jobs st !! i = Some j ->
    job_ok (buffer st) (stored st) pc j }.

Lemma job_ok_wake q h pc j : job_ok q h pc j -> job_ok q h (wake_task pc) j.
Proof. by destruct pc. Qed.

(** What a request has is its own, but for what it relies on while it runs. *)
Lemma job_ok_moves q q' h h' pc j :
  (h' = h \/ exists x, h' = h ++ [x]) ->
  (pc = TRun -> live_running q h (stored_before j) (held_before j) (job_window j) (job_place j) ->
   live_running q' h' (stored_before j) (held_before j) (job_window j) (job_place j)) ->
  job_ok q h pc j -> job_ok q' h' pc j.
Proof.
  intros Hh Hrun [Hv Hj]. split; [done|]. destruct pc; try done; [by apply Hrun|..];
    (destruct Hj as (rc & data & Ea & Hj); exists rc, data; split; [done|];
     destruct Hh as [->|[x ->]]; [done|by apply live_honest_grows]).
Qed.

(** A write may come at any time. *)
Lemma write_ok st x :
  live_ok st -> live_accepts (stored st ++ [x]) ->
  exists st', live_event cfg cleanup st (Write x) = Some (Ret st') /\ live_ok st'
    /\ (stored st' = stored st \/ stored st' = stored st ++ [x])
    /\ agreement st' = agreement st /\ jobs st' = jobs st
    /\ forall i j, tasks (agreement st) !! i = Some TRun -> jobs st !! i = Some j ->
         (live_turns (buffer st') (job_window j) (job_place j)
          <= live_turns (buffer st) (job_window j) (job_place j) + live_growth)%nat.
Proof.
  intros [] Hacc. cbn [live_event].
  destruct (live_write_spec _ _ x live_buffer0 Hacc) as (b & q' & E & Hinv & Hruns). rewrite E. outcome.
  eexists. split; [reflexivity|]. split_and!; [|by destruct b; [right|left]|done|done|].
  - split; cbn; try done. intros i pc j Hpc Hj.
    apply (job_ok_moves (buffer st) _ (stored st)); [destruct b; eauto| |by apply (live_job0 i)].
    intros -> Hrun. by apply Hruns.
  - cbn. intros i j Hpc Hj. destruct (live_job0 i TRun j Hpc Hj) as [_ Hrun]. by apply (Hruns _ _ _ _ Hrun).
Qed.

(** The tasks after a step of the agreement. *)
Lemma agreement_ok st s :
  live_ok st -> inv s -> length (tasks s) = length (tasks (agreement st)) ->
  (forall i pc', tasks s !! i = Some pc' -> exists pc, tasks (agreement st) !! i = Some pc
     /\ forall j, jobs st !! i = Some j -> job_ok (buffer st) (stored st) pc j ->
        job_ok (buffer st) (stored st) pc' j) ->
  live_ok (with_agreement st s).
Proof.
  intros [] Hs Hl Htasks. split; cbn; try done; [by rewrite Hl|].
  intros i pc' j Hpc Hj. destruct (Htasks i pc' Hpc) as (pc & Hpc0 & Hok). apply Hok; [done|]. by apply (live_job0 i).
Qed.

(** Where a step of the agreement takes a task, and the others. *)
Definition successor (pc pc' : task_pc) : Prop :=
  match pc with
  | TStart | TWoken => pc' = TEnter
  | TEnter => pc' = TWait \/ pc' = TNotifyIn
  | TNotifyIn => pc' = TRun
  | TRun => pc' = TLeave
  | TLeave => pc' = TNotifyOut
  | TNotifyOut => pc' = TDone
  | _ => False
  end.

Lemma task_step_tasks s i pc s' :
  tasks s !! i = Some pc -> task_step s i pc = Some s' ->
  length (tasks s') = length (tasks s)
  /\ forall k pck', tasks s' !! k = Some pck' ->
     (k = i /\ successor pc pck') \/ (k <> i /\ exists pck, tasks s !! k = Some pck /\ (pck' = pck \/ pck' = wake_task pck)).
Proof.
  intros Hi Hs.
  assert (Hins : forall l pc', tasks s' = <[i := pc']> l -> successor pc pc' -> length l = length (tasks s) ->
    (forall k pck', l !! k = Some pck' -> exists pck, tasks s !! k = Some pck /\ (pck' = pck \/ pck' = wake_task pck)) ->
    length (tasks s') = length (tasks s) /\ forall k pck', tasks s' !! k = Some pck' ->
     (k = i /\ successor pc pck') \/ (k <> i /\ exists pck, tasks s !! k = Some pck /\ (pck' = pck \/ pck' = wake_task pck))).
  { intros l pc' -> Hsuc Hl Hall. split; [by rewrite length_insert|]. intros k pck' Hk.
    apply list_lookup_insert_Some in Hk as [(-> & <- & _)|[Hne Hk]]; [by left|right]. split; [done|by apply Hall]. }
  assert (Hsame : forall k pck', tasks s !! k = Some pck' ->
    exists pck, tasks s !! k = Some pck /\ (pck' = pck \/ pck' = wake_task pck)) by (intros k pck' Hk; exists pck'; auto).
  assert (Hwake : forall k pck', (wake_task <$> tasks s) !! k = Some pck' ->
    exists pck, tasks s !! k = Some pck /\ (pck' = pck \/ pck' = wake_task pck)).
  { intros k pck' Hk. rewrite list_lookup_fmap in Hk. destruct (tasks s !! k) as [pck|]; [|done].
    injection Hk as <-. exists pck. auto. }
  destruct pc; cbn in Hs; try done.
  1, 3, 5: (destruct (mutex s); [done|]; injection Hs as <-; by eapply Hins).
  - destruct (m_cleanup_requested s); injection Hs as <-; (eapply Hins; [done| |done|done]); [by left|by right].
  - injection Hs as <-. eapply Hins; [done|done|by rewrite length_fmap|done].
  - injection Hs as <-. by eapply Hins.
  - injection Hs as <-. eapply Hins; [done|done|by rewrite length_fmap|done].
Qed.

(** A task moves; its job becomes [j']. *)
Lemma moved_ok st s i pc j j' :
  live_ok st -> tasks (agreement st) !! i = Some pc -> jobs st !! i = Some j -> inv s ->
  length (tasks s) = length (tasks (agreement st)) ->
  (forall k pck', tasks s !! k = Some pck' ->
     (k = i /\ job_ok (buffer st) (stored st) pck' j')
     \/ (k <> i /\ exists pck, tasks (agreement st) !! k = Some pck /\ (pck' = pck \/ pck' = wake_task pck))) ->
  live_ok (with_job (with_agreement st s) i j').
Proof.
  intros [] Hi Hj Hs Hl Htasks. split; cbn; try done; [by rewrite length_insert, Hl|].
  intros k pck' jk Hk Hjk. destruct (Htasks k pck' Hk) as [[-> Hok]|(Hne & pck & Hpck & Hor)].
  - rewrite list_lookup_insert_eq in Hjk by (by eapply lookup_lt_Some). by injection Hjk as <-.
  - rewrite list_lookup_insert_ne in Hjk by done. pose proof (live_job0 k pck jk Hpck Hjk).
    destruct Hor as [->| ->]; [done|by apply job_ok_wake].
Qed.

Lemma with_same_job st s i j : jobs st !! i = Some j -> with_job (with_agreement st s) i j = with_agreement st s.
Proof. intros Hj. unfold with_job. cbn. by rewrite (list_insert_id _ _ _ Hj). Qed.

(** Up to the call of [data_request], and from its answer on. *)
Lemma task_moves_ok st i st' : live_ok st -> task_moves st i = Some st' -> live_ok st' /\ stored st' = stored st.
Proof.
  intros Hst Hm. unfold task_moves in Hm. apply bind_Some in Hm as (pc & Hi & (j & Hj & Hm)%bind_Some).
  destruct (bool_decide (pc = TRun) && negb _) eqn:Ego; [done|]. apply bind_Some in Hm as (s & Hs & [= <-]).
  destruct (task_step_tasks (agreement st) i pc s Hi Hs) as [Hl Htasks].
  pose proof (task_step_inv _ i pc s (live_sync st Hst) Hi Hs) as Hinv.
  pose proof (live_job st Hst i pc j Hi Hj) as [Hv Hok].
  assert (Hmoved : forall j', (forall pc', successor pc pc' -> job_ok (buffer st) (stored st) pc' j') ->
    live_ok (with_job (with_agreement st s) i j')).
  { intros j' Hj'. apply (moved_ok st s i pc j j'); try done. intros k pck' Hk.
    destruct (Htasks k pck' Hk) as [[-> Hsuc]|Hother]; [left; auto|by right]. }
  destruct (bool_decide_reflect (pc = TNotifyIn)) as [Hin|Hin]; (split; [|done]).
  - subst pc. apply Hmoved. intros pc' ->. split; [done|]. cbn. apply live_begin; [apply Hst|done].
  - rewrite <- (with_same_job st s i j Hj). apply Hmoved. intros pc' Hsuc. split; [done|].
    destruct pc; cbn in Hsuc; try done; subst; try done.
    + by destruct Hsuc as [->| ->].
    + cbn in Ego. destruct (job_place j) eqn:Epl; try done.
      do 2 eexists. split; [done|]. by apply (live_answer_honest (buffer st)); [apply Hst|].
Qed.

(** Every access of [data_request] succeeds and brings the answer nearer. *)
Lemma task_reads_ok st i j :
  live_ok st -> tasks (agreement st) !! i = Some TRun -> jobs st !! i = Some j ->
  answered (job_place j) = true \/ exists st' j', task_reads st i = Some (Ret st') /\ live_ok st'
    /\ stored st' = stored st /\ agreement st' = agreement st /\ jobs st' = <[i := j']> (jobs st)
    /\ (live_turns (buffer st') (job_window j') (job_place j')
        < live_turns (buffer st) (job_window j) (job_place j))%nat.
Proof.
  intros Hst Hi Hj. pose proof (live_job st Hst i TRun j Hi Hj) as (Hv & Hok).
  destruct (live_turn _ _ _ _ _ _ (live_buffer st Hst) Hv Hok) as [Ha|(pl' & Hstep & Hok' & Hleft)]; [by left|right].
  unfold task_reads. rewrite Hi, Hj. cbn [mbind option_bind]. rewrite bool_decide_true by done.
  rewrite Hstep. cbn [mbind option_bind]. outcome. do 2 eexists. split; [done|]. split; [|done].
  pose proof (moved_ok st (agreement st) i TRun j
    (mkJob (job_window j) pl' (stored_before j) (held_before j)) Hst Hi Hj (live_sync st Hst) eq_refl) as Hmoved.
  assert (Est : with_agreement st (agreement st) = st) by (by destruct st). rewrite Est in Hmoved.
  apply Hmoved. intros k pck' Hk. destruct (decide (k = i)) as [->|]; [left|right; eauto].
  rewrite Hi in Hk. injection Hk as <-. done.
Qed.

(** A cleanup between two requests. *)
Context (cleanup_keeps : forall next q h errors s, live_inv q h ->
  exists q' errors' s', cleanup next q errors s = Ret (q', errors', s') /\ live_inv q' h).

Lemma cleaner_step_tasks s full s' (k : nat) pck' :
  cleaner_step s full = Some s' -> tasks s' !! k = Some pck' ->
  exists pck, tasks s !! k = Some pck /\ (pck' = pck \/ pck' = wake_task pck).
Proof.
  intros Hs Hk. assert (Ht : tasks s' = tasks s \/ tasks s' = wake_task <$> tasks s).
  { unfold cleaner_step in Hs.
    repeat match type of Hs with context [match ?x with _ => _ end] => destruct x end;
      try done; injection Hs as <-; auto. }
  destruct Ht as [Ht|Ht]; rewrite Ht in Hk; [eauto|]. rewrite list_lookup_fmap in Hk.
  destruct (tasks s !! k) as [pck|]; [|done]. injection Hk as <-. eauto.
Qed.

Lemma cleaner_step_length s full s' : cleaner_step s full = Some s' -> length (tasks s') = length (tasks s).
Proof.
  intros Hs. unfold cleaner_step in Hs.
  repeat match type of Hs with context [match ?x with _ => _ end] => destruct x end;
    try done; injection Hs as <-; cbn; by rewrite ?length_fmap.
Qed.

(** A cleanup only runs while no task is in [data_request]. *)
Lemma cleaner_moves_ok st next o :
  live_ok st -> cleaner_moves cfg cleanup st next = Some o -> exists st', o = Ret st' /\ live_ok st' /\ stored st' = stored st.
Proof.
  intros Hst Hm. unfold cleaner_moves in Hm. apply bind_Some in Hm as (s & Hs & [= <-]).
  pose proof (cleaner_step_inv _ _ s (live_sync st Hst) Hs) as Hinv.
  pose proof (cleaner_step_length _ _ _ Hs) as Hl. pose proof (fun k pck' => cleaner_step_tasks _ _ _ k pck' Hs) as Ht.
  case_bool_decide as Hcl.
  - destruct (cleanup_keeps next (buffer st) _ (m_error_registry st) (live_stats st) (live_buffer st Hst))
      as (q' & e' & s' & -> & Hq'). outcome. eexists. split; [reflexivity|]. split; [|done].
    pose proof (inv_clean _ (live_sync st Hst) Hcl) as Hcount. destruct Hst. split; cbn; try done; [by rewrite Hl|].
    intros k pck' j Hk Hj. destruct (Ht k pck' Hk) as (pck & Hpck & Hor).
    assert (Hok : job_ok q' (stored st) pck j).
    { apply (job_ok_moves (buffer st) _ (stored st)); [by left| |by apply (live_job0 k)]. intros ->.
      pose proof (count_positive (tasks (agreement st)) TRun). apply list_elem_of_lookup_2 in Hpck.
      assert (0 < count (tasks (agreement st)))%nat by auto. lia. }
    destruct Hor as [->| ->]; [done|by apply job_ok_wake].
  - eexists. split; [reflexivity|]. split; [|done]. apply agreement_ok; try done.
    intros k pck' Hk. destruct (Ht k pck' Hk) as (pck & Hpck & Hor). exists pck. split; [done|].
    intros j Hj Hok. destruct Hor as [->| ->]; [done|by apply job_ok_wake].
Qed.

Lemma live_event_ok st e o :
  live_ok st -> live_accepts (stored st ++ written [e]) -> live_event cfg cleanup st e = Some o ->
  exists st', o = Ret st' /\ live_ok st'
    /\ exists xs, stored st' = stored st ++ xs /\ sublist xs (written [e]).
Proof.
  intros Hst Hacc Hev.
  assert (Hsame : forall st', live_ok st' /\ stored st' = stored st -> Some (Ret st') = Some o ->
    exists st', o = Ret st' /\ live_ok st' /\ exists xs, stored st' = stored st ++ xs /\ sublist xs (written [e])).
  { intros st' [Hst' E] [= <-]. exists st'. split; [done|]. split; [done|]. exists [].
    rewrite app_nil_r. split; [done|apply sublist_nil_l]. }
  destruct e as [x|i|i|next|i|].
  - destruct (write_ok st x Hst Hacc) as (st' & E & Hst' & Hor & _). rewrite E in Hev. injection Hev as <-.
    exists st'. split; [done|]. split; [done|]. destruct Hor as [->| ->]; [exists []|by exists [x]].
    rewrite app_nil_r. split; [done|apply sublist_nil_l].
  - cbn in Hev. destruct (task_moves st i) as [st'|] eqn:E; [|done].
    by apply (Hsame st' (task_moves_ok st i st' Hst E)).
  - cbn in Hev. pose proof Hev as Hev'. unfold task_reads in Hev'.
    apply bind_Some in Hev' as (pc & Hi' & (j & Hj & Hev')%bind_Some).
    case_bool_decide as Hpc; [|done]. subst pc.
    destruct (task_reads_ok st i j Hst Hi' Hj) as [Ha|(st' & j' & E & Hst' & Estored & _)].
    + destruct (job_place j); try done.
    + apply (Hsame st'); [done|]. by rewrite <- E.
  - cbn in Hev. destruct (cleaner_moves_ok st next o Hst Hev) as (st' & -> & Hst'). by apply (Hsame st').
  - cbn in Hev. case_decide as Hw; [|done]. refine (Hsame _ _ Hev). split; [|done].
    assert (Hs : sync_step (agreement st) (mkSync (<[i := TWoken]> (tasks (agreement st))) (cleaner (agreement st))
      (mutex (agreement st)) (m_cleanup_requested (agreement st)) (m_requests_running (agreement st))))
      by (by apply step_spurious_task).
    apply agreement_ok; [done|by apply (sync_step_inv (agreement st)); [apply Hst|]|by apply length_insert|].
    intros k pck' Hk. cbn in Hk. apply list_lookup_insert_Some in Hk as [(-> & <- & _)|[_ Hk]]; [|eauto].
    exists TWait. split; [done|]. by intros j _.
  - cbn in Hev. case_decide as Hw; [|done]. refine (Hsame _ _ Hev). split; [|done].
    assert (Hs : sync_step (agreement st) (mkSync (tasks (agreement st)) CWoken
      (mutex (agreement st)) (m_cleanup_requested (agreement st)) (m_requests_running (agreement st))))
      by (by apply step_spurious_cleaner).
    apply agreement_ok; [done|by apply (sync_step_inv (agreement st)); [apply Hst|]|done|]. eauto.
Qed.

(** Any step of a schedule, also of a thread that has to wait. *)
Lemma live_step_ok st e :
  live_ok st -> live_accepts (stored st ++ written [e]) ->
  exists st', default (Ret st) (live_event cfg cleanup st e) = Ret st' /\ live_ok st'
    /\ exists xs, stored st' = stored st ++ xs /\ sublist xs (written [e]).
Proof.
  intros Hst Hacc. destruct (live_event cfg cleanup st e) as [o|] eqn:E; cbn [default].
  - destruct (live_event_ok st e o Hst Hacc E) as (st' & -> & Hst'). by exists st'.
  - exists st. split; [done|]. split; [done|]. exists []. rewrite app_nil_r. split; [done|apply sublist_nil_l].
Qed.

Lemma written_cons e es : written (e :: es) = written [e] ++ written es.
Proof. by destruct e. Qed.

(** What is accepted with all that is written is accepted with what has been stored of it. *)
Lemma accepts_stored h xs ys zs : sublist xs ys -> live_accepts (h ++ ys ++ zs) -> live_accepts ((h ++ xs) ++ zs).
Proof.
  intros Hs. apply live_accepts_sublist. rewrite app_assoc. apply sublist_app; [|done]. by apply sublist_app.
Qed.

Lemma accepts_first h ys zs : live_accepts (h ++ ys ++ zs) -> live_accepts (h ++ ys).
Proof. apply live_accepts_sublist. rewrite app_assoc. by apply sublist_inserts_r. Qed.

Lemma live_run_ok es st :
  live_ok st -> live_accepts (stored st ++ written es) ->
  exists st', live_run cfg cleanup es st = Ret st' /\ live_ok st'
    /\ exists xs, stored st' = stored st ++ xs /\ sublist xs (written es).
Proof.
  revert st. induction es as [|e es IH]; intros st Hst Hacc; cbn [live_run].
  { exists st. split; [done|]. split; [done|]. exists []. by rewrite app_nil_r. }
  rewrite written_cons in Hacc.
  destruct (live_step_ok st e Hst (accepts_first _ _ _ Hacc)) as (st1 & -> & Hst1 & xs & E1 & Hxs).
  outcome. destruct (IH st1 Hst1) as (st2 & E2 & Hst2 & ys & E3 & Hys).
  { rewrite E1. by apply (accepts_stored _ _ (written [e])). }
  exists st2. split; [done|]. split; [done|]. exists (xs ++ ys). rewrite E3, E1, app_assoc.
  split; [done|]. rewrite written_cons. by apply sublist_app.
Qed.

Lemma live_start_ok q c m s ws :
  live_inv q c -> Forall (valid_window (T:=T)) ws -> Z.of_nat (length ws) <= INT_MAX ->
  live_ok (live_start q c m s ws).
Proof.
  intros Hq Hws Hfew. split; cbn; try done; [by apply sync_start_inv| |].
  - by rewrite length_fmap, length_replicate.
  - intros i pc j Hpc Hj. apply lookup_replicate in Hpc as [-> _].
    rewrite list_lookup_fmap in Hj. destruct (ws !! i) as [w|] eqn:Hw; [|done]. injection Hj as <-.
    split; [|done]. by eapply Forall_lookup_1.
Qed.

(** An answer is honest from the moment it is there. *)
Lemma live_answer st i j rc data :
  live_ok st -> jobs st !! i = Some j -> job_place j = Answer rc data ->
  live_honest (job_window j) (stored_before j) (held_before j) (stored st) rc data.
Proof.
  intros Hst Hj Ha. destruct (lookup_lt_is_Some_2 (tasks (agreement st)) i) as [pc Hi].
  { rewrite <- (live_jobs st Hst). by eapply lookup_lt_Some. }
  destruct (live_job st Hst i pc j Hi Hj) as [Hv Hok]. rewrite Ha in Hok. destruct pc; try done.
  - by apply (live_answer_honest (buffer st)); [apply Hst|].
  - by destruct Hok as (rc' & data' & [= <- <-] & Hh).
  - by destruct Hok as (rc' & data' & [= <- <-] & Hh).
  - by destruct Hok as (rc' & data' & [= <- <-] & Hh).
Qed.

(** *** A request keeps its window and its place until it moves itself *)

Lemma same_windows (l : list (job T N B)) i j j' :
  l !! i = Some j -> job_window (T:=T) j' = job_window j -> job_window <$> <[i := j']> l = job_window <$> l.
Proof. intros Hj E. rewrite list_fmap_insert, E. apply list_insert_id. by rewrite list_lookup_fmap, Hj. Qed.

(** What an event does to the jobs. *)
Definition new_jobs st e (js : list (job T N B)) : Prop :=
  js = jobs st \/ exists i j j', jobs st !! i = Some j /\ js = <[i := j']> (jobs st) /\ job_window j' = job_window j
    /\ (e = TaskReads i \/ (e = TaskMoves i /\ tasks (agreement st) !! i = Some TNotifyIn)).

Lemma live_event_jobs st e st' : live_event cfg cleanup st e = Some (Ret st') -> new_jobs st e (jobs st').
Proof.
  unfold new_jobs. destruct e as [x|i|i|next|i|]; cbn [live_event]; intros Hev.
  - injection Hev as ([ok q] & _ & [= <-])%bind_Ret_inv. by left.
  - destruct (task_moves st i) as [st1|] eqn:Hm; [|done]. injection Hev as <-. unfold task_moves in Hm.
    apply bind_Some in Hm as (pc & Hi & (j & Hj & Hm)%bind_Some). destruct (_ && _); [done|].
    apply bind_Some in Hm as (s & _ & [= <-]). destruct (bool_decide_reflect (pc = TNotifyIn)) as [->|]; [right|by left].
    exists i, j. eexists. split_and!; [done|reflexivity|done|by right].
  - unfold task_reads in Hev. apply bind_Some in Hev as (pc & Hi & (j & Hj & Hev)%bind_Some).
    destruct (bool_decide _); [|done]. apply bind_Some in Hev as (o & _ & [= Hev]).
    apply bind_Ret_inv in Hev as (pl & _ & [= <-]). right. exists i, j. eexists. split_and!; [done|reflexivity|done|by left].
  - unfold cleaner_moves in Hev. apply bind_Some in Hev as (s & _ & [= Hev]). left.
    destruct (bool_decide _); [|by injection Hev as <-].
    by apply bind_Ret_inv in Hev as ([[q e] s'] & _ & [= <-]).
  - case_decide; [|done]. injection Hev as <-. by left.
  - case_decide; [|done]. injection Hev as <-. by left.
Qed.

Lemma live_run_windows es st st' : live_run cfg cleanup es st = Ret st' -> job_window <$> jobs st' = job_window <$> jobs st.
Proof.
  revert st. induction es as [|e es IH]; intros st; cbn [live_run]; [by intros [= <-]|].
  intros (st1 & E & Hrun)%bind_Ret_inv. rewrite (IH st1 Hrun).
  destruct (live_event cfg cleanup st e) as [o|] eqn:Hev; cbn in E; [|by injection E as <-]. subst o.
  destruct (live_event_jobs st e st1 Hev) as [->|(i & j & j' & Hj & -> & Hw & _)]; [done|].
  by apply (same_windows _ i j).
Qed.

(** From the call of [data_request] on. *)
Definition entered (pc : task_pc) : bool := match pc with TRun | TLeave | TNotifyOut | TDone => true | _ => false end.

Lemma live_event_entered st e st' i pc :
  live_event cfg cleanup st e = Some (Ret st') -> tasks (agreement st) !! i = Some pc -> entered pc = true ->
  length (tasks (agreement st')) = length (tasks (agreement st)) ->
  exists pc', tasks (agreement st') !! i = Some pc' /\ entered pc' = true.
Proof.
  intros Hev Hi Hpc Hl. destruct (lookup_lt_is_Some_2 (tasks (agreement st')) i) as [pc' Hi'].
  { rewrite Hl. by eapply lookup_lt_Some. }
  exists pc'. split; [done|].
  assert (Hor : forall pck, tasks (agreement st) !! i = Some pck -> pc' = pck \/ pc' = wake_task pck -> entered pc' = true).
  { intros pck Hpck. rewrite Hi in Hpck. injection Hpck as <-. intros [->| ->]; by destruct pc. }
  destruct e as [x|k|k|next|k|]; cbn [live_event] in Hev.
  - injection Hev as ([ok q] & _ & [= <-])%bind_Ret_inv. eauto.
  - destruct (task_moves st k) as [st1|] eqn:Hm; [|done]. injection Hev as <-. unfold task_moves in Hm.
    apply bind_Some in Hm as (pck & Hk & (j & Hj & Hm)%bind_Some). destruct (_ && _); [done|].
    apply bind_Some in Hm as (s & Hs & [= <-]).
    assert (Hts : tasks s !! i = Some pc') by (by destruct (bool_decide _)).
    destruct (task_step_tasks (agreement st) k pck s Hk Hs) as [_ Hall].
    destruct (Hall i pc' Hts) as [[-> Hsuc]|(_ & pc0 & Hpc0 & Hor')]; [|eauto].
    rewrite Hi in Hk. injection Hk as <-. destruct pc; try done; cbn in Hsuc; by subst.
  - unfold task_reads in Hev. apply bind_Some in Hev as (pck & Hk & (j & Hj & Hev)%bind_Some).
    destruct (bool_decide _); [|done]. apply bind_Some in Hev as (o & _ & [= Hev]).
    apply bind_Ret_inv in Hev as (pl & _ & [= <-]). eauto.
  - unfold cleaner_moves in Hev. apply bind_Some in Hev as (s & Hs & [= Hev]).
    assert (Hts : tasks s !! i = Some pc').
    { destruct (bool_decide _); [|by injection Hev as <-]. by apply bind_Ret_inv in Hev as ([[q e] s'] & _ & [= <-]). }
    destruct (cleaner_step_tasks _ _ _ i pc' Hs Hts) as (pck & Hpck & Hor'). eauto.
  - case_decide as Hw; [|done]. injection Hev as <-. cbn in Hi'.
    apply list_lookup_insert_Some in Hi' as [(-> & <- & _)|[_ Hi']]; [|eauto]. rewrite Hw in Hi. by injection Hi as <-.
  - case_decide; [|done]. injection Hev as <-. eauto.
Qed.

Lemma task_moves_buffer st i st' : task_moves st i = Some st' -> buffer st' = buffer st.
Proof.
  intros Hm. unfold task_moves in Hm. apply bind_Some in Hm as (pc & _ & (j & _ & Hm)%bind_Some).
  destruct (_ && _); [done|]. apply bind_Some in Hm as (s & _ & [= <-]). by destruct (bool_decide _).
Qed.

Lemma task_reads_buffer st i st' : task_reads st i = Some (Ret st') -> buffer st' = buffer st.
Proof.
  intros Hm. unfold task_reads in Hm. apply bind_Some in Hm as (pc & _ & (j & _ & Hm)%bind_Some).
  destruct (bool_decide _); [|done]. apply bind_Some in Hm as (o & _ & [= Hm]).
  by apply bind_Ret_inv in Hm as (pl & _ & [= <-]).
Qed.

Lemma cleaner_moves_buffer st next st' i :
  inv (agreement st) -> tasks (agreement st) !! i = Some TRun ->
  cleaner_moves cfg cleanup st next = Some (Ret st') -> buffer st' = buffer st.
Proof.
  intros Hinv Hi Hm. unfold cleaner_moves in Hm. apply bind_Some in Hm as (s & _ & [= Hm]).
  case_bool_decide as Hcl; [|by injection Hm as <-]. exfalso.
  pose proof (count_positive (tasks (agreement st)) TRun (list_elem_of_lookup_2 _ _ _ Hi) eq_refl).
  pose proof (inv_clean _ Hinv Hcl). lia.
Qed.

(** Each access a request may take brings it nearer to its answer, a write takes it
    [live_growth] away at most, and nothing else moves it. *)
Lemma live_step_progress st e st' i pc j :
  live_ok st -> live_accepts (stored st ++ written [e]) -> live_ok st' ->
  default (Ret st) (live_event cfg cleanup st e) = Ret st' ->
  tasks (agreement st) !! i = Some pc -> entered pc = true -> jobs st !! i = Some j ->
  exists pc' j', tasks (agreement st') !! i = Some pc' /\ entered pc' = true /\ jobs st' !! i = Some j'
    /\ (answered (job_place j) = true -> j' = j)
    /\ (answered (job_place j') = true
        \/ live_turns (buffer st') (job_window j') (job_place j') + (if reads_of i e then 1 else 0)
           <= live_turns (buffer st) (job_window j) (job_place j) + live_growth * length (written [e]))%nat.
Proof.
  intros Hst Hacc Hst' Hev Hi Hpc Hj.
  assert (Hlate : pc <> TRun -> answered (job_place j) = true).
  { intros Hne. destruct (live_job st Hst i pc j Hi Hj) as [_ Hok].
    destruct pc; try done; by destruct Hok as (rc & data & -> & _). }
  destruct (live_event cfg cleanup st e) as [o|] eqn:E; cbn in Hev.
  2:{ injection Hev as <-. exists pc, j. split_and!; try done. destruct (answered (job_place j)) eqn:Ha; [by left|].
      destruct (decide (pc = TRun)) as [->|Hne]; [|specialize (Hlate Hne); congruence]. right.
      destruct (reads_of i e) eqn:Hr; [|lia]. exfalso.
      assert (e = TaskReads i) as -> by (destruct e; try done; cbn in Hr; by apply bool_decide_eq_true in Hr as ->).
      cbn [live_event] in E. destruct (task_reads_ok st i j Hst Hi Hj) as [Ha'|(? & ? & E' & _)]; congruence. }
  subst o. destruct (live_event_entered st e st' i pc E Hi Hpc) as (pc' & Hi' & Hpc').
  { rewrite <- (live_jobs st Hst), <- (live_jobs st' Hst').
    destruct (live_event_jobs st e st' E) as [->|(k & jk & j' & Hk & -> & _)]; [done|by apply length_insert]. }
  exists pc'. destruct e as [x|k|k|next|k|].
  - destruct (write_ok st x Hst Hacc) as (st1 & E1 & _ & _ & _ & Ejobs & Hturns). rewrite E1 in E. injection E as ->.
    exists j. rewrite Ejobs. split_and!; try done. destruct (decide (pc = TRun)) as [->|Hne]; [right|left; by apply Hlate].
    specialize (Hturns i j Hi Hj). cbn. lia.
  - destruct (live_event_jobs st _ st' E) as [Ejobs|(k' & jk & j' & Hk & Ejobs & _ & [[=]|[[= <-] Hin]])].
    + exists j. rewrite Ejobs. split_and!; try done.
      destruct (decide (pc = TRun)) as [->|Hne]; [right|left; by apply Hlate].
      cbn [live_event] in E. destruct (task_moves st k) as [st1|] eqn:Em; [|done]. injection E as ->.
      rewrite (task_moves_buffer _ _ _ Em). cbn. lia.
    + assert (k <> i) by (intros ->; rewrite Hi in Hin; by injection Hin as ->).
      exists j. rewrite Ejobs, list_lookup_insert_ne by done. split_and!; try done.
      destruct (decide (pc = TRun)) as [->|Hne]; [right|left; by apply Hlate].
      cbn [live_event] in E. destruct (task_moves st k) as [st1|] eqn:Em; [|done]. injection E as ->.
      rewrite (task_moves_buffer _ _ _ Em). cbn. lia.
  - cbn [live_event reads_of] in *. case_bool_decide as Hk.
    + subst k. destruct (decide (pc = TRun)) as [->|Hne].
      * destruct (task_reads_ok st i j Hst Hi Hj) as [Ha|(st1 & j' & E1 & _ & _ & _ & Ejobs & Hlt)].
        -- unfold task_reads in E. rewrite Hi, Hj in E. cbn in E. by destruct (job_place j).
        -- rewrite E1 in E. injection E as ->. exists j'. rewrite Ejobs. split_and!; try done; [| |right; cbn; lia].
           { apply list_lookup_insert_eq. by eapply lookup_lt_Some. }
           intros Ha. unfold task_reads in E1. rewrite Hi, Hj in E1. cbn in E1. by destruct (job_place j).
      * unfold task_reads in E. rewrite Hi, Hj in E. cbn in E. by rewrite bool_decide_false in E.
    + destruct (live_event_jobs st (TaskReads k) st' E) as [Ejobs|(k' & jk & j' & Hk' & Ejobs & _ & [[= <-]|[[=] _]])];
        (exists j; split_and!; try done;
         [rewrite Ejobs; try by rewrite list_lookup_insert_ne
         |destruct (decide (pc = TRun)) as [->|Hne]; [right|left; by apply Hlate];
          rewrite (task_reads_buffer _ _ _ E); cbn; lia]). done.
  - exists j. destruct (live_event_jobs st _ st' E) as [Ejobs|(? & ? & ? & _ & _ & _ & [[=]|[[=] _]])].
    rewrite Ejobs. split_and!; try done. destruct (decide (pc = TRun)) as [->|Hne]; [right|left; by apply Hlate].
    cbn [live_event] in E. rewrite (cleaner_moves_buffer st next st' i); [cbn; lia|apply Hst|done|done].
  - cbn [live_event] in E. case_decide; [|done]. injection E as <-. exists j. split_and!; try done. right. cbn. lia.
  - cbn [live_event] in E. case_decide; [|done]. injection E as <-. exists j. split_and!; try done. right. cbn. lia.
Qed.

Lemma reads_cons i e es : reads i (e :: es) = ((if reads_of i e then 1 else 0) + reads i es)%nat.
Proof. unfold reads. rewrite filter_cons. case_decide as Hd; [by rewrite Hd|]. by destruct (reads_of i e). Qed.

Lemma live_run_answers es st st' i pc j :
  live_ok st -> live_accepts (stored st ++ written es) -> live_run cfg cleanup es st = Ret st' ->
  tasks (agreement st) !! i = Some pc -> entered pc = true -> jobs st !! i = Some j ->
  (live_turns (buffer st) (job_window j) (job_place j) + live_growth * length (written es) <= reads i es)%nat
    \/ answered (job_place j) = true ->
  exists j' rc data, jobs st' !! i = Some j' /\ job_place j' = Answer rc data.
Proof.
  revert st pc j. induction es as [|e es IH]; intros st pc j Hst Hacc Hrun Hi Hpc Hj Hleft; cbn [live_run] in Hrun.
  { injection Hrun as <-. exists j. assert (Ha : answered (job_place j) = true).
    { destruct Hleft as [Hleft|]; [|done]. cbn in Hleft.
      destruct (decide (pc = TRun)) as [->|Hne].
      - destruct (live_job st Hst i TRun j Hi Hj) as [Hv Hok].
        destruct (live_turn _ _ _ _ _ _ (live_buffer st Hst) Hv Hok) as [|(pl' & _ & _ & Hlt)]; [done|lia].
      - destruct (live_job st Hst i pc j Hi Hj) as [_ Hok]. destruct pc; try done; by destruct Hok as (rc & data & -> & _). }
    destruct (job_place j); try done. eauto. }
  rewrite written_cons in Hacc. apply bind_Ret_inv in Hrun as (st1 & E & Hrun).
  pose proof (accepts_first _ _ _ Hacc) as Hacc1.
  destruct (live_step_ok st e Hst Hacc1) as (st1' & E' & Hst1 & xs & E1 & Hxs).
  rewrite E in E'. injection E' as <-.
  destruct (live_step_progress st e st1 i pc j Hst Hacc1 Hst1 E Hi Hpc Hj) as (pc' & j' & Hi' & Hpc' & Hj' & Hsame & Hturn).
  apply (IH st1 pc' j' Hst1); try done.
  - rewrite E1. by apply (accepts_stored _ _ (written [e])).
  - rewrite reads_cons, written_cons, length_app in Hleft. destruct Hturn as [Ha|Hturn]; [by right|].
    destruct Hleft as [Hleft|Ha]; [left; destruct (reads_of i e); lia|right]. by rewrite Hsame.
Qed.
End invariant.
