(* ===== verification/LiveRing.v ===== *)
(** Requests on a live ring: the ring of models/IterableQueueModel.hpp searched by
    BinarySearchQueueModel's [lower_bound], as the buffer that LiveRequest.v reads access
    by access and LiveHandler.v shares with the consumer and the cleanup. *)
From S2P Require Import Prelude IterableQueue BinarySearchQueue ReadoutTypes LatencyBuffer FrameErrorRegistry FragmentSearch Float32.
From S2P Require Import RequestHandler RequestSync Recording LiveRequest LiveHandler.

Section ring.
Context {T : Type} `{RT : ReadoutType T}.
Implicit Types (q : queue T) (x : T).

(** [lower_bound] once it has read the two indices. *)
Definition search_between q (key : T) (start_index end_index : Z) : outcome Z :=
  if start_index =? end_index then Ret iter_end
  else
    let end_index := if end_index =? 0 then u32 (size_ q - 1) else u32 (end_index - 1) in
    left_element ← slot_read (records_ q) start_index;
    if element_lt key left_element then Ret iter_end
    else search_loop (search_fuel (size_ q)) q key start_index end_index.

(** The slot [j] places after the oldest element. *)
Definition slot_at q (j : nat) : Z := Z.of_nat (wrap (Z.to_nat (size_ q)) (Z.to_nat (readIndex_ q) + j)).

Definition ring_elements q : list T :=
  omap (fun j => match slot_read (records_ q) (slot_at q j) with Ret x => Some x | _ => None end)
    (seq 0 (Z.to_nat (occupancy q))).

(** [&records_[m_index]], of an iterator that is not [end()]. *)
Definition slot_address (it : Z) : option Z := if it =? iter_end then None else Some it.

(** The accesses of a request to the ring. *)
#[export] Instance ring_live : LiveBuffer T (queue T) Z (Z * Z) := {
  live_elements := ring_elements;
  live_write x q := write q x;
  live_occupancy := occupancy;
  live_front := front;
  live_back := back;
  live_read := iter_deref;
  live_bounds q := (readIndex_ q, writeIndex_ q);
  live_search q key bounds := search_between q key bounds.1 bounds.2;
  live_good := iter_good;
  live_address _ it := slot_address it;
  live_next := iter_next }.

(** The turns a request still takes at most, on a ring of [n] slots. *)
Definition turns_left (n : nat) (pl : place T Z (Z * Z)) : nat :=
  match pl with
  | AtOccupancy => 3 * n + 11
  | AtFront => 3 * n + 10
  | AtBack _ => 3 * n + 9
  | AtOldest _ _ => 3 * n + 8
  | AtNewest _ _ => 3 * n + 7
  | AtBounds _ _ => 3 * n + 6
  | AtSearch _ _ _ => 3 * n + 5
  | AtFound _ _ _ => 3 * n + 4
  | AtTest _ _ _ _ k => 3 * (n - k) + 3
  | AtElement _ _ _ _ k => 3 * (n - k) + 2
  | AtNext _ _ _ k => 3 * (n - k) + 4
  | AtLog _ _ => 2
  | AtCopy _ _ => 1
  | Answer _ _ => 0
  end.
End ring.

(** With the indices as they are, this is [lower_bound]. *)
Lemma search_between_lower_bound {T : Type} `{ReadoutType T} (q : queue T) (key : T) (e : bool) :
  lower_bound q key e = search_between q key (readIndex_ q) (writeIndex_ q).
Proof. done. Qed.

(** ** Positions that writes do not move *)
Section positions.
Context {T : Type}.
Implicit Types (q : queue T) (c : list T).

Lemma slot_at_repr q c k l r (j : nat) :
  repr_at q c k l r -> slot_at q j = Z.of_nat (wrap (length l) (r + j)).
Proof. intros []. unfold slot_at. by rewrite repr_size, repr_read, !Nat2Z.id. Qed.

Lemma write_slot_at q x b q' (j : nat) : write q x = Ret (b, q') -> slot_at q' j = slot_at q j /\ size_ q' = size_ q.
Proof.
  unfold write. destruct (negb _); [|by intros [= _ <-]].
  intros (s & _ & [= _ <-])%bind_Ret_inv. done.
Qed.

Lemma slot_at_read q c (j : nat) x :
  repr q c -> c !! j = Some x -> slot_read (records_ q) (slot_at q j) = Ret x.
Proof.
  intros (k & l & r & Hq) Hj. rewrite (slot_at_repr q c k l r j Hq). destruct Hq.
  rewrite repr_records. apply slot_read_Block. eapply ring_lookup; [done|lia|done].
Qed.

Lemma slot_at_good q c (j : nat) :
  repr q c -> Z.of_nat j < size_ q -> iter_good q (slot_at q j) = bool_decide (j < length c)%nat.
Proof.
  intros (k & l & r & Hq) Hj. rewrite (slot_at_repr q c k l r j Hq).
  apply iter_good_at with k; [done|]. destruct Hq. lia.
Qed.

Lemma slot_at_next q c (j : nat) :
  repr q c -> (j < length c)%nat ->
  iter_next q (slot_at q j) = if decide (S j < length c)%nat then slot_at q (S j) else iter_end.
Proof.
  intros (k & l & r & Hq) Hj. rewrite !(slot_at_repr q c k l r _ Hq). by apply iter_next_at with k.
Qed.

Lemma slot_at_ends q c :
  repr q c -> c <> [] ->
  front q = Some (slot_at q 0) /\ back q = Some (slot_at q (pred (length c)))
  /\ readIndex_ q = slot_at q 0 /\ writeIndex_ q = slot_at q (length c).
Proof.
  intros (k & l & r & Hq) Hne. rewrite !(slot_at_repr q c k l r _ Hq).
  destruct Hq as [Hrec Hsz Hrng Hrd Hlt Hroom Hwr Hslots]. unfold INT_MAX in *.
  assert (Hpos : (0 < length c)%nat) by (destruct c; [done|cbn; lia]).
  rewrite Nat.add_0_r, (wrap_small _ r) by done.
  pose proof (wrap_lt (length l) (r + length c) ltac:(lia)) as Hw.
  unfold front, back. rewrite Hrd, Hwr. split_and!; [| |done|done].
  - destruct (Z.eqb_spec (Z.of_nat r) (Z.of_nat (wrap (length l) (r + length c)))); [wrap_lia|done].
  - destruct (Z.eqb_spec (Z.of_nat (wrap (length l) (r + length c))) (Z.of_nat r)); [wrap_lia|].
    rewrite Hsz. machine. f_equal.
    destruct (Z.eqb_spec (Z.of_nat (wrap (length l) (r + length c))) 0); wrap_lia.
Qed.
Lemma slot_at_deref q c (j : nat) x :
  repr q c -> c !! j = Some x -> iter_deref q (slot_at q j) = Ret x.
Proof. apply slot_at_read. Qed.

Lemma ring_elements_repr q c : repr q c -> ring_elements q = c.
Proof.
  intros Hq. unfold ring_elements. rewrite (occupancy_repr q c Hq), Nat2Z.id.
  rewrite <- (firstn_all c) at 2. assert (Hk : (length c <= length c)%nat) by done. revert Hk.
  generalize (length c) at 1 3 4. intros k. induction k as [|k IH]; intros Hk; [done|].
  destruct (lookup_lt_is_Some_2 c k Hk) as [x Hx]. rewrite seq_S, omap_app, IH, (take_S_r c k x Hx) by lia. cbn.
  by rewrite (slot_at_read q c k x Hq Hx).
Qed.
End positions.

(** ** The search between indices read a while ago *)
Section search.
Context {T : Type} `{ReadoutLaws T} `{!TimestampOrder T}.
Implicit Types (q : queue T) (c : list T).

(** The elements [c1] were stored when the indices were read, [c2] since. *)
Lemma search_between_live q c1 c2 (key : T) :
  repr q (c1 ++ c2) -> c1 <> [] -> increasing (c1 ++ c2) ->
  (exists x, head c1 = Some x /\ get_timestamp key < get_timestamp x
     /\ search_between q key (slot_at q 0) (slot_at q (length c1)) = Ret iter_end)
  \/ exists x j, head c1 = Some x /\ get_timestamp x <= get_timestamp key
     /\ search_between q key (slot_at q 0) (slot_at q (length c1)) = Ret (slot_at q j)
     /\ (j <= length c1)%nat /\ from_timestamp (get_timestamp key) c1 = drop j c1.
Proof.
  intros Hq Hne Hc. pose proof Hq as (k & l & r & Hat). rewrite !(slot_at_repr q _ k l r _ Hat).
  assert (Hc1 : increasing c1) by (apply (increasing_sublist c1 (c1 ++ c2)); [by apply sublist_inserts_r|done]).
  assert (Hread : forall j x, c1 !! j = Some x ->
    slot_read (records_ q) (Z.of_nat (wrap (length l) (r + j))) = Ret x).
  { intros j x Hj. rewrite <- (slot_at_repr q _ k l r j Hat). apply (slot_at_read q (c1 ++ c2)); [done|].
    by apply lookup_app_l_Some. }
  pose proof Hat as [Hrec Hsz Hrng Hrd Hlt Hroom Hwr Hslots]. rewrite length_app in Hroom.
  destruct c1 as [|x c1]; [done|]. unfold search_between. rewrite Nat.add_0_r, (wrap_small _ r) by done.
  unfold INT_MAX in *. cbn [length] in *.
  pose proof (wrap_lt (length l) (r + S (length c1)) ltac:(lia)) as Hw.
  destruct (Z.eqb_spec (Z.of_nat r) (Z.of_nat (wrap (length l) (r + S (length c1))))); [wrap_lia|].
  replace (if _ =? 0 then _ else _) with (Z.of_nat (wrap (length l) (r + length c1))).
  2:{ rewrite Hsz, prev_wrap by (unfold INT_MAX; lia). by rewrite Nat.sub_1_r. }
  pose proof (Hread 0%nat x eq_refl) as Hleft. rewrite Nat.add_0_r, wrap_small in Hleft by done.
  rewrite Hleft. outcome. rewrite element_lt_timestamp.
  destruct (Z.ltb_spec (get_timestamp key) (get_timestamp x)) as [Hk|Hk]; [left; by exists x|right].
  destruct (search_loop_reads q (x :: c1) (length l) r key (search_fuel (size_ q)) 0 (length c1))
    as (j & Hs & Hj & Hfrom); try done.
  - unfold INT_MAX. lia.
  - cbn. lia.
  - cbn. lia.
  - left. unfold search_fuel. rewrite Hsz, Nat2Z.id.
    pose proof (Nat.log2_le_mono (length c1 - 0) (length l)). lia.
  - intros y [= <-]. done.
  - intros i y Hi Hy. apply lookup_lt_Some in Hy. cbn in Hy. lia.
  - exists x, j. rewrite Nat.add_0_r, (wrap_small _ r) in Hs by done.
    rewrite Hs, (slot_at_repr q _ k l r j Hat). done.
Qed.
End search.

(** ** A request and what is written meanwhile

    [c] is what the ring holds now; [m] of it was there when the request began. *)
Section running.
Context {T : Type} `{ReadoutLaws T} `{!TimestampOrder T}.
Implicit Types (q : queue T) (c : list T) (w : window) (n m j k : nat) (pl : place T Z (Z * Z)).

(** The elements of the ring with their slots. *)
Definition placed q c : list (Z * T) := imap (fun i x => (slot_at q i, x)) c.

Lemma placed_elements q c : (placed q c).*2 = c.
Proof.
  unfold placed. rewrite fmap_imap. apply list_eq. intros i. rewrite list_lookup_imap. cbn. by destruct (c !! i).
Qed.

Lemma placed_slots q q' c : (forall i, slot_at q' i = slot_at q i) -> placed q' c = placed q c.
Proof. intros Hs. apply imap_ext. intros i x _. by rewrite Hs. Qed.

Lemma placed_snoc q c j x : c !! j = Some x -> placed q (take (S j) c) = placed q (take j c) ++ [(slot_at q j, x)].
Proof.
  intros Hx. unfold placed. rewrite (take_S_r c j x Hx), imap_app. cbn.
  by rewrite length_take_le, Nat.add_0_r by (apply lookup_lt_Some in Hx; lia).
Qed.

(** The pieces of the first [k] elements. *)
Definition pieces_of q w k c : list (pointer Z) := pieces_at w (placed q (take k c)).

(** The oldest and the newest timestamp were read when [n] elements were there. *)
Record seen m c w n (last_ts newest_ts : Z) : Prop := {
  seen_range : (m <= n <= length c)%nat /\ (0 < n)%nat;
  seen_oldest : exists x, c !! 0%nat = Some x /\ last_ts = get_timestamp x;
  seen_newest : exists y, c !! pred n = Some y /\ newest_ts = get_timestamp y;
  seen_window : window_begin w <= newest_ts /\ last_ts <= window_end w }.

(** The loop is done with the first [j] elements. *)
Record gathering m c w n (rc : ResultCode) j : Prop := {
  gathering_range : (m <= n <= length c)%nat /\ (0 < n)%nat /\ (j <= length c)%nat;
  gathering_oldest : exists x, c !! 0%nat = Some x /\ get_timestamp x <= window_begin w - element_ticks T;
  gathering_code : exists y, c !! pred n = Some y
    /\ rc = if get_timestamp y <? window_end w then kPartial else kFound;
  gathering_early i x : (i < j)%nat -> c !! i = Some x -> get_timestamp x < window_end w }.

(** What an answer made from the first [k] elements says with its code. *)
Definition verdict m c w (rc : ResultCode) k : Prop :=
  (k <= length c)%nat
  /\ (forall i x, (i < k)%nat -> c !! i = Some x -> get_timestamp x < window_end w)
  /\ match rc with
     | kNotFound => k = 0%nat /\ (m = 0%nat \/ exists x, c !! 0%nat = Some x
         /\ window_begin w < get_timestamp x + element_ticks T)
     | kNotYet => k = 0%nat /\ exists i y, (m <= S i)%nat /\ c !! i = Some y /\ get_timestamp y < window_begin w
     | kTooOld => k = 0%nat /\ exists x, c !! 0%nat = Some x /\ window_end w < get_timestamp x
     | kPartial => (m <= k)%nat
         /\ exists x, c !! 0%nat = Some x /\ get_timestamp x <= window_begin w - element_ticks T
     | kFound => (exists y, c !! k = Some y /\ window_end w <= get_timestamp y)
         /\ exists x, c !! 0%nat = Some x /\ get_timestamp x <= window_begin w - element_ticks T
     | _ => False
     end.

Definition run_ok q m c w pl : Prop :=
  match pl with
  | AtOccupancy => True
  | AtFront => c <> []
  | AtBack front_element => c <> [] /\ front_element = Some (slot_at q 0)
  | AtOldest front_element last_element => exists n, (m <= n <= length c)%nat /\ (0 < n)%nat
      /\ front_element = Some (slot_at q 0) /\ last_element = Some (slot_at q (pred n))
  | AtNewest last_element last_ts => exists n x, (m <= n <= length c)%nat /\ (0 < n)%nat
      /\ last_element = Some (slot_at q (pred n)) /\ c !! 0%nat = Some x /\ last_ts = get_timestamp x
  | AtBounds last_ts newest_ts => exists n, seen m c w n last_ts newest_ts
  | AtSearch last_ts newest_ts bounds => exists n k, seen m c w n last_ts newest_ts
      /\ (n <= k <= length c)%nat /\ bounds = (slot_at q 0, slot_at q k)
  | AtFound last_ts newest_ts start_iter => exists n, seen m c w n last_ts newest_ts
      /\ ((start_iter = iter_end /\ window_begin w - element_ticks T < last_ts)
         \/ exists j, start_iter = slot_at q j /\ (j < n)%nat /\ last_ts <= window_begin w - element_ticks T
            /\ forall i x, (i < j)%nat -> c !! i = Some x -> get_timestamp x < window_begin w - element_ticks T)
  | AtTest rc start_iter element frag_pieces h => exists n j, gathering m c w n rc j /\ (h <= j)%nat
      /\ element = slot_address start_iter
      /\ frag_pieces = pieces_of q w j c
      /\ (start_iter = slot_at q j \/ (start_iter = iter_end /\ (n <= j)%nat))
  | AtElement rc start_iter element frag_pieces h => exists n j, gathering m c w n rc j /\ (h <= j < length c)%nat
      /\ element = Some start_iter
      /\ frag_pieces = pieces_of q w j c /\ start_iter = slot_at q j
  | AtNext rc start_iter frag_pieces h => exists n j, gathering m c w n rc (S j) /\ (h <= S j)%nat
      /\ frag_pieces = pieces_of q w (S j) c /\ start_iter = slot_at q j
  | AtLog rc frag_pieces => c <> []
      /\ exists k, verdict m c w rc k /\ frag_pieces = pieces_of q w k c
  | AtCopy rc frag_pieces => exists k, verdict m c w rc k /\ frag_pieces = pieces_of q w k c
  | Answer rc data => exists k, verdict m c w rc k /\ data = frames_in w (take k c)
  end.

(** *** Writes keep it *)

Lemma take_prefix c c' k : c `prefix_of` c' -> (k <= length c)%nat -> take k c' = take k c.
Proof. intros [l ->] Hk. by apply take_app_le. Qed.

Lemma lookup_prefix_inv c c' (i : nat) x :
  c `prefix_of` c' -> (i < length c)%nat -> c' !! i = Some x -> c !! i = Some x.
Proof. intros [l ->] Hi. by rewrite lookup_app_l. Qed.

(** What holds of the elements of [c] holds of them in what [c] has grown to. *)
Ltac grow Hp :=
  repeat match goal with
    | H : exists _, _ |- _ => destruct H
    | H : _ /\ _ |- _ => destruct H
    | H : _ \/ _ |- _ => destruct H
    | H : _ !! _ = Some _ |- _ => apply (prefix_lookup_Some _ _ _ _ H) in Hp as ?; clear H
    end.

Lemma verdict_prefix m c c' w rc k : c `prefix_of` c' -> verdict m c w rc k -> verdict m c' w rc k.
Proof.
  intros Hp (Hk & Hearly & Hrc). pose proof (prefix_length _ _ Hp). split; [lia|]. split.
  - intros i x Hi Hx. apply (Hearly i); [done|]. apply (lookup_prefix_inv c c'); [done|lia|done].
  - destruct rc; grow Hp; eauto 8.
Qed.

Lemma seen_prefix m c c' w n lt nt : c `prefix_of` c' -> seen m c w n lt nt -> seen m c' w n lt nt.
Proof.
  intros Hp []. pose proof (prefix_length _ _ Hp). split; grow Hp; eauto with lia.
Qed.

Lemma gathering_prefix m c c' w n rc j : c `prefix_of` c' -> gathering m c w n rc j -> gathering m c' w n rc j.
Proof.
  intros Hp []. pose proof (prefix_length _ _ Hp).
  split; [lia|grow Hp; by eauto..|].
  intros i x Hi Hx. apply (gathering_early0 i); [done|]. apply (lookup_prefix_inv c c'); [done|lia|done].
Qed.

(** The elements a request relies on stay where they are while the ring only grows. *)
Lemma run_ok_grows q q' m c c' w pl :
  (forall j, slot_at q' j = slot_at q j) -> c `prefix_of` c' -> run_ok q m c w pl -> run_ok q' m c' w pl.
Proof.
  intros Hs Hp Hok. pose proof (prefix_length _ _ Hp) as Hl.
  assert (Hne : c <> [] -> c' <> []) by (intros Hne ->; cbn in Hl; destruct c; [done|cbn in Hl; lia]).
  assert (Hpt : forall k, (k <= length c)%nat -> pieces_of q' w k c' = pieces_of q w k c)
    by (intros k Hk; unfold pieces_of; rewrite (take_prefix c c') by done; by rewrite (placed_slots q q')).
  destruct pl as [| |f|f l|l lt|lt nt|lt nt b|lt nt it|rc it el ps h|rc it el ps h|rc it ps h|rc ps|rc ps|rc data];
    cbn [run_ok] in *; [done|auto|destruct Hok as [? ->]; rewrite Hs; auto|..].
  - destruct Hok as (n & Hn & Hn0 & -> & ->). exists n. rewrite !Hs. split_and!; try done; lia.
  - destruct Hok as (n & x & Hn & Hn0 & -> & Hx & ->). exists n, x. rewrite Hs.
    split_and!; eauto using prefix_lookup_Some; lia.
  - destruct Hok as (n & Hn). exists n. by apply (seen_prefix m c).
  - destruct Hok as (n & k & Hn & Hk & ->). exists n, k. rewrite !Hs.
    split_and!; try done; [by apply (seen_prefix m c)|lia..].
  - destruct Hok as (n & Hn & Hit). exists n. split; [by apply (seen_prefix m c)|].
    destruct Hit as [Hit|(j & -> & Hj & Hlt & Hearly)]; [by left|right]. exists j. rewrite Hs.
    split_and!; try done. intros i x Hi Hx. apply (Hearly i); [done|].
    apply (lookup_prefix_inv c c'); [done|destruct Hn; lia|done].
  - destruct Hok as (n & j & Hg & Hh & -> & -> & Hit). exists n, j. rewrite Hs, Hpt by (destruct Hg; lia).
    split_and!; try done. by apply (gathering_prefix m c).
  - destruct Hok as (n & j & Hg & Hh & -> & -> & ->). exists n, j. rewrite Hs, Hpt by lia.
    split_and!; try done; [by apply (gathering_prefix m c)|lia..].
  - destruct Hok as (n & j & Hg & Hh & -> & ->). exists n, j. rewrite Hs, Hpt by (destruct Hg; lia).
    split_and!; try done. by apply (gathering_prefix m c).
  - destruct Hok as (Hc & k & Hv & ->). split; [auto|]. exists k.
    rewrite Hpt by apply Hv. split; [by apply (verdict_prefix m c)|done].
  - destruct Hok as (k & Hv & ->). exists k. rewrite Hpt by apply Hv. split; [by apply (verdict_prefix m c)|done].
  - destruct Hok as (k & Hv & ->). exists k. rewrite (take_prefix c c' k Hp) by apply Hv.
    split; [by apply (verdict_prefix m c)|done].
Qed.

(** *** Every turn of the request keeps it *)

Ltac accesses :=
  cbn [request_step live_front live_back live_read live_occupancy live_bounds live_search live_good live_address live_next
         ring_live fst snd].

Context (w : window) (Hw : valid_window (T:=T) w).

Lemma gathering_done m c n rc j :
  increasing c -> gathering m c w n rc j ->
  (n <= j)%nat \/ (exists y, c !! j = Some y /\ window_end w <= get_timestamp y) -> verdict m c w rc j.
Proof.
  intros Hc [Hr Hold (y & Hy & Hcode) Hearly] Hj. split; [lia|]. split; [done|]. rewrite Hcode.
  destruct (Z.ltb_spec (get_timestamp y) (window_end w)) as [Hlt|Hge].
  - split; [|done]. destruct Hj as [|(z & Hz & Hzt)]; [lia|]. destruct (decide (j <= pred n)%nat); [|lia].
    destruct (decide (j = pred n)) as [->|]; [rewrite Hy in Hz; injection Hz as ->; lia|].
    pose proof (Hc j (pred n) z y Hz Hy ltac:(lia)). lia.
  - split; [|done]. destruct Hj as [Hj|Hz]; [|done]. pose proof (Hearly (pred n) y ltac:(lia) Hy). lia.
Qed.

Context (q : queue T) (c : list T) (m : nat).
Context (Hq : repr q c) (Hc : increasing c) (Hfit : all_fit c) (Hm : (m <= length c)%nat).

(** A turn that goes to [pl']. *)
Definition goes_to (pl pl' : place T Z (Z * Z)) : Prop :=
  request_step q w pl = Some (Ret pl') /\ run_ok q m c w pl'
  /\ (turns_left (Z.to_nat (size_ q)) pl' < turns_left (Z.to_nat (size_ q)) pl)%nat.

Lemma occupancy_turn : exists pl', goes_to AtOccupancy pl'.
Proof.
  unfold goes_to. accesses. rewrite (occupancy_repr q c Hq). eexists. split; [reflexivity|].
  destruct (Z.eqb_spec (Z.of_nat (length c)) 0) as [E|E]; (split; [|cbn; lia]).
  - exists 0%nat. split; [|done]. split; [lia|]. split; [lia|]. split; [done|]. left. lia.
  - cbn. by intros ->.
Qed.

Lemma pointer_turn pl :
  pl = AtFront \/ (exists f, pl = AtBack f) -> run_ok q m c w pl -> exists pl', goes_to pl pl'.
Proof.
  intros [->|[f ->]] Hok; unfold goes_to; accesses; cbn [run_ok] in *; (eexists; split; [reflexivity|]).
  - destruct (slot_at_ends q c Hq Hok) as (Hf & _). cbn. split; [done|lia].
  - destruct Hok as [Hne ->]. destruct (slot_at_ends q c Hq Hne) as (_ & Hb & _).
    split; [|cbn; lia]. cbn [run_ok]. exists (length c). split_and!; [lia|lia| |done|done].
    destruct c; [done|cbn; lia].
Qed.

Lemma timestamp_turn pl :
  (exists f l, pl = AtOldest f l) \/ (exists l lt, pl = AtNewest l lt) -> run_ok q m c w pl -> exists pl', goes_to pl pl'.
Proof.
  intros [(f & l & ->)|(l & lt & ->)] Hok; unfold goes_to; accesses; cbn [run_ok] in *.
  - destruct Hok as (n & Hn & Hn0 & -> & ->). destruct (lookup_lt_is_Some_2 c 0 ltac:(lia)) as [x Hx].
    cbn [deref]. outcome. rewrite (slot_at_deref q c 0 x Hq Hx). outcome. eexists. split; [reflexivity|].
    split; [|cbn; lia]. by exists n, x.
  - destruct Hok as (n & x & Hn & Hn0 & -> & Hx & ->).
    destruct (lookup_lt_is_Some_2 c (pred n) ltac:(lia)) as [y Hy].
    cbn [deref]. outcome. rewrite (slot_at_deref q c (pred n) y Hq Hy). outcome.
    eexists. split; [reflexivity|]. assert (Hne : c <> []) by (intros E; by rewrite E in Hx).
    destruct (Z.ltb_spec (get_timestamp y) (window_begin w)) as [Hlt|Hge];
      [|destruct (Z.ltb_spec (window_end w) (get_timestamp x)) as [Hlt|Hle]]; (split; [|cbn; lia]).
    + split; [done|]. exists 0%nat. split; [|done]. split; [lia|]. split; [lia|]. split; [done|].
      exists (pred n), y. split; [lia|done].
    + split; [done|]. exists 0%nat. split; [|done]. split; [lia|]. split; [lia|]. split; [done|]. by exists x.
    + exists n. split; [done|by exists x|by exists y|done].
Qed.

Lemma bounds_turn lt nt : run_ok q m c w (AtBounds lt nt) -> exists pl', goes_to (AtBounds lt nt) pl'.
Proof.
  intros (n & Hn). pose proof Hn as [[Hr Hpos] _ _ _].
  assert (Hne : c <> []) by (intros E; rewrite E in Hr; cbn in Hr; lia).
  destruct (slot_at_ends q c Hq Hne) as (_ & _ & Hrd & Hwr).
  unfold goes_to. accesses. eexists. split; [reflexivity|]. split; [|cbn; lia].
  exists n, (length c). split; [done|]. split; [lia|]. by rewrite Hrd, Hwr.
Qed.

Lemma search_turn lt nt b :
  run_ok q m c w (AtSearch lt nt b) -> exists pl', goes_to (AtSearch lt nt b) pl'.
Proof.
  intros (n & k & Hn & Hk & ->). pose proof Hn as [[Hr Hpos] (x & Hx & Hlt) (y & Hy & Hnt) [Hwin _]].
  unfold goes_to. accesses.
  assert (Hx' : head (take k c) = Some x) by (rewrite head_lookup, lookup_take_lt by lia; done).
  destruct (search_between_live q (take k c) (drop k c) (request_key w)) as [Hs|Hs];
    rewrite ?take_drop; try done; [by intros E; rewrite E in Hx'|..];
    rewrite length_take_le, (request_key_timestamp w Hw) in Hs by lia.
  - destruct Hs as (z & Hz & Hlow & ->). rewrite Hx' in Hz. injection Hz as <-. outcome.
    eexists. split; [reflexivity|]. split; [|cbn; lia]. exists n. split; [done|]. left. split; [done|lia].
  - destruct Hs as (z & j & Hz & Hlow & -> & Hj & Hfrom). rewrite Hx' in Hz. injection Hz as <-. outcome.
    eexists. split; [reflexivity|]. split; [|cbn; lia]. exists n. split; [done|]. right. exists j.
    assert (Hearly : forall i z, (i < j)%nat -> c !! i = Some z ->
      get_timestamp z < window_begin w - element_ticks T).
    { destruct (from_timestamp_split (window_begin w - element_ticks T) (take k c)) as (c1 & E & Hc1).
      rewrite Hfrom in E. pose proof E as El. apply (f_equal length) in El.
      rewrite length_app, length_drop, length_take_le in El by lia.
      intros i z Hi Hz. apply Hc1. apply (list_elem_of_lookup_2 _ i).
      rewrite <- (lookup_app_l c1 (drop j (take k c))) by lia. rewrite <- E.
      by rewrite lookup_take_lt by lia. }
    split_and!; [done| |lia|done]. destruct (decide (j < n)%nat) as [|Hge]; [done|].
    pose proof (Hearly (pred n) y ltac:(lia) Hy). pose proof (window_bounds w Hw). lia.
Qed.

Lemma found_turn lt nt it : run_ok q m c w (AtFound lt nt it) -> exists pl', goes_to (AtFound lt nt it) pl'.
Proof.
  intros (n & Hn & Hit). pose proof Hn as [[Hr Hpos] (x & Hx & Hlt) (y & Hy & Hnt) [Hwin _]].
  unfold goes_to. accesses. eexists. split; [reflexivity|].
  pose proof (repr_length q c Hq) as Hl. pose proof (window_bounds w Hw) as Hb.
  destruct Hit as [[-> Hlow]|(j & -> & Hj & Hle & Hearly)].
  - rewrite iter_good_end. cbn [negb]. split; [|cbn; lia]. split; [by intros E; rewrite E in Hx|].
    exists 0%nat. split; [|done]. split; [lia|]. split; [lia|]. split; [done|]. right.
    exists x. split; [done|lia].
  - rewrite (slot_at_good q c j Hq), bool_decide_true by lia. cbn [negb]. split; [|cbn; lia].
    exists n, j. split; [|split; [lia|split; [done|split; [|by left]]]].
    + split; [lia| | |].
      * exists x. split; [done|lia].
      * exists y. split; [done|]. rewrite <- Hnt. destruct (_ <? _); [done|].
        destruct (Z.ltb_spec (window_begin w) lt); [lia|done].
      * intros i z Hi Hz. pose proof (Hearly i z Hi Hz). lia.
    + symmetry. apply pieces_at_early. apply Forall_lookup. intros i nx Hi.
      unfold placed in Hi. rewrite list_lookup_imap in Hi. destruct (take j c !! i) as [z|] eqn:Hz; [|done].
      injection Hi as <-. apply lookup_take_Some in Hz as [Hz Hi]. pose proof (Hearly i z Hi Hz).
      unfold all_fit in Hfit. rewrite Forall_lookup in Hfit. pose proof (Hfit i z Hz). cbn. lia.
Qed.

Lemma gathering_turn pl :
  (exists rc it el ps h, pl = AtTest rc it el ps h \/ pl = AtElement rc it el ps h \/ pl = AtNext rc it ps h) ->
  run_ok q m c w pl -> exists pl', goes_to pl pl'.
Proof.
  pose proof (repr_length q c Hq) as Hl.
  intros (rc & it & el & ps & h & [->|[->| ->]]);
    [intros (n & j & Hg & Hh & Hel & Hps & Hit)|intros (n & j & Hg & Hh & Hel & Hps & Hit)|intros (n & j & Hg & Hh & Hps & Hit)];
    unfold goes_to; accesses; pose proof Hg as [Hr _ _ Hearly].
  - eexists. split; [reflexivity|].
    assert (Hgood : iter_good q it = true -> it = slot_at q j /\ (j < length c)%nat).
    { destruct Hit as [->|[-> _]]; [|by rewrite iter_good_end].
      rewrite (slot_at_good q c j Hq) by lia. intros ?%bool_decide_eq_true. done. }
    assert (Hbad : iter_good q it = false -> (n <= j)%nat).
    { destruct Hit as [->|[_ Hj]]; [|done]. rewrite (slot_at_good q c j Hq) by lia.
      intros ?%bool_decide_eq_false. lia. }
    destruct (iter_good q it) eqn:Eg; (split; [|cbn; lia]).
    + assert (Hslot : el = Some it).
      { subst el. unfold slot_address. destruct (Z.eqb_spec it iter_end) as [->|]; [by rewrite iter_good_end in Eg|done]. }
      destruct (Hgood eq_refl) as [-> Hj]. exists n, j. split; [done|]. split; [lia|done].
    + split; [intros E; rewrite E in Hr; cbn in Hr; lia|]. exists j. split; [|done].
      apply (gathering_done m c n rc j Hc Hg). left. auto.
  - subst el it ps. destruct (lookup_lt_is_Some_2 c j) as [x Hx]; [lia|]. cbn [deref]. outcome.
    rewrite (slot_at_deref q c j x Hq Hx). outcome. eexists. split; [reflexivity|].
    destruct (Z.ltb_spec (get_timestamp x) (window_end w)) as [He|He]; (split; [|cbn; lia]).
    + exists n, j. split; [|split; [lia|split; [unfold pieces_of; by rewrite (placed_snoc q c j x Hx), pieces_at_snoc|done]]].
      destruct Hg as [_ Ho Hcode _]. split; [lia|done|done|]. intros i z Hi Hz.
      destruct (decide (i = j)) as [->|]; [rewrite Hx in Hz; by injection Hz as <-|]. apply (Hearly i); [lia|done].
    + split; [by intros E; rewrite E in Hx|]. exists j. split; [|done].
      apply (gathering_done m c n rc j Hc Hg). right. by exists x.
  - subst it ps. eexists. split; [reflexivity|]. split; [|cbn; lia].
    exists n, (S j). split; [done|]. split; [lia|]. split; [done|]. split; [done|].
    rewrite (slot_at_next q c j Hq) by lia. case_decide; [by left|right]. split; [done|lia].
Qed.

Lemma answer_turn pl :
  (exists rc ps, pl = AtLog rc ps \/ pl = AtCopy rc ps) -> run_ok q m c w pl -> exists pl', goes_to pl pl'.
Proof.
  intros (rc & ps & [->| ->]) Hok; unfold goes_to; accesses; cbn [run_ok] in *.
  - destruct Hok as (Hne & k & Hv & ->). destruct (slot_at_ends q c Hq Hne) as (-> & -> & _).
    assert (Hpos : (0 < length c)%nat) by (destruct (decide (length c = 0)%nat) as [E|]; [by apply nil_length_inv in E|lia]).
    destruct (lookup_lt_is_Some_2 c 0 Hpos) as [x Hx].
    destruct (lookup_lt_is_Some_2 c (pred (length c)) ltac:(lia)) as [y Hy].
    cbn [deref]. outcome. rewrite (slot_at_deref q c _ x Hq Hx), (slot_at_deref q c _ y Hq Hy). outcome.
    eexists. split; [reflexivity|]. split; [|cbn; lia]. by exists k.
  - destruct Hok as (k & Hv & ->). pose proof (window_bounds w Hw) as Hb. pose proof Hv as (Hk & Hearly & _).
    unfold pieces_of. rewrite copy_pieces_at, placed_elements; [|done|].
    + outcome. eexists. split; [reflexivity|]. split; [|cbn; lia]. by exists k.
    + apply Forall_lookup. intros i nx Hi. unfold placed in Hi. rewrite list_lookup_imap in Hi.
      destruct (take k c !! i) as [x|] eqn:Hx; [|done]. injection Hi as <-.
      apply lookup_take_Some in Hx as [Hx Hi]. cbn. split_and!.
      * by apply (slot_at_deref q c).
      * unfold all_fit in Hfit. rewrite Forall_lookup in Hfit. by apply (Hfit i).
      * by apply (Hearly i).
Qed.

(** Whatever was written before, a turn reads only what the ring holds, and the turns
    left get fewer. *)
Lemma request_turn pl :
  run_ok q m c w pl -> (exists rc data, pl = Answer rc data) \/ exists pl', goes_to pl pl'.
Proof.
  intros Hok. destruct pl; [right..|left; by do 2 eexists].
  - apply occupancy_turn.
  - apply pointer_turn; [eauto|done].
  - apply pointer_turn; [eauto|done].
  - apply timestamp_turn; [eauto|done].
  - apply timestamp_turn; [eauto|done].
  - by apply bounds_turn.
  - by apply search_turn.
  - by apply found_turn.
  - apply gathering_turn; [eauto 10|done].
  - apply gathering_turn; [eauto 10|done].
  - apply gathering_turn; [do 2 eexists; exists None; eauto 10|done].
  - apply answer_turn; [eauto|done].
  - apply answer_turn; [eauto|done].
Qed.
End running.

(** ** What an answer says of the history

    [before] is what had been stored when the request began, [d] of it removed. *)
Section honest.
Context {T : Type} `{ReadoutLaws T} `{!TimestampOrder T}.
Implicit Types (w : window) (before h : list T) (d : nat).

Definition honest w before d h (rc : ResultCode) (data : list (FrameType T)) : Prop :=
  match rc with
  | kNotFound => data = [] /\ (drop d before = []
      \/ exists x, h !! d = Some x /\ window_begin w < get_timestamp x + element_ticks T)
  | kNotYet => data = [] /\ Forall (fun x => get_timestamp x < window_begin w) before
  | kTooOld => data = [] /\ exists x, h !! d = Some x /\ window_end w < get_timestamp x
  | kPartial => exists h', before `prefix_of` h' /\ h' `prefix_of` h /\ data = frames_in w h'
  | kFound => forall later, increasing (h ++ later) -> all_fit (h ++ later) -> data = frames_in w (h ++ later)
  | _ => False
  end.

Lemma honest_grows w before d h more rc data : honest w before d h rc data -> honest w before d (h ++ more) rc data.
Proof.
  destruct rc; cbn; try done.
  - intros Hf later. rewrite <- app_assoc. apply Hf.
  - intros [-> [?|(x & Hx & ?)]]; (split; [done|]); [by left|right]. exists x. by rewrite (lookup_app_l_Some _ _ _ _ Hx).
  - intros [-> (x & Hx & ?)]. split; [done|]. exists x. by rewrite (lookup_app_l_Some _ _ _ _ Hx).
  - intros (h' & Hb & Hh & ->). exists h'. split; [done|]. split; [|done]. etrans; [done|]. by exists more.
Qed.

(** What has been removed has no frame in a window that starts later. *)
Lemma frames_in_removed w h d k x :
  h !! d = Some x -> get_timestamp x <= window_begin w - element_ticks T -> increasing h -> all_fit h ->
  frames_in w (take (d + k) h) = frames_in w (take k (drop d h)).
Proof.
  intros Hx Hold Hi Hfit. rewrite <- (take_drop d (take (d + k) h)), take_take, Nat.min_l by lia.
  rewrite skipn_firstn_comm, Nat.add_comm, Nat.add_sub, frames_in_app. unfold frames_in at 1.
  rewrite (earlier_frames _ _ (take d h)); [done|by apply Forall_take|].
  intros y Hy. apply list_elem_of_lookup in Hy as [i Hy]. apply lookup_take_Some in Hy as [Hy Hd].
  pose proof (Hi i d y x Hy Hx Hd). lia.
Qed.

(** Nor has what was not read, or comes later. *)
Lemma frames_in_later w h k later y :
  h !! k = Some y -> window_end w <= get_timestamp y -> increasing (h ++ later) -> all_fit (h ++ later) ->
  frames_in w (h ++ later) = frames_in w (take k h).
Proof.
  intros Hy Hend Hi Hfit. pose proof (lookup_lt_Some _ _ _ Hy).
  rewrite <- (take_drop k (h ++ later)), take_app_le, frames_in_app by lia. unfold frames_in at 2.
  rewrite (later_frames _ _ (drop k (h ++ later))), app_nil_r; [done|by apply Forall_drop|].
  intros z Hz. apply list_elem_of_lookup in Hz as [i Hz]. rewrite lookup_drop in Hz.
  apply (lookup_app_l_Some _ later) in Hy. destruct i as [|i].
  - rewrite Nat.add_0_r, Hy in Hz. by injection Hz as <-.
  - pose proof (Hi k (k + S i)%nat y z Hy Hz ltac:(lia)). lia.
Qed.

Lemma verdict_honest w before d h rc k :
  increasing h -> all_fit h -> before `prefix_of` h -> (d <= length before)%nat ->
  verdict (length before - d) (drop d h) w rc k -> honest w before d h rc (frames_in w (take k (drop d h))).
Proof.
  intros Hi Hfit Hb Hd (Hk & _ & Hrc). rewrite length_drop in Hk. destruct rc; cbn; try done.
  - destruct Hrc as [(y & Hy & Hye) (x & Hx & Hold)]. rewrite lookup_drop in Hx, Hy. rewrite Nat.add_0_r in Hx.
    intros later Hil Hfl. rewrite (frames_in_later w h (d + k) later y) by done.
    by rewrite (frames_in_removed w h d k x).
  - destruct Hrc as [-> [Hm|(x & Hx & ?)]]; (split; [done|]).
    + left. apply nil_length_inv. rewrite length_drop. lia.
    + right. exists x. by rewrite lookup_drop, Nat.add_0_r in Hx.
  - destruct Hrc as [-> (x & Hx & ?)]. split; [done|]. exists x. by rewrite lookup_drop, Nat.add_0_r in Hx.
  - destruct Hrc as [-> (i & y & Hm & Hy & Hlt)]. split; [done|]. rewrite lookup_drop in Hy.
    apply Forall_forall. intros z Hz. apply list_elem_of_lookup in Hz as [j Hz].
    pose proof (lookup_lt_Some _ _ _ Hz). pose proof (prefix_lookup_Some _ _ _ _ Hz Hb) as Hz'.
    destruct (decide (j = d + i)%nat) as [->|]; [rewrite Hy in Hz'; by injection Hz' as <-|].
    pose proof (Hi j (d + i)%nat z y Hz' Hy ltac:(lia)). lia.
  - destruct Hrc as [Hm Hx]. exists (take (d + k) h). split; [|split].
    + destruct Hb as [l ->]. exists (take (d + k - length before) l). rewrite take_app, (take_ge before) by lia. done.
    + exists (drop (d + k) h). by rewrite take_drop.
    + destruct Hx as (x & Hx & Hold). rewrite lookup_drop, Nat.add_0_r in Hx.
      by rewrite (frames_in_removed w h d k x).
Qed.
End honest.

(** ** The laws *)
Section laws.
Context {T : Type} `{ReadoutLaws T} `{!TimestampOrder T} (N : nat).
Implicit Types (q : queue T) (c h before held : list T) (w : window).

(** The ring keeps its size, and has lost the first [d] elements of its history. *)
Definition ring_inv q h : Prop :=
  size_ q = Z.of_nat N /\ increasing h /\ all_fit h
  /\ exists d, (d <= length h)%nat /\ repr q (drop d h).

Definition ring_running q h before held w (pl : place T Z (Z * Z)) : Prop :=
  exists d, (d <= length before)%nat /\ held = drop d before /\ before `prefix_of` h
    /\ repr q (drop d h) /\ run_ok q (length held) (drop d h) w pl.

Definition ring_honest w before held h (rc : ResultCode) (data : list (FrameType T)) : Prop :=
  honest w before (length before - length held) h rc data.

Lemma ring_write q c x :
  repr q c -> exists b q', write q x = Ret (b, q') /\ size_ q' = size_ q
    /\ repr q' (if b : bool then c ++ [x] else c) /\ forall j, slot_at q' j = slot_at q j.
Proof.
  intros Hq. pose proof (repr_length q c Hq) as Hl.
  destruct (decide (Z.of_nat (S (length c)) < size_ q)) as [Hroom|Hroom].
  - destruct (write_room q c x Hq Hroom) as (q' & E & Hq' & Hs & _). exists true, q'.
    split_and!; try done. intros j. by apply (write_slot_at q x true).
  - destruct (write_full q c x Hq) as [E Hq']; [lia|]. do 2 eexists. split_and!; [done..|].
    intros j. by eapply write_slot_at.
Qed.

Lemma ring_write_spec q h x :
  ring_inv q h -> increasing (h ++ [x]) /\ all_fit (h ++ [x]) ->
  exists b q', write q x = Ret (b, q')
    /\ let h' := if b : bool then h ++ [x] else h in
       ring_inv q' h'
       /\ forall before held w pl, ring_running q h before held w pl ->
            ring_running q' h' before held w pl /\ (turns_left N pl <= turns_left N pl + 0)%nat.
Proof.
  intros (Hsz & Hi & Hf & d & Hd & Hq) [Hi' Hf'].
  destruct (ring_write q _ x Hq) as (b & q' & E & Hsz' & Hq' & Hs). exists b, q'. split; [done|]. cbn zeta.
  assert (Hdrop : forall k, (k <= length h)%nat ->
    drop k (if b then h ++ [x] else h) = if b then drop k h ++ [x] else drop k h)
    by (intros k Hk; destruct b; [by rewrite drop_app_le|done]).
  split.
  - split; [lia|]. split; [by destruct b|]. split; [by destruct b|]. exists d. rewrite Hdrop by done.
    split; [destruct b; rewrite ?length_app; lia|done].
  - intros before held w pl (d' & Hd' & -> & Hb & Hqd & Hrun). split; [|lia].
    pose proof (prefix_length _ _ Hb) as Hlen.
    assert (Hp : h `prefix_of` (if b then h ++ [x] else h)) by (destruct b; [by exists [x]|done]).
    exists d'. split_and!; try done; [by etrans|..].
    + destruct (ring_write q _ x Hqd) as (b' & q'' & E' & _ & Hq'' & _). rewrite E in E'. injection E' as <- <-.
      by rewrite Hdrop by lia.
    + apply (run_ok_grows q q' _ (drop d' h)); [done| |done]. rewrite Hdrop by lia. destruct b; [by exists [x]|done].
Qed.

Lemma ring_turn q h before held w pl :
  ring_inv q h -> valid_window (T:=T) w -> ring_running q h before held w pl ->
  answered pl = true \/ exists pl', request_step q w pl = Some (Ret pl')
    /\ ring_running q h before held w pl' /\ (turns_left N pl' < turns_left N pl)%nat.
Proof.
  intros (Hsz & Hi & Hf & _) Hv (d & Hd & Hheld & Hb & Hq & Hrun). pose proof (prefix_length _ _ Hb) as Hlen.
  destruct (request_turn w Hv q (drop d h) (length held) Hq) with (pl := pl) as [(rc & data & ->)|(pl' & Hstep & Hok' & Hleft)];
    [by apply (increasing_sublist _ h), Hi; apply sublist_drop|by apply Forall_drop|..|done|by left|right].
  - rewrite Hheld, !length_drop. lia.
  - rewrite Hsz, Nat2Z.id in Hleft. exists pl'. split; [done|]. split; [|done]. by exists d.
Qed.

Definition ring_live_laws : LiveLaws T (queue T) Z (Z * Z).
Proof.
  refine (Build_LiveLaws T (queue T) Z (Z * Z) _ _ _ (fun h => increasing h /\ all_fit h) ring_inv ring_running
    ring_honest (fun _ _ => turns_left N) 0 _ _ ring_write_spec ring_turn _ _).
  - intros h h' Hs [Hi Hf]. split; [by eapply increasing_sublist|by eapply all_fit_sublist].
  - intros q h w (_ & _ & _ & d & Hd & Hq) _. exists d. cbn. by rewrite (ring_elements_repr q _ Hq).
  - intros q h before held w rc data (_ & Hi & Hf & _) (d & Hd & -> & Hb & _ & k & Hver & ->). unfold ring_honest.
    rewrite length_drop in *. replace (length before - _)%nat with d by lia. by apply verdict_honest.
  - intros w before held h x rc data. apply honest_grows.
Defined.
End laws.

(** ** The cleanup of the default handler *)
Section cleanup.
Context {T : Type} `{ReadoutLaws T} `{!TimestampOrder T} (p : platform) (cfg : settings) (N : nat).
Context (Hlimit : 0 <= m_pop_limit_size cfg) (Hshare : leaves_one cfg N).

Definition ring_cleanup := cleanup (LB := binary_search_buffer (T:=T) p) cfg.

Lemma ring_cleanup_drops next (q : queue T) c errors (stats : RequestHandler.stats) :
  repr q c -> size_ q = Z.of_nat N ->
  exists q' errors' stats' m, ring_cleanup next q errors stats = Ret (q', errors', stats')
    /\ repr q' (drop m c) /\ (m <= length c)%nat /\ size_ q' = Z.of_nat N.
Proof.
  unfold ring_cleanup.
  intros Hq Hsz. pose proof (repr_length q c Hq) as Hl.
  assert (Hc : exists q' errors' stats' m, cleanup (LB := binary_search_buffer p) cfg next q errors stats = Ret (q', errors', stats')
    /\ repr q' (drop m c) /\ (m <= length c)%nat).
  { destruct (decide (0 < length c)%nat) as [Hpos|Hzero].
    - destruct (Hshare (length c)) as (n & Hn & Hlt); [lia|].
      destruct (cleanup_drops (LatencyBufferLaws0 := binary_search_laws p) (FifoLaws0 := queue_fifo p _ _ _ _)
        cfg next q c errors stats n Hq Hn Hlt) as (q' & e' & s' & m & E & Hq' & Hm & _).
      exists q', e', s', m. split; [done|]. split; [done|lia].
    - exists q, errors, (incr m_num_buffer_cleanups stats), 0%nat. split_and!; [|done|lia].
      unfold cleanup. cbn [lb_occupancy binary_search_buffer queue_buffer].
      rewrite (occupancy_repr q c Hq). destruct (Z.ltb_spec (m_pop_limit_size cfg) (Z.of_nat (length c))); [lia|done]. }
  destruct Hc as (q' & e' & s' & m & E & Hq' & Hm). exists q', e', s', m. split_and!; try done.
  pose proof (cleanup_shape p cfg next q errors stats q' e' s' E) as Hshape. rewrite <- Hsz.
  by injection Hshape.
Qed.

Lemma ring_cleanup_keeps next (q : queue T) h errors (s : stats) :
  ring_inv N q h ->
  exists q' errors' s', ring_cleanup next q errors s = Ret (q', errors', s') /\ ring_inv N q' h.
Proof.
  intros (Hsz & Hi & Hf & d & Hd & Hq).
  destruct (ring_cleanup_drops next q _ errors s Hq Hsz) as (q' & e' & s' & m & E & Hq' & Hm & Hsz').
  exists q', e', s'. split; [done|]. split_and!; try done. rewrite length_drop in Hm.
  exists (d + m)%nat. rewrite <- drop_drop. split; [lia|done].
Qed.
End cleanup.

Lemma ring_started {T : Type} `{ReadoutLaws T} `{!TimestampOrder T} (q : queue T) (c more : list T) (m : registry) (s : stats) (ws : list window) :
  repr q c -> Forall (valid_window (T:=T)) ws -> Z.of_nat (length ws) <= INT_MAX ->
  increasing (c ++ more) /\ all_fit (c ++ more) ->
  live_ok (LL := ring_live_laws (Z.to_nat (size_ q))) (live_start q c m s ws).
Proof.
  intros Hq Hws Hfew [Hi Hf]. pose proof (repr_length q c Hq) as Hl. apply (live_start_ok (LL := ring_live_laws (Z.to_nat (size_ q)))); [|done..].
  split_and!; [lia| |by apply Forall_app in Hf as [? _]|by exists 0%nat; split; [lia|]].
  eapply increasing_sublist; [|exact Hi]. by apply sublist_inserts_r.
Qed.

(** ** Properties *)

(** C3: requests on a live ring of increasing timestamps that fit, for windows that start
    at least an element after zero, with a cleanup whose share leaves an element.  Whatever
    the sequentially consistent interleaving of any number of requests, read by read, with
    the consumer's writes, the cleanups and the spurious wake-ups, no step reads, writes or
    destroys anything but a live element or a free slot (the race of [back] under the memory
    orders of the code is C32, the address of [end()] that Partial answers form is C15); every
    request keeps its window, and every answer there is says the truth about the history of the
    ring: Found has all the frames of the
    window, and no later payload adds one; Partial has all those of what was stored when
    the request began; NotYet means that all of that was older than the window, TooOld
    and NotFound that the oldest element was beyond it, or too near its start, or that
    the ring was empty. *)
Theorem live_requests_honest {T : Type} `{ReadoutLaws T} `{!TimestampOrder T} (p : platform) (cfg : settings) (es : list (action T))
    (q : queue T) (c : list T) (m : registry) (s : stats) (ws : list window) :
  repr q c -> Forall (valid_window (T:=T)) ws -> Z.of_nat (length ws) <= INT_MAX ->
  0 <= m_pop_limit_size cfg -> leaves_one cfg (Z.to_nat (size_ q)) ->
  increasing (c ++ written es) -> all_fit (c ++ written es) ->
  exists st, live_run cfg (ring_cleanup p cfg) es (live_start q c m s ws) = Ret st
    /\ job_window <$> jobs st = ws
    /\ forall i j rc data, jobs st !! i = Some j -> job_place j = Answer rc data ->
         ring_honest (job_window j) (stored_before j) (held_before j) (stored st) rc data.
Proof.
  intros Hq Hws Hfew Hlimit Hshare Hi Hf. pose proof (repr_length q c Hq) as Hl.
  set (N := Z.to_nat (size_ q)).
  destruct (live_run_ok (LL := ring_live_laws N) cfg (ring_cleanup p cfg) (ring_cleanup_keeps p cfg N Hlimit Hshare) es (live_start q c m s ws))
    as (st & E & Hst & _); [by apply (ring_started q c (written es))|done|].
  exists st. split; [done|]. split.
  - rewrite (live_run_windows cfg (ring_cleanup p cfg) es _ st E). cbn. rewrite <- list_fmap_compose. apply list_fmap_id.
  - intros i j rc data. by apply (live_answer (LL := ring_live_laws N)).
Qed.

(** C11: a request cannot be kept from its answer.  Once it has called [data_request], at
    most three accesses for each slot of the ring and eleven more are enough, whatever
    the consumer, the cleanup thread and the other requests do meanwhile. *)
Theorem live_request_answers {T : Type} `{ReadoutLaws T} `{!TimestampOrder T} (p : platform) (cfg : settings) (es es' : list (action T))
    (q : queue T) (c : list T) (m : registry) (s : stats) (ws : list window) (st st' : live T (queue T) Z (Z * Z)) (i : nat) :
  repr q c -> Forall (valid_window (T:=T)) ws -> Z.of_nat (length ws) <= INT_MAX ->
  0 <= m_pop_limit_size cfg -> leaves_one cfg (Z.to_nat (size_ q)) ->
  increasing (c ++ written (es ++ es')) -> all_fit (c ++ written (es ++ es')) ->
  live_run cfg (ring_cleanup p cfg) es (live_start q c m s ws) = Ret st -> tasks (agreement st) !! i = Some TRun ->
  live_run cfg (ring_cleanup p cfg) es' st = Ret st' -> (3 * Z.to_nat (size_ q) + 11 <= reads i es')%nat ->
  exists j rc data, jobs st' !! i = Some j /\ job_place j = Answer rc data.
Proof.
  intros Hq Hws Hfew Hlimit Hshare Hi Hf Hrun Hrunning Hrun' Hreads.
  set (N := Z.to_nat (size_ q)). pose proof (ring_cleanup_keeps (T:=T) p cfg N Hlimit Hshare) as Hclean.
  unfold written in Hi, Hf. rewrite omap_app in Hi, Hf. fold (written es) (written es') in Hi, Hf.
  assert (Hacc : live_accepts (LiveLaws := ring_live_laws N) (c ++ written es ++ written es')) by done.
  destruct (live_run_ok (LL := ring_live_laws N) cfg (ring_cleanup p cfg) Hclean es (live_start q c m s ws))
    as (st1 & E & Hst & xs & Exs & Hxs); [by apply (ring_started q c (written es ++ written es'))|by eapply (accepts_first (LL := ring_live_laws N))|].
  rewrite Hrun in E. injection E as <-. cbn in Exs.
  destruct (lookup_lt_is_Some_2 (jobs st) i) as [j Hj].
  { rewrite (live_jobs _ Hst). by eapply lookup_lt_Some. }
  apply (live_run_answers (LL := ring_live_laws N) cfg (ring_cleanup p cfg) Hclean es' st st' i TRun j); try done.
  - rewrite Exs. by apply (accepts_stored (LL := ring_live_laws N) _ _ (written es)).
  - left. etrans; [|exact Hreads]. cbn. destruct (job_place j); cbn [turns_left]; lia.
Qed.

(** ** The properties at work: two requests, the consumer and a cleanup

    The first request asks for [[125, 155)], the second for [[125, 175)]. *)
Import Chunk.

Definition sample_windows : list window := [mkWindow 125 155; mkWindow 125 175].

(** The requests enter; the first reads eleven times while 160 is written, and has its
    answer; the cleanup thread asks for room and waits for the second. *)
Definition sample_entering : list (action chunk) :=
  [TaskMoves 0; TaskMoves 0; TaskMoves 0; TaskMoves 1; TaskMoves 1; TaskMoves 1;
   TaskReads 0; TaskReads 0; TaskReads 1; Write (mkChunk 160); TaskReads 0; TaskReads 1;
   CleanerMoves 200; CleanerMoves 200; CleanerMoves 200].

Definition sample_answering : list (action chunk) :=
  replicate 26 (TaskReads 0) ++ Write (mkChunk 180) :: replicate 26 (TaskReads 1)
  ++ [TaskMoves 0; TaskMoves 0; TaskMoves 0; TaskMoves 1; TaskMoves 1; TaskMoves 1;
      CleanerMoves 200; CleanerMoves 200; CleanerMoves 200].

Definition sample_live : live chunk (queue chunk) Z (Z * Z) := live_start (ring_of 5 sample) sample ∅ no_stats sample_windows.

Lemma sample_windows_valid : Forall (valid_window (T:=chunk)) sample_windows.
Proof. by repeat constructor. Qed.

Lemma sample_fits_more : all_fit (sample ++ [mkChunk 160; mkChunk 180]).
Proof. by repeat constructor. Qed.

Lemma sample_repr_roomy : repr (ring_of 5 sample) sample.
Proof. apply ring_of_repr; [cbn; lia|unfold INT_MAX; lia]. Qed.

Lemma live_requests_honest_witness :
  exists st, live_run (sample_settings half) (ring_cleanup sample_platform (sample_settings half)) (sample_entering ++ sample_answering) sample_live = Ret st
    /\ forall i j rc data, jobs st !! i = Some j -> job_place j = Answer rc data ->
         ring_honest (job_window j) (stored_before j) (held_before j) (stored st) rc data.
Proof.
  destruct (live_requests_honest sample_platform (sample_settings half) (sample_entering ++ sample_answering)
    (ring_of 5 sample) sample ∅ no_stats sample_windows sample_repr_roomy sample_windows_valid
    ltac:(by vm_compute) ltac:(by vm_compute) (half_leaves_one 5 ltac:(lia)) sample_increasing_more sample_fits_more)
    as (st & E & _ & Hst).
  exists st. split; [exact E|exact Hst].
Defined.

Definition sample_after (es : list (action chunk)) (st : live chunk (queue chunk) Z (Z * Z)) : live chunk (queue chunk) Z (Z * Z) :=
  match live_run (sample_settings half) (ring_cleanup sample_platform (sample_settings half)) es st with Ret st' => st' | _ => st end.

Lemma sample_after_runs (es : list (action chunk)) (st : live chunk (queue chunk) Z (Z * Z)) :
  match live_run (sample_settings half) (ring_cleanup sample_platform (sample_settings half)) es st with Ret _ => true | _ => false end = true ->
  live_run (sample_settings half) (ring_cleanup sample_platform (sample_settings half)) es st = Ret (sample_after es st).
Proof. unfold sample_after. by destruct (live_run _ _ es st). Qed.

Lemma live_request_answers_witness :
  exists j rc data, jobs (sample_after sample_answering (sample_after sample_entering sample_live)) !! 0%nat = Some j
    /\ job_place j = Answer rc data.
Proof.
  refine (live_request_answers sample_platform (sample_settings half) sample_entering sample_answering
    (ring_of 5 sample) sample ∅ no_stats sample_windows (sample_after sample_entering sample_live)
    (sample_after sample_answering (sample_after sample_entering sample_live)) 0
    sample_repr_roomy sample_windows_valid ltac:(by vm_compute) ltac:(by vm_compute)
    (half_leaves_one 5 ltac:(lia)) sample_increasing_more sample_fits_more
    (sample_after_runs _ _ _) _ (sample_after_runs _ _ _) _).
  - vm_compute. reflexivity.
  - vm_compute. reflexivity.
  - vm_compute. reflexivity.
  - apply Nat.leb_le. vm_compute. reflexivity.
Defined.
