(* ===== verification/LiveSkipList.v ===== *)
(** Requests on a live skip list: models/SkipListLatencyBufferModel.hpp and its .hxx as
    the buffer that LiveRequest.v reads access by access and LiveHandler.v shares with the
    consumer and the cleanup of SkipListHandler.v.  Payloads may arrive out of order, and
    before the place a request has reached. *)
From S2P Require Import Prelude ReadoutTypes LatencyBuffer SkipListBuffer FrameErrorRegistry FragmentSearch Float32.
From S2P Require Import RequestHandler RequestSync SkipListHandler LiveRequest LiveHandler.

(** The elements after [x]. *)
Definition later_than {T : Type} `{ReadoutType T} (x : T) (c : list T) : list T :=
  from_timestamp (get_timestamp x + 1) c.

(** ** What folly::ConcurrentSkipList documents of iterators while others insert

    [sl_at s n x]: the node [n] of [s] holds [x].  A node keeps its element while
    elements are inserted; the next node is the one after it at that moment; the end of
    the list is no node and does not become one. *)
Class SkipListCursors (T S N : Type) `{ReadoutType T} `{!SkipList T S N} `{!SkipListLaws T S N} := {
  sl_at : S -> N -> T -> Prop;
  sl_at_elem s c n x : sl_model s c -> sl_at s n x -> x ∈ c;
  sl_at_good s n x : sl_at s n x -> sl_good s n = true;
  sl_at_deref s n x : sl_at s n x -> sl_deref s n = Some x;
  sl_at_lower_bound s c key : sl_model s c ->
    match head (from_timestamp (get_timestamp key) c) with
    | Some x => sl_at s (sl_lower_bound s key) x
    | None => sl_good s (sl_lower_bound s key) = false
    end;
  sl_at_next s c n x : sl_model s c -> sl_at s n x ->
    match head (later_than x c) with
    | Some y => sl_at s (sl_next s n) y
    | None => sl_good s (sl_next s n) = false
    end;
  sl_at_insert s c n x y : sl_model s c -> sl_at s n x -> sl_at (snd (sl_insert y s)) n x;
  sl_end_insert s c n y : sl_model s c -> sl_good s n = false -> sl_good (snd (sl_insert y s)) n = false }.
#[export] Hint Mode SkipListCursors ! ! ! - - - : typeclass_instances.

Section skip_list.
Context {T S N : Type} `{ReadoutType T} `{!SkipList T S N}.
Implicit Types (s : S).

Definition skip_elements s : list T :=
  match lb_collect (LB := skip_list_buffer) (Z.to_nat (occupancy s)) s (sl_begin s) with
  | Ret l => l | _ => []
  end.

(** [front] and [back] give the address of an element, that is its node. *)
Definition node_of s (x : T) : N := sl_lower_bound s x.

(** The accesses of a request to the list. *)
#[export] Instance skip_live : LiveBuffer T S N unit := {
  live_elements := skip_elements;
  live_write x s := Ret (write x s);
  live_occupancy := occupancy;
  live_front s := node_of s <$> front s;
  live_back s := node_of s <$> back s;
  live_read s n := deref (sl_deref s n);
  live_bounds _ := tt;
  live_search s key _ := Ret (lower_bound s key false);
  live_good := sl_good;
  live_address s n := if sl_good s n then Some n else None;
  live_next := sl_next }.

(** How many elements a search has before it, from a node on. *)
Definition elements_from s (n : N) : nat :=
  if sl_good s n then
    match sl_deref s n with
    | Some x => length (from_timestamp (get_timestamp x) (skip_elements s))
    | None => 0
    end
  else 0.

(** The turns a request still takes at most, if nothing is inserted. *)
Definition skip_turns s (_ : window) (pl : place T N unit) : nat :=
  let n := length (skip_elements s) in
  match pl with
  | AtOccupancy => 3 * n + 11
  | AtFront => 3 * n + 10
  | AtBack _ => 3 * n + 9
  | AtOldest _ _ => 3 * n + 8
  | AtNewest _ _ => 3 * n + 7
  | AtBounds _ _ => 3 * n + 6
  | AtSearch _ _ _ => 3 * n + 5
  | AtFound _ _ it => 3 * elements_from s it + 4
  | AtTest _ it _ _ _ => 3 * elements_from s it + 3
  | AtElement _ it _ _ _ => 3 * elements_from s it + 2
  | AtNext _ it _ _ => 3 * elements_from s it + 1
  | AtLog _ _ => 2
  | AtCopy _ _ => 1
  | Answer _ _ => 0
  end.
End skip_list.

(** ** Lists of increasing timestamps *)
Section increasing.
Context {T : Type} `{ReadoutLaws T} `{!TimestampOrder T}.
Implicit Types (c h : list T) (x y z : T) (t b : Z).

Lemma increasing_app c1 c2 :
  increasing (c1 ++ c2) <->
  increasing c1 /\ increasing c2 /\ forall x y, x ∈ c1 -> y ∈ c2 -> get_timestamp x < get_timestamp y.
Proof.
  induction c1 as [|x c1 IH]; cbn.
  { split; [|tauto]. intros Hc. split; [apply increasing_nil|]. split; [done|]. by intros x y ?%elem_of_nil. }
  rewrite !increasing_cons, IH. split.
  - intros (Hx & H1 & H2 & Hlt). split_and!; try done.
    + intros y Hy. apply Hx, elem_of_app. by left.
    + intros y z [->|Hy]%elem_of_cons Hz; [|by apply Hlt]. apply Hx, elem_of_app. by right.
  - intros ([Hx H1] & H2 & Hlt). split_and!; try done.
    + intros y [Hy|Hy]%elem_of_app; [by apply Hx|]. apply Hlt; [by left|done].
    + intros y z Hy Hz. apply Hlt; [by right|done].
Qed.

(** One element for each timestamp. *)
Lemma increasing_same c x y : increasing c -> x ∈ c -> y ∈ c -> get_timestamp x = get_timestamp y -> x = y.
Proof.
  intros Hc Hx Hy E. apply list_elem_of_lookup in Hx as [i Hx], Hy as [j Hy].
  destruct (Nat.lt_trichotomy i j) as [Hij|[->|Hij]].
  - pose proof (Hc i j x y Hx Hy Hij). lia.
  - rewrite Hx in Hy. by injection Hy.
  - pose proof (Hc j i y x Hy Hx Hij). lia.
Qed.

Lemma increasing_head c x y : increasing c -> head c = Some x -> y ∈ c -> get_timestamp x <= get_timestamp y.
Proof.
  destruct c as [|z c]; [done|]. intros Hc [= ->] [->|Hy]%elem_of_cons; [lia|].
  apply increasing_cons in Hc as [Hx _]. specialize (Hx y Hy). lia.
Qed.

Lemma from_timestamp_elem t c x : increasing c -> x ∈ from_timestamp t c <-> x ∈ c /\ t <= get_timestamp x.
Proof. intros Hc. rewrite from_timestamp_filter, list_elem_of_filter by done. tauto. Qed.

(** The first element from [t] on, and what lies before it. *)
Lemma from_timestamp_head t c x :
  increasing c -> head (from_timestamp t c) = Some x ->
  x ∈ c /\ t <= get_timestamp x /\ forall y, y ∈ c -> t <= get_timestamp y -> get_timestamp x <= get_timestamp y.
Proof.
  intros Hc Hx. assert (Hin : x ∈ from_timestamp t c) by (by apply head_Some_elem_of).
  apply from_timestamp_elem in Hin as [Hin Ht]; [|done]. split_and!; try done.
  intros y Hy Hty. eapply (increasing_head (from_timestamp t c)); [|done|by apply from_timestamp_elem].
  rewrite from_timestamp_filter by done. eapply increasing_sublist; [apply sublist_filter|done].
Qed.

Lemma from_timestamp_none t c x : increasing c -> head (from_timestamp t c) = None -> x ∈ c -> get_timestamp x < t.
Proof.
  intros Hc Hn Hx. destruct (Z.lt_ge_cases (get_timestamp x) t) as [|Hge]; [done|].
  assert (Hin : x ∈ from_timestamp t c) by (by apply from_timestamp_elem).
  destruct (from_timestamp t c); [by apply elem_of_nil in Hin|done].
Qed.

Lemma from_timestamp_le t c : (length (from_timestamp t c) <= length c)%nat.
Proof. destruct (from_timestamp_suffix t c) as (j & _ & ->). rewrite length_drop. lia. Qed.

Lemma from_timestamp_next x c y :
  increasing c -> x ∈ c -> head (later_than x c) = Some y ->
  (length (from_timestamp (get_timestamp y) c) < length (from_timestamp (get_timestamp x) c))%nat.
Proof.
  intros Hc Hx Hy. destruct (from_timestamp_head _ _ _ Hc Hy) as (Hin & Hlt & _).
  clear Hin Hy. induction c as [|z c IH]; [by apply elem_of_nil in Hx|].
  pose proof Hc as [Hz Hc']%increasing_cons. cbn. apply elem_of_cons in Hx as [<-|Hx].
  - rewrite Z.ltb_irrefl. destruct (Z.ltb_spec (get_timestamp x) (get_timestamp y)); [|lia].
    pose proof (from_timestamp_le (get_timestamp y) c). cbn. lia.
  - specialize (Hz x Hx). destruct (Z.ltb_spec (get_timestamp z) (get_timestamp y)); [|lia].
    destruct (Z.ltb_spec (get_timestamp z) (get_timestamp x)); [|lia]. by apply IH.
Qed.

(** An insertion. *)
Lemma ordered_insert_in x c y : y ∈ snd (ordered_insert x c) -> y = x /\ fst (ordered_insert x c) = true \/ y ∈ c.
Proof.
  induction c as [|z c IH]; [intros ->%list_elem_of_singleton; by left|]. rewrite ordered_insert_cons.
  destruct (_ <? _); cbn; [by intros [->|Hy]%elem_of_cons; auto|].
  destruct (_ =? _); cbn; [by right|]. destruct (ordered_insert x c) as [b c'']; cbn in *.
  intros [->|Hy]%elem_of_cons; [right; by left|]. destruct (IH Hy) as [|]; [by left|right; by right].
Qed.

Lemma ordered_insert_keeps x c y : y ∈ c -> y ∈ snd (ordered_insert x c).
Proof.
  induction c as [|z c IH]; [by intros ?%elem_of_nil|]. rewrite ordered_insert_cons. intros Hy.
  destruct (_ <? _); cbn; [by right|]. destruct (_ =? _); cbn; [done|].
  destruct (ordered_insert x c) as [b c'']; cbn in *. apply elem_of_cons in Hy as [->|Hy]; [by left|right; auto].
Qed.

Lemma ordered_insert_length x c :
  (length c <= length (snd (ordered_insert x c)) <= length c + (if fst (ordered_insert x c) then 1 else 0))%nat.
Proof.
  induction c as [|z c IH]; [cbn; lia|]. rewrite ordered_insert_cons. destruct (_ <? _); cbn; [lia|]. destruct (_ =? _); cbn; [lia|].
  destruct (ordered_insert x c) as [b c'']; cbn in *. lia.
Qed.

Lemma ordered_insert_from x c t :
  (length (from_timestamp t (snd (ordered_insert x c))) <= length (from_timestamp t c) + 1)%nat.
Proof.
  induction c as [|z c IH]; [cbn; destruct (_ <? _); cbn; lia|]. rewrite ordered_insert_cons. cbn [from_timestamp].
  destruct (Z.ltb_spec (get_timestamp x) (get_timestamp z)); cbn.
  { destruct (Z.ltb_spec (get_timestamp x) t); destruct (Z.ltb_spec (get_timestamp z) t); cbn; lia. }
  destruct (_ =? _); cbn; [destruct (_ <? _); cbn; lia|].
  pose proof (ordered_insert_length x c) as Hl. destruct (ordered_insert x c) as [b c'']; cbn in *.
  destruct (Z.ltb_spec (get_timestamp z) t); cbn; [lia|destruct b; lia].
Qed.
End increasing.

(** ** What an answer says

    [held] is what the list held when the request began, [h] all it has accepted. *)
Definition skip_honest {T : Type} `{ReadoutType T} (w : window) (held h : list T)
    (rc : ResultCode) (data : list (FrameType T)) : Prop :=
  match rc with
  | kNotFound => data = [] /\ held = []
  | kNotYet => data = [] /\ Forall (fun x => get_timestamp x < window_begin w) held
  | kTooOld => data = [] /\ Forall (fun x => window_end w < get_timestamp x) held
  | kPartial | kPartiallyOld | kFound =>
      (exists h', increasing h' /\ held ⊆ h' /\ h' ⊆ h /\ data = frames_in w h')
      /\ match rc with
         | kPartial => Forall (fun x => get_timestamp x < window_end w) held
         | kPartiallyOld => Forall (fun x => window_begin w < get_timestamp x) held
             /\ exists y, y ∈ h /\ window_end w <= get_timestamp y
         | _ => (exists x, x ∈ h /\ get_timestamp x <= window_begin w)
             /\ exists y, y ∈ h /\ window_end w <= get_timestamp y
         end
  | _ => False
  end.

Section running.
Context {T S N : Type} `{ReadoutLaws T} `{!TimestampOrder T} `{!SkipList T S N} `{!SkipListLaws T S N} `{!SkipListCursors T S N}.
Implicit Types (s : S) (c h held : list T) (w : window) (x y z : T) (v : list (N * T)) (pl : place T N unit).

(** The oldest, or the newest, element when it was asked for. *)
Definition oldest_then c held x : Prop := x ∈ c /\ forall z, z ∈ held -> get_timestamp x <= get_timestamp z.

Definition newest_then c held y : Prop := y ∈ c /\ forall z, z ∈ held -> get_timestamp z <= get_timestamp y.

Definition seen_ends c held w (last_ts newest_ts : Z) : Prop :=
  exists x y, oldest_then c held x /\ newest_then c held y /\ last_ts = get_timestamp x /\ newest_ts = get_timestamp y
    /\ window_begin w <= newest_ts /\ last_ts <= window_end w.

Definition code_ok c held w (rc : ResultCode) : Prop :=
  match rc with
  | kPartial => Forall (fun x => get_timestamp x < window_end w) held
  | kPartiallyOld => Forall (fun x => window_begin w < get_timestamp x) held
      /\ exists y, y ∈ c /\ window_end w <= get_timestamp y
  | kFound => (exists x, x ∈ c /\ get_timestamp x <= window_begin w)
      /\ exists y, y ∈ c /\ window_end w <= get_timestamp y
  | _ => False
  end.

(** The elements [v] have been handled: all those of [held] from the key up to [b], and
    only such that are in the list. *)
Record handled s c held w (rc : ResultCode) (b : Z) v (ps : list (pointer N)) : Prop := {
  handled_some : c <> [];
  handled_code : code_ok c held w rc;
  handled_pieces : ps = pieces_at w v;
  handled_order : increasing v.*2;
  handled_nodes : Forall (fun nx => sl_at s nx.1 nx.2 /\ get_timestamp nx.2 < window_end w) v;
  handled_range x : x ∈ v.*2 -> window_begin w - element_ticks T <= get_timestamp x < b;
  handled_all x : x ∈ held -> window_begin w - element_ticks T <= get_timestamp x < b -> x ∈ v.*2 }.

Definition skip_verdict s c held w (rc : ResultCode) (ps : list (pointer N)) : Prop :=
  match rc with
  | kNotFound => ps = [] /\ held = []
  | kNotYet => ps = [] /\ Forall (fun x => get_timestamp x < window_begin w) held
  | kTooOld => ps = [] /\ Forall (fun x => window_end w < get_timestamp x) held
  | _ => exists v b, handled s c held w rc b v ps
           /\ ((forall z, z ∈ held -> get_timestamp z < b) \/ window_end w <= b)
  end.

Definition skip_run_ok s c h held w pl : Prop :=
  match pl with
  | AtOccupancy => True
  | AtFront => c <> []
  | AtBack front_element => c <> []
      /\ exists n x, front_element = Some n /\ sl_at s n x /\ oldest_then c held x
  | AtOldest front_element last_element =>
      (exists n x, front_element = Some n /\ sl_at s n x /\ oldest_then c held x)
      /\ exists n y, last_element = Some n /\ sl_at s n y /\ newest_then c held y
  | AtNewest last_element last_ts =>
      (exists x, oldest_then c held x /\ last_ts = get_timestamp x)
      /\ exists n y, last_element = Some n /\ sl_at s n y /\ newest_then c held y
  | AtBounds last_ts newest_ts | AtSearch last_ts newest_ts _ => seen_ends c held w last_ts newest_ts
  | AtFound last_ts newest_ts start_iter => seen_ends c held w last_ts newest_ts
      /\ exists x, sl_at s start_iter x /\ window_begin w - element_ticks T <= get_timestamp x
         /\ forall z, z ∈ held -> get_timestamp z < get_timestamp x -> get_timestamp z < window_begin w - element_ticks T
  | AtTest rc start_iter element frag_pieces _ => exists b v, handled s c held w rc b v frag_pieces
      /\ ((exists x, element = Some start_iter /\ sl_at s start_iter x /\ get_timestamp x = b /\ window_begin w - element_ticks T <= b)
          \/ (sl_good s start_iter = false /\ forall z, z ∈ held -> get_timestamp z < b))
  | AtElement rc start_iter element frag_pieces _ => exists x v, handled s c held w rc (get_timestamp x) v frag_pieces
      /\ element = Some start_iter /\ sl_at s start_iter x /\ window_begin w - element_ticks T <= get_timestamp x
  | AtNext rc start_iter frag_pieces _ => exists x v, handled s c held w rc (get_timestamp x + 1) v frag_pieces
      /\ sl_at s start_iter x /\ window_begin w - element_ticks T <= get_timestamp x
  | AtLog rc frag_pieces => c <> [] /\ skip_verdict s c held w rc frag_pieces
  | AtCopy rc frag_pieces => skip_verdict s c held w rc frag_pieces
  | Answer rc data => skip_honest w held h rc data
  end.

Definition skip_inv s h : Prop :=
  Z.of_nat (length h) <= INT_MAX /\ all_fit h
  /\ exists c, sl_model s c /\ c ⊆ h /\ (length c <= length h)%nat.

Definition skip_running s h held w pl : Prop :=
  increasing held /\ held ⊆ h
  /\ exists c, sl_model s c /\ c ⊆ h /\ held ⊆ c /\ skip_run_ok s c h held w pl.

Lemma skip_elements_model s c : sl_model s c -> skip_elements s = c.
Proof.
  intros Hs. unfold skip_elements. rewrite (occupancy_spec s c Hs), Nat2Z.id.
  by rewrite (lb_collect_rest (Laws := skip_list_laws) _ s c _ c) by (done || by apply sl_begin_spec).
Qed.

Lemma sl_model_unique s c c' : sl_model s c -> sl_model s c' -> c = c'.
Proof. intros Hc Hc'. by rewrite <- (skip_elements_model s c Hc), <- (skip_elements_model s c' Hc'). Qed.

Lemma elements_from_at s c n x :
  sl_model s c -> sl_at s n x -> elements_from s n = length (from_timestamp (get_timestamp x) c).
Proof.
  intros Hs Hn. unfold elements_from. by rewrite (sl_at_good s n x Hn), (sl_at_deref s n x Hn), (skip_elements_model s c Hs).
Qed.

Lemma elements_from_pos s c n x : sl_model s c -> sl_at s n x -> (0 < elements_from s n)%nat.
Proof.
  intros Hs Hn. rewrite (elements_from_at s c n x Hs Hn). pose proof (sl_increasing s c Hs) as Hc.
  assert (Hin : x ∈ from_timestamp (get_timestamp x) c)
    by (apply from_timestamp_elem; [done|split; [by apply (sl_at_elem s c n)|lia]]).
  destruct (from_timestamp (get_timestamp x) c); [by apply elem_of_nil in Hin|cbn; lia].
Qed.

Lemma elements_from_end s n : sl_good s n = false -> elements_from s n = 0%nat.
Proof. intros Hn. unfold elements_from. by rewrite Hn. Qed.

(** The node of an element that is there. *)
Lemma node_of_at s c x : sl_model s c -> x ∈ c -> sl_at s (node_of s x) x.
Proof.
  intros Hs Hx. pose proof (sl_increasing s c Hs) as Hc. pose proof (sl_at_lower_bound s c x Hs) as Hn.
  destruct (head (from_timestamp (get_timestamp x) c)) as [y|] eqn:E in Hn |- *.
  - destruct (from_timestamp_head _ _ _ Hc E) as (Hy & Hxy & Hmin). specialize (Hmin x Hx ltac:(lia)).
    assert (x = y) as <- by (apply (increasing_same c); [done..|lia]). done.
  - pose proof (from_timestamp_none _ _ x Hc E Hx). lia.
Qed.
End running.

(** *** Insertions keep it *)
Section insertions.
Context {T S N : Type} `{ReadoutLaws T} `{!TimestampOrder T} `{!SkipList T S N} `{!SkipListLaws T S N} `{!SkipListCursors T S N}.
Implicit Types (s : S) (c h held : list T) (w : window) (x y z : T) (v : list (N * T)) (pl : place T N unit).

Lemma skip_honest_mono w held h h' rc (data : list (FrameType T)) :
  h ⊆ h' -> skip_honest w held h rc data -> skip_honest w held h' rc data.
Proof.
  intros Hh. assert (Hin : forall z, z ∈ h -> z ∈ h') by done.
  destruct rc; cbn; try done; intros [(l & Hl & Hheld & Hlh & ->) Hc].
  - destruct Hc as [(x & Hx & ?) (y & Hy & ?)].
    split; [exists l; split_and!; try done; by etrans|split; [exists x|exists y]; auto].
  - split; [exists l; split_and!; try done; by etrans|done].
  - destruct Hc as [Hc (y & Hy & ?)].
    split; [exists l; split_and!; try done; by etrans|split; [done|exists y; auto]].
Qed.

Context (s s' : S) (c c' h h' held : list T) (w : window).
Context (Hat : forall n x, sl_at s n x -> sl_at s' n x).
Context (Hend : forall n, sl_good s n = false -> sl_good s' n = false).
Context (Hc : c ⊆ c') (Hh : h ⊆ h').

Lemma oldest_then_grows x : oldest_then c held x -> oldest_then c' held x.
Proof. intros [Hx Hz]. split; [by apply Hc|done]. Qed.

Lemma newest_then_grows x : newest_then c held x -> newest_then c' held x.
Proof. intros [Hx Hz]. split; [by apply Hc|done]. Qed.

Lemma seen_ends_grows lt nt : seen_ends c held w lt nt -> seen_ends c' held w lt nt.
Proof.
  intros (x & y & Hx & Hy & Hrest). exists x, y.
  split; [by apply oldest_then_grows|]. split; [by apply newest_then_grows|done].
Qed.

Lemma handled_grows rc b v ps : handled s c held w rc b v ps -> handled s' c' held w rc b v ps.
Proof.
  intros []. split; try done.
  - intros E. destruct c as [|x l]; [done|]. specialize (Hc x ltac:(by left)). rewrite E in Hc. by apply elem_of_nil in Hc.
  - destruct rc; cbn in *; try done.
    + destruct handled_code0 as [(x & Hx%Hc & ?) (y & Hy%Hc & ?)]. split; [exists x|exists y]; auto.
    + destruct handled_code0 as [? (y & Hy%Hc & ?)]. split; [done|exists y; auto].
  - eapply Forall_impl; [done|]. intros nx [Hn Hlt]. auto.
Qed.

Lemma skip_verdict_grows rc ps : skip_verdict s c held w rc ps -> skip_verdict s' c' held w rc ps.
Proof. destruct rc; cbn; try done; intros (v & b & Hv & Hb); exists v, b; auto using handled_grows. Qed.

Lemma skip_run_ok_grows pl : skip_run_ok s c h held w pl -> skip_run_ok s' c' h' held w pl.
Proof.
  assert (Hne : c <> [] -> c' <> []).
  { intros Hne ->. destruct c as [|x l]; [done|]. specialize (Hc x ltac:(by left)). by apply elem_of_nil in Hc. }
  destruct pl as [| |f|f l|l lt|lt nt|lt nt b|lt nt it|rc it el ps k|rc it el ps k|rc it ps k|rc ps|rc ps|rc data];
    cbn [skip_run_ok].
  - done.
  - done.
  - intros (? & n & x & -> & Hn & Hx). split; [auto|]. exists n, x. auto using oldest_then_grows.
  - intros [(n & x & -> & Hn & Hx) (m & y & -> & Hm & Hy)].
    split; [exists n, x|exists m, y]; auto using oldest_then_grows, newest_then_grows.
  - intros [(x & Hx & ->) (m & y & -> & Hm & Hy)].
    split; [exists x|exists m, y]; auto using oldest_then_grows, newest_then_grows.
  - apply seen_ends_grows.
  - apply seen_ends_grows.
  - intros [Hs (x & Hx & Hrest)]. split; [by apply seen_ends_grows|]. exists x. auto.
  - intros (b & v & Hv & Hit). exists b, v. split; [by apply handled_grows|].
    destruct Hit as [(x & -> & Hx & <- & ?)|[Hbad Hz]]; [left; eauto 6|right; auto].
  - intros (x & v & Hv & -> & Hit & ?). exists x, v. auto using handled_grows.
  - intros (x & v & Hv & Hit & ?). exists x, v. auto using handled_grows.
  - intros [? Hv]. auto using skip_verdict_grows.
  - apply skip_verdict_grows.
  - by apply skip_honest_mono.
Qed.
End insertions.

(** *** Every turn of the request keeps it *)
Section turns.
Context {T S N : Type} `{ReadoutLaws T} `{!TimestampOrder T} `{!SkipList T S N} `{!SkipListLaws T S N} `{!SkipListCursors T S N}.
Context (w : window) (Hw : valid_window (T:=T) w).
Context (s : S) (c h held : list T) (Hs : sl_model s c) (Hfit : all_fit h) (Hch : c ⊆ h) (Hheld : held ⊆ c)
  (Hord : increasing held).
Implicit Types (x y z : T) (v : list (N * T)) (pl : place T N unit).

Let Hc : increasing c := sl_increasing s c Hs.

Definition skip_goes_to pl pl' : Prop :=
  request_step s w pl = Some (Ret pl') /\ skip_run_ok s c h held w pl'
  /\ (skip_turns s w pl' < skip_turns s w pl)%nat.

Ltac accesses :=
  unfold skip_goes_to; cbn [request_step live_front live_back live_read live_occupancy live_bounds live_search
    live_good live_address live_next skip_live skip_run_ok] in *.

Lemma model_ends x y : head c = Some x -> last c = Some y -> oldest_then c held x /\ newest_then c held y.
Proof.
  intros Hx Hy. split; (split; [eauto using head_Some_elem_of, last_Some_elem_of|]); intros z Hz%Hheld.
  - by apply (increasing_head c).
  - by apply (increasing_end c).
Qed.

Lemma model_nonempty : c <> [] -> exists x y, head c = Some x /\ last c = Some y
  /\ sl_at s (node_of s x) x /\ sl_at s (node_of s y) y /\ oldest_then c held x /\ newest_then c held y.
Proof.
  intros Hne. destruct (head c) as [x|] eqn:Hx; [|by destruct c]. destruct (last c) as [y|] eqn:Hy; [|by apply last_None in Hy].
  exists x, y. destruct (model_ends x y Hx Hy). split_and!; try done; apply (node_of_at s c); try done;
    eauto using head_Some_elem_of, last_Some_elem_of.
Qed.

Lemma skip_occupancy_turn : exists pl', skip_goes_to AtOccupancy pl'.
Proof.
  accesses. rewrite (occupancy_spec s c Hs). eexists. split; [reflexivity|].
  destruct (Z.eqb_spec (Z.of_nat (length c)) 0) as [E|E]; (split; [|cbn; lia]).
  - split; [done|]. destruct c; [|cbn in E; lia]. destruct held as [|z l]; [done|].
    specialize (Hheld z ltac:(by left)). by apply elem_of_nil in Hheld.
  - cbn. by intros ->.
Qed.

Lemma skip_pointer_turn pl :
  pl = AtFront \/ (exists f, pl = AtBack f) -> skip_run_ok s c h held w pl -> exists pl', skip_goes_to pl pl'.
Proof.
  intros [->|[f ->]] Hok; accesses; (eexists; split; [reflexivity|]).
  - destruct (model_nonempty Hok) as (x & y & Hx & Hy & Hnx & Hny & Hox & Hoy).
    unfold front. rewrite (sl_first_spec s c Hs), Hx. split; [|cbn; lia]. cbn. eauto 6.
  - destruct Hok as [Hne Hf]. destruct (model_nonempty Hne) as (x & y & Hx & Hy & Hnx & Hny & Hox & Hoy).
    unfold back. rewrite (sl_last_spec s c Hs), Hy. split; [|cbn; lia]. cbn. eauto 6.
Qed.

Lemma skip_timestamp_turn pl :
  (exists f l, pl = AtOldest f l) \/ (exists l lt, pl = AtNewest l lt) -> skip_run_ok s c h held w pl ->
  exists pl', skip_goes_to pl pl'.
Proof.
  intros [(f & l & ->)|(l & lt & ->)] Hok; accesses.
  - destruct Hok as [(n & x & -> & Hn & Hx) Hl]. cbn [deref]. outcome. rewrite (sl_at_deref s n x Hn). cbn [deref]. outcome.
    eexists. split; [reflexivity|]. split; [|cbn; lia]. split; [by exists x|done].
  - destruct Hok as [(x & Hx & ->) (n & y & -> & Hn & Hy)]. cbn [deref]. outcome.
    rewrite (sl_at_deref s n y Hn). cbn [deref]. outcome. eexists. split; [reflexivity|].
    assert (Hne : c <> []) by (intros E; destruct Hx as [Hx _]; rewrite E in Hx; by apply elem_of_nil in Hx).
    destruct (Z.ltb_spec (get_timestamp y) (window_begin w)) as [Hlt|Hge];
      [|destruct (Z.ltb_spec (window_end w) (get_timestamp x)) as [Hlt|Hle]]; (split; [|cbn; lia]); cbn.
    + split; [done|]. split; [done|]. apply Forall_forall. intros z Hz. destruct Hy as [_ Hy]. specialize (Hy z Hz). lia.
    + split; [done|]. split; [done|]. apply Forall_forall. intros z Hz. destruct Hx as [_ Hx]. specialize (Hx z Hz). lia.
    + by exists x, y.
Qed.

Lemma skip_search_turn pl :
  (exists lt nt, pl = AtBounds lt nt) \/ (exists lt nt b, pl = AtSearch lt nt b) -> skip_run_ok s c h held w pl ->
  exists pl', skip_goes_to pl pl'.
Proof.
  intros [(lt & nt & ->)|(lt & nt & b & ->)] Hok; accesses; (eexists; split; [reflexivity|]); [by split; [|cbn; lia]|].
  unfold lower_bound. pose proof (sl_at_lower_bound s c (request_key w) Hs) as Hb.
  rewrite (request_key_timestamp w Hw) in Hb. pose proof (window_bounds w Hw) as Hbounds.
  destruct (head _) as [x|] eqn:Hx in Hb.
  - destruct (from_timestamp_head _ _ _ Hc Hx) as (Hin & Hge & Hmin). split.
    + split; [done|]. exists x. split_and!; [done|lia|]. intros z Hz Hlt.
      destruct (Z.lt_ge_cases (get_timestamp z) (window_begin w - element_ticks T)) as [|Hzge]; [done|].
      specialize (Hmin z (Hheld z Hz) Hzge). lia.
    + cbn [skip_turns]. rewrite (elements_from_at s c _ x Hs Hb), (skip_elements_model s c Hs).
      pose proof (from_timestamp_le (get_timestamp x) c). lia.
  - exfalso. destruct Hok as (x & y & _ & [Hy _] & _ & -> & Hwin & _).
    pose proof (from_timestamp_none _ _ y Hc Hx Hy). lia.
Qed.

Lemma skip_found_turn lt nt it :
  skip_run_ok s c h held w (AtFound lt nt it) -> exists pl', skip_goes_to (AtFound lt nt it) pl'.
Proof.
  intros Hok. accesses. destruct Hok as [(x & y & [Hx Hxo] & [Hy Hyn] & -> & -> & Hwin & Hle) (z & Hz & Hge & Hlow)].
  rewrite (sl_at_good s it z Hz). cbn [negb]. eexists. split; [reflexivity|]. split; [|cbn; lia].
  exists (get_timestamp z), []. split; [|left; exists z; by split_and!; [| |done|lia]]. split; try done.
  - intros E. rewrite E in Hx. by apply elem_of_nil in Hx.
  - destruct (Z.ltb_spec (get_timestamp y) (window_end w)).
    + cbn. apply Forall_forall. intros u Hu. specialize (Hyn u Hu). lia.
    + destruct (Z.ltb_spec (window_begin w) (get_timestamp x)); cbn; [|by eauto 7].
      split; [|by exists y]. apply Forall_forall. intros u Hu. specialize (Hxo u Hu). lia.
  - by intros u ?%elem_of_nil.
  - intros u Hu Hr. specialize (Hlow u Hu). lia.
Qed.

Lemma handled_verdict rc v b ps :
  handled s c held w rc b v ps -> (forall z, z ∈ held -> get_timestamp z < b) \/ window_end w <= b ->
  skip_verdict s c held w rc ps.
Proof. intros Hv Hb. pose proof (handled_code _ _ _ _ _ _ _ _ Hv). destruct rc; try done; by exists v, b. Qed.

(** One more element. *)
Lemma handled_snoc rc v ps it x :
  handled s c held w rc (get_timestamp x) v ps -> sl_at s it x -> get_timestamp x < window_end w ->
  window_begin w - element_ticks T <= get_timestamp x ->
  handled s c held w rc (get_timestamp x + 1) (v ++ [(it, x)]) (ps ++ element_pointers w it x).
Proof.
  intros [Hne Hcode -> Hinc Hnodes Hrange Hall] Hx Hlt Hge. split.
  - done.
  - done.
  - by rewrite pieces_at_snoc.
  - rewrite fmap_app. apply increasing_app. split_and!; [done| |].
    + apply increasing_cons. split; [by intros y ?%elem_of_nil|apply increasing_nil].
    + intros y z Hy ->%list_elem_of_singleton. by apply Hrange.
  - apply Forall_app. split; [done|]. by apply Forall_singleton.
  - intros y. rewrite fmap_app. intros [Hy|Hy]%elem_of_app; [specialize (Hrange y Hy); lia|].
    apply list_elem_of_singleton in Hy as ->. cbn. lia.
  - intros y Hy Hr. rewrite fmap_app. apply elem_of_app. destruct (decide (get_timestamp y = get_timestamp x)) as [E|Hyx].
    + right. apply list_elem_of_singleton. apply (increasing_same c); [done|by apply Hheld| |done]. by apply (sl_at_elem s c it).
    + left. apply Hall; [done|lia].
Qed.

Lemma skip_gathering_turn pl :
  (exists rc it el ps k, pl = AtTest rc it el ps k \/ pl = AtElement rc it el ps k \/ pl = AtNext rc it ps k) ->
  skip_run_ok s c h held w pl -> exists pl', skip_goes_to pl pl'.
Proof.
  intros (rc & it & el & ps & k & [->|[->| ->]]) Hok; accesses.
  - destruct Hok as (b & v & Hv & Hit). pose proof (handled_some _ _ _ _ _ _ _ _ Hv) as Hne.
    eexists. split; [reflexivity|]. destruct Hit as [(x & -> & Hx & <- & Hge)|[Hbad Hz]].
    + rewrite (sl_at_good s it x Hx). split; [|cbn; lia]. by exists x, v.
    + rewrite Hbad. split; [|cbn; lia]. split; [done|]. apply handled_verdict with v b; auto.
  - destruct Hok as (x & v & Hv & -> & Hx & Hge). cbn [deref]. outcome. pose proof (handled_some _ _ _ _ _ _ _ _ Hv) as Hne.
    pose proof (elements_from_pos s c it x Hs Hx) as Hpos.
    rewrite (sl_at_deref s it x Hx). cbn [deref]. outcome. eexists. split; [reflexivity|].
    destruct (Z.ltb_spec (get_timestamp x) (window_end w)) as [Hlt|Hend].
    + split; [|cbn; lia]. exists x, (v ++ [(it, x)]). split; [|done]. by apply handled_snoc.
    + split; [|cbn [skip_turns]; lia]. split; [done|]. apply handled_verdict with v (get_timestamp x); auto.
  - destruct Hok as (x & v & Hv & Hx & Hge). pose proof (elements_from_pos s c it x Hs Hx) as Hpos. eexists. split; [reflexivity|].
    pose proof (sl_at_next s c it x Hs Hx) as Hn. pose proof (sl_at_elem s c it x Hs Hx) as Hxc.
    destruct (head (later_than x c)) as [y|] eqn:Hy.
    + pose proof (from_timestamp_next x c y Hc Hxc Hy) as Hlen.
      destruct (from_timestamp_head _ _ _ Hc Hy) as (Hyc & Hxy & Hmin). split.
      * rewrite (sl_at_good s _ y Hn). exists (get_timestamp y), v. split; [|left; exists y; split_and!; [done|done|done|lia]].
        destruct Hv as [Hne Hcode Hps Hinc Hnodes Hrange Hall]. split; try done.
        -- intros z Hz. specialize (Hrange z Hz). lia.
        -- intros z Hz Hr. apply Hall; [done|].
           destruct (Z.lt_ge_cases (get_timestamp z) (get_timestamp x + 1)) as [|Hzx]; [lia|].
           specialize (Hmin z (Hheld z Hz) Hzx). lia.
      * cbn [skip_turns]. rewrite (elements_from_at s c _ y Hs Hn), (elements_from_at s c it x Hs Hx). lia.
    + split.
      * exists (get_timestamp x + 1), v. split; [done|]. right. split; [done|]. intros z Hz%Hheld.
        by apply (from_timestamp_none _ c).
      * cbn [skip_turns]. rewrite (elements_from_end s _ Hn). lia.
Qed.

(** What the pieces point to is what the window needs of some contents between then and now. *)
Lemma handled_honest rc b v ps :
  handled s c held w rc b v ps ->
  (forall z, z ∈ held -> get_timestamp z < b) \/ window_end w <= b ->
  copy_fragment s ps = Ret (frames_in w v.*2) /\ skip_honest w held h rc (frames_in w v.*2).
Proof.
  intros [Hne Hcode -> Hinc Hnodes Hrange Hall] Hb. pose proof (window_bounds w Hw) as Hbounds.
  assert (Hvc : forall x, x ∈ v.*2 -> x ∈ c).
  { intros x ([n y] & -> & Hx)%list_elem_of_fmap. rewrite Forall_forall in Hnodes.
    destruct (Hnodes _ Hx) as [Hn _]. by apply (sl_at_elem s c n). }
  assert (Hfits : forall x, x ∈ c -> get_timestamp x + element_ticks T <= UINT64_MAX).
  { intros x Hx%Hch. unfold all_fit in Hfit. rewrite Forall_forall in Hfit. by apply Hfit. }
  split.
  - apply copy_pieces_at; [done|]. rewrite Forall_forall in Hnodes |- *. intros [n x] Hx. cbn.
    destruct (Hnodes _ Hx) as [Hn Hlt]. cbn in Hn, Hlt. rewrite (sl_at_deref s n x Hn). split_and!; [done| |done].
    apply Hfits. by apply (sl_at_elem s c n).
  - set (early := filter (fun x => get_timestamp x < window_begin w - element_ticks T) held).
    set (late := filter (fun x => b <= get_timestamp x) held).
    assert (Hcontents : exists h', increasing h' /\ held ⊆ h' /\ h' ⊆ h /\ frames_in w v.*2 = frames_in w h').
    { exists (early ++ v.*2 ++ late). split_and!.
      - apply increasing_app. split; [by eapply increasing_sublist; [apply sublist_filter|]|].
        split; [apply increasing_app; split; [done|split; [by eapply increasing_sublist; [apply sublist_filter|]|]]|].
        + intros x y Hx [Hy _]%list_elem_of_filter. specialize (Hrange x Hx). lia.
        + intros x y [Hx Hxh]%list_elem_of_filter [Hy|Hy]%elem_of_app; [specialize (Hrange y Hy); lia|].
          apply list_elem_of_filter in Hy as [Hy Hyh]. destruct (decide (get_timestamp x < b)); [lia|].
          destruct Hb as [Hb|Hb]; [specialize (Hb x Hxh)|]; lia.
      - intros z Hz. rewrite !elem_of_app. destruct (decide (get_timestamp z < window_begin w - element_ticks T)).
        + left. by apply list_elem_of_filter.
        + destruct (decide (b <= get_timestamp z)); [right; right; by apply list_elem_of_filter|].
          right; left. apply Hall; [done|lia].
      - intros z. rewrite !elem_of_app. intros [[_ Hz]%list_elem_of_filter|[Hz|[_ Hz]%list_elem_of_filter]]; auto.
      - rewrite !frames_in_app. unfold frames_in at 2 4. rewrite earlier_frames, later_frames, app_nil_r; [done|..].
        + apply Forall_forall. intros z [_ Hz]%list_elem_of_filter. auto.
        + intros z [Hz Hzh]%list_elem_of_filter. destruct Hb as [Hb|Hb]; [specialize (Hb z Hzh)|]; lia.
        + apply Forall_forall. intros z [_ Hz]%list_elem_of_filter. auto.
        + intros z [Hz _]%list_elem_of_filter. lia. }
    destruct rc; cbn in Hcode; try done; (split; [done|]).
    + destruct Hcode as [(x & Hx & ?) (y & Hy & ?)]. split; [exists x|exists y]; auto.
    + destruct Hcode as [? (y & Hy & ?)]. split; [done|exists y; auto].
Qed.

Lemma skip_answer_turn pl :
  (exists rc ps, pl = AtLog rc ps \/ pl = AtCopy rc ps) -> skip_run_ok s c h held w pl ->
  exists pl', skip_goes_to pl pl'.
Proof.
  intros (rc & ps & [->| ->]) Hok; accesses.
  - destruct Hok as [Hne Hv]. destruct (model_nonempty Hne) as (x & y & Hx & Hy & Hnx & Hny & _).
    unfold front, back. rewrite (sl_first_spec s c Hs), (sl_last_spec s c Hs), Hx, Hy. cbn [fmap option_fmap option_map deref].
    outcome. rewrite (sl_at_deref s _ x Hnx), (sl_at_deref s _ y Hny). cbn [deref]. outcome.
    eexists. split; [reflexivity|]. split; [done|cbn; lia].
  - destruct rc; cbn in Hok.
    1, 5, 6: destruct Hok as (v & b & Hv & Hb); destruct (handled_honest _ _ _ _ Hv Hb) as [-> Hh]; outcome;
      (eexists; split; [reflexivity|split; [done|cbn; lia]]).
    4, 5: destruct Hok as (v & b & Hv & _); by destruct (handled_code _ _ _ _ _ _ _ _ Hv).
    all: destruct Hok as [-> Hok]; cbn [copy_fragment]; outcome; (eexists; split; [reflexivity|split; [done|cbn; lia]]).
Qed.

Lemma skip_turn pl :
  skip_run_ok s c h held w pl -> answered pl = true \/ exists pl', skip_goes_to pl pl'.
Proof.
  intros Hok. destruct pl; [right..|by left].
  - apply skip_occupancy_turn.
  - apply skip_pointer_turn; [eauto|done].
  - apply skip_pointer_turn; [eauto|done].
  - apply skip_timestamp_turn; [eauto|done].
  - apply skip_timestamp_turn; [eauto|done].
  - apply skip_search_turn; [eauto|done].
  - apply skip_search_turn; [eauto|done].
  - by apply skip_found_turn.
  - apply skip_gathering_turn; [eauto 10|done].
  - apply skip_gathering_turn; [eauto 10|done].
  - apply skip_gathering_turn; [do 2 eexists; exists None; eauto 10|done].
  - apply skip_answer_turn; [eauto|done].
  - apply skip_answer_turn; [eauto|done].
Qed.
End turns.

(** ** The laws *)
Section laws.
Context {T S N : Type} `{ReadoutLaws T} `{!TimestampOrder T} `{!SkipList T S N} `{!SkipListLaws T S N} `{!SkipListCursors T S N}.
Implicit Types (s : S) (c h held before : list T) (w : window) (x : T) (pl : place T N unit).

Lemma sl_insert_grows s c x :
  sl_model s c -> Z.of_nat (length c) < INT_MAX ->
  let b := fst (write x s) in let s' := snd (write x s) in let c' := snd (ordered_insert x c) in
  sl_model s' c' /\ c ⊆ c' /\ (forall z, z ∈ c' -> z ∈ c \/ (b = true /\ z = x))
  /\ (length c' <= length c + (if b then 1 else 0))%nat.
Proof.
  intros Hs Hlen. pose proof (ordered_insert_length x c) as Hl. unfold write.
  destruct (sl_insert_spec s c x Hs) as [-> Hs']; [destruct (fst (ordered_insert x c)); lia|]. cbn zeta.
  split_and!; [done| | |lia].
  - intros z. apply ordered_insert_keeps.
  - intros z [[-> E]|Hz]%ordered_insert_in; auto.
Qed.

Lemma elements_from_insert s c n x :
  sl_model s c -> sl_model (snd (write x s)) (snd (ordered_insert x c)) -> (sl_good s n = true -> exists y, sl_at s n y) ->
  (elements_from (snd (write x s)) n <= elements_from s n + 1)%nat.
Proof.
  intros Hs Hs' Hn. destruct (sl_good s n) eqn:Hg.
  - destruct (Hn eq_refl) as [y Hy].
    rewrite (elements_from_at s c n y Hs Hy), (elements_from_at _ _ n y Hs' (sl_at_insert s c n y x Hs Hy)).
    apply ordered_insert_from.
  - unfold write. rewrite (elements_from_end _ n (sl_end_insert s c n x Hs Hg)). lia.
Qed.

(** An insertion puts a request off by at most one element. *)
Lemma skip_turns_insert s c h held w x pl :
  sl_model s c -> sl_model (snd (write x s)) (snd (ordered_insert x c)) -> skip_run_ok s c h held w pl ->
  (skip_turns (snd (write x s)) w pl <= skip_turns s w pl + 3)%nat.
Proof.
  intros Hs Hs' Hok. pose proof (ordered_insert_length x c) as Hl.
  assert (Hfrom : forall n, (sl_good s n = true -> exists y, sl_at s n y) ->
    (elements_from (snd (write x s)) n <= elements_from s n + 1)%nat) by (intros n; by apply (elements_from_insert s c)).
  unfold skip_turns. rewrite (skip_elements_model _ _ Hs), (skip_elements_model _ _ Hs').
  destruct (fst (ordered_insert x c)); destruct pl as [| |f|f l|l lt|lt nt|lt nt b|lt nt it|rc it el ps k|rc it el ps k|rc it ps k|rc ps|rc ps|rc data];
    cbn [skip_run_ok] in Hok; try lia;
    (enough (elements_from (snd (write x s)) it <= elements_from s it + 1)%nat by lia; apply Hfrom; intros Hg).
  1, 5: destruct Hok as [_ (y & Hy & _)]; eauto.
  1, 4: destruct Hok as (b & v & _ & [(y & _ & Hy & _)|[Hbad _]]); [eauto|congruence].
  1, 3: destruct Hok as (y & v & _ & _ & Hy & _); eauto.
  all: destruct Hok as (y & v & _ & Hy & _); eauto.
Qed.

Lemma skip_write_spec s h x :
  skip_inv s h -> Z.of_nat (length (h ++ [x])) <= INT_MAX /\ all_fit (h ++ [x]) ->
  exists b s', live_write x s = Ret (b, s')
    /\ let h' := if b : bool then h ++ [x] else h in
       skip_inv s' h'
       /\ forall before held w pl, skip_running s h held w pl ->
            skip_running s' h' held w pl /\ (skip_turns s' w pl <= skip_turns s w pl + 3)%nat.
Proof.
  intros (Hlen & Hfit & c & Hs & Hch & Hcl) [Hlen' Hfit']. rewrite length_app in Hlen'. cbn [length] in Hlen'.
  destruct (sl_insert_grows s c x Hs ltac:(lia)) as (Hs' & Hcc & Hin & Hl).
  exists (fst (write x s)), (snd (write x s)). split; [cbn; by destruct (write x s)|]. cbn zeta.
  set (b := fst (write x s)) in *. set (h' := if b then h ++ [x] else h).
  assert (Hhh : h ⊆ h') by (unfold h'; destruct b; [set_solver|done]).
  assert (Hch' : snd (ordered_insert x c) ⊆ h').
  { intros z Hz. destruct (Hin z Hz) as [Hzc|[E ->]]; [by apply Hhh, Hch|].
    unfold h'. rewrite E. apply elem_of_app. right. by left. }
  split.
  - split_and!; [unfold h'; destruct b; rewrite ?length_app; cbn; lia|unfold h'; by destruct b|].
    exists (snd (ordered_insert x c)). split_and!; try done. unfold h'. destruct b; rewrite ?length_app; cbn; lia.
  - intros _ held w pl (Hord & Hheld & c' & Hs0 & Hc' & Hhc & Hok).
    assert (c' = c) as -> by (by apply (sl_model_unique s)). split.
    + split; [done|]. split; [by transitivity h|]. exists (snd (ordered_insert x c)). split_and!; [done|done|by transitivity c|].
      apply (skip_run_ok_grows s _ c _ h); try done.
      * intros n y. by apply (sl_at_insert s c).
      * intros n. by apply (sl_end_insert s c).
    + by apply (skip_turns_insert s c h held).
Qed.

Lemma skip_turn_spec s h held w pl :
  skip_inv s h -> valid_window (T:=T) w -> skip_running s h held w pl ->
  answered pl = true \/ exists pl', request_step s w pl = Some (Ret pl')
    /\ skip_running s h held w pl' /\ (skip_turns s w pl' < skip_turns s w pl)%nat.
Proof.
  intros (_ & Hfit & _) Hv (Hord & Hheld & c & Hs & Hch & Hhc & Hok).
  destruct (skip_turn w Hv s c h held Hs Hfit Hch Hhc Hord pl Hok) as [|(pl' & Hstep & Hok' & Hleft)]; [by left|right].
  exists pl'. split; [done|]. split; [|done]. split_and!; try done. by exists c.
Qed.

#[export] Instance skip_live_laws : LiveLaws T S N unit.
Proof.
  refine (Build_LiveLaws T S N unit _ _ _ (fun h => Z.of_nat (length h) <= INT_MAX /\ all_fit h) skip_inv
    (fun s h _ => skip_running s h) (fun w _ => skip_honest w) skip_turns 3 _ _ skip_write_spec
    (fun s h _ => skip_turn_spec s h) _ _).
  - intros h h' Hs [Hl Hf]. split; [apply sublist_length in Hs; lia|by eapply all_fit_sublist].
  - intros s h w (_ & _ & c & Hs & Hch & _) _. cbn. rewrite (skip_elements_model s c Hs).
    split; [by apply (sl_increasing s)|]. split; [done|]. by exists c.
  - intros s h _ held w rc data _ (_ & _ & c & _ & _ & _ & Hok). done.
  - intros w _ held h x rc data. apply skip_honest_mono. set_solver.
Defined.

Lemma skip_list_cleanup_keeps next s h errors (k : stats) :
  skip_inv s h ->
  exists s' errors' k', skip_list_cleanup next s errors k = Ret (s', errors', k') /\ skip_inv s' h.
Proof.
  intros (Hlen & Hfit & c & Hs & Hch & Hcl).
  destruct (skip_list_cleanup_correct next s c errors k Hs) as (s' & k' & E & Hs' & _).
  exists s', errors, k'. split; [done|]. pose proof (kept_sublist c) as Hsub.
  split; [done|]. split; [done|]. exists (kept c). split; [done|]. split.
  - intros z Hz. apply Hch. by eapply elem_of_sublist.
  - apply sublist_length in Hsub. lia.
Qed.
End laws.

(** ** A list of nodes has the documented behaviour *)
Module NodeList.
Section NodeList.
Context `{ReadoutLaws T} `{!TimestampOrder T}.
Implicit Types (x y : T) (c rest : list T).

Record node_list := mkNodes { nodes : list T }.

(** A node is known by its element; the next one is looked for when it is asked for. *)
#[export] Instance node_skip_list : SkipList T node_list (option T) := {
  createInstance _ := mkNodes [];
  sl_size s := Z.of_nat (length (nodes s));
  sl_insert x s := (fst (ordered_insert x (nodes s)), mkNodes (snd (ordered_insert x (nodes s))));
  sl_remove x s := (fst (ordered_remove x (nodes s)), mkNodes (snd (ordered_remove x (nodes s))));
  sl_pop_back s := (negb (bool_decide (nodes s = [])), mkNodes (removelast (nodes s)));
  sl_first s := head (nodes s);
  sl_last s := last (nodes s);
  sl_begin s := head (nodes s);
  sl_end := None;
  sl_lower_bound s x := head (from_timestamp (get_timestamp x) (nodes s));
  sl_good _ n := match n with Some _ => true | None => false end;
  sl_deref _ n := n;
  sl_next s n := x ← n; head (later_than x (nodes s));
  sl_eqb n1 n2 :=
    match n1, n2 with
    | Some x, Some y => get_timestamp x =? get_timestamp y
    | None, None => true
    | _, _ => false
    end }.

Lemma suffix_from c1 x rest t :
  increasing (c1 ++ x :: rest) -> (forall y, y ∈ c1 -> get_timestamp y < t) -> t <= get_timestamp x ->
  from_timestamp t (c1 ++ x :: rest) = x :: rest.
Proof.
  intros Hc Hlt Hge. rewrite (from_timestamp_drop t _ (length c1)).
  - by rewrite drop_app_length.
  - intros i y Hy Hi. rewrite lookup_app_l in Hy by done. apply Hlt. by eapply list_elem_of_lookup_2.
  - intros y Hy. rewrite lookup_app_r, Nat.sub_diag in Hy by done. by injection Hy as <-.
Qed.

Lemma suffix_head c1 x rest : increasing (c1 ++ x :: rest) -> from_timestamp (get_timestamp x) (c1 ++ x :: rest) = x :: rest.
Proof.
  intros Hc. apply suffix_from; [done| |lia]. apply increasing_app in Hc as (_ & _ & Hlt).
  intros y Hy. apply Hlt; [done|by left].
Qed.

Lemma suffix_next c1 x rest : increasing (c1 ++ x :: rest) -> later_than x (c1 ++ x :: rest) = rest.
Proof.
  intros Hc. unfold later_than. rewrite (cons_middle x), app_assoc in Hc |- *.
  pose proof Hc as (_ & Hrest & Hlt)%increasing_app.
  assert (Hle : forall y, y ∈ c1 ++ [x] -> get_timestamp y < get_timestamp x + 1).
  { intros y Hy. pose proof (increasing_end (c1 ++ [x]) x y) as He. rewrite last_snoc in He.
    enough (get_timestamp y <= get_timestamp x) by lia. apply He; [|done|done].
    apply (increasing_sublist _ ((c1 ++ [x]) ++ rest)); [by apply sublist_inserts_r|done]. }
  destruct rest as [|y rest].
  - rewrite app_nil_r in *. rewrite (from_timestamp_drop _ _ (length (c1 ++ [x]))).
    + by rewrite drop_all.
    + intros i y Hy _. apply Hle. by eapply list_elem_of_lookup_2.
    + intros y Hy%lookup_lt_Some. lia.
  - apply suffix_from; [done|done|]. specialize (Hlt x y). rewrite elem_of_app, list_elem_of_singleton in Hlt.
    specialize (Hlt ltac:(by right) ltac:(by left)). lia.
Qed.

(** The documented laws hold of it, up to the number of elements an [int] counts. *)
#[export] Instance node_skip_list_laws : SkipListLaws T node_list (option T).
Proof.
  refine (Build_SkipListLaws T node_list (option T) _ _
    (fun s c => nodes s = c /\ increasing c /\ Z.of_nat (length c) <= INT_MAX)
    (fun s c n rest => nodes s = c /\ increasing c /\ (exists c1, c = c1 ++ rest) /\ n = head rest)
    _ _ _ _ _ _ _ _ _ _ _ _ _ _ _ _ _); cbn; unfold INT_MAX in *.
  - intros s c (_ & Hc & _). by apply ordered_increasing.
  - intros _. split; [done|]. split; [apply increasing_nil|cbn; lia].
  - by intros s c (-> & _).
  - tauto.
  - intros s c x (-> & Hc & _) Hlen. rewrite <- !ordered_increasing in *. split_and!; [done|done| |done]. by apply OrderedList.ordered_insert_ordered.
  - intros s c x (-> & Hc & Hlen). split_and!; [done|done|..].
    + eapply increasing_sublist; [apply sublist_filter|done].
    + pose proof (length_filter (fun y => equivalent x y = false) c). lia.
  - intros s c (-> & Hc & Hlen). split_and!; [done|done|..]; rewrite removelast_take.
    + eapply increasing_sublist; [apply sublist_take|done].
    + rewrite length_take. lia.
  - by intros s c (-> & _).
  - by intros s c (-> & _).
  - intros s c (E & Hc & _). split_and!; [done|done|by exists []|by rewrite E].
  - intros s c x (E & Hc & _). rewrite from_key_timestamp. split_and!; [done|done| |by rewrite E].
    destruct (from_timestamp_split (get_timestamp x) c) as (c1 & Hc1 & _). by exists c1.
  - intros s c n rest (_ & _ & _ & ->). by destruct rest.
  - intros s c n x rest (E & Hc & (c1 & Ec) & ->). split; [done|].
    assert (Hnext : later_than x c = rest) by (rewrite Ec in Hc |- *; by apply suffix_next).
    cbn. rewrite E, Hnext. split_and!; [done|done| |done]. exists (c1 ++ [x]). by rewrite <- app_assoc.
  - intros s c n1 n2 rest1 rest2 (E & Hc & (c1 & Ec1) & ->) (_ & _ & (c2 & Ec2) & ->) Hne.
    destruct rest2 as [|y rest2]; [done|]. destruct rest1 as [|x rest1]; [done|]. cbn [head].
    pose proof Hc as H1. rewrite Ec1 in H1. apply suffix_head in H1. rewrite <- Ec1 in H1.
    pose proof Hc as H2. rewrite Ec2 in H2. apply suffix_head in H2. rewrite <- Ec2 in H2.
    apply eq_bool_prop_intro. rewrite bool_decide_spec, Is_true_true, Z.eqb_eq. split.
    + intros Et. rewrite Et, H2 in H1. by rewrite H1.
    + intros El. rewrite Ec1 in Ec2. apply app_inj_2 in Ec2 as [_ [= -> _]]; done.
  - intros s c n rest (_ & _ & _ & ->) Hne. by destruct rest.
  - by intros s c n (_ & _ & _ & ->).
  - by intros s c n (_ & _ & _ & ->).
Defined.

#[export] Instance node_cursors : SkipListCursors T node_list (option T).
Proof.
  refine (Build_SkipListCursors T node_list (option T) _ _ _ (fun s n x => n = Some x /\ x ∈ nodes s)
    _ _ _ _ _ _ _); cbn.
  - by intros s c n x (-> & _) [_ Hx].
  - by intros s n x [-> _].
  - by intros s n x [-> _].
  - intros s c key (-> & Hc & _). destruct (head _) as [x|] eqn:E; [|done]. split; [done|].
    by apply (from_timestamp_head _ _ _ Hc) in E as [Hx _].
  - intros s c n x (-> & Hc & _) [-> Hx]. cbn. destruct (head _) as [y|] eqn:E; [|done]. split; [done|].
    by apply (from_timestamp_head _ _ _ Hc) in E as [Hy _].
  - intros s c n x y _ [-> Hx]. split; [done|]. cbn. by apply ordered_insert_keeps.
  - by intros s c [x|] y.
Defined.
End NodeList.
End NodeList.

(** ** Properties *)

(** C4: requests on a live skip list of elements that [operator<] orders by timestamp alone,
    for windows that start at least an element after zero.  Whatever the interleaving of any
    number of requests, access by access, with the consumer's insertions, in whatever order the
    payloads come, the cleanups of the skip list handler and the spurious wake-ups, no step
    reads through anything but a node of the list (the address of [end()], which a walk to the
    end forms and does not read through, is C15's matter); every request keeps its window, and every answer there is is
    honest about what the list held when the request began: Found, Partial and
    PartiallyOld have exactly the frames of the window of some contents in order that have all of
    that, and nothing that was never stored; Partial means that all of it was older than
    the end of the window, PartiallyOld that all of it was newer than its start, NotYet
    older than the start, TooOld newer than the end, NotFound that there was nothing. *)
Theorem live_skip_requests_honest {T S N : Type} `{ReadoutLaws T} `{!TimestampOrder T} `{!SkipList T S N} `{!SkipListLaws T S N}
    `{!SkipListCursors T S N} (cfg : settings) (es : list (action T)) (l : S) (c : list T) (m : registry) (k : stats)
    (ws : list window) :
  sl_model l c -> Forall (valid_window (T:=T)) ws -> Z.of_nat (length ws) <= INT_MAX ->
  Z.of_nat (length (c ++ written es)) <= INT_MAX -> all_fit (c ++ written es) ->
  exists st, live_run cfg skip_list_cleanup es (live_start l c m k ws) = Ret st
    /\ job_window <$> jobs st = ws
    /\ forall i j rc data, jobs st !! i = Some j -> job_place j = Answer rc data ->
         skip_honest (job_window j) (held_before j) (stored st) rc data.
Proof.
  intros Hl Hws Hfew Hlen Hfit.
  assert (Hinv : skip_inv l c).
  { rewrite length_app in Hlen. apply Forall_app in Hfit as [Hfit _]. split; [lia|]. split; [done|]. by exists c. }
  destruct (live_run_ok (LL := skip_live_laws (S:=S) (N:=N)) cfg skip_list_cleanup skip_list_cleanup_keeps es (live_start l c m k ws))
    as (st & E & Hst & _); [by apply (live_start_ok (LL := skip_live_laws (S:=S) (N:=N)))|done|].
  exists st. split; [done|]. split.
  - rewrite (live_run_windows cfg skip_list_cleanup es _ st E). cbn. rewrite <- list_fmap_compose. apply list_fmap_id.
  - intros i j rc data. by apply (live_answer (LL := skip_live_laws (S:=S) (N:=N))).
Qed.

(** C12: insertions cannot keep a request on a skip list from its answer for ever.  Once it
    has called [data_request], three accesses for each element stored then or offered
    since and eleven more are enough, whatever the other threads do meanwhile. *)
Theorem live_skip_request_answers {T S N : Type} `{ReadoutLaws T} `{!TimestampOrder T} `{!SkipList T S N} `{!SkipListLaws T S N}
    `{!SkipListCursors T S N} (cfg : settings) (es es' : list (action T)) (l : S) (c : list T) (m : registry) (k : stats)
    (ws : list window) (st st' : live T S N unit) (i : nat) :
  sl_model l c -> Forall (valid_window (T:=T)) ws -> Z.of_nat (length ws) <= INT_MAX ->
  Z.of_nat (length (c ++ written (es ++ es'))) <= INT_MAX -> all_fit (c ++ written (es ++ es')) ->
  live_run cfg skip_list_cleanup es (live_start l c m k ws) = Ret st -> tasks (agreement st) !! i = Some TRun ->
  live_run cfg skip_list_cleanup es' st = Ret st' ->
  (3 * (length (skip_elements (buffer st)) + length (written es')) + 11 <= reads i es')%nat ->
  exists j rc data, jobs st' !! i = Some j /\ job_place j = Answer rc data.
Proof.
  intros Hl Hws Hfew Hlen Hfit Hrun Hrunning Hrun' Hreads.
  unfold written in Hlen, Hfit. rewrite omap_app in Hlen, Hfit. fold (written es) (written es') in Hlen, Hfit.
  assert (Hacc : live_accepts (LiveLaws := skip_live_laws (S:=S) (N:=N)) (c ++ written es ++ written es')) by done.
  assert (Hinv : skip_inv l c).
  { rewrite length_app in Hlen. apply Forall_app in Hfit as [Hfit _]. split; [lia|]. split; [done|]. by exists c. }
  destruct (live_run_ok (LL := skip_live_laws (S:=S) (N:=N)) cfg skip_list_cleanup skip_list_cleanup_keeps es (live_start l c m k ws))
    as (st1 & E & Hst & xs & Exs & Hxs); [by apply (live_start_ok (LL := skip_live_laws (S:=S) (N:=N)))|by eapply (accepts_first (LL := skip_live_laws (S:=S) (N:=N)))|].
  rewrite Hrun in E. injection E as <-. cbn in Exs.
  destruct (lookup_lt_is_Some_2 (jobs st) i) as [j Hj].
  { rewrite (live_jobs _ Hst). by eapply lookup_lt_Some. }
  apply (live_run_answers (LL := skip_live_laws (S:=S) (N:=N)) cfg skip_list_cleanup skip_list_cleanup_keeps es' st st' i TRun j); try done.
  - rewrite Exs. by apply (accepts_stored (LL := skip_live_laws (S:=S) (N:=N)) _ _ (written es)).
  - left. etrans; [|exact Hreads]. cbn [live_turns live_growth skip_live_laws].
    assert (Hfrom : forall n, (elements_from (buffer st) n <= length (skip_elements (buffer st)))%nat).
    { intros n. unfold elements_from. destruct (sl_good _ n); [|lia]. destruct (sl_deref _ n); [|lia]. apply from_timestamp_le. }
    destruct (job_place j); cbn [skip_turns]; try (specialize (Hfrom start_iter)); lia.
Qed.

(** ** The properties at work: two requests, payloads out of order, and a cleanup

    The first request asks for [[125, 155)], the second for [[125, 175)]; 130 arrives
    when the first has begun, 160 and a payload that makes the cleanup remove the oldest
    when both have. *)
Import Chunk.
Import NodeList.

Definition skip_sample_live : live chunk node_list (option chunk) unit :=
  live_start (mkNodes sample) sample ∅ no_stats [mkWindow 125 155; mkWindow 125 175].

Definition skip_sample_entering : list (action chunk) :=
  [TaskMoves 0; TaskMoves 0; TaskMoves 0; TaskMoves 1; TaskMoves 1; TaskMoves 1;
   TaskReads 0; TaskReads 0; Write (mkChunk 130); TaskReads 0; TaskReads 1; Write (mkChunk 160);
   CleanerMoves 0; CleanerMoves 0; CleanerMoves 0].

Definition skip_sample_answering : list (action chunk) :=
  replicate 12 (TaskReads 0) ++ Write (mkChunk 1000000000) :: replicate 18 (TaskReads 0) ++ replicate 30 (TaskReads 1)
  ++ [TaskMoves 0; TaskMoves 0; TaskMoves 0; TaskMoves 1; TaskMoves 1; TaskMoves 1;
      CleanerMoves 0; CleanerMoves 0; CleanerMoves 0].

Definition skip_sample_settings : settings := sample_settings half.

Definition skip_after (es : list (action chunk)) (st : live chunk node_list (option chunk) unit) :=
  match live_run skip_sample_settings skip_list_cleanup es st with Ret st' => st' | _ => st end.

Lemma skip_after_runs es st :
  match live_run skip_sample_settings skip_list_cleanup es st with Ret _ => true | _ => false end = true ->
  live_run skip_sample_settings skip_list_cleanup es st = Ret (skip_after es st).
Proof. unfold skip_after. by destruct (live_run _ _ es st). Qed.

Lemma skip_sample_model : sl_model (mkNodes sample) sample.
Proof. split_and!; [done|apply sample_increasing|by vm_compute]. Qed.

Lemma live_skip_requests_honest_witness :
  exists st, live_run skip_sample_settings skip_list_cleanup (skip_sample_entering ++ skip_sample_answering) skip_sample_live = Ret st
    /\ forall i j rc data, jobs st !! i = Some j -> job_place j = Answer rc data ->
         skip_honest (job_window j) (held_before j) (stored st) rc data.
Proof.
  destruct (live_skip_requests_honest skip_sample_settings (skip_sample_entering ++ skip_sample_answering)
    (mkNodes sample) sample ∅ no_stats [mkWindow 125 155; mkWindow 125 175] skip_sample_model
    ltac:(by repeat constructor) ltac:(by vm_compute) ltac:(by vm_compute) ltac:(by repeat constructor))
    as (st & E & _ & Hst).
  exists st. split; [exact E|exact Hst].
Defined.

Lemma live_skip_request_answers_witness :
  exists j rc data, jobs (skip_after skip_sample_answering (skip_after skip_sample_entering skip_sample_live)) !! 0%nat = Some j
    /\ job_place j = Answer rc data.
Proof.
  refine (live_skip_request_answers skip_sample_settings skip_sample_entering skip_sample_answering
    (mkNodes sample) sample ∅ no_stats [mkWindow 125 155; mkWindow 125 175] (skip_after skip_sample_entering skip_sample_live)
    (skip_after skip_sample_answering (skip_after skip_sample_entering skip_sample_live)) 0
    skip_sample_model _ _ _ _ (skip_after_runs _ _ _) _ (skip_after_runs _ _ _) _).
  - by repeat constructor.
  - by vm_compute.
  - by vm_compute.
  - by repeat constructor.
  - vm_compute. reflexivity.
  - vm_compute. reflexivity.
  - vm_compute. reflexivity.
  - apply Nat.leb_le. vm_compute. reflexivity.
Defined.
