(* ===== verification/RawDataProcessor.v ===== *)
(** models/TaskRawDataProcessorModel.hpp and its .hxx: the pipeline of
    preprocessing functions, and the queues of pointers that feed one
    postprocessing thread each. *)
From S2P Require Import Prelude ReadoutTypes.

(** ** folly::ProducerConsumerQueue of pointers, as an interface

    [Q] is the queue's state, [P] the type of the pointers it holds. *)
Class PointerQueue (P Q : Type) := {
  pcq_create : Z -> Q;
  pcq_write : P -> Q -> bool * Q;
  pcq_read : Q -> option (P * Q);
  pcq_sizeGuess : Q -> Z }.

(** Its documented behaviour: a FIFO that holds one element less than the size it
    is made with, whose guess is exact when no other thread is at work. *)
Class PointerQueueLaws (P Q : Type) `{PointerQueue P Q} := {
  pcq_model : Q -> nat -> list P -> Prop;
  pcq_create_spec n : 2 <= n -> pcq_model (pcq_create n) (Z.to_nat (n - 1)) [];
  pcq_write_spec q room l p : pcq_model q room l ->
    if decide (length l < room)%nat
    then fst (pcq_write p q) = true /\ pcq_model (snd (pcq_write p q)) room (l ++ [p])
    else pcq_write p q = (false, q);
  pcq_read_spec q room l : pcq_model q room l ->
    match l with
    | [] => pcq_read q = None
    | p :: l => exists q', pcq_read q = Some (p, q') /\ pcq_model q' room l
    end;
  pcq_size_spec q room l : pcq_model q room l -> pcq_sizeGuess q = Z.of_nat (length l) }.

(** The postprocessing queues hold a pointer to an element; [F] are the
    std::functions that run on one. *)
Section processor.
Context {T P Q F : Type} `{PointerQueue P Q}.

Record processor := mkProcessor {
  m_preprocess_functions : list (T -> T);
  m_post_process_functions : list F;
  m_items_to_postprocess_queues : list Q;
  m_post_process_threads : list string;
  m_postprocess_queue_sizes : Z;
  m_sourceid : SourceID;
  m_run_marker : bool;
  m_last_processed_daq_ts : Z;
  m_post_processing_enabled : bool }.

Definition new_processor (post_processing_enabled : bool) : processor :=
  mkProcessor [] [] [] [] 0 (mkSourceID 0 0) false 0 post_processing_enabled.

Definition add_preprocess_task (task : T -> T) (m : processor) : processor :=
  mkProcessor (m_preprocess_functions m ++ [task]) (m_post_process_functions m)
    (m_items_to_postprocess_queues m) (m_post_process_threads m) (m_postprocess_queue_sizes m)
    (m_sourceid m) (m_run_marker m) (m_last_processed_daq_ts m) (m_post_processing_enabled m).

Definition add_postprocess_task (task : F) (m : processor) : processor :=
  mkProcessor (m_preprocess_functions m) (m_post_process_functions m ++ [task])
    (m_items_to_postprocess_queues m) (m_post_process_threads m ++ [""%string])
    (m_postprocess_queue_sizes m) (m_sourceid m) (m_run_marker m) (m_last_processed_daq_ts m)
    (m_post_processing_enabled m).

(** The loop of [conf]: one more queue, and a name, for each function;
    [m_post_process_threads[i]] must exist. *)
Fixpoint conf_loop (n i : nat) (sizes : Z) (name_of : nat -> string) (queues : list Q)
    (threads : list string) : outcome (list Q * list string) :=
  match n with
  | O => Ret (queues, threads)
  | S n =>
      match threads !! i with
      | Some _ => conf_loop n (S i) sizes name_of (queues ++ [pcq_create sizes])
                    (<[i := name_of i]> threads)
      | None => Undefined
      end
  end.

Definition conf (queue_sizes source_id subsystem : Z) (name_of : nat -> string) (m : processor)
    : outcome processor :=
  '(queues, threads) ← conf_loop (length (m_post_process_functions m)) 0 queue_sizes name_of
      (m_items_to_postprocess_queues m) (m_post_process_threads m);
  Ret (mkProcessor (m_preprocess_functions m) (m_post_process_functions m) queues threads
         queue_sizes (mkSourceID subsystem source_id) (m_run_marker m) (m_last_processed_daq_ts m)
         (m_post_processing_enabled m)).

Definition scrap (m : processor) : processor :=
  mkProcessor [] [] [] [] (m_postprocess_queue_sizes m) (m_sourceid m) (m_run_marker m)
    (m_last_processed_daq_ts m) (m_post_processing_enabled m).

(** [start] hands thread [i] the [i]-th function and the [i]-th queue, by
    reference: both must exist. *)
Definition start (m : processor) : outcome processor :=
  if (length (m_post_process_threads m) <=? length (m_post_process_functions m))%nat
     && (length (m_post_process_threads m) <=? length (m_items_to_postprocess_queues m))%nat
  then Ret (mkProcessor (m_preprocess_functions m) (m_post_process_functions m)
              (m_items_to_postprocess_queues m) (m_post_process_threads m)
              (m_postprocess_queue_sizes m) (m_sourceid m) true (m_last_processed_daq_ts m)
              (m_post_processing_enabled m))
  else Undefined.

(** [stop] clears the marker, and waits for the threads. *)
Definition stop (m : processor) : processor :=
  mkProcessor (m_preprocess_functions m) (m_post_process_functions m)
    (m_items_to_postprocess_queues m) (m_post_process_threads m) (m_postprocess_queue_sizes m)
    (m_sourceid m) false (m_last_processed_daq_ts m) (m_post_processing_enabled m).

Definition reset_last_daq_time (m : processor) : processor :=
  mkProcessor (m_preprocess_functions m) (m_post_process_functions m)
    (m_items_to_postprocess_queues m) (m_post_process_threads m) (m_postprocess_queue_sizes m)
    (m_sourceid m) (m_run_marker m) 0 (m_post_processing_enabled m).

Definition get_last_daq_time (m : processor) : Z := m_last_processed_daq_ts m.

(** [invoke_all_preprocess_functions]: the functions run in order on the item. *)
Definition preprocess_item (item : T) (m : processor) : T :=
  foldl (fun item task => task item) item (m_preprocess_functions m).

(** The future of a task is destroyed, and so waited for, before the next task is launched. *)
Fixpoint launch_loop (tasks : list (T -> T)) (item : T) : T :=
  match tasks with
  | [] => item
  | task :: tasks => launch_loop tasks (task item)
  end.

Definition launch_all_preprocess_functions (item : T) (m : processor) : T :=
  launch_loop (m_preprocess_functions m) item.

(** [elements_queued] of each postprocessor, published. *)
Definition generate_processor_opmon_data (m : processor) : list (nat * Z) :=
  imap (fun i q => (i, pcq_sizeGuess q)) (m_items_to_postprocess_queues m).

(** The loop of [postprocess_item], from queue [i] on. *)
Fixpoint postprocess_loop (sourceid : SourceID) (item : P) (i : Z) (queues : list Q)
    : list Q * list issue :=
  match queues with
  | [] => ([], [])
  | q :: queues =>
      let '(b, q) := pcq_write item q in
      let '(queues, issues) := postprocess_loop sourceid item (i + 1) queues in
      (q :: queues, if b then issues else PostprocessingNotKeepingUp sourceid i :: issues)
  end.

Definition postprocess_item (item : P) (m : processor) : processor * list issue :=
  let '(queues, issues) := postprocess_loop (m_sourceid m) item 0 (m_items_to_postprocess_queues m) in
  (mkProcessor (m_preprocess_functions m) (m_post_process_functions m) queues
     (m_post_process_threads m) (m_postprocess_queue_sizes m) (m_sourceid m) (m_run_marker m)
     (m_last_processed_daq_ts m) (m_post_processing_enabled m), issues).

(** *** One postprocessing thread: its queue, the run marker it reads, the
    elements its function has run on, and whether its loop has ended. *)
Record post_thread := mkPostThread {
  thread_queue : Q;
  thread_marker : bool;
  processed : list P;
  finished : bool }.

(** One turn of the loop of [run_post_processing_thread]. *)
Definition thread_turn (t : post_thread) : post_thread :=
  if finished t then t
  else if thread_marker t || (0 <? pcq_sizeGuess (thread_queue t)) then
    match pcq_read (thread_queue t) with
    | Some (element, q) => mkPostThread q (thread_marker t) (processed t ++ [element]) false
    | None => t
    end
  else mkPostThread (thread_queue t) (thread_marker t) (processed t) true.

(** What happens to a thread: a pointer is offered to its queue, the marker is
    cleared by [stop], or it takes a turn. *)
Inductive post_event := Offer (p : P) | StopRun | Turn.

Definition post_step (t : post_thread) (e : post_event) : post_thread :=
  match e with
  | Offer p => mkPostThread (snd (pcq_write p (thread_queue t))) (thread_marker t) (processed t) (finished t)
  | StopRun => mkPostThread (thread_queue t) false (processed t) (finished t)
  | Turn => thread_turn t
  end.

Definition post_run (es : list post_event) (t : post_thread) : post_thread := foldl post_step t es.

(** The pointers the queue took during a run. *)
Fixpoint accepted (es : list post_event) (t : post_thread) : list P :=
  match es with
  | [] => []
  | e :: es =>
      match e with
      | Offer p => if fst (pcq_write p (thread_queue t)) then [p] else []
      | _ => []
      end ++ accepted es (post_step t e)
  end.
End processor.
Arguments processor : clear implicits.

Lemma launch_all_is_invoke_all {T Q F : Type} (item : T) (m : processor T Q F) :
  launch_all_preprocess_functions item m = preprocess_item item m.
Proof.
  unfold launch_all_preprocess_functions, preprocess_item. revert item.
  induction (m_preprocess_functions m) as [|task tasks IH]; intros item; [done|]. apply IH.
Qed.

Section lemmas.
Context {P Q : Type} `{PointerQueueLaws P Q}.

Lemma post_step_inv (e : post_event) (t : post_thread) room l :
  pcq_model (thread_queue t) room l ->
  exists l', pcq_model (thread_queue (post_step t e)) room l'
    /\ processed (post_step t e) ++ l' = processed t ++ l ++ accepted [e] t
    /\ (finished (post_step t e) = true -> finished t = true \/ (l = [] /\ thread_marker t = false)).
Proof.
  intros Hq. destruct e as [p| |]; cbn [post_step accepted]; rewrite ?app_nil_r.
  - pose proof (pcq_write_spec _ room l p Hq) as Hw. cbn [thread_queue processed finished].
    case_decide as Hd.
    + destruct Hw as [-> Hw]. exists (l ++ [p]). auto.
    + rewrite Hw. cbn [fst snd]. exists l. rewrite ?app_nil_r. auto.
  - exists l. auto.
  - unfold thread_turn. destruct (finished t) eqn:Ef; [exists l; auto|].
    rewrite (pcq_size_spec _ room l Hq). pose proof (pcq_read_spec _ room l Hq) as Hr.
    destruct l as [|p l].
    + rewrite Hr. destruct (thread_marker t); cbn [orb Z.ltb]; exists []; rewrite ?app_nil_r;
        (split; [done|split; [done|]]); [congruence|auto].
    + replace (0 <? Z.of_nat (length (p :: l))) with true by (symmetry; apply Z.ltb_lt; cbn; lia).
      rewrite orb_true_r. destruct Hr as (q' & -> & Hq'). exists l. cbn. rewrite <- app_assoc. done.
Qed.

Lemma post_run_inv (es : list post_event) (t : post_thread) room l :
  pcq_model (thread_queue t) room l ->
  exists l', pcq_model (thread_queue (post_run es t)) room l'
    /\ processed (post_run es t) ++ l' = processed t ++ l ++ accepted es t.
Proof.
  revert t l. induction es as [|e es IH]; intros t l Hq.
  - exists l. cbn. by rewrite app_nil_r.
  - destruct (post_step_inv e t room l Hq) as (l1 & Hq1 & E1 & _).
    destruct (IH (post_step t e) l1 Hq1) as (l' & Hq' & E').
    exists l'. change (post_run (e :: es) t) with (post_run es (post_step t e)).
    split; [exact Hq'|]. rewrite E', app_assoc, E1.
    cbn [accepted]. by rewrite app_nil_r, <- !app_assoc.
Qed.

Lemma post_turns_drain (t : post_thread) room l :
  pcq_model (thread_queue t) room l -> thread_marker t = false -> finished t = false ->
  let t' := post_run (replicate (S (length l)) Turn) t in
  finished t' = true /\ processed t' = processed t ++ l /\ pcq_model (thread_queue t') room [].
Proof.
  cbn zeta. revert t. induction l as [|p l IH]; intros t Hq Hm Hf.
  - cbn. unfold thread_turn. rewrite Hf, Hm, (pcq_size_spec _ room [] Hq). cbn.
    by rewrite app_nil_r.
  - cbn [length replicate post_run foldl]. cbn [post_step].
    assert (Ht : exists q', thread_turn t = mkPostThread q' false (processed t ++ [p]) false
        /\ pcq_model q' room l).
    { unfold thread_turn. rewrite Hf, Hm, (pcq_size_spec _ room (p :: l) Hq).
      replace (0 <? Z.of_nat (length (p :: l))) with true by (symmetry; apply Z.ltb_lt; cbn; lia).
      cbn [orb]. pose proof (pcq_read_spec _ room (p :: l) Hq) as (q' & -> & Hq'). by exists q'. }
    destruct Ht as (q' & -> & Hq'). 
    destruct (IH (mkPostThread q' false (processed t ++ [p]) false) Hq' eq_refl eq_refl) as (H1 & H2 & H3).
    cbn [length replicate post_run foldl post_step] in *. rewrite H2. cbn [processed]. by rewrite <- app_assoc.
Qed.

(** Each queue takes the pointer or a warning names it. *)
Lemma postprocess_loop_spec sourceid (p : P) (i : Z) (queues : list Q) (rooms : list nat)
    (contents : list (list P)) :
  Forall2 (fun q rl => pcq_model q rl.1 rl.2) queues (zip rooms contents) ->
  let full := fun rl : nat * list P => bool_decide (rl.1 <= length rl.2)%nat in
  exists queues' issues, postprocess_loop sourceid p i queues = (queues', issues)
    /\ Forall2 (fun q rl => pcq_model q rl.1 (if full rl then rl.2 else rl.2 ++ [p]))
         queues' (zip rooms contents)
    /\ length issues = length (filter (fun rl => full rl = true) (zip rooms contents)).
Proof.
  cbn zeta. generalize (zip rooms contents) as rls. intros rls Hall.
  revert i. induction Hall as [|q rl queues rls Hq Hall IH]; intros i; cbn [postprocess_loop].
  - exists [], []. done.
  - destruct (IH (i + 1)) as (queues' & issues & -> & Hall' & Hlen).
    pose proof (pcq_write_spec _ _ _ p Hq) as Hw. rewrite filter_cons. case_decide as Hd.
    + destruct (pcq_write p q) as [b q']. cbn [fst snd] in Hw. destruct Hw as [-> Hw].
      rewrite (bool_decide_false (rl.1 <= length rl.2)%nat) in * by lia.
      do 2 eexists. split; [done|]. split; [constructor; [|done]|].
      * by rewrite bool_decide_false by lia.
      * by rewrite decide_False.
    + rewrite Hw. do 2 eexists. split; [done|]. split; [constructor; [|done]|].
      * by rewrite bool_decide_true by lia.
      * rewrite decide_True by (by apply bool_decide_true; lia). cbn. by rewrite Hlen.
Qed.
End lemmas.

(** A list with a bound has the documented behaviour. *)
Module BoundedList.
Record bounded (P : Type) := mkBounded { bound : nat; items : list P }.
Arguments mkBounded {P} _ _.
Arguments bound {P} _.
Arguments items {P} _.

#[export] Instance bounded_queue (P : Type) : PointerQueue P (bounded P) := {
  pcq_create n := mkBounded (Z.to_nat (n - 1)) [];
  pcq_write p q := if decide (length (items q) < bound q)%nat
                   then (true, mkBounded (bound q) (items q ++ [p])) else (false, q);
  pcq_read q := match items q with [] => None | p :: l => Some (p, mkBounded (bound q) l) end;
  pcq_sizeGuess q := Z.of_nat (length (items q)) }.

#[export] Instance bounded_queue_laws (P : Type) : PointerQueueLaws P (bounded P).
Proof.
  refine (Build_PointerQueueLaws P (bounded P) _ (fun q room l => q = mkBounded room l) _ _ _ _); cbn.
  - done.
  - intros q room l p ->. cbn. by case_decide.
  - intros q room [|p l] ->; cbn; [done|]. by eexists.
  - by intros q room l ->.
Defined.
End BoundedList.

(** ** Properties *)

(** C34: whatever the order of offers, turns and the stop, a postprocessing
    thread has processed exactly the pointers its queue took, in order, except
    those still in the queue; and once the run is over and no more are offered it
    ends by itself after one turn per queued pointer and one more, having
    processed them all. *)
Theorem post_processing_drains {P Q : Type} `{PointerQueueLaws P Q}
    (es : list post_event) (t : post_thread) (room : nat) :
  pcq_model (thread_queue t) room [] -> processed t = [] ->
  exists l, pcq_model (thread_queue (post_run es t)) room l
    /\ processed (post_run es t) ++ l = accepted es t
    /\ (thread_marker (post_run es t) = false -> finished (post_run es t) = false ->
        let t' := post_run (replicate (S (length l)) Turn) (post_run es t) in
        finished t' = true /\ processed t' = accepted es t).
Proof.
  intros Hq Hp. destruct (post_run_inv es t room [] Hq) as (l & Hl & E).
  rewrite Hp in E. cbn in E. exists l. split; [done|]. split; [done|]. intros Hm Hf.
  destruct (post_turns_drain _ room l Hl Hm Hf) as (Hfin & Hproc & _).
  split; [done|]. by rewrite Hproc.
Qed.

(** [postprocess_item] offers the pointer to every queue; it reaches each
    queue that has room, at its end, leaves the full ones as they are, and reports
    exactly as many warnings as there are full queues. *)
Theorem postprocess_item_spec {T P Q F : Type} `{PointerQueueLaws P Q}
    (p : P) (m : processor T Q F) (rooms : list nat) (contents : list (list P)) :
  Forall2 (fun q rl => pcq_model q rl.1 rl.2) (m_items_to_postprocess_queues m) (zip rooms contents) ->
  exists m' issues, postprocess_item p m = (m', issues)
    /\ Forall2 (fun q rl => pcq_model q rl.1
                  (if bool_decide (rl.1 <= length rl.2)%nat then rl.2 else rl.2 ++ [p]))
         (m_items_to_postprocess_queues m') (zip rooms contents)
    /\ length issues = length (filter (fun rl => bool_decide (rl.1 <= length rl.2)%nat = true)
                                 (zip rooms contents)).
Proof.
  intros Hall. unfold postprocess_item.
  destruct (postprocess_loop_spec (m_sourceid m) p 0 (m_items_to_postprocess_queues m) rooms contents) as (queues & issues & -> & Hq & Hi);
    [done|].
  do 2 eexists. split; [done|]. split; [exact Hq|exact Hi].
Qed.

(** ** The properties at work: a queue with room for two pointers *)
Import BoundedList.

Definition sample_thread : post_thread (P := nat) (Q := bounded nat) :=
  mkPostThread (mkBounded 2 []) true [] false.

Definition sample_post_events : list (post_event (P := nat)) :=
  [Offer 1%nat; Offer 2%nat; Offer 3%nat; Turn; StopRun].

Lemma post_processing_drains_witness :
  let t := post_run sample_post_events sample_thread in
  accepted sample_post_events sample_thread = [1%nat; 2%nat]
  /\ exists l, processed t ++ l = [1%nat; 2%nat]
       /\ processed (post_run (replicate (S (length l)) Turn) t) = [1%nat; 2%nat].
Proof.
  split; [reflexivity|].
  destruct (post_processing_drains (H0 := bounded_queue_laws nat)
    sample_post_events sample_thread 2 eq_refl eq_refl) as (l & _ & E & Hend).
  exists l. split; [exact E|]. exact (proj2 (Hend eq_refl eq_refl)).
Defined.

(** Two queues, the second of them full. *)
Definition sample_processor : processor nat (bounded nat) unit :=
  mkProcessor [] [tt; tt] [mkBounded 2 [1%nat]; mkBounded 1 [4%nat]] ["a"%string; "b"%string] 3
    (mkSourceID 1 7) true 0 true.

Lemma postprocess_item_spec_witness :
  exists m' issues, postprocess_item 9%nat sample_processor = (m', issues)
    /\ Forall2 (fun q rl => q = mkBounded rl.1
                  (if bool_decide (rl.1 <= length rl.2)%nat then rl.2 else rl.2 ++ [9%nat]))
         (m_items_to_postprocess_queues m') [(2%nat, [1%nat]); (1%nat, [4%nat])]
    /\ length issues = 1%nat.
Proof.
  refine (postprocess_item_spec (H0 := bounded_queue_laws nat) 9%nat sample_processor
    [2%nat; 1%nat] [[1%nat]; [4%nat]] _).
  by repeat constructor.
Defined.
