(* ===== verification/BufferCopy.v ===== *)
(** utils/BufferCopy.hpp and DefaultRequestHandlerModel::dump_to_buffer: copying
    a piece of memory into a buffer from a position on. *)
From S2P Require Import Prelude.

(** Memory is a list of bytes; the source pointer is the bytes from it on. *)
Definition byte := Z.

(** [std::memcpy(buffer + pos, data, n)]: both ranges must be inside. *)
Definition memcpy (buffer data : list byte) (pos n : Z) : outcome (list byte) :=
  if (Z.of_nat (length data) <? n) || (Z.of_nat (length buffer) <? pos + n) then Undefined
  else Ret (take (Z.to_nat pos) buffer ++ take (Z.to_nat n) data
            ++ drop (Z.to_nat (pos + n)) buffer).

(** The [while] loop; [n] may reach past the buffer when the position does. *)
Fixpoint copy_loop (fuel : nat) (data : list byte) (bytes_to_copy : Z) (buffer : list byte)
    (buffer_pos buffer_size : Z) : outcome (list byte) :=
  if 0 <? bytes_to_copy then
    match fuel with
    | O => OutOfFuel
    | S fuel =>
        let n := Z.min bytes_to_copy (u64 (buffer_size - buffer_pos)) in
        buffer ← memcpy buffer data buffer_pos n;
        let buffer_pos := u32 (buffer_pos + n) in
        let bytes_to_copy := u64 (bytes_to_copy - n) in
        let buffer_pos := if buffer_pos =? buffer_size then 0 else buffer_pos in
        copy_loop fuel data bytes_to_copy buffer buffer_pos buffer_size
    end
  else Ret buffer.

(** One turn per byte is enough when the position is inside the buffer. *)
Definition buffer_copy (data : list byte) (size : Z) (buffer : list byte)
    (buffer_pos buffer_size : Z) : outcome (list byte) :=
  copy_loop (S (Z.to_nat size)) data size buffer buffer_pos buffer_size.

(** The same loop, in the request handler. *)
Definition dump_to_buffer (data : list byte) (size : Z) (buffer : list byte)
    (buffer_pos buffer_size : Z) : outcome (list byte) :=
  copy_loop (S (Z.to_nat size)) data size buffer buffer_pos buffer_size.

(** [buffer] with [data] written over it from [pos] on. *)
Definition overwrite (pos : nat) (data buffer : list byte) : list byte :=
  take pos buffer ++ data ++ drop (pos + length data) buffer.

Lemma overwrite_length pos data buffer :
  (pos + length data <= length buffer)%nat -> length (overwrite pos data buffer) = length buffer.
Proof. intros H. unfold overwrite. rewrite !length_app, length_take, length_drop. lia. Qed.

Lemma memcpy_in (buffer data : list byte) (pos n : nat) :
  (n <= length data)%nat -> (pos + n <= length buffer)%nat ->
  memcpy buffer data (Z.of_nat pos) (Z.of_nat n) = Ret (overwrite pos (take n data) buffer).
Proof.
  intros Hd Hb. unfold memcpy, overwrite.
  destruct (Z.ltb_spec (Z.of_nat (length data)) (Z.of_nat n)); [lia|].
  destruct (Z.ltb_spec (Z.of_nat (length buffer)) (Z.of_nat pos + Z.of_nat n)); [lia|]. cbn [orb].
  rewrite !Nat2Z.id, length_take, Nat.min_l by lia. by replace (Z.to_nat (Z.of_nat pos + Z.of_nat n)) with (pos + n)%nat by lia.
Qed.

(** The documented use: the piece fits after the position. *)
Lemma buffer_copy_fits (data buffer : list byte) (pos : nat) :
  (pos + length data <= length buffer)%nat -> Z.of_nat (length buffer) <= UINT32_MAX ->
  buffer_copy data (Z.of_nat (length data)) buffer (Z.of_nat pos) (Z.of_nat (length buffer))
  = Ret (overwrite pos data buffer).
Proof.
  intros Hfit Hmax. unfold buffer_copy, UINT32_MAX in *. rewrite Nat2Z.id. cbn [copy_loop].
  destruct (Z.ltb_spec 0 (Z.of_nat (length data))) as [Hpos|Hpos].
  - machine. rewrite Z.min_l by lia. rewrite memcpy_in by lia. outcome.
    rewrite Z.sub_diag. destruct (length data) eqn:E; [lia|].
    change (u64 0) with 0. cbn. rewrite <- E, firstn_all. done.
  - unfold overwrite. assert (E : length data = 0%nat) by lia. apply nil_length_inv in E. subst data.
    cbn [length]. by rewrite Nat.add_0_r, app_nil_l, take_drop.
Qed.

(** Pieces copied one after the other, each at the end of the one before. *)
Fixpoint copy_pieces (pieces : list (list byte)) (buffer : list byte) (bytes_copied buffer_size : Z)
    : outcome (list byte) :=
  match pieces with
  | [] => Ret buffer
  | piece :: pieces =>
      buffer ← buffer_copy piece (Z.of_nat (length piece)) buffer bytes_copied buffer_size;
      copy_pieces pieces buffer (u32 (bytes_copied + Z.of_nat (length piece))) buffer_size
  end.

Lemma overwrite_overwrite pos d1 d2 buffer :
  (pos + length d1 + length d2 <= length buffer)%nat ->
  overwrite (pos + length d1) d2 (overwrite pos d1 buffer) = overwrite pos (d1 ++ d2) buffer.
Proof.
  intros H. unfold overwrite.
  assert (Ht : length (take pos buffer) = pos) by (rewrite length_take; lia).
  rewrite (app_assoc (take pos buffer) d1 (drop _ _)).
  assert (Hl : length (take pos buffer ++ d1) = (pos + length d1)%nat) by (rewrite length_app; lia).
  rewrite (take_app_le _ _ (pos + length d1)), take_ge by lia.
  rewrite (drop_app_ge (take pos buffer ++ d1)) by lia.
  rewrite Hl, drop_drop, length_app, <- !app_assoc. do 4 f_equal. lia.
Qed.

(** ** Properties *)

(** Serializing pieces one after the other, as the header's second example
    does, leaves in the buffer their concatenation from the first position on and
    nothing else changed, as long as they fit. *)
Theorem copy_pieces_concat (pieces : list (list byte)) (buffer : list byte) (pos : nat) :
  (pos + length (concat pieces) <= length buffer)%nat -> Z.of_nat (length buffer) <= UINT32_MAX ->
  copy_pieces pieces buffer (Z.of_nat pos) (Z.of_nat (length buffer))
  = Ret (overwrite pos (concat pieces) buffer).
Proof.
  revert buffer pos. induction pieces as [|d pieces IH]; intros buffer pos Hfit Hmax; cbn [copy_pieces concat].
  - unfold overwrite. cbn [length]. by rewrite Nat.add_0_r, app_nil_l, take_drop.
  - cbn [concat] in Hfit. rewrite length_app in Hfit.
    rewrite buffer_copy_fits by lia. outcome. unfold UINT32_MAX in *. machine.
    replace (Z.of_nat pos + Z.of_nat (length d)) with (Z.of_nat (pos + length d)) by lia.
    rewrite <- (overwrite_length pos d buffer) by lia.
    assert (Hlen : length (overwrite pos d buffer) = length buffer) by (apply overwrite_length; lia).
    rewrite IH by lia. rewrite overwrite_overwrite by lia. done.
Qed.

(** When a piece does not fit after the position, the copy wraps to the
    start of the buffer without advancing in the source: what lands there is the
    beginning of the piece again, not its rest. *)
Theorem buffer_copy_wrap (data buffer : list byte) (pos : nat) :
  let room := (length buffer - pos)%nat in
  let rest := (length data - room)%nat in
  (pos < length buffer)%nat -> (length buffer - pos < length data)%nat ->
  (length data - (length buffer - pos) <= length buffer)%nat ->
  Z.of_nat (length buffer) < UINT32_MAX ->
  buffer_copy data (Z.of_nat (length data)) buffer (Z.of_nat pos) (Z.of_nat (length buffer))
  = Ret (overwrite 0 (take rest data) (overwrite pos (take room data) buffer)).
Proof.
  intros room rest Hpos Hroom Hrest Hmax. unfold UINT32_MAX in *. unfold buffer_copy. rewrite Nat2Z.id.
  assert (Hlen : length (overwrite pos (take room data) buffer) = length buffer)
    by (apply overwrite_length; rewrite length_take; lia).
  cbn [copy_loop]. destruct (Z.ltb_spec 0 (Z.of_nat (length data))); [|lia].
  rewrite (u64_small (Z.of_nat (length buffer) - Z.of_nat pos)) by lia.
  replace (Z.min _ _) with (Z.of_nat room) by lia.
  rewrite memcpy_in by lia. outcome. machine.
  replace (Z.of_nat pos + Z.of_nat room =? Z.of_nat (length buffer)) with true
    by (symmetry; apply Z.eqb_eq; lia).
  replace (Z.of_nat (length data) - Z.of_nat room) with (Z.of_nat rest) by lia.
  destruct (length data) as [|m] eqn:Em; [lia|]. cbn [copy_loop].
  destruct (Z.ltb_spec 0 (Z.of_nat rest)); [|lia]. rewrite Z.sub_0_r. machine.
  replace (Z.min _ _) with (Z.of_nat rest) by lia. change 0 with (Z.of_nat 0).
  rewrite memcpy_in by lia. outcome. rewrite Z.sub_diag. change (u64 0) with 0.
  by destruct m.
Qed.

(** A copy into a buffer of size zero never ends. *)
Theorem buffer_copy_empty_buffer (data : list byte) (size : Z) (fuel : nat) :
  0 < size <= UINT64_MAX -> copy_loop fuel data size [] 0 0 = OutOfFuel.
Proof.
  intros Hs. unfold UINT64_MAX in *. induction fuel as [|fuel IH]; cbn [copy_loop];
    destruct (Z.ltb_spec 0 size); try lia; [done|].
  cbn [Z.sub]. change (u64 (0 - 0)) with 0. rewrite Z.min_r by lia.
  unfold memcpy. destruct (Z.ltb_spec (Z.of_nat (length data)) 0); [lia|]. cbn. outcome.
  change (u32 0) with 0. cbn [Z.eqb]. rewrite Z.sub_0_r, u64_small by lia. exact IH.
Qed.

Lemma copy_pieces_concat_witness :
  copy_pieces [[1; 2]; [3]] [0; 0; 0; 0] 1 4 = Ret [0; 1; 2; 3].
Proof. refine (copy_pieces_concat [[1; 2]; [3]] [0; 0; 0; 0] 1 _ _); cbn; unfold UINT32_MAX; lia. Defined.

(** The last two bytes should have been 2 and 3. *)
Lemma buffer_copy_wrap_witness :
  buffer_copy [1; 2; 3] 3 [0; 0; 0; 0] 3 4 = Ret [1; 2; 0; 1].
Proof. refine (buffer_copy_wrap [1; 2; 3] [0; 0; 0; 0] 3 _ _ _ _); cbn; unfold UINT32_MAX; lia. Defined.

Lemma buffer_copy_empty_buffer_witness : copy_loop 100 [1] 1 [] 0 0 = OutOfFuel.
Proof. refine (buffer_copy_empty_buffer [1] 1 100 _). unfold UINT64_MAX. lia. Defined.
