(* ===== verification/FileIO.v ===== *)
(** utils/BufferedFileWriter.hpp and utils/BufferedFileReader.hpp, over the
    operating system's files and boost's filtering streams as interfaces. *)
From S2P Require Import Prelude BufferCopy.

(** ** The operating system

    [F] is the state of the files and descriptors.  A write succeeds as a whole
    or fails; with [O_DIRECT] a file system may refuse writes whose length or
    position is not a multiple of its block. *)
Class Posix (F : Type) := {
  fs_contents : F -> string -> option (list byte);
  fs_remove : string -> F -> bool * F;
  fs_open_write : string -> bool -> F -> option Z * F;
  fs_open_read : string -> F -> option (list byte);
  fs_fcntl : Z -> bool -> F -> F;
  fs_write : Z -> list byte -> F -> bool * F;
  fs_close : Z -> F -> F }.
#[export] Hint Mode Posix ! : typeclass_instances.

(** The documented behaviour.  [fs_fd f fd name pos direct]: the descriptor is
    open for writing on that file, at that position, with or without [O_DIRECT].
    [fs_open_write] has [O_CREAT | O_WRONLY]: it truncates nothing. *)
Class PosixLaws (F : Type) `{Posix F} := {
  fs_fd : F -> Z -> string -> nat -> bool -> Prop;
  fs_remove_spec name (f : F) : fs_contents (fs_remove name f).2 name = None;
  fs_open_write_spec name direct (f : F) fd f' : fs_open_write name direct f = (Some fd, f') ->
    fs_fd f' fd name 0 direct
    /\ fs_contents f' name = Some (default [] (fs_contents f name));
  fs_open_read_spec name (f : F) : fs_open_read name f = fs_contents f name;
  fs_fcntl_spec f fd name pos direct direct' : fs_fd f fd name pos direct ->
    fs_fd (fs_fcntl fd direct' f) fd name pos direct'
    /\ fs_contents (fs_fcntl fd direct' f) name = fs_contents f name;
  fs_write_spec f fd name pos direct bytes l f' : fs_fd f fd name pos direct ->
    fs_contents f name = Some l -> (pos <= length l)%nat -> fs_write fd bytes f = (true, f') ->
    fs_fd f' fd name (pos + length bytes) direct
    /\ fs_contents f' name = Some (overwrite pos bytes l);
  fs_close_spec fd (f : F) name : fs_contents (fs_close fd f) name = fs_contents f name }.
#[export] Hint Mode PosixLaws ! - : typeclass_instances.

(** ** boost's streams *)

Inductive compression := NoCompression | Zstd | Lzma | Zlib.

#[export] Instance compression_eq_dec : EqDecision compression.
Proof. solve_decision. Defined.

(** What a compressor makes of all it is given, and the decompressor of that. *)
Class Codec := {
  encode : compression -> list byte -> list byte;
  decode : compression -> list byte -> list byte;
  encode_none l : encode NoCompression l = l;
  decode_encode a l : decode a (encode a l) = l }.

(** A [filtering_stream<output>] ending in a file descriptor; [dev] writes to it. *)
Class OutputStream (S : Type) := {
  os_empty : S;
  os_push_compressor : compression -> S -> S;
  os_push_sink : Z -> S -> S;
  os_bad : S -> bool;
  os_write {F} : (list byte -> F -> bool * F) -> list byte -> S -> F -> S * F;
  os_flush {F} : (list byte -> F -> bool * F) -> S -> F -> S * F;
  os_reset {F} : (list byte -> F -> bool * F) -> S -> F -> S * F }.
#[export] Hint Mode OutputStream ! : typeclass_instances.

(** The writes of a stream to its device, up to the first that fails. *)
Fixpoint write_all {F} (dev : list byte -> F -> bool * F) (chunks : list (list byte)) (f : F) : bool * F :=
  match chunks with
  | [] => (true, f)
  | c :: chunks => let '(ok, f) := dev c f in if ok : bool then write_all dev chunks f else (false, f)
  end.

(** The documented behaviour.  [os_model s a n given emitted]: the stream encodes
    with [a], buffers up to [n] bytes before its sink, was given and has emitted
    these bytes.  Writing emits whole buffers, and nothing once the stream is bad; flushing empties the buffers, but not a
    compressor; resetting emits the rest. *)
Class OutputStreamLaws (S : Type) `{Codec} `{OutputStream S} := {
  os_model : S -> compression -> nat -> list byte -> list byte -> Prop;
  os_push_spec a n : (0 < n)%nat ->
    os_model (os_push_sink (Z.of_nat n) (if decide (a = NoCompression) then os_empty
                                         else os_push_compressor a os_empty)) a n [] [];
  os_bad_spec F (dev : list byte -> F -> bool * F) (s : S) bytes f : os_bad s = true ->
    os_write dev bytes s f = (s, f);
  os_good s a n given emitted : os_model s a n given emitted -> os_bad s = false;
  os_write_spec s a n given emitted bytes : os_model s a n given emitted ->
    exists chunks, Forall (fun c => length c = n) chunks
      /\ forall F (dev : list byte -> F -> bool * F) f, let '(ok, f') := write_all dev chunks f in
         exists s', os_write dev bytes s f = (s', f')
           /\ if ok then os_model s' a n (given ++ bytes) (emitted ++ concat chunks)
              else os_bad s' = true;
  os_buffer_spec s a n given emitted : os_model s a n given emitted -> a = NoCompression ->
    (length given <= length emitted + n)%nat;
  os_flush_spec s a n given emitted : os_model s a n given emitted ->
    exists chunks, (a = NoCompression -> emitted ++ concat chunks = given)
      /\ forall F (dev : list byte -> F -> bool * F) f, let '(ok, f') := write_all dev chunks f in
         exists s', os_flush dev s f = (s', f')
           /\ if ok then os_model s' a n given (emitted ++ concat chunks) else os_bad s' = true;
  os_reset_spec s a n given emitted : os_model s a n given emitted ->
    exists chunks, emitted ++ concat chunks = encode a given
      /\ forall F (dev : list byte -> F -> bool * F) f, let '(ok, f') := write_all dev chunks f in
         exists s', os_reset dev s f = (s', f') /\ (ok = true -> s' = os_empty) }.
#[export] Hint Mode OutputStreamLaws ! - - : typeclass_instances.

(** A [filtering_stream<input>] on the bytes of a file. *)
Class InputStream (I : Type) := {
  is_empty : I;
  is_push_decompressor : compression -> I -> I;
  is_push_source : list byte -> Z -> I -> I;
  is_read : Z -> I -> list byte * I }.
#[export] Hint Mode InputStream ! : typeclass_instances.

Class InputStreamLaws (I : Type) `{Codec} `{InputStream I} := {
  is_model : I -> list byte -> Prop;
  is_push_spec a n bytes : 0 < n ->
    is_model (is_push_source bytes n (if decide (a = NoCompression) then is_empty
                                      else is_push_decompressor a is_empty)) (decode a bytes);
  is_read_spec i rest n : is_model i rest ->
    exists i', is_read n i = (take (Z.to_nat n) rest, i') /\ is_model i' (drop (Z.to_nat n) rest) }.
#[export] Hint Mode InputStreamLaws ! - - : typeclass_instances.

(** The compression algorithms by name. *)
Definition algorithm (name : string) : option compression :=
  if String.eqb name "zstd" then Some Zstd
  else if String.eqb name "lzma" then Some Lzma
  else if String.eqb name "zlib" then Some Zlib
  else if String.eqb name "None" then Some NoCompression
  else None.

(** ** BufferedFileWriter *)
Section writer.
Context {F S : Type} `{PF : Posix F} `{OS : OutputStream S}.

Record writer := mkWriter {
  m_filename : string;
  m_buffer_size : Z;
  m_compression_algorithm : string;
  m_fd : Z;
  m_output_stream : S;
  m_is_open : bool;
  m_use_o_direct : bool }.

(** The default constructor; [fd] is what the uninitialised descriptor holds. *)
Definition new_writer (fd : Z) : writer := mkWriter EmptyString 0 EmptyString fd os_empty false true.

Definition writer_is_open (w : writer) : bool := m_is_open w.

Definition close (w : writer) (f : F) : writer * F :=
  let f := fs_fcntl (m_fd w) false f in
  let '(s, f) := os_reset (fs_write (m_fd w)) (m_output_stream w) f in
  (mkWriter (m_filename w) (m_buffer_size w) (m_compression_algorithm w) (m_fd w) s false
     (m_use_o_direct w), fs_close (m_fd w) f).

(** [open], with what it throws. *)
Definition open (filename : string) (buffer_size : Z) (compression_algorithm : string)
    (use_o_direct : bool) (w : writer) (f : F) : writer * F * option issue :=
  let w := mkWriter (m_filename w) (m_buffer_size w) (m_compression_algorithm w) (m_fd w)
             (m_output_stream w) (m_is_open w) use_o_direct in
  let '(w, f) := if m_is_open w then close w f else (w, f) in
  match fs_open_write filename use_o_direct f with
  | (None, f) =>
      (mkWriter filename buffer_size compression_algorithm (-1) (m_output_stream w) false use_o_direct,
       f, Some (BufferedReaderWriterCannotOpenFile filename))
  | (Some fd, f) =>
      match algorithm compression_algorithm with
      | None =>
          (mkWriter filename buffer_size compression_algorithm fd (m_output_stream w) false use_o_direct, f,
           Some (BufferedReaderWriterConfigurationError
                   ("Non-recognized compression algorithm: " ++ compression_algorithm)))
      | Some a =>
          let s := if decide (a = NoCompression) then m_output_stream w
                   else os_push_compressor a (m_output_stream w) in
          (mkWriter filename buffer_size compression_algorithm fd (os_push_sink buffer_size s) true
             use_o_direct, f, None)
      end
  end.

(** The constructor that opens. *)
Definition new_open_writer (fd : Z) (filename : string) (buffer_size : Z) (compression_algorithm : string)
    (use_o_direct : bool) (f : F) : writer * F * option issue :=
  open filename buffer_size compression_algorithm use_o_direct (new_writer fd) f.

Definition write (memory : list byte) (w : writer) (f : F) : bool * writer * F :=
  if negb (m_is_open w) then (false, w, f)
  else
    let '(s, f) := os_write (fs_write (m_fd w)) memory (m_output_stream w) f in
    (negb (os_bad s),
     mkWriter (m_filename w) (m_buffer_size w) (m_compression_algorithm w) (m_fd w) s (m_is_open w)
       (m_use_o_direct w), f).

Definition flush (w : writer) (f : F) : writer * F :=
  let f := fs_fcntl (m_fd w) false f in
  let '(s, f) := os_flush (fs_write (m_fd w)) (m_output_stream w) f in
  (mkWriter (m_filename w) (m_buffer_size w) (m_compression_algorithm w) (m_fd w) s (m_is_open w)
     (m_use_o_direct w), fs_fcntl (m_fd w) (m_use_o_direct w) f).

(** The destructor. *)
Definition destroy_writer (w : writer) (f : F) : F := if m_is_open w then (close w f).2 else f.
End writer.
Arguments writer : clear implicits.

(** ** BufferedFileReader, for elements of [size] bytes *)
Section reader.
Context {F I : Type} `{PF : Posix F} `{IS : InputStream I} (size : Z).

Record reader := mkReader { r_input_stream : I; r_is_open : bool }.

Definition new_reader : reader := mkReader is_empty false.

Definition reader_is_open (r : reader) : bool := r_is_open r.

(** [open], with what it throws; nothing writes to the file while it is read. *)
Definition open_reader (filename : string) (buffer_size : Z) (compression_algorithm : string)
    (r : reader) (f : F) : reader * option issue :=
  match fs_open_read filename f with
  | None => (r, Some (BufferedReaderWriterCannotOpenFile filename))
  | Some bytes =>
      match algorithm compression_algorithm with
      | None => (r, Some (BufferedReaderWriterConfigurationError
                            ("Non-recognized compression algorithm: " ++ compression_algorithm)))
      | Some a =>
          let i := if decide (a = NoCompression) then r_input_stream r
                   else is_push_decompressor a (r_input_stream r) in
          (mkReader (is_push_source bytes buffer_size i) true, None)
      end
  end.

(** The constructor that opens. *)
Definition new_open_reader (filename : string) (buffer_size : Z) (compression_algorithm : string) (f : F)
    : reader * option issue :=
  open_reader filename buffer_size compression_algorithm new_reader f.

(** [read]: whether a whole element was read, and the element, of which only the
    bytes read change. *)
Definition read (element : list byte) (r : reader) : bool * list byte * reader :=
  if negb (r_is_open r) then (false, element, r)
  else
    let '(bytes, i) := is_read size (r_input_stream r) in
    (Z.of_nat (length bytes) =? size, bytes ++ drop (length bytes) element, mkReader i (r_is_open r)).

Definition close_reader (r : reader) : reader := mkReader is_empty false.

(** Reading elements until a read fails. *)
Fixpoint read_all (fuel : nat) (element : list byte) (r : reader) : outcome (list (list byte)) :=
  match read element r with
  | (false, _, _) => Ret []
  | (true, element, r) =>
      match fuel with
      | O => OutOfFuel
      | Datatypes.S fuel => l ← read_all fuel element r; Ret (element :: l)
      end
  end.
End reader.
Arguments reader : clear implicits.

(** ** Lemmas *)

Section writer_lemmas.
Context {F S : Type} `{PosixLaws F} `{OutputStreamLaws S}.
Context (block : nat).

(** The disk is not full and does not fail; [O_DIRECT] is happy with whole blocks. *)
Definition reliable : Prop :=
  forall (f : F) fd name pos direct bytes, fs_fd f fd name pos direct ->
    (direct = true -> Nat.divide block pos /\ Nat.divide block (length bytes)) ->
    exists f', fs_write fd bytes f = (true, f').

(** The writer has been given [given] since it was opened on a file that held
    [old], and has written [emitted] over it. *)
Definition writing (w : writer S) (f : F) (name : string) (a : compression) (n : nat)
    (given emitted old : list byte) : Prop :=
  m_is_open w = true /\ os_model (m_output_stream w) a n given emitted
  /\ fs_fd f (m_fd w) name (length emitted) (m_use_o_direct w)
  /\ fs_contents f name = Some (overwrite 0 emitted old).

Lemma overwrite_more (e c old : list byte) :
  overwrite (length e) c (overwrite 0 e old) = overwrite 0 (e ++ c) old.
Proof.
  unfold overwrite. cbn [take Nat.add app]. rewrite !take_0. cbn [app].
  rewrite take_app_length, <- app_assoc, length_app, <- drop_drop, drop_app_length, drop_drop. done.
Qed.

Lemma write_all_ok (f : F) fd name direct chunks e old :
  reliable -> fs_fd f fd name (length e) direct -> fs_contents f name = Some (overwrite 0 e old) ->
  (direct = true -> Nat.divide block (length e) /\ Forall (fun c => Nat.divide block (length c)) chunks) ->
  exists f', write_all (fs_write fd) chunks f = (true, f')
    /\ fs_fd f' fd name (length (e ++ concat chunks)) direct
    /\ fs_contents f' name = Some (overwrite 0 (e ++ concat chunks) old).
Proof.
  intros Hrel. revert f e. induction chunks as [|c chunks IH]; intros f e Hfd Hc Hd; cbn [write_all concat].
  { exists f. by rewrite app_nil_r. }
  destruct (Hrel f fd name (length e) direct c Hfd) as [f1 E1].
  { intros Edir. destruct (Hd Edir) as [? [? _]%Forall_cons]. done. }
  rewrite E1. destruct (fs_write_spec f fd name (length e) direct c _ f1 Hfd Hc) as [Hfd1 Hc1]; [|done|].
  { unfold overwrite. rewrite !length_app. lia. }
  rewrite overwrite_more in Hc1. rewrite <- length_app in Hfd1.
  destruct (IH f1 (e ++ c) Hfd1 Hc1) as (f2 & -> & Hf2).
  { intros Edir. destruct (Hd Edir) as [? [? ?]%Forall_cons]. split; [|done].
    rewrite length_app. by apply Nat.divide_add_r. }
  exists f2. by rewrite (app_assoc e c).
Qed.

Lemma open_writing (name alg : string) a (n : nat) direct (w w' : writer S) (f f' : F) :
  m_is_open w = false -> m_output_stream w = os_empty -> algorithm alg = Some a -> (0 < n)%nat ->
  open name (Z.of_nat n) alg direct w f = (w', f', None) ->
  writing w' f' name a n [] [] (default [] (fs_contents f name)) /\ m_use_o_direct w' = direct.
Proof.
  intros Hclosed Hs Ha Hn. unfold open. cbn [m_is_open]. rewrite Hclosed. cbn [m_output_stream].
  destruct (fs_open_write name direct f) as [[fd|] f1] eqn:Eo; [|done]. rewrite Ha, Hs.
  intros [= <- <-]. apply fs_open_write_spec in Eo as [Hfd Hc]. split; [|done].
  split_and!; [done|by apply os_push_spec|done|]. cbn. rewrite Hc. unfold overwrite. by rewrite drop_0.
Qed.

Lemma write_writing (bytes : list byte) (w : writer S) (f : F) name a (n : nat) given e old :
  reliable -> writing w f name a n given e old ->
  (m_use_o_direct w = true -> Nat.divide block n /\ Nat.divide block (length e)) ->
  exists w' f' e', write bytes w f = (true, w', f') /\ writing w' f' name a n (given ++ bytes) e' old
    /\ m_use_o_direct w' = m_use_o_direct w
    /\ (m_use_o_direct w = true -> Nat.divide block (length e')).
Proof.
  intros Hrel (Ho & Hm & Hfd & Hc) Hd. unfold write. rewrite Ho. cbn [negb].
  destruct (os_write_spec _ _ _ _ _ bytes Hm) as (chunks & Hlen & Hw).
  assert (Hal : m_use_o_direct w = true -> Forall (fun c => Nat.divide block (length c)) chunks).
  { intros E. apply (Forall_impl _ _ _ Hlen). intros c ->. by apply Hd. }
  destruct (write_all_ok f (m_fd w) name (m_use_o_direct w) chunks e old Hrel Hfd Hc) as (f' & Ew & Hfd' & Hc').
  { intros E. split; [by apply Hd|by apply Hal]. }
  specialize (Hw F (fs_write (m_fd w)) f). rewrite Ew in Hw. destruct Hw as (s' & -> & Hm').
  pose proof (os_good _ _ _ _ _ Hm') as Hgood. do 3 eexists. split; [by rewrite Hgood|].
  split; [by split_and!|]. split; [done|]. intros E. rewrite length_app.
  apply Nat.divide_add_r; [by apply Hd|]. clear -Hal E. specialize (Hal E).
  induction Hal as [|c chunks Hc _ IH]; cbn [concat]; [apply Nat.divide_0_r|].
  rewrite length_app. by apply Nat.divide_add_r.
Qed.

Lemma flush_writing (w : writer S) (f : F) name a (n : nat) given e old :
  reliable -> writing w f name a n given e old ->
  exists w' f' e', flush w f = (w', f') /\ writing w' f' name a n given e' old
    /\ m_use_o_direct w' = m_use_o_direct w /\ (a = NoCompression -> e' = given).
Proof.
  intros Hrel (Ho & Hm & Hfd & Hc). unfold flush.
  destruct (fs_fcntl_spec f _ _ _ _ false Hfd) as [Hfd0 Hc0]. rewrite Hc in Hc0.
  destruct (os_flush_spec _ _ _ _ _ Hm) as (chunks & Hall & Hw).
  destruct (write_all_ok _ _ name false chunks e old Hrel Hfd0 Hc0) as (f1 & Ew & Hfd1 & Hc1); [done|].
  specialize (Hw F (fs_write (m_fd w)) (fs_fcntl (m_fd w) false f)). rewrite Ew in Hw.
  destruct Hw as (s' & -> & Hm').
  destruct (fs_fcntl_spec f1 _ _ _ _ (m_use_o_direct w) Hfd1) as [Hfd2 Hc2]. rewrite Hc1 in Hc2.
  do 3 eexists. split; [reflexivity|]. split; [split_and!; [exact Ho|exact Hm'|exact Hfd2|exact Hc2]|].
  by split.
Qed.

(** Everything given is in the file after [close]. *)
Lemma close_writing (w : writer S) (f : F) name a (n : nat) given e old :
  reliable -> writing w f name a n given e old ->
  exists w' f', close w f = (w', f') /\ m_is_open w' = false
    /\ m_output_stream w' = os_empty /\ fs_contents f' name = Some (overwrite 0 (encode a given) old).
Proof.
  intros Hrel (Ho & Hm & Hfd & Hc). unfold close.
  destruct (fs_fcntl_spec f _ _ _ _ false Hfd) as [Hfd0 Hc0]. rewrite Hc in Hc0.
  destruct (os_reset_spec _ _ _ _ _ Hm) as (chunks & Hall & Hw).
  destruct (write_all_ok _ _ name false chunks e old Hrel Hfd0 Hc0) as (f1 & Ew & Hfd1 & Hc1); [done|].
  specialize (Hw F (fs_write (m_fd w)) (fs_fcntl (m_fd w) false f)). rewrite Ew in Hw.
  destruct Hw as (s' & -> & Hs').
  do 2 eexists. split; [reflexivity|]. split; [done|]. split; [by apply Hs'|].
  by rewrite fs_close_spec, Hc1, Hall.
Qed.
End writer_lemmas.

Lemma read_element (size : Z) {I : Type} `{InputStreamLaws I} (element x rest : list byte) (r : reader I) :
  r_is_open r = true -> is_model (r_input_stream r) (x ++ rest) ->
  Z.of_nat (length element) = size -> Z.of_nat (length x) = size ->
  exists r', read size element r = (true, x, r') /\ r_is_open r' = true /\ is_model (r_input_stream r') rest.
Proof.
  intros Ho Hm He Hx. unfold read. rewrite Ho. cbn [negb].
  destruct (is_read_spec _ _ size Hm) as (i & -> & Hi).
  replace (Z.to_nat size) with (length x) in * by lia. rewrite take_app_length, drop_app_length in *.
  rewrite Hx, Z.eqb_refl, drop_ge, app_nil_r by lia. eexists. split; [reflexivity|]. by split.
Qed.

Lemma read_all_elements (size : Z) {I : Type} `{InputStreamLaws I} (xs : list (list byte))
    (element : list byte) (r : reader I) :
  0 < size -> r_is_open r = true -> is_model (r_input_stream r) (concat xs) ->
  Z.of_nat (length element) = size -> Forall (fun x => Z.of_nat (length x) = size) xs ->
  read_all size (length xs) element r = Ret xs.
Proof.
  intros Hs. revert element r. induction xs as [|x xs IH]; intros element r Ho Hm He Hxs; cbn [length concat] in *.
  - cbn [read_all]. unfold read. rewrite Ho. cbn [negb].
    destruct (is_read_spec _ _ size Hm) as (i & -> & Hi). rewrite take_nil. cbn [length].
    by destruct (Z.eqb_spec (Z.of_nat 0) size); [lia|].
  - apply Forall_cons in Hxs as [Hx Hxs]. cbn [read_all].
    destruct (read_element size element x (concat xs) r Ho Hm He Hx) as (r' & -> & Ho' & Hm').
    rewrite (IH x r' Ho' Hm' Hx Hxs). by outcome.
Qed.

(** ** Properties *)

(** Elements written one after the other, and whether all were. *)
Fixpoint write_elements {F S} `{Posix F} `{OutputStream S} (xs : list (list byte)) (w : writer S) (f : F)
    : bool * writer S * F :=
  match xs with
  | [] => (true, w, f)
  | x :: xs =>
      let '(ok, w, f) := write x w f in
      let '(ok', w, f) := write_elements xs w f in
      (ok && ok', w, f)
  end.

(** The objects as the constructors and the destructor use them: what a writer was given between its
    construction and its destruction, a reader of the same file and algorithm reads back, if the
    file is new or no longer than what is written. *)
Theorem file_roundtrip {F S I : Type} `{PosixLaws F} `{OutputStreamLaws S} `{!InputStream I} `{!InputStreamLaws I}
    (block n : nat) (a : compression) (size fd : Z) (name alg : string) (direct : bool) (xs : list (list byte))
    (f f1 : F) (w : writer S) :
  reliable (F:=F) block -> algorithm alg = Some a -> (0 < n)%nat -> 0 < size ->
  Forall (fun x => Z.of_nat (length x) = size) xs -> (direct = true -> Nat.divide block n) ->
  (length (default [] (fs_contents f name)) <= length (encode a (concat xs)))%nat ->
  new_open_writer fd name (Z.of_nat n) alg direct f = (w, f1, None) ->
  exists w2 f2, write_elements xs w f1 = (true, w2, f2)
    /\ let f3 := destroy_writer w2 f2 in
       fs_contents f3 name = Some (encode a (concat xs))
       /\ forall buffer_size element, 0 < buffer_size -> Z.of_nat (length element) = size ->
          exists rd : reader I, new_open_reader name buffer_size alg f3 = (rd, None)
            /\ read_all size (length xs) element rd = Ret xs.
Proof.
  intros Hrel Ha Hn Hs Hxs Hd Hold Hopen. unfold new_open_writer in Hopen.
  destruct (open_writing name alg a n direct (new_writer fd) w f f1 eq_refl eq_refl Ha Hn Hopen) as [Hw Hdir].
  set (old := default [] (fs_contents f name)) in *.
  assert (Hall : forall ys given e (w : writer S) (f : F), writing w f name a n given e old -> m_use_o_direct w = direct ->
    (direct = true -> Nat.divide block (length e)) ->
    exists w2 f2 e2, write_elements ys w f = (true, w2, f2) /\ writing w2 f2 name a n (given ++ concat ys) e2 old).
  { clear Hold Hxs Hw Hopen Hdir. clearbody old. clear w f f1.
    induction ys as [|y ys IH]; intros given e w f Hw Hdir He; cbn [write_elements concat].
    - exists w, f, e. by rewrite app_nil_r.
    - destruct (write_writing block y w f name a n given e old Hrel Hw) as (w1 & f1 & e1 & -> & Hw1 & Hd1 & He1).
      { rewrite Hdir. intros E. split; [by apply Hd|by apply He]. }
      destruct (IH (given ++ y) e1 w1 f1 Hw1) as (w2 & f2 & e2 & E2 & Hw2); [by rewrite Hd1|by rewrite <- Hdir|].
      exists w2, f2, e2. rewrite E2, app_assoc. done. }
  destruct (Hall xs [] [] w f1 Hw Hdir) as (w2 & f2 & e2 & -> & Hw2); [intros _; apply Nat.divide_0_r|].
  exists w2, f2. split; [done|]. cbn zeta. unfold destroy_writer. rewrite (proj1 Hw2).
  destruct (close_writing block w2 f2 name a n _ e2 old Hrel Hw2) as (w3 & f3 & -> & _ & _ & Hf3). cbn [snd].
  unfold overwrite in Hf3. rewrite take_0 in Hf3. cbn [app Nat.add] in Hf3.
  rewrite drop_ge, app_nil_r in Hf3 by done. split; [done|].
  intros buffer_size element Hbuf Helem. unfold new_open_reader, open_reader. rewrite fs_open_read_spec, Hf3, Ha.
  eexists. split; [reflexivity|].
  match goal with |- read_all _ _ _ ?rd = _ =>
    refine (read_all_elements size _ _ rd Hs eq_refl _ Helem Hxs) end. cbn [r_input_stream new_reader].
  pose proof (is_push_spec (I:=I) a buffer_size (encode a (concat xs)) Hbuf) as Hm. by rewrite decode_encode in Hm.
Qed.

(** [flush] writes what is left in the buffer, whatever its size, and turns
    [O_DIRECT] on again.  If what was written is not a whole number of blocks, and
    the file system refuses direct writes that do not start on a block, every later
    write that fills the buffer fails, and so does every write after it: nothing
    more reaches the file. *)
Theorem flush_breaks_direct {F S : Type} `{PosixLaws F} `{OutputStreamLaws S}
    (block n : nat) (name : string) (w : writer S) (f : F) (given emitted old bytes : list byte) :
  reliable (F:=F) block ->
  (forall (f : F) fd name pos bytes, fs_fd f fd name pos true -> ~ Nat.divide block pos -> bytes <> [] ->
     fs_write fd bytes f = (false, f)) ->
  writing w f name NoCompression n given emitted old -> m_use_o_direct w = true ->
  ~ Nat.divide block (length given) -> (0 < n < length bytes)%nat ->
  exists w1 f1 w2, flush w f = (w1, f1) /\ fs_contents f1 name = Some (overwrite 0 given old)
    /\ write bytes w1 f1 = (false, w2, f1)
    /\ forall more, exists w3, write more w2 f1 = (false, w3, f1).
Proof.
  intros Hrel Hstrict Hw Hdir Hodd Hn.
  destruct (flush_writing block w f name NoCompression n given emitted old Hrel Hw)
    as (w1 & f1 & e & Ef & (Ho & Hm & Hfd & Hc) & Hd & He). rewrite He in * by done.
  rewrite Hd, Hdir in Hfd.
  assert (Hfail : exists s', os_write (fs_write (m_fd w1)) bytes (m_output_stream w1) f1 = (s', f1)
                  /\ os_bad s' = true).
  { destruct (os_write_spec _ _ _ _ _ bytes Hm) as (chunks & Hlen & Hall).
    assert (Hne : exists c chunks', chunks = c :: chunks' /\ c <> []).
    { pose proof (Hall unit (fun _ u => (true, u)) tt) as Hu.
      assert (Et : forall l, write_all (fun _ (u : unit) => (true, u)) l tt = (true, tt)) by (by induction l).
      rewrite Et in Hu. destruct Hu as (s' & _ & Hm'). pose proof (os_buffer_spec _ _ _ _ _ Hm' eq_refl) as Hb.
      rewrite !length_app in Hb. destruct chunks as [|c chunks]; cbn in Hb; [lia|].
      exists c, chunks. split; [done|]. apply Forall_cons in Hlen as [Hlen _]. intros ->. cbn in Hlen. lia. }
    destruct Hne as (c & chunks' & -> & Hc'). specialize (Hall F (fs_write (m_fd w1)) f1). cbn [write_all] in Hall.
    rewrite (Hstrict f1 (m_fd w1) name (length given) c Hfd Hodd Hc') in Hall. exact Hall. }
  destruct Hfail as (s' & Es & Hbad). exists w1, f1. eexists. split; [done|]. split; [done|]. split.
  - unfold write. rewrite Ho. cbn [negb]. rewrite Es, Hbad. reflexivity.
  - intros more. unfold write. cbn [m_is_open m_output_stream m_fd negb].
    rewrite (os_bad_spec _ _ s') by done. rewrite Hbad. by eexists.
Qed.

(** ** The interfaces at work: files in a map, blocks of four bytes *)
Module Sample.

Record disk := mkDisk { files : gmap string (list byte); fds : gmap Z (string * nat * bool) }.

Definition aligned (pos len : nat) : bool := (pos mod 4 =? 0)%nat && (len mod 4 =? 0)%nat.

#[export] Instance disk_posix : Posix disk := {
  fs_contents f name := files f !! name;
  fs_remove name f := (bool_decide (is_Some (files f !! name)), mkDisk (delete name (files f)) (fds f));
  fs_open_write name direct f :=
    let fd := Z.of_nat (size (fds f)) in
    (Some fd, mkDisk (<[name := default [] (files f !! name)]> (files f)) (<[fd := (name, 0%nat, direct)]> (fds f)));
  fs_open_read name f := files f !! name;
  fs_fcntl fd direct f :=
    mkDisk (files f) (alter (fun '(name, pos, _) => (name, pos, direct)) fd (fds f));
  fs_write fd bytes f :=
    match fds f !! fd with
    | Some (name, pos, direct) =>
        if direct && negb (aligned pos (length bytes)) then (false, f)
        else (true, mkDisk (alter (overwrite pos bytes) name (files f))
                      (<[fd := (name, (pos + length bytes)%nat, direct)]> (fds f)))
    | None => (false, f)
    end;
  fs_close fd f := f }.

#[export] Instance disk_laws : PosixLaws disk.
Proof.
  refine {| fs_fd f fd name pos direct := fds f !! fd = Some (name, pos, direct) |}; cbn.
  - intros name f. apply lookup_delete_eq.
  - intros name direct f fd f' [= <- <-]. cbn. by rewrite !lookup_insert_eq.
  - done.
  - intros f fd name pos direct direct' Hfd. by rewrite lookup_alter_eq, Hfd.
  - intros f fd name pos direct bytes l f' -> Hl Hpos.
    destruct (direct && _); intros [= <-]. cbn. by rewrite lookup_insert_eq, lookup_alter_eq, Hl.
  - done.
Defined.

Lemma disk_reliable : reliable (F:=disk) 4.
Proof.
  intros f fd name pos direct bytes Hfd Hd. cbn in Hfd. unfold fs_write. cbn. rewrite Hfd.
  destruct direct; cbn [andb]; [|by eexists]. destruct (Hd eq_refl) as [Hp Hl].
  unfold aligned. apply Nat.Lcm0.mod_divide in Hp, Hl. rewrite Hp, Hl. cbn. by eexists.
Defined.

Lemma disk_strict (f : disk) fd name pos bytes :
  fs_fd f fd name pos true -> ~ Nat.divide 4 pos -> bytes <> [] -> fs_write fd bytes f = (false, f).
Proof.
  cbn. intros -> Hp _. cbn [andb]. unfold aligned.
  destruct (Nat.eqb_spec (pos mod 4) 0) as [E|]; [by apply Nat.Lcm0.mod_divide in E|done].
Defined.

(** A compressor that puts its number before the data. *)
#[export] Instance tag_codec : Codec.
Proof.
  refine {|
    encode a l := match a with NoCompression => l | Zstd => 1 :: l | Lzma => 2 :: l | Zlib => 3 :: l end;
    decode a l := match a with NoCompression => l | _ => tail l end |}; [done|by intros []].
Defined.

(** The whole buffers of [n] bytes at the front of [l], and the rest. *)
Fixpoint buffers (fuel n : nat) (l : list byte) : list (list byte) * list byte :=
  match fuel with
  | O => ([], l)
  | S fuel => if (length l <? n)%nat then ([], l)
              else let '(cs, rest) := buffers fuel n (drop n l) in (take n l :: cs, rest)
  end.

Lemma buffers_spec fuel n l cs rest :
  buffers fuel n l = (cs, rest) ->
  Forall (fun c => length c = n) cs /\ concat cs ++ rest = l
  /\ ((0 < n)%nat -> (length l <= fuel)%nat -> (length rest <= n)%nat).
Proof.
  revert l cs rest. induction fuel as [|fuel IH]; intros l cs rest; cbn [buffers].
  - intros [= <- <-]. split; [done|]. split; [done|]. lia.
  - destruct (Nat.ltb_spec (length l) n) as [Hlt|Hge].
    { intros [= <- <-]. split; [done|]. split; [done|]. lia. }
    destruct (buffers fuel n (drop n l)) as [cs' rest'] eqn:E. intros [= <- <-].
    destruct (IH _ _ _ E) as (Hf & Hc & Hr). split; [|split].
    + constructor; [by apply length_take_le|done].
    + cbn [concat]. by rewrite <- app_assoc, Hc, take_drop.
    + intros Hn Hl. apply Hr; [done|]. rewrite length_drop. lia.
Qed.

Record stream := mkStream { alg : compression; room : nat; pending : list byte; bad : bool }.

(** Writes the chunks to the device; the stream is bad when one fails. *)
Definition emit {F} (dev : list byte -> F -> bool * F) (chunks : list (list byte)) (s : stream) (f : F)
    : stream * F :=
  let '(ok, f) := write_all dev chunks f in (if ok then s else mkStream NoCompression 0 [] true, f).

#[export] Instance buffer_stream : OutputStream stream := {
  os_empty := mkStream NoCompression 0 [] false;
  os_push_compressor a s := mkStream a (room s) [] false;
  os_push_sink n s := mkStream (alg s) (Z.to_nat n) [] false;
  os_bad := bad;
  os_write F dev bytes s f :=
    if bad s then (s, f)
    else if decide (alg s = NoCompression) then
      let '(cs, rest) := buffers (length (pending s ++ bytes)) (room s) (pending s ++ bytes) in
      emit dev cs (mkStream (alg s) (room s) rest false) f
    else (mkStream (alg s) (room s) (pending s ++ bytes) false, f);
  os_flush F dev s f :=
    if decide (alg s = NoCompression) then emit dev [pending s] (mkStream (alg s) (room s) [] false) f
    else (s, f);
  os_reset F dev s f :=
    let '(_, f) := emit dev [encode (alg s) (pending s)] s f in (mkStream NoCompression 0 [] false, f) }.

Lemma emit_spec {F} (dev : list byte -> F -> bool * F) chunks s (f : F) :
  let '(ok, f') := write_all dev chunks f in
  emit dev chunks s f = (if ok then s else mkStream NoCompression 0 [] true, f').
Proof. unfold emit. by destruct (write_all dev chunks f). Qed.

#[export] Instance buffer_stream_laws : OutputStreamLaws stream.
Proof.
  refine {| os_model s a n given emitted :=
    alg s = a /\ room s = n /\ bad s = false /\ (0 < n)%nat
    /\ if decide (a = NoCompression) then emitted ++ pending s = given /\ (length (pending s) <= n)%nat
       else emitted = [] /\ pending s = given |}; cbn.
  - intros a n Hn. rewrite Nat2Z.id. case_decide as Ea; cbn; split_and!; auto with lia.
  - intros F dev s bytes f ->. done.
  - intros s a n given emitted (_ & _ & Hb & _). done.
  - intros s a n given emitted bytes (Ha & Hn & Hb & Hpos & Hm). rewrite Hb, Ha. case_decide.
    + destruct Hm as [Hm Hl]. rewrite Hn.
      destruct (buffers _ _ _) as [cs rest] eqn:E. apply buffers_spec in E as (Hf & Hc & Hr).
      exists cs. split; [done|]. intros F dev f. pose proof (emit_spec dev cs (mkStream a n rest false) f) as He.
      destruct (write_all dev cs f) as [ok f']. rewrite He. eexists. split; [reflexivity|].
      destruct ok; [|done]. split_and!; try done.
      * cbn [pending]. by rewrite <- app_assoc, Hc, app_assoc, Hm.
      * by apply Hr.
    + destruct Hm as [-> <-]. exists []. split; [done|]. intros F dev f. cbn.
      eexists. by split; [reflexivity|].
  - intros s a n given emitted (Ha & Hn & Hb & Hpos & Hm) ->. rewrite decide_True in Hm by done.
    destruct Hm as [<- Hl]. rewrite length_app. lia.
  - intros s a n given emitted (Ha & Hn & Hb & Hpos & Hm). rewrite Ha. case_decide as Ea.
    + destruct Hm as [Hm Hl]. exists [pending s]. cbn [concat]. rewrite app_nil_r. split; [done|].
      intros F dev f. pose proof (emit_spec dev [pending s] (mkStream a n [] false) f) as He.
      destruct (write_all dev [pending s] f) as [ok f']. rewrite Hn, He. eexists. split; [reflexivity|].
      destruct ok; [|done]. cbn. rewrite app_nil_r. split_and!; done || lia.
    + exists []. split; [done|]. intros F dev f. cbn. eexists. split; [reflexivity|].
      by rewrite app_nil_r.
  - intros s a n given emitted (Ha & Hn & Hb & Hpos & Hm). exists [encode a (pending s)].
    cbn [concat]. rewrite app_nil_r. split.
    + case_decide as Ea; [by rewrite Ea, !encode_none; destruct Hm|by destruct Hm as [-> <-]].
    + intros F dev f. pose proof (emit_spec dev [encode a (pending s)] s f) as He.
      destruct (write_all dev _ f) as [ok f'] eqn:Ew.
      rewrite Ha. cbn [encode tag_codec] in He. rewrite He. by eexists.
Defined.

Record istream := mkIstream { dec : compression; contents : list byte }.

#[export] Instance bytes_stream : InputStream istream := {
  is_empty := mkIstream NoCompression [];
  is_push_decompressor a i := mkIstream a (contents i);
  is_push_source bytes _ i := mkIstream NoCompression (decode (dec i) bytes);
  is_read n i := (take (Z.to_nat n) (contents i), mkIstream (dec i) (drop (Z.to_nat n) (contents i))) }.

#[export] Instance bytes_stream_laws : InputStreamLaws istream.
Proof.
  refine {| is_model i rest := contents i = rest |}.
  - intros a n bytes Hn. cbn. by case_decide; subst.
  - intros i rest n <-. cbn. by eexists.
Defined.
End Sample.

Import Sample.

(** Six bytes written and flushed to blocks of four, then five more. *)
Lemma flush_breaks_direct_witness :
  exists (w : writer stream) (f : disk) w1 f1 w2, flush w f = (w1, f1)
    /\ fs_contents f1 "out" = Some [1; 2; 3; 4; 5; 6]
    /\ write [7; 8; 9; 10; 11] w1 f1 = (false, w2, f1).
Proof.
  destruct (open "out" (Z.of_nat 4) "None" true (new_writer 0 : writer stream) (mkDisk ∅ ∅))
    as [[w f] e] eqn:Eo.
  assert (He : e = None) by (vm_compute in Eo; congruence). subst e.
  destruct (open_writing "out" "None" NoCompression 4 true (new_writer 0) w (mkDisk ∅ ∅) f eq_refl eq_refl eq_refl ltac:(lia) Eo)
    as [Hw Hd].
  destruct (write_writing 4 [1; 2; 3; 4; 5; 6] w f "out" NoCompression 4 [] [] _ disk_reliable Hw)
    as (w1 & f1 & e' & _ & Hw1 & Hd1 & _).
  { intros _. split; [apply Nat.divide_refl|apply Nat.divide_0_r]. }
  destruct (flush_breaks_direct 4 4 "out" w1 f1 [1; 2; 3; 4; 5; 6] e' [] [7; 8; 9; 10; 11] disk_reliable
    disk_strict Hw1) as (w2 & f2 & w3 & Ef & Hc & Ewr & _).
  - by rewrite Hd1.
  - intros [k Hk]. cbn in Hk. lia.
  - cbn. lia.
  - exists w1, f1, w2, f2, w3. split; [exact Ef|]. split; [exact Hc|exact Ewr].
Defined.
