(* ===== verification/RecordingFile.v ===== *)
(** The file a recording of models/detail/DefaultRequestHandlerModel.hxx leaves: the writer
    [conf] opens, what the recording thread writes to it, and [scrap], over the files and
    streams of FileIO.v. *)
From S2P Require Import Prelude IterableQueue BinarySearchQueue ReadoutTypes LatencyBuffer FrameErrorRegistry Float32.
From S2P Require Import BufferCopy FileIO RequestHandler Recording.

Section file.
Context {T B It F S : Type} `{RT : ReadoutType T} `{LB : LatencyBuffer T B It} `{PF : Posix F} `{OS : OutputStream S}.
Context (cfg : settings).

(** The bytes from [begin()] on, [get_payload_size()] of them. *)
Context (payload_bytes : T -> list byte).

(** The part of [conf] that opens the writer, with what it throws. *)
Definition open_recording (m_recording_configured : bool) (dr : option recorder_conf) (wf : writer S * F)
    : (writer S * F) * option issue :=
  match m_recording_configured, dr with
  | false, Some dr =>
      let '(_, f) := fs_remove (get_output_file dr) wf.2 in
      let '(w, f, e) := FileIO.open (get_output_file dr) (get_streaming_buffer_size dr)
                          (get_compression_algorithm dr) (get_use_o_direct dr) wf.1 f in
      ((w, f), e)
  | _, _ => (wf, None)
  end.

(** [m_buffered_writer.write] of an element's payload. *)
Definition write_element (x : T) (wf : writer S * F) : bool * (writer S * F) :=
  let '(ok, w, f) := FileIO.write (payload_bytes x) wf.1 wf.2 in (ok, (w, f)).

(** The end of the thread, with its flush. *)
Definition finish_recording (r : recorder T (writer S * F)) : recorder T (writer S * F) :=
  let r := end_recording r in
  let '(w, f) := flush (m_buffered_writer r).1 (m_buffered_writer r).2 in
  mkRecorder (m_next_timestamp_to_record r) (element_to_search r) (w, f) (rec_stats r) (recorded r).

Definition scrap_recording (wf : writer S * F) : writer S * F :=
  if writer_is_open wf.1 then FileIO.close wf.1 wf.2 else wf.

(** Recordings one after the other, each beside the consumer and the cleanup, whatever happens to
    the buffer in between; each with the elements it has recorded. *)
Inductive recordings : writer S * F -> list (list T) -> writer S * F -> Prop :=
| no_recording wf : recordings wf [] wf
| one_recording wf es (b : B) c m s sc recs wf' :
    scene_run cfg write_element es (first_scene b c m s wf) = Ret sc ->
    recordings (m_buffered_writer (finish_recording (rec sc))) recs wf' ->
    recordings wf (recorded (rec sc) :: recs) wf'.
End file.

(** ** The writer all along *)
Section lemmas.
Context {T B It F S : Type} `{RT : ReadoutType T} `{LB : LatencyBuffer T B It} `{PosixLaws F} `{OutputStreamLaws S}.
Context (cfg : settings) (payload_bytes : T -> list byte).
Context (block : nat) (Hrel : reliable (F:=F) block) (name : string) (a : compression) (n : nat) (old : list byte).
Context (direct : bool) (Hdirect : direct = true -> Nat.divide block n).

(** The writer has been given [given]; under [O_DIRECT] it has written whole blocks. *)
Definition written (given : list byte) (wf : writer S * F) : Prop :=
  exists emitted, writing wf.1 wf.2 name a n given emitted old /\ m_use_o_direct wf.1 = direct
    /\ (direct = true -> Nat.divide block (length emitted)).

Lemma written_more (x : T) given wf :
  written given wf -> exists wf', write_element payload_bytes x wf = (true, wf')
    /\ written (given ++ payload_bytes x) wf'.
Proof.
  intros (e & Hw & Hd & He). unfold write_element.
  destruct (write_writing block (payload_bytes x) wf.1 wf.2 name a n given e old Hrel Hw)
    as (w & f & e' & -> & Hw' & Hd' & He').
  { rewrite Hd. intros E. split; [by apply Hdirect|by apply He]. }
  eexists. split; [reflexivity|]. exists e'. cbn. split; [done|]. rewrite Hd'. split; [done|].
  intros E. apply He'. by rewrite Hd.
Qed.

(** What has been recorded is what has been written. *)
Definition recorder_written (given : list byte) (r : recorder T (writer S * F)) : Prop :=
  written (given ++ concat (payload_bytes <$> recorded r)) (m_buffered_writer r).

Lemma record_loop_written (fuel : nat) (b : B) (it end_ : It) (k : Z) given r r' l :
  recorder_written given r ->
  record_loop cfg (write_element payload_bytes) fuel b it end_ k r = Ret (r', l) -> recorder_written given r'.
Proof.
  revert it k r l. induction fuel as [|fuel IH]; intros it k r l Hr; cbn [record_loop];
    (destruct (_ && _); [|by intros [= <- _]]); [done|].
  intros (x & _ & E)%bind_Ret_inv. destruct (_ <=? _).
  - destruct (record_one _ _ x r) as [r1 l1] eqn:E1. apply bind_Ret_inv in E as ([r2 l2] & E2 & [= <- _]).
    eapply IH; [|exact E2]. unfold record_one in E1. destruct (written_more x _ _ Hr) as (wf & Ew & Hwf).
    rewrite Ew in E1. injection E1 as <- _. unfold recorder_written. cbn.
    rewrite fmap_app, concat_app. cbn. by rewrite app_nil_r, app_assoc.
  - apply bind_Ret_inv in E as ([r2 l2] & E2 & [= <- _]). by eapply IH.
Qed.

Lemma scene_run_written es given (sc sc' : scene T B (writer S * F)) :
  recorder_written given (rec sc) -> scene_run cfg (write_element payload_bytes) es sc = Ret sc' ->
  recorder_written given (rec sc').
Proof.
  revert sc. induction es as [|ev es IH]; intros sc Hsc; cbn [scene_run]; [by intros [= <-]|].
  intros (sc1 & E1 & E)%bind_Ret_inv. apply (IH sc1); [|done]. destruct ev as [x| |requested]; cbn [scene_step] in E1.
  - by apply bind_Ret_inv in E1 as ([ok b] & _ & [= <-]).
  - by apply bind_Ret_inv in E1 as ([[b m] s] & _ & [= <-]).
  - apply bind_Ret_inv in E1 as ([r l] & E1 & [= <-]). cbn [rec]. unfold record_turn in E1.
    destruct (_ || _); [|by injection E1 as <- _]. apply bind_Ret_inv in E1 as (next & _ & E1).
    apply bind_Ret_inv in E1 as (it & _ & E1). eapply record_loop_written; [|exact E1]. exact Hsc.
Qed.

(** A flush keeps what was written, but not the whole blocks. *)
Lemma finish_written given (r : recorder T (writer S * F)) :
  recorder_written given r ->
  exists emitted, writing (m_buffered_writer (finish_recording r)).1 (m_buffered_writer (finish_recording r)).2
    name a n (given ++ concat (payload_bytes <$> recorded r)) emitted old
    /\ m_use_o_direct (m_buffered_writer (finish_recording r)).1 = direct.
Proof.
  intros (e & Hw & Hd & _). unfold finish_recording, end_recording. cbn [m_buffered_writer].
  destruct (flush_writing block _ _ name a n _ e old Hrel Hw) as (w & f & e' & -> & Hw' & Hd' & _).
  exists e'. cbn. split; [done|]. by rewrite Hd'.
Qed.

Lemma recordings_written wf recs wf' given :
  recordings (B:=B) cfg payload_bytes wf recs wf' -> written given wf -> (direct = true -> (length recs <= 1)%nat) ->
  exists emitted, writing wf'.1 wf'.2 name a n (given ++ concat (payload_bytes <$> concat recs)) emitted old.
Proof.
  intros Hrun. revert given. induction Hrun as [wf|wf es b c m s sc recs wf' Hsc Hrun IH]; intros given Hwf Hd.
  - destruct Hwf as (e & Hw & _). exists e. by rewrite app_nil_r.
  - assert (Hr : recorder_written given (rec sc)).
    { eapply scene_run_written; [|exact Hsc]. unfold recorder_written. cbn. by rewrite app_nil_r. }
    destruct (finish_written given (rec sc) Hr) as (e & Hw & Ho). cbn [concat].
    rewrite fmap_app, concat_app, app_assoc. destruct (decide (direct = true)) as [Edir|Edir].
    + specialize (Hd Edir). cbn in Hd. destruct recs; [|cbn in Hd; lia]. inversion Hrun; subst. exists e.
      by rewrite app_nil_r.
    + apply IH; [|done]. exists e. split; [exact Hw|]. split; [exact Ho|done].
Qed.
End lemmas.

(** ** The property *)

(** C28: a recording can be read back.  The request handler's [conf] opens the writer on any disk
    that does not fail, whatever an older file of that name holds; over any recordings, each
    beside any writes and cleanups, and the [scrap] at the end, the file holds the payloads of the
    elements recorded, in order, compressed as asked and nothing else: a reader of the same
    algorithm reads back those very payloads, if all have the same size.  With O_DIRECT this needs a
    buffer of whole blocks, and holds for a single recording. *)
Theorem recordings_readable {T B It F S I : Type} `{RT : ReadoutType T} `{LB : LatencyBuffer T B It}
    `{PosixLaws F} `{OutputStreamLaws S} `{!InputStream I} `{!InputStreamLaws I}
    (cfg : settings) (payload_bytes : T -> list byte) (block n : nat) (a : compression) (size : Z)
    (dr : recorder_conf) (wf wf1 wf2 : writer S * F) (recs : list (list T)) :
  reliable (F:=F) block -> algorithm (get_compression_algorithm dr) = Some a ->
  get_streaming_buffer_size dr = Z.of_nat n -> (0 < n)%nat -> 0 < size ->
  (forall x, x ∈ concat recs -> Z.of_nat (length (payload_bytes x)) = size) ->
  (get_use_o_direct dr = true -> Nat.divide block n /\ (length recs <= 1)%nat) ->
  m_is_open wf.1 = false -> m_output_stream wf.1 = os_empty ->
  open_recording false (Some dr) wf = (wf1, None) ->
  recordings (B:=B) cfg payload_bytes wf1 recs wf2 ->
  let f := (scrap_recording wf2).2 in
  fs_contents f (get_output_file dr) = Some (encode a (concat (payload_bytes <$> concat recs)))
  /\ forall buffer_size element, 0 < buffer_size -> Z.of_nat (length element) = size ->
     exists rd : reader I,
       open_reader (get_output_file dr) buffer_size (get_compression_algorithm dr) new_reader f = (rd, None)
       /\ read_all size (length (concat recs)) element rd = Ret (payload_bytes <$> concat recs).
Proof.
  intros Hrel Ha Hn Hpos Hs Hel Hdir Hcl Hst Hopen Hrun f. unfold open_recording in Hopen.
  destruct (fs_remove (get_output_file dr) wf.2) as [b f0] eqn:Erm.
  destruct (FileIO.open _ _ _ _ _ f0) as [[w fw] e] eqn:Eo. injection Hopen as <- ->.
  rewrite Hn in Eo. destruct (open_writing _ _ a n _ _ _ _ _ Hcl Hst Ha Hpos Eo) as [Hw Hd].
  pose proof (fs_remove_spec (get_output_file dr) wf.2) as Hrm. rewrite Erm in Hrm. cbn in Hrm. rewrite Hrm in Hw.
  destruct (recordings_written cfg payload_bytes block Hrel (get_output_file dr) a n [] (get_use_o_direct dr)
    (fun E => proj1 (Hdir E)) (w, fw) recs wf2 [] Hrun) as [e2 Hw2].
  { exists []. split; [exact Hw|]. split; [exact Hd|]. intros _. apply Nat.divide_0_r. }
  { intros E. by apply Hdir. }
  destruct (close_writing block _ _ _ a n _ e2 [] Hrel Hw2) as (w3 & f3 & Ec & _ & _ & Hf3).
  cbn [app] in Hf3. unfold overwrite in Hf3. rewrite take_0, drop_nil, app_nil_r in Hf3. cbn [app] in Hf3.
  assert (Hf : f = f3).
  { unfold f, scrap_recording, writer_is_open. destruct Hw2 as (Hop & _). by rewrite Hop, Ec. }
  rewrite Hf. split; [done|]. intros buffer_size element Hbuf Helem.
  unfold open_reader. rewrite fs_open_read_spec, Hf3, Ha. eexists. split; [reflexivity|].
  match goal with |- read_all _ _ _ ?rd = _ =>
    pose proof (read_all_elements size (payload_bytes <$> concat recs) element rd Hs eq_refl) as Hread end.
  rewrite length_fmap in Hread. apply Hread; [|done|].
  - cbn [r_input_stream]. pose proof (is_push_spec (I:=I) a buffer_size
      (encode a (concat (payload_bytes <$> concat recs))) Hbuf) as Hm. by rewrite decode_encode in Hm.
  - apply Forall_forall. intros x (y & -> & Hy)%list_elem_of_fmap. by apply Hel.
Qed.

(** ** The property at work: two recordings of a ring, written with zlib *)
Import Chunk FileIO.Sample.

Definition sample_recorder_conf : recorder_conf := mkRecorderConf "rec.bin" 4 "zlib" false.

(** A byte of each timestamp. *)
Definition sample_payload (x : chunk) : list byte := [chunk_ts x mod 256].

Definition sample_opened : writer stream * disk :=
  (open_recording (F:=disk) (S:=stream) false (Some sample_recorder_conf)
     (new_writer 0, mkDisk {["rec.bin" := [9; 9]]} ∅)).1.

Definition sample_scene (wf : writer stream * disk) : outcome (scene chunk (queue chunk) (writer stream * disk)) :=
  scene_run (LB := binary_search_buffer sample_platform) (sample_settings half) (write_element sample_payload)
    sample_recording_events (first_scene (ring_of 4 sample) sample ∅ no_stats wf).

(** What a scene that ends has recorded, and its writer after the flush. *)
Definition after_scene (o : outcome (scene chunk (queue chunk) (writer stream * disk)))
    : option (list chunk * (writer stream * disk)) :=
  match o with Ret sc => Some (recorded (rec sc), m_buffered_writer (finish_recording (rec sc))) | _ => None end.

Lemma sample_recording wf xs wf' recs wf2 :
  after_scene (sample_scene wf) = Some (xs, wf') ->
  recordings (LB := binary_search_buffer sample_platform) (sample_settings half) sample_payload wf' recs wf2 ->
  recordings (LB := binary_search_buffer sample_platform) (sample_settings half) sample_payload wf (xs :: recs) wf2.
Proof.
  destruct (sample_scene wf) as [sc| | | |] eqn:E; try done. intros [= <- <-] Hrun. by eapply one_recording.
Qed.

Lemma recordings_readable_witness :
  exists wf2 : writer stream * disk, let f := (scrap_recording wf2).2 in
    fs_contents f "rec.bin" = Some [3; 100; 120; 140; 100; 120; 140]
    /\ exists rd : FileIO.reader istream,
         open_reader "rec.bin" 16 "zlib" new_reader f = (rd, None)
         /\ read_all 1 6 [0] rd = Ret [[100]; [120]; [140]; [100]; [120]; [140]].
Proof.
  destruct (after_scene (sample_scene sample_opened)) as [[xs wf1]|] eqn:E1; [|vm_compute in E1; discriminate E1].
  assert (Hxs : xs = sample) by (vm_compute in E1; injection E1; intros _ H; symmetry; exact H). subst xs.
  destruct (after_scene (sample_scene wf1)) as [[ys wf2]|] eqn:E2; [|vm_compute in E1; injection E1; intros <-; vm_compute in E2; discriminate E2].
  assert (Hys : ys = sample)
    by (vm_compute in E1; injection E1; intros <-; vm_compute in E2; injection E2; intros _ H; symmetry; exact H).
  subst ys. exists wf2.
  destruct (recordings_readable (LB := binary_search_buffer sample_platform) (I:=istream) (sample_settings half) sample_payload
    4 4 Zlib 1 sample_recorder_conf (new_writer 0, mkDisk {["rec.bin" := [9; 9]]} ∅) sample_opened wf2 [sample; sample]
    disk_reliable eq_refl eq_refl ltac:(lia) ltac:(lia) ltac:(done) ltac:(done) eq_refl eq_refl eq_refl) as [Hf Hread].
  - eapply sample_recording; [exact E1|]. eapply sample_recording; [exact E2|]. constructor.
  - split; [exact Hf|]. exact (Hread 16 [0] ltac:(lia) eq_refl).
Defined.
