(* ===== verification/Recorder.v ===== *)
(** models/RecorderModel.hpp and models/detail/RecorderModel.hxx: a module that
    writes every element it receives to a file. *)
From S2P Require Import Prelude BufferCopy FileIO.

(** appmodel's settings, as [init] reads them. *)
Record recorder_settings := mkRecorderSettings {
  get_output_file : string;
  get_streaming_buffer_size : Z;
  get_compression_algorithm : string;
  get_use_o_direct : bool }.

(** What the work thread gets from its receiver in a turn: an element (its bytes),
    or a timeout. *)
Inductive reception := Received (element : list byte) | TimedOut.

Definition elements (rs : list reception) : list (list byte) :=
  omap (fun r => match r with Received e => Some e | TimedOut => None end) rs.

Section recorder.
Context {F S : Type} `{PF : Posix F} `{OS : OutputStream S}.

(** [sizeof_element] is the size of the ReadoutType. *)
Context (sizeof_element : Z).

Record recorder_model := mkRecorderModel {
  m_data_receiver : option string;
  m_output_file : string;
  m_stream_buffer_size : Z;
  m_compression : string;
  m_o_direct : bool;
  m_writer : writer S;
  m_run_marker : bool;
  m_bytes_processed : Z;
  m_packets_processed : Z }.

(** A new recorder; [fd] is what its writer's uninitialised descriptor holds. *)
Definition new_recorder (fd : Z) : recorder_model :=
  mkRecorderModel None EmptyString 0 EmptyString false (new_writer fd) false 0 0.

Definition with_writer (w : writer S) (r : recorder_model) : recorder_model :=
  mkRecorderModel (m_data_receiver r) (m_output_file r) (m_stream_buffer_size r) (m_compression r)
    (m_o_direct r) w (m_run_marker r) (m_bytes_processed r) (m_packets_processed r).

(** The receivers of [init]: the last one is kept; [found] says which the
    IOManager has. *)
Fixpoint receivers (found : string -> bool) (inputs : list string) (receiver : option string)
    : outcome (option string) :=
  match inputs with
  | [] => Ret receiver
  | uid :: inputs =>
      if found uid then receivers found inputs (Some uid)
      else Throw (IssueExn (ResourceQueueError "raw_recording" "RecorderModel"))
  end.

Definition init (found : string -> bool) (inputs : list string) (cfg : recorder_settings)
    (r : recorder_model) : outcome recorder_model :=
  receiver ← receivers found inputs (m_data_receiver r);
  Ret (mkRecorderModel receiver (get_output_file cfg) (get_streaming_buffer_size cfg)
         (get_compression_algorithm cfg) (get_use_o_direct cfg) (m_writer r) (m_run_marker r)
         (m_bytes_processed r) (m_packets_processed r)).

(** [do_conf], with what it throws. *)
Definition do_conf (r : recorder_model) (f : F) : recorder_model * F * option issue :=
  let '(_, f) := fs_remove (m_output_file r) f in
  let '(w, f, e) := open (m_output_file r) (m_stream_buffer_size r) (m_compression r) (m_o_direct r)
                      (m_writer r) f in
  (with_writer w r, f, e).

Definition do_scrap (r : recorder_model) (f : F) : recorder_model * F :=
  let '(w, f) := close (m_writer r) f in (with_writer w r, f).

Definition do_start (r : recorder_model) : recorder_model :=
  mkRecorderModel (m_data_receiver r) (m_output_file r) (m_stream_buffer_size r) (m_compression r)
    (m_o_direct r) (m_writer r) true 0 0.

Definition do_stop (r : recorder_model) : recorder_model :=
  mkRecorderModel (m_data_receiver r) (m_output_file r) (m_stream_buffer_size r) (m_compression r)
    (m_o_direct r) (m_writer r) false (m_bytes_processed r) (m_packets_processed r).

Definition count_element (r : recorder_model) : recorder_model :=
  mkRecorderModel (m_data_receiver r) (m_output_file r) (m_stream_buffer_size r) (m_compression r)
    (m_o_direct r) (m_writer r) (m_run_marker r) (i32 (m_bytes_processed r + sizeof_element))
    (i32 (m_packets_processed r + 1)).

(** The [while] loop of [do_work], for the turns the run marker lasts. *)
Fixpoint work_loop (rs : list reception) (r : recorder_model) (f : F) : recorder_model * F * list issue :=
  match rs with
  | [] => (r, f, [])
  | TimedOut :: rs => work_loop rs r f
  | Received element :: rs =>
      let '(ok, w, f) := write element (m_writer r) f in
      let r := with_writer w r in
      if negb ok then (r, f, [CannotWriteToFile (m_output_file r)])
      else work_loop rs (count_element r) f
  end.

Definition do_work (rs : list reception) (r : recorder_model) (f : F) : recorder_model * F * list issue :=
  let '(r, f, l) := work_loop rs r f in
  let '(w, f) := flush (m_writer r) f in
  (with_writer w r, f, l).

(** Bytes and packets since the last call. *)
Definition generate_recorder_opmon_data (r : recorder_model) : (Z * Z) * recorder_model :=
  ((m_packets_processed r, m_bytes_processed r),
   mkRecorderModel (m_data_receiver r) (m_output_file r) (m_stream_buffer_size r) (m_compression r)
     (m_o_direct r) (m_writer r) (m_run_marker r) 0 0).

(** Runs between a configuration and its scrap: start, work, stop, each. *)
Fixpoint recorder_runs (runs : list (list reception)) (r : recorder_model) (f : F)
    : recorder_model * F * list issue :=
  match runs with
  | [] => (r, f, [])
  | rs :: runs =>
      let '(r, f, l1) := do_work rs (do_start r) f in
      let '(r, f, l2) := recorder_runs runs (do_stop r) f in
      (r, f, l1 ++ l2)
  end.
End recorder.
Arguments recorder_model : clear implicits.

(** ** Lemmas *)

Section lemmas.
Context {F S : Type} `{PosixLaws F} `{OutputStreamLaws S}.
Context (block : nat) (Hrel : reliable (F:=F) block) (sizeof_element : Z).
Context (name : string) (a : compression) (n : nat) (old : list byte).

(** The recorder's writer has been given [given]; under [O_DIRECT] it has written
    whole blocks. *)
Definition recording (r : recorder_model S) (f : F) (given emitted : list byte) : Prop :=
  writing (m_writer r) f name a n given emitted old /\ m_use_o_direct (m_writer r) = m_o_direct r.

Definition whole_blocks (r : recorder_model S) (emitted : list byte) : Prop :=
  m_o_direct r = true -> Nat.divide block n /\ Nat.divide block (length emitted).

Lemma work_loop_recording (rs : list reception) r f given emitted :
  recording r f given emitted -> whole_blocks r emitted ->
  exists r' f' emitted', work_loop sizeof_element rs r f = (r', f', [])
    /\ recording r' f' (given ++ concat (elements rs)) emitted' /\ m_o_direct r' = m_o_direct r
    /\ m_packets_processed r' = (if decide (elements rs = []) then m_packets_processed r
                                 else i32 (m_packets_processed r + Z.of_nat (length (elements rs)))).
Proof.
  revert r f given emitted. induction rs as [|[x|] rs IH]; intros r f given emitted [Hw Hd] Hb;
    cbn [work_loop elements omap list_omap concat length].
  - exists r, f, emitted. rewrite app_nil_r. by rewrite decide_True.
  - destruct (write_writing block x (m_writer r) f name a n given emitted old Hrel Hw)
      as (w & f1 & e1 & -> & Hw1 & Hd1 & Hb1); [by rewrite Hd|]. cbn [negb].
    destruct (IH (count_element sizeof_element (with_writer w r)) f1 (given ++ x) e1)
      as (r2 & f2 & e2 & -> & Hr2 & Hd2 & Hp2).
    + split; [done|]. cbn. by rewrite Hd1.
    + intros E. split; [by apply Hb|]. apply Hb1. by rewrite Hd.
    + exists r2, f2, e2. rewrite app_assoc. split; [done|]. split; [done|]. split; [done|].
      rewrite Hp2. cbn [count_element with_writer m_packets_processed]. fold (elements rs).
      rewrite (decide_False (P:=_ :: _ = [])) by done.
      case_decide as E; [by rewrite E|]. rewrite i32_add. f_equal. lia.
  - by destruct (IH r f given emitted) as (r2 & f2 & e2 & -> & Hr2); [done|done|exists r2, f2, e2].
Qed.

Lemma do_work_recording (rs : list reception) r f given emitted :
  recording r f given emitted -> whole_blocks r emitted ->
  exists r' f' emitted', do_work sizeof_element rs r f = (r', f', [])
    /\ recording r' f' (given ++ concat (elements rs)) emitted' /\ m_o_direct r' = m_o_direct r
    /\ (m_packets_processed r = 0 -> m_packets_processed r' = i32 (Z.of_nat (length (elements rs)))).
Proof.
  intros Hr Hb. unfold do_work.
  destruct (work_loop_recording rs r f given emitted Hr Hb) as (r1 & f1 & e1 & -> & [Hw1 Hd1] & Ho1 & Hp1).
  destruct (flush_writing block _ f1 name a n _ e1 old Hrel Hw1) as (w & f2 & e2 & -> & Hw2 & Hd2 & _).
  exists (with_writer w r1), f2, e2. split; [done|]. split; [split; [done|]; cbn; by rewrite Hd2|].
  split; [done|]. intros E. cbn. rewrite Hp1, E. case_decide as En; [by rewrite En|done].
Qed.

(** Under [O_DIRECT] one run is enough to leave the blocks. *)
Lemma recorder_runs_recording (runs : list (list reception)) r f given emitted :
  recording r f given emitted ->
  (m_o_direct r = true -> (length runs <= 1)%nat /\ (runs <> [] -> whole_blocks r emitted)) ->
  exists r' f' emitted', recorder_runs sizeof_element runs r f = (r', f', [])
    /\ recording r' f' (given ++ concat (elements (concat runs))) emitted'
    /\ (forall rs, last runs = Some rs -> m_packets_processed r' = i32 (Z.of_nat (length (elements rs)))).
Proof.
  revert r f given emitted. induction runs as [|rs runs IH]; intros r f given emitted Hr Hb;
    cbn [recorder_runs concat].
  - exists r, f, emitted. by rewrite app_nil_r.
  - destruct (do_work_recording rs (do_start r) f given emitted) as (r1 & f1 & e1 & -> & Hr1 & Ho1 & Hp1).
    { exact Hr. }
    { intros E. cbn in E. destruct (Hb E) as [_ Hb']. by apply Hb'. }
    destruct (IH (do_stop r1) f1 (given ++ concat (elements rs)) e1) as (r2 & f2 & e2 & E2 & Hr2 & Hp2).
    { exact Hr1. }
    { cbn. rewrite Ho1. cbn. intros E. destruct (Hb E) as [Hl _]. cbn in Hl. destruct runs; cbn in *; [|lia].
      split; [lia|done]. }
    rewrite E2. exists r2, f2, e2. split; [done|]. split.
    { unfold elements. rewrite omap_app, concat_app, app_assoc. exact Hr2. }
    intros rs' Hl. destruct runs as [|rs2 runs].
    + injection Hl as <-. cbn [recorder_runs] in E2. injection E2 as <- _. by apply Hp1.
    + by apply Hp2.
Qed.
End lemmas.

(** ** Properties *)

(** C27: a recording can be read back.  Configured on any disk that does not
    fail (whatever an older file of that name holds), the recorder writes every
    element it receives over any number of runs, and after the scrap the file
    holds them all, compressed as asked and nothing else, so that a reader of the
    same algorithm reads back the very elements in order and then stops.  With
    O_DIRECT this needs a buffer of whole blocks, and holds for a single run.
    No warning is given, and the packets of the last run are counted. *)
Theorem recorder_roundtrip {F S I : Type} `{PosixLaws F} `{OutputStreamLaws S} `{!InputStream I}
    `{!InputStreamLaws I} (block n : nat) (a : compression) (sizeof_element : Z)
    (runs : list (list reception)) (r r1 : recorder_model S) (f f1 : F) :
  reliable (F:=F) block -> algorithm (m_compression r) = Some a ->
  m_stream_buffer_size r = Z.of_nat n -> (0 < n)%nat -> 0 < sizeof_element ->
  Forall (fun x => Z.of_nat (length x) = sizeof_element) (elements (concat runs)) ->
  (m_o_direct r = true -> Nat.divide block n /\ (length runs <= 1)%nat) ->
  m_is_open (m_writer r) = false -> m_output_stream (m_writer r) = os_empty ->
  do_conf r f = (r1, f1, None) ->
  exists r2 f2 r3 f3, recorder_runs sizeof_element runs r1 f1 = (r2, f2, [])
    /\ do_scrap r2 f2 = (r3, f3)
    /\ fs_contents f3 (m_output_file r) = Some (encode a (concat (elements (concat runs))))
    /\ (forall rs, last runs = Some rs -> m_packets_processed r2 = i32 (Z.of_nat (length (elements rs))))
    /\ forall buffer_size element, 0 < buffer_size -> Z.of_nat (length element) = sizeof_element ->
       exists rd : reader I,
         open_reader (m_output_file r) buffer_size (m_compression r) new_reader f3 = (rd, None)
         /\ read_all sizeof_element (length (elements (concat runs))) element rd
            = Ret (elements (concat runs)).
Proof.
  intros Hrel Ha Hn Hpos Hs Hel Hdir Hcl Hst Hconf. unfold do_conf in Hconf.
  destruct (fs_remove (m_output_file r) f) as [b f0] eqn:Erm.
  destruct (open _ _ _ _ _ f0) as [[w fw] e] eqn:Eo. injection Hconf as <- <- ->.
  rewrite Hn in Eo. destruct (open_writing _ _ a n _ _ _ _ _ Hcl Hst Ha Hpos Eo) as [Hw Hd].
  pose proof (fs_remove_spec (m_output_file r) f) as Hrm. rewrite Erm in Hrm. cbn in Hrm. rewrite Hrm in Hw.
  destruct (recorder_runs_recording block Hrel sizeof_element (m_output_file r) a n [] runs (with_writer w r) fw
    [] []) as (r2 & f2 & e2 & -> & [Hw2 Hd2] & Hp2).
  { split; [exact Hw|exact Hd]. }
  { intros E. destruct (Hdir E) as [Hb Hl]. split; [done|]. intros _ _. split; [done|]. apply Nat.divide_0_r. }
  destruct (close_writing block _ f2 _ a n _ e2 [] Hrel Hw2) as (w3 & f3 & Ec & _ & _ & Hf3).
  cbn [app] in Hf3. unfold overwrite in Hf3. rewrite take_0, drop_nil, app_nil_r in Hf3. cbn [app] in Hf3.
  exists r2, f2, (with_writer w3 r2), f3. split; [done|]. split; [unfold do_scrap; by rewrite Ec|].
  split; [done|]. split; [done|]. intros buffer_size element Hbuf Helem.
  unfold open_reader. rewrite fs_open_read_spec, Hf3, Ha. eexists. split; [reflexivity|].
  match goal with |- read_all _ _ _ ?rd = _ =>
    refine (read_all_elements sizeof_element _ _ rd Hs eq_refl _ Helem Hel) end. cbn [r_input_stream].
  pose proof (is_push_spec (I:=I) a buffer_size (encode a (concat (elements (concat runs)))) Hbuf) as Hm.
  by rewrite decode_encode in Hm.
Qed.

(** ** The property at work: elements of three bytes, written with zlib *)
Import Sample.

Definition sample_recorder : recorder_model stream :=
  mkRecorderModel (Some "raw") "raw.bin" 4 "zlib" false (new_writer 0) false 0 0.

Definition sample_runs : list (list reception) :=
  [[Received [1; 2; 3]; TimedOut; Received [4; 5; 6]]; [TimedOut; Received [7; 8; 9]]].

Lemma recorder_roundtrip_witness :
  exists r1 f1 r2 f2 r3 f3 rd,
    do_conf sample_recorder (mkDisk {["raw.bin" := [9; 9]]} ∅) = (r1, f1, None)
    /\ recorder_runs 3 sample_runs r1 f1 = (r2, f2, []) /\ do_scrap r2 f2 = (r3, f3)
    /\ fs_contents f3 "raw.bin" = Some [3; 1; 2; 3; 4; 5; 6; 7; 8; 9]
    /\ m_packets_processed r2 = 1
    /\ open_reader "raw.bin" 16 "zlib" (new_reader : reader istream) f3 = (rd, None)
    /\ read_all 3 3 [0; 0; 0] rd = Ret [[1; 2; 3]; [4; 5; 6]; [7; 8; 9]].
Proof.
  destruct (do_conf sample_recorder (mkDisk {["raw.bin" := [9; 9]]} ∅)) as [[r1 f1] e] eqn:Ec.
  assert (He : e = None) by (vm_compute in Ec; congruence). subst e.
  destruct (recorder_roundtrip (I:=istream) 4 4 Zlib 3 sample_runs sample_recorder r1 _ f1 disk_reliable
    eq_refl eq_refl ltac:(lia) ltac:(lia) ltac:(by repeat constructor) ltac:(done) eq_refl eq_refl Ec)
    as (r2 & f2 & r3 & f3 & Er & Es & Hf & Hp & Hread).
  destruct (Hread 16 [0; 0; 0] ltac:(lia) eq_refl) as (rd & Eo & Erd).
  exists r1, f1, r2, f2, r3, f3, rd. split; [done|]. split; [exact Er|]. split; [exact Es|].
  split; [exact Hf|]. split; [exact (Hp _ eq_refl)|]. split; [exact Eo|exact Erd].
Defined.
