(* ===== verification/RateLimiter.v ===== *)
(** utils/RateLimiter.hpp: the deadline a busy loop waits for.  [clock n] is the
    [n]-th reading of CLOCK_MONOTONIC, in nanoseconds. *)
From Stdlib Require Import SpecFloat.
From S2P Require Import Prelude.

Record timespec := mkTimespec { tv_sec : Z; tv_nsec : Z }.

Definition ns : Z := 1.

Definition us : Z := 1000 * ns.

Definition ms : Z := 1000 * us.

Definition s : Z := 1000 * ms.

Definition gettime (ts : timespec) : Z := u64 (u64 (u64 (tv_sec ts) * s) + u64 (u64 (tv_nsec ts) * ns)).

Record limiter := mkLimiter {
  m_kilohertz : spec_float;
  m_max_overshoot : Z;
  m_period : Z;
  m_now : Z;
  m_deadline : Z }.

(** [static_cast<timestamp_t>(x)] of a double. *)
Definition to_timestamp (x : spec_float) : outcome Z :=
  match x with
  | S754_zero _ => Ret 0
  | S754_finite false m e =>
      let n := if 0 <=? e then Z.shiftl (Zpos m) e else Z.shiftr (Zpos m) (- e) in
      if n <? 18446744073709551616 then Ret n else Undefined
  | S754_finite true m e =>
      if Z.shiftr (Zpos m) (- e) =? 0 then (if 0 <=? e then Undefined else Ret 0) else Undefined
  | _ => Undefined
  end.

(** [(1000.f / m_kilohertz) * static_cast<double>(us)], in double precision. *)
Definition period_of (kilohertz : spec_float) : outcome Z :=
  to_timestamp (SFmul 53 1024 (SFdiv 53 1024 (binary_normalize 53 1024 1000 0 false) kilohertz)
                  (binary_normalize 53 1024 us 0 false)).

Definition adjust (kilohertz : spec_float) (l : limiter) : outcome limiter :=
  period ← period_of kilohertz;
  Ret (mkLimiter kilohertz (m_max_overshoot l) period (m_now l) (m_deadline l)).

Section clock.
Context (clock : nat -> Z).

(** The operations take and return the number of readings made so far. *)
Definition init (n : nat) (l : limiter) : nat * limiter :=
  let now := clock n in
  (S n, mkLimiter (m_kilohertz l) (m_max_overshoot l) (m_period l) now (u64 (now + m_period l))).

(** The constructor. *)
Definition new_limiter (n : nat) (kilohertz : spec_float) : outcome (nat * limiter) :=
  l ← adjust kilohertz (mkLimiter kilohertz (10 * ms) 0 0 0);
  Ret (init n l).

(** [while (m_now < m_deadline) m_now = gettime();] *)
Fixpoint spin (fuel : nat) (n : nat) (now deadline : Z) : outcome (nat * Z) :=
  if now <? deadline then
    match fuel with
    | O => OutOfFuel
    | S fuel => spin fuel (S n) (clock n) deadline
    end
  else Ret (n, now).

(** [nanosleep] only lets time pass, and may return early; the clock shows it. *)
Definition limit (fuel : nat) (n : nat) (l : limiter) : outcome (nat * limiter) :=
  let now := clock n in
  let n := S n in
  if u64 (m_deadline l + m_max_overshoot l) <? now then
    Ret (n, mkLimiter (m_kilohertz l) (m_max_overshoot l) (m_period l) now (u64 (now + m_period l)))
  else
    '(n, now) ←
      (if now <? m_deadline l then
         let '(n, now) := if 0 <? u64 (m_deadline l - now) then (S n, clock n) else (n, now) in
         spin fuel n now (m_deadline l)
       else Ret (n, now));
    Ret (n, mkLimiter (m_kilohertz l) (m_max_overshoot l) (m_period l) now
              (u64 (m_deadline l + m_period l))).

(** [k] turns of a rate-limited loop: the times at which [limit] returned. *)
Fixpoint limit_loop (k fuel n : nat) (l : limiter) : outcome (list Z * nat * limiter) :=
  match k with
  | O => Ret ([], n, l)
  | S k =>
      '(n, l) ← limit fuel n l;
      '(times, n, l') ← limit_loop k fuel n l;
      Ret (m_now l :: times, n, l')
  end.

(** A monotonic clock that passes [deadline] by its [m]-th reading. *)
Definition monotonic : Prop := forall i j, (i <= j)%nat -> 0 <= clock i <= clock j.

Lemma spin_late (fuel n : nat) now deadline n' now' :
  spin fuel n now deadline = Ret (n', now') ->
  deadline <= now' /\ (now' = now \/ exists i, now' = clock i).
Proof.
  revert n now. induction fuel as [|fuel IH]; intros n now; cbn [spin];
    destruct (Z.ltb_spec now deadline); try done; try (intros [= <- <-]; split; [lia|by left]).
  intros Hs. apply IH in Hs as [Hd [->|Hi]]; (split; [done|]); right; [by exists n|done].
Qed.

Lemma spin_ends (fuel n m : nat) now deadline :
  monotonic -> deadline <= clock m -> (m - n < fuel)%nat -> (now < deadline -> (n <= m)%nat) ->
  exists n' now', spin fuel n now deadline = Ret (n', now').
Proof.
  intros Hmono Hm. revert n now. induction fuel as [|fuel IH]; intros n now Hf Hn; [lia|].
  cbn [spin]. destruct (Z.ltb_spec now deadline) as [Hlt|Hge]; [|by exists n, now].
  specialize (Hn Hlt). destruct (decide (n = m)) as [->|Hne].
  - exists (S m), (clock m). destruct fuel; cbn [spin]; destruct (Z.ltb_spec (clock m) deadline); done || lia.
  - apply IH; [lia|]. intros _. lia.
Qed.

(** Nothing wraps while the clock and the deadline stay at or below [top]. *)
Definition below (l : limiter) (top : Z) : Prop :=
  0 <= m_period l /\ 0 <= m_max_overshoot l /\ 0 <= m_deadline l <= top
  /\ top + m_period l + m_max_overshoot l <= UINT64_MAX
  /\ forall i, 0 <= clock i <= top.

(** [limit] does not return before the deadline, and moves it by at least a period. *)
Lemma limit_late (fuel n : nat) (l : limiter) top n' l' :
  below l top -> limit fuel n l = Ret (n', l') ->
  m_deadline l <= m_now l' /\ m_deadline l + m_period l <= m_deadline l' <= top + m_period l
  /\ m_period l' = m_period l /\ m_max_overshoot l' = m_max_overshoot l.
Proof.
  intros (Hp & Ho & Hd & Htop & Hclock) Hl. unfold limit, UINT64_MAX in *.
  pose proof (Hclock n). machine_in Hl.
  destruct (Z.ltb_spec (m_deadline l + m_max_overshoot l) (clock n)) as [Hover|Hin].
  - injection Hl as <- <-. cbn. lia.
  - apply bind_Ret_inv in Hl as ([n1 now1] & Hs & [= <- <-]). cbn. machine.
    enough (m_deadline l <= now1) by lia.
    destruct (Z.ltb_spec (clock n) (m_deadline l)); [|injection Hs as <- <-; lia].
    destruct (0 <? _); by apply spin_late in Hs as [Hs _].
Qed.

(** It returns once the clock has passed the deadline. *)
Lemma limit_returns (fuel n m : nat) (l : limiter) :
  monotonic -> m_deadline l <= clock m -> (m < fuel)%nat -> 0 <= m_deadline l <= UINT64_MAX ->
  exists n' l', limit fuel n l = Ret (n', l').
Proof.
  intros Hmono Hm Hf Hd. unfold limit, UINT64_MAX in *. destruct (_ <? clock n); [by do 2 eexists|].
  pose proof (Hmono n n ltac:(lia)).
  destruct (Z.ltb_spec (clock n) (m_deadline l)) as [Hlt|Hge]; [|by do 2 eexists].
  machine. destruct (Z.ltb_spec 0 (m_deadline l - clock n)); [|lia].
  assert (Hnm : (n < m)%nat).
  { apply Nat.nle_gt. intros Hmn. specialize (Hmono m n Hmn). lia. }
  destruct (spin_ends fuel (S (S n)) m (clock (S n)) (m_deadline l)) as (n' & now' & ->);
    [done|done|lia| |by do 2 eexists].
  intros Hlt'. apply Nat.nlt_ge. intros Hgt. assert (m = S n) by lia. subst m. lia.
Qed.
End clock.

(** ** Properties *)

(** [limit] returns as soon as a monotonic clock has passed the deadline
    (however many readings that takes), and not before; it moves the deadline on
    by one period when it was in time, and at least that after an overshoot. *)
Theorem limit_waits (clock : nat -> Z) (fuel n m : nat) (l : limiter) (top : Z) :
  monotonic clock -> below clock l top -> m_deadline l <= clock m -> (m < fuel)%nat ->
  exists n' l', limit clock fuel n l = Ret (n', l')
    /\ m_deadline l <= m_now l' /\ m_deadline l + m_period l <= m_deadline l'
    /\ (clock n <= m_deadline l + m_max_overshoot l -> m_deadline l' = m_deadline l + m_period l).
Proof.
  intros Hmono Hb Hm Hf. pose proof Hb as (Hp & Ho & Hd & Htop & Hclock).
  destruct (limit_returns clock fuel n m l) as (n' & l' & E); [done..|lia|].
  exists n', l'. split; [done|]. destruct (limit_late clock fuel n l top n' l' Hb E) as (Hn & Hd' & _).
  split; [done|]. split; [lia|]. intros Hin. unfold limit, UINT64_MAX in *.
  rewrite (u64_small (m_deadline l + m_max_overshoot l)) in E by lia.
  destruct (Z.ltb_spec (m_deadline l + m_max_overshoot l) (clock n)); [lia|].
  apply bind_Ret_inv in E as ([n1 now1] & _ & [= <- <-]). cbn. by machine.
Qed.

(** C40: in a loop of [k] turns the [i]-th return of [limit] is not before the
    first deadline plus [i] periods: whatever the work between the calls, early
    wake-ups and overshoots, the loop never runs faster than its rate. *)
Theorem limit_loop_rate (clock : nat -> Z) (k fuel n : nat) (l : limiter) (top : Z) times n' l' :
  0 <= m_period l -> 0 <= m_max_overshoot l -> 0 <= m_deadline l <= top ->
  top + Z.of_nat (S k) * m_period l + m_max_overshoot l <= UINT64_MAX ->
  (forall i, 0 <= clock i <= top) ->
  limit_loop clock k fuel n l = Ret (times, n', l') ->
  length times = k
  /\ forall i t, times !! i = Some t -> m_deadline l + Z.of_nat i * m_period l <= t.
Proof.
  revert n l top times. induction k as [|k IH]; intros n l top times Hp Ho Hd Htop Hclock Hloop;
    cbn [limit_loop] in Hloop.
  { by injection Hloop as <- <- <-. }
  apply bind_Ret_inv in Hloop as ([n1 l1] & E & Hloop).
  apply bind_Ret_inv in Hloop as ([[times1 n2] l2] & Hloop & [= <- <- <-]).
  assert (Hb : below clock l top) by (unfold below; split_and!; try done; try lia; nia).
  destruct (limit_late clock fuel n l top n1 l1 Hb E) as (Hn1 & Hd1 & Hp1 & Ho1).
  destruct (IH n1 l1 (top + m_period l) times1) as [Hlen Htimes]; rewrite ?Hp1, ?Ho1; try lia.
  - intros i. specialize (Hclock i). lia.
  - done.
  - split; [cbn; by rewrite Hlen|]. intros [|i] t Ht; cbn in Ht.
    + injection Ht as <-. lia.
    + specialize (Htimes i t Ht). rewrite Hp1 in Htimes. nia.
Qed.

(** ** The properties at work: a limiter of 1 kHz, a clock that ticks by 0.5 ms *)
Definition one_khz : spec_float := binary_normalize 53 1024 1 0 false.

Definition sample_clock (n : nat) : Z := Z.min 1000000000 (500000 * Z.of_nat n).

Definition sample_limiter : limiter :=
  mkLimiter one_khz 10000000 1000000 0 1000000.

Example sample_limiter_is_new :
  new_limiter sample_clock 0 one_khz = Ret (1%nat, sample_limiter).
Proof. by vm_compute. Qed.

Lemma sample_clock_monotonic : monotonic sample_clock.
Proof. intros i j Hij. unfold sample_clock. lia. Qed.

Lemma limit_waits_witness :
  exists n' l', limit sample_clock 10 1 sample_limiter = Ret (n', l')
    /\ 1000000 <= m_now l' /\ 2000000 <= m_deadline l'
    /\ (500000 <= 11000000 -> m_deadline l' = 2000000).
Proof.
  refine (limit_waits sample_clock 10 1 2 sample_limiter 1000000000 sample_clock_monotonic _ _ _).
  - split_and!; [by vm_compute..|]. intros i. unfold sample_clock. lia.
  - by vm_compute.
  - lia.
Defined.

(** The times at which three calls returned. *)
Definition sample_times : list Z :=
  match limit_loop sample_clock 3 10 1 sample_limiter with Ret (times, _, _) => times | _ => [] end.

Lemma limit_loop_rate_witness :
  length sample_times = 3%nat
  /\ forall i t, sample_times !! i = Some t -> 1000000 + Z.of_nat i * 1000000 <= t.
Proof.
  destruct (limit_loop sample_clock 3 10 1 sample_limiter) as [[[times n'] l']| | | |] eqn:E;
    [|by vm_compute in E..].
  unfold sample_times. rewrite E.
  refine (limit_loop_rate sample_clock 3 10 1 sample_limiter 1000000000 times n' l' _ _ _ _ _ E);
    [by vm_compute..|]. intros i. unfold sample_clock. lia.
Defined.
