(* ===== verification/ErrorBitGenerator.v ===== *)
(** utils/ErrorBitGenerator.hpp: alternating stretches of error words and of
    zeros, from three generated tables. *)
From S2P Require Import Prelude.

(** The tables are [None] until [generate] fills them. *)
Record generator := mkGenerator {
  m_error_bits : list (option Z);
  m_error_bits_index : Z;
  m_error_occurrences : list (option Z);
  m_error_occurrences_index : Z;
  m_no_error_occurrences : list (option Z);
  m_no_error_occurrences_index : Z;
  m_current_occurrence : Z;
  m_occurrence_count : Z;
  m_set_error_bits : bool }.

Definition m_size : Z := 1000.

(** The constructor. *)
Definition new_generator : generator :=
  mkGenerator (replicate 1000 None) 0 (replicate 1000 None) 0 (replicate 1000 None) 0 0 0 true.

(** [generate], given the numbers drawn: 1000 words, and 1000 lengths of each
    kind, already scaled by the error rate. *)
Definition generate (words errors no_errors : list Z) (g : generator) : generator :=
  mkGenerator (Some <$> words) (m_error_bits_index g) (Some <$> errors) (m_error_occurrences_index g)
    (Some <$> no_errors) (m_no_error_occurrences_index g) (m_current_occurrence g)
    (m_occurrence_count g) (m_set_error_bits g).

(** Reading an array out of its bounds, or before it is filled. *)
Definition table_read (t : list (option Z)) (i : Z) : outcome Z :=
  if i <? 0 then Undefined
  else match t !! Z.to_nat i with Some (Some x) => Ret x | _ => Undefined end.

Definition next (g : generator) : outcome (Z * generator) :=
  g ← (if m_current_occurrence g <=? m_occurrence_count g then
         if m_set_error_bits g then
           let bits_index := Z.rem (m_error_bits_index g + 1) m_size in
           let occurrences_index := Z.rem (m_error_occurrences_index g + 1) m_size in
           current ← table_read (m_no_error_occurrences g) (m_no_error_occurrences_index g);
           Ret (mkGenerator (m_error_bits g) bits_index (m_error_occurrences g) occurrences_index
                  (m_no_error_occurrences g) (m_no_error_occurrences_index g) current 0 false)
         else
           let no_index := Z.rem (m_no_error_occurrences_index g + 1) m_size in
           current ← table_read (m_error_occurrences g) (m_error_occurrences_index g);
           Ret (mkGenerator (m_error_bits g) (m_error_bits_index g) (m_error_occurrences g)
                  (m_error_occurrences_index g) (m_no_error_occurrences g) no_index current 0 true)
       else Ret g);
  let g := mkGenerator (m_error_bits g) (m_error_bits_index g) (m_error_occurrences g)
    (m_error_occurrences_index g) (m_no_error_occurrences g) (m_no_error_occurrences_index g)
    (m_current_occurrence g) (i32 (m_occurrence_count g + 1)) (m_set_error_bits g) in
  if m_set_error_bits g && negb (m_current_occurrence g =? 0) then
    word ← table_read (m_error_bits g) (m_error_bits_index g);
    Ret (word, g)
  else Ret (0, g).

(** [n] calls of [next]. *)
Fixpoint nexts (n : nat) (g : generator) : outcome (list Z * generator) :=
  match n with
  | O => Ret ([], g)
  | S n => '(w, g) ← next g; '(ws, g) ← nexts n g; Ret (w :: ws, g)
  end.

(** *** The sequence of stretches

    Stretch [k] of a fresh generator: the even ones are zeros, the odd ones the
    error word; a stretch of length zero still takes one call, and gives zero. *)
Definition table_at (t : list Z) (k : nat) : Z := default 0 (t !! (k mod 1000)%nat).

Definition stretch (words errors no_errors : list Z) (k : nat) : list Z :=
  let i := (k / 2)%nat in
  if Nat.even k then replicate (Z.to_nat (Z.max 1 (table_at no_errors i))) 0
  else let len := table_at errors (S i) in
       replicate (Z.to_nat (Z.max 1 len)) (if len =? 0 then 0 else table_at words (S i)).

Definition tables_ok (words errors no_errors : list Z) : Prop :=
  length words = 1000%nat /\ length errors = 1000%nat /\ length no_errors = 1000%nat
  /\ Forall (fun n => 0 <= n <= 100000) errors /\ Forall (fun n => 0 <= n <= 100000) no_errors.

Section tables.
Context (words errors no_errors : list Z) (Hok : tables_ok words errors no_errors).

(** The generator when stretch [k] has just ended, and during it. *)
Definition between (k : nat) (current count : Z) : generator :=
  mkGenerator (Some <$> words) (Z.of_nat ((S k / 2) mod 1000))
    (Some <$> errors) (Z.of_nat ((S k / 2) mod 1000))
    (Some <$> no_errors) (Z.of_nat ((k / 2) mod 1000)) current count (Nat.even k).

Lemma table_read_fmap (t : list Z) (k : nat) :
  length t = 1000%nat -> table_read (Some <$> t) (Z.of_nat (k mod 1000)) = Ret (table_at t k).
Proof.
  intros Ht. unfold table_read, table_at.
  pose proof (Nat.mod_upper_bound k 1000 ltac:(lia)) as Hk.
  destruct (Z.ltb_spec (Z.of_nat (k mod 1000)) 0); [lia|].
  rewrite Nat2Z.id, list_lookup_fmap.
  destruct (lookup_lt_is_Some_2 t (k mod 1000)) as [x Hx]; [lia|]. by rewrite Hx.
Qed.

Lemma next_index (k : nat) :
  Z.rem (Z.of_nat (k mod 1000) + 1) m_size = Z.of_nat (S k mod 1000).
Proof.
  unfold m_size. rewrite Z.rem_mod_nonneg by lia.
  replace (Z.of_nat (k mod 1000) + 1) with (Z.of_nat (k mod 1000 + 1)) by lia.
  replace 1000 with (Z.of_nat 1000) by reflexivity.
  rewrite <- Nat2Z.inj_mod, Nat.Div0.add_mod_idemp_l. do 2 f_equal. lia.
Qed.

Lemma table_at_bounds (t : list Z) (k : nat) :
  length t = 1000%nat -> Forall (fun n => 0 <= n <= 100000) t -> 0 <= table_at t k <= 100000.
Proof.
  intros Ht Hall. unfold table_at. pose proof (Nat.mod_upper_bound k 1000 ltac:(lia)).
  destruct (lookup_lt_is_Some_2 t (k mod 1000)) as [x Hx]; [lia|]. rewrite Hx. cbn.
  rewrite Forall_forall in Hall. by eapply Hall, list_elem_of_lookup_2.
Qed.

Lemma div2_even (k : nat) : Nat.even k = true -> (S k / 2 = k / 2 /\ S (S k) / 2 = S (k / 2))%nat.
Proof.
  intros He. apply Nat.even_spec in He as [j ->].
  rewrite (Nat.mul_comm 2 j), Nat.div_mul by lia.
  replace (S (j * 2)) with (1 + j * 2)%nat by lia. replace (S (1 + j * 2)) with (0 + S j * 2)%nat by lia.
  rewrite !Nat.div_add by lia. done.
Qed.

Lemma div2_odd (k : nat) : Nat.even k = false -> (S k / 2 = S (k / 2) /\ S (S k) / 2 = S (k / 2))%nat.
Proof.
  intros Ho. assert (Hodd : Nat.odd k = true) by (rewrite <- Nat.negb_even, Ho; done).
  apply Nat.odd_spec in Hodd as [j ->].
  replace (2 * j + 1)%nat with (1 + j * 2)%nat by lia.
  replace (S (1 + j * 2)) with (0 + S j * 2)%nat by lia.
  replace (S (0 + S j * 2)) with (1 + S j * 2)%nat by lia.
  rewrite !Nat.div_add by lia. done.
Qed.

Definition length_of (k : nat) : Z :=
  if Nat.even k then table_at no_errors (k / 2) else table_at errors (S (k / 2)).

Definition value_of (k : nat) : Z :=
  if Nat.even k then 0
  else if table_at errors (S (k / 2)) =? 0 then 0 else table_at words (S (k / 2)).

Ltac fields :=
  cbn [m_current_occurrence m_occurrence_count m_set_error_bits m_error_bits m_error_bits_index
    m_error_occurrences m_error_occurrences_index m_no_error_occurrences
    m_no_error_occurrences_index andb negb].

Lemma stretch_replicate (k : nat) :
  stretch words errors no_errors k = replicate (Z.to_nat (Z.max 1 (length_of k))) (value_of k).
Proof. unfold stretch, length_of, value_of. by destruct (Nat.even k). Qed.

Lemma length_of_bounds (k : nat) : 0 <= length_of k <= 100000.
Proof.
  destruct Hok as (_ & He & Hn & Hbe & Hbn). unfold length_of.
  destruct (Nat.even k); by apply table_at_bounds.
Qed.

(** The first call of a stretch reads its length. *)
Lemma next_first (k : nat) current count :
  current <= count ->
  next (between k current count) = Ret (value_of k, between (S k) (length_of k) 1).
Proof.
  intros Hc. destruct Hok as (Hw & He & Hn & _). unfold next, between.
  fields.
  destruct (Z.leb_spec current count); [|lia]. rewrite Nat.even_succ, <- Nat.negb_even.
  unfold value_of, length_of. destruct (Nat.even k) eqn:Ek; cbn [negb].
  - destruct (div2_even k Ek) as [-> ->]. rewrite table_read_fmap by done. outcome.
    rewrite next_index. done.
  - destruct (div2_odd k Ek) as [-> ->]. rewrite table_read_fmap by done. outcome.
    rewrite next_index. fields.
    destruct (Z.eqb_spec (table_at errors (S (k / 2))) 0) as [Hz|Hz]; fields; [done|].
    rewrite table_read_fmap by done. done.
Qed.

(** The others count up to it. *)
Lemma next_more (k : nat) count :
  0 <= count < length_of k ->
  next (between (S k) (length_of k) count) = Ret (value_of k, between (S k) (length_of k) (count + 1)).
Proof.
  intros Hc. destruct Hok as (Hw & He & Hn & _). pose proof (length_of_bounds k). unfold next, between.
  fields.
  destruct (Z.leb_spec (length_of k) count); [lia|]. outcome. fields. machine.
  rewrite Nat.even_succ, <- Nat.negb_even. unfold value_of.
  destruct (Nat.even k) eqn:Ek; fields; [done|].
  destruct (Z.eqb_spec (length_of k) 0) as [|Hz]; [lia|]. cbn [negb].
  destruct (div2_odd k Ek) as [_ ->]. rewrite table_read_fmap by done. outcome.
  unfold length_of in *. rewrite Ek in *. by rewrite (proj2 (Z.eqb_neq _ _) Hz).
Qed.

Lemma nexts_more (k m : nat) count :
  0 <= count -> count + Z.of_nat m = Z.max 1 (length_of k) -> 1 <= count ->
  nexts m (between (S k) (length_of k) count)
  = Ret (replicate m (value_of k), between (S k) (length_of k) (Z.max 1 (length_of k))).
Proof.
  revert count. induction m as [|m IH]; intros count H0 Hm H1; cbn [nexts replicate].
  - do 3 f_equal. lia.
  - rewrite next_more by lia. outcome. rewrite IH by lia. done.
Qed.

Lemma nexts_stretch (k : nat) current count :
  current <= count ->
  nexts (length (stretch words errors no_errors k)) (between k current count)
  = Ret (stretch words errors no_errors k,
         between (S k) (length_of k) (Z.max 1 (length_of k))).
Proof.
  intros Hc. rewrite stretch_replicate, length_replicate.
  destruct (Z.to_nat (Z.max 1 (length_of k))) as [|m] eqn:Em; [lia|]. cbn [nexts replicate].
  rewrite next_first by done. outcome. rewrite nexts_more by lia. done.
Qed.

Lemma nexts_app (n m : nat) g :
  nexts (n + m) g = ('(ws, g) ← nexts n g; '(ws', g) ← nexts m g; Ret (ws ++ ws', g)).
Proof.
  revert g. induction n as [|n IH]; intros g; cbn [nexts Nat.add].
  - outcome. by destruct (nexts m g) as [[]|?| | |].
  - destruct (next g) as [[w g1]|?| | |]; outcome; try done. rewrite IH.
    destruct (nexts n g1) as [[ws g2]|?| | |]; outcome; try done.
    by destruct (nexts m g2) as [[]|?| | |].
Qed.

Lemma nexts_stretches (n k : nat) current count :
  current <= count ->
  exists current' count', current' <= count' /\
    nexts (length (concat (stretch words errors no_errors <$> seq k n))) (between k current count)
    = Ret (concat (stretch words errors no_errors <$> seq k n), between (k + n) current' count').
Proof.
  revert k current count. induction n as [|n IH]; intros k current count Hc; cbn [seq].
  - exists current, count. split; [done|]. cbn. by rewrite Nat.add_0_r.
  - rewrite fmap_cons. cbn [concat]. rewrite length_app, nexts_app, nexts_stretch by done. outcome.
    destruct (IH (S k) (length_of k) (Z.max 1 (length_of k))) as (c1 & c2 & Hc' & ->); [lia|]. outcome.
    exists c1, c2. split; [done|]. by rewrite Nat.add_succ_r.
Qed.
End tables.

(** *** The output of a generator that never fails *)

Definition output (g : generator) (i : nat) : Z :=
  match nexts (S i) g with Ret (ws, _) => default 0 (ws !! i) | _ => 0 end.

Lemma nexts_length (n : nat) g ws g' : nexts n g = Ret (ws, g') -> length ws = n.
Proof.
  revert g ws g'. induction n as [|n IH]; intros g ws g'; cbn [nexts].
  - by intros [= <- <-].
  - intros ([w g1] & _ & ([ws1 g2] & E & [= <- <-])%bind_Ret_inv)%bind_Ret_inv.
    cbn. by rewrite (IH _ _ _ E).
Qed.

Lemma nexts_output g (m : nat) :
  (forall n, exists r, nexts n g = Ret r) ->
  exists g', nexts m g = Ret (output g <$> seq 0 m, g').
Proof.
  intros Hall. induction m as [|m [g1 IH]]; [by exists g|].
  destruct (Hall (S m)) as [[ws g2] E]. exists g2. rewrite E. do 2 f_equal.
  rewrite seq_S, fmap_app. cbn [fmap list_fmap Nat.add]. unfold output at 2. rewrite E.
  pose proof E as E'. rewrite <- Nat.add_1_r, nexts_app, IH in E'. rewrite bind_Ret in E'.
  apply bind_Ret_inv in E' as ([v g3] & Ev & [= <- <-]).
  pose proof (nexts_length _ _ _ _ Ev) as Hv. destruct v as [|w [|]]; try done.
  rewrite lookup_app_r by (rewrite length_fmap, length_seq; lia).
  by rewrite length_fmap, length_seq, Nat.sub_diag.
Qed.

(** After [n] calls, the next [m] give what follows. *)
Lemma nexts_continue (n m : nat) g ws g' :
  (forall k, exists r, nexts k g = Ret r) -> nexts n g = Ret (ws, g') ->
  exists g'', nexts m g' = Ret (output g <$> seq n m, g'').
Proof.
  intros Hall E. destruct (nexts_output g (n + m) Hall) as [g1 Eall].
  rewrite nexts_app, E, bind_Ret in Eall. apply bind_Ret_inv in Eall as ([ws' g2] & -> & [= Eall <-]).
  exists g2. rewrite seq_app, fmap_app in Eall. apply app_inj_1 in Eall as [_ ->]; [done|].
  rewrite length_fmap, length_seq. by apply nexts_length in E.
Qed.

Lemma nexts_shorter (n m : nat) g r :
  (n <= m)%nat -> nexts m g = Ret r -> exists r', nexts n g = Ret r'.
Proof.
  intros Hn. replace m with (n + (m - n))%nat by lia. rewrite nexts_app.
  intros (r' & -> & _)%bind_Ret_inv. by exists r'.
Qed.

Lemma nexts_return words errors no_errors (n : nat) :
  tables_ok words errors no_errors ->
  exists r, nexts n (generate words errors no_errors new_generator) = Ret r.
Proof.
  intros Hok. destruct (nexts_stretches words errors no_errors Hok n 0 0 0) as (c1 & c2 & _ & E); [lia|].
  eapply nexts_shorter; [|exact E]. clear E. generalize 0%nat. induction n as [|n IH]; intros k; cbn [seq]; [lia|].
  rewrite fmap_cons. cbn [concat]. rewrite length_app, stretch_replicate, length_replicate.
  specialize (IH (S k)). lia.
Qed.

(** ** Properties *)

(** Once generated, the generator never reads outside its tables however
    long it runs, and its output is the stretches in turn: zeros for the next
    no-error length, the next error word for the next error length (these two
    tables from their second entry on), round the tables forever; a
    stretch of length zero still takes one call, which gives zero. *)
Theorem next_stretches (words errors no_errors : list Z) (n : nat) :
  tables_ok words errors no_errors ->
  exists g, nexts (length (concat (stretch words errors no_errors <$> seq 0 n)))
              (generate words errors no_errors new_generator)
            = Ret (concat (stretch words errors no_errors <$> seq 0 n), g).
Proof.
  intros Hok. destruct (nexts_stretches words errors no_errors Hok n 0 0 0) as (c1 & c2 & _ & E); [lia|].
  eexists. exact E.
Qed.

(** Words 0, 1, 2, ..., stretches of two errors, three zeros between them. *)
Definition sample_words : list Z := seqZ 0 1000.

Lemma next_stretches_witness :
  exists g, nexts 10 (generate sample_words (replicate 1000 2) (replicate 1000 3) new_generator)
    = Ret ([0; 0; 0; 1; 1; 0; 0; 0; 2; 2], g).
Proof.
  refine (next_stretches sample_words (replicate 1000 2) (replicate 1000 3) 4 _).
  unfold tables_ok. rewrite !length_replicate. unfold sample_words. rewrite length_seqZ.
  split_and!; [done..| |]; apply Forall_forall; intros x [-> _]%elem_of_replicate; lia.
Defined.
