(* ===== verification/FileSource.v ===== *)
(** utils/FileSourceBuffer.hpp: the contents of a file in memory, counted in
    chunks. *)
From stdpp Require Import pretty.
From S2P Require Import Prelude BufferCopy.

Record file_source := mkFileSource {
  m_input_limit : Z;
  m_chunk_size : Z;
  m_element_count : Z;
  m_source_filename : string;
  ifs_open : bool;
  m_input_buffer : list byte }.

(** The constructor. *)
Definition new_file_source (input_limit chunk_size : Z) : file_source :=
  mkFileSource input_limit chunk_size 0 EmptyString false [].

(** The text of a warning about the size of the file. *)
Definition size_warning (what_is limit_is : string) (filesize limit : Z) (filename : string) : string :=
  (what_is ++ ", filesize is " ++ pretty filesize ++ ", " ++ limit_is ++ " is " ++ pretty limit
   ++ ", filename is " ++ filename)%string.

(** [read], given what the file holds ([None]: it cannot be opened) and [what],
    the text of an issue.  Opening a stream that is open fails; the contents go
    in front of what is in the buffer. *)
Definition read (what : issue -> string) (contents : option (list byte)) (sourcefile : string)
    (s : file_source) : outcome (file_source * list issue) :=
  match (if ifs_open s then None else contents) with
  | None => Throw (IssueExn (GenericConfigurationError (what (CannotOpenFile sourcefile))))
  | Some bytes =>
      let filesize := Z.of_nat (length bytes) in
      let w1 := if m_input_limit s <? filesize then
                  [GenericConfigurationError (size_warning "File size limit exceeded" "configured limit"
                     filesize (m_input_limit s) sourcefile)] else [] in
      let remainder := i32 (Z.rem filesize (m_chunk_size s)) in
      let w2 := if (0 <? m_chunk_size s) && (0 <? remainder) then
                  [GenericConfigurationError (size_warning "Binary file contains more data than expected"
                     "chunk_size" filesize (m_chunk_size s) sourcefile)] else [] in
      let count := if 0 <? m_chunk_size s then i32 (Z.quot filesize (m_chunk_size s))
                   else m_element_count s in
      Ret (mkFileSource (m_input_limit s) (m_chunk_size s) count sourcefile true
             (bytes ++ m_input_buffer s), w1 ++ w2)
  end.

Definition num_elements (s : file_source) : Z := m_element_count s.

Definition get (s : file_source) : list byte := m_input_buffer s.

(** The whole chunks of a file. *)
Definition whole_chunks (bytes : list byte) (chunk : Z) : nat :=
  Z.to_nat (Z.of_nat (length bytes) / chunk).

Lemma whole_chunks_fit bytes chunk (k : nat) :
  0 < chunk ->
  ((k < whole_chunks bytes chunk)%nat <-> (Z.of_nat k + 1) * chunk <= Z.of_nat (length bytes)).
Proof.
  intros Hc. unfold whole_chunks.
  assert (H0 : 0 <= Z.of_nat (length bytes) / chunk) by (apply Z.div_pos; lia).
  pose proof (Z.mul_div_le (Z.of_nat (length bytes)) chunk Hc).
  pose proof (Z.mul_succ_div_gt (Z.of_nat (length bytes)) chunk Hc).
  split; intros H'; nia.
Qed.

(** A first reading gives the contents and counts the whole chunks. *)
Lemma read_fresh what bytes sourcefile limit chunk :
  0 < chunk -> Z.of_nat (whole_chunks bytes chunk) <= INT_MAX ->
  exists s w, read what (Some bytes) sourcefile (new_file_source limit chunk) = Ret (s, w)
    /\ get s = bytes /\ num_elements s = Z.of_nat (whole_chunks bytes chunk).
Proof.
  intros Hc Hmax. unfold read, new_file_source. cbn. eexists _, _. split; [reflexivity|].
  cbn. rewrite app_nil_r. split; [done|]. destruct (Z.ltb_spec 0 chunk); [|lia].
  unfold whole_chunks, INT_MAX in *. rewrite Z.quot_div_nonneg by lia.
  assert (0 <= Z.of_nat (length bytes) / chunk) by (apply Z.div_pos; lia).
  rewrite Z2Nat.id in * by done. apply i32_small. lia.
Qed.
