(* ===== verification/SourceEmulator.v ===== *)
(** models/SourceEmulatorModel.hpp and models/detail/SourceEmulatorModel.hxx: a
    source that sends the elements of a file over and over, with made-up
    timestamps, missing frames and error bits, at a given rate. *)
From Stdlib Require Import SpecFloat.
From S2P Require Import Prelude ReadoutTypes BufferCopy ErrorBitGenerator RateLimiter FileSource.

(** What the emulator requires of its payload type beyond the ReadoutType:
    its size, the object a [memcpy] of its bytes makes, and the functions that
    fake its contents ([fake_adc_pattern] also when it throws half-way). *)
Class EmulatedType (T : Type) := {
  sizeof : Z;
  of_bytes : list byte -> T;
  fake_timestamps : Z -> Z -> T -> T;
  fake_geoid : Z -> Z -> Z -> T -> T;
  fake_frame_errors : list Z -> T -> T;
  fake_adc_pattern : Z -> T -> T }.
Arguments sizeof T {_}.
#[export] Hint Mode EmulatedType ! : typeclass_instances.

(** ** SourceEmulatorPatternGenerator *)

Record pattern_generator := mkPattern { m_channel : list Z; m_index : Z }.

(** [generate], given the numbers [std::rand] gives. *)
Definition generate_pattern (rand : nat -> Z) (size : Z) (p : pattern_generator) : pattern_generator :=
  mkPattern (m_channel p ++ ((fun i => Z.rem (rand i) 64) <$> seq 0 (Z.to_nat size))) (m_index p).

Definition get_channel_number (p : pattern_generator) : outcome (Z * pattern_generator) :=
  let index := if m_index p =? Z.of_nat (length (m_channel p)) then 0 else m_index p in
  channel ← deref (m_channel p !! Z.to_nat index);
  Ret (channel, mkPattern (m_channel p) (index + 1)).

(** ** The state *)

(** The constructor's arguments. *)
Record emulator_args := mkArgs {
  m_time_tick_diff : Z;
  m_dropout_rate : spec_float;
  m_rate_khz : spec_float;
  m_frames_per_tick : Z }.

(** confmodel's and appmodel's settings, as [conf] reads them; [tp_rate] is
    [None] for a rate of zero, and otherwise divides by the rate. *)
Record emulation_settings := mkEmulation {
  get_source : SourceID;
  get_crate_id : Z;
  get_slot_id : Z;
  get_stream_id : Z;
  get_set_t0 : bool;
  get_input_file_size_limit : Z;
  get_data_file_name : string;
  get_random_population_size : Z;
  get_generate_periodic_adc_pattern : bool;
  get_tp_rate : option (Z -> Z) }.

(** The members [conf] sets. *)
Record configuration := mkConfiguration {
  m_sourceid : SourceID;
  m_crateid : Z;
  m_slotid : Z;
  m_linkid : Z;
  m_t0_now : bool;
  m_file_source : file_source;
  m_dropouts : list bool;
  m_generate_periodic_adc_pattern : bool }.

(** [m_configuration] is there while [m_is_configured]. *)
Record emulator := mkEmulator {
  m_configuration : option configuration;
  m_error_bit_generator : generator;
  m_pattern_generator : pattern_generator;
  m_pattern_generator_previous_ts : Z;
  m_time_to_wait : Z;
  m_rate_limiter : option limiter;
  m_packet_count : Z;
  m_packet_count_tot : Z }.

(** A new emulator; [previous_ts] is what the uninitialised member happens to hold. *)
Definition new_emulator (previous_ts : Z) : emulator :=
  mkEmulator None new_generator (mkPattern [] 0) previous_ts 9768 None 0 0.

Section emulator.
Context {T : Type} `{RT : ReadoutType T} `{EM : EmulatedType T}.
Context (args : emulator_args) (what : issue -> string).

(** [conf], given the files, the doubles drawn for the dropouts, the tables and
    channels generated. *)
Definition conf (emu : emulation_settings) (files : string -> option (list byte))
    (draw : nat -> spec_float) (words errors no_errors : list Z) (rand : nat -> Z) (e : emulator)
    : outcome (emulator * list issue) :=
  match m_configuration e with
  | Some _ => Ret (e, [])
  | None =>
      '(source, w) ←
        match read what (files (get_data_file_name emu)) (get_data_file_name emu)
                (new_file_source (get_input_file_size_limit emu) (i32 (sizeof T))) with
        | Throw _ => Throw (IssueExn (ConfigurationError (get_source emu) ""))
        | r => r
        end;
      let dropouts_size := if SFeqb (m_dropout_rate args) (S754_zero false) then 1
                           else get_random_population_size emu in
      let dropouts := (fun i => SFleb (m_dropout_rate args) (draw i)) <$> seq 0 (Z.to_nat dropouts_size) in
      let '(pattern, time_to_wait) :=
        if get_generate_periodic_adc_pattern emu then
          (generate_pattern rand (get_random_population_size emu) (m_pattern_generator e),
           match get_tp_rate emu with None => m_time_to_wait e | Some divide => u32 (divide (m_time_to_wait e)) end)
        else (m_pattern_generator e, m_time_to_wait e) in
      Ret (mkEmulator
             (Some (mkConfiguration (get_source emu) (get_crate_id emu) (get_slot_id emu)
                (get_stream_id emu) (get_set_t0 emu) source dropouts (get_generate_periodic_adc_pattern emu)))
             (generate words errors no_errors new_generator) pattern
             (m_pattern_generator_previous_ts e) time_to_wait (m_rate_limiter e)
             (m_packet_count e) (m_packet_count_tot e), w)
  end.

Definition is_configured (e : emulator) : bool :=
  match m_configuration e with Some _ => true | None => false end.

Definition scrap (e : emulator) : emulator :=
  mkEmulator None (m_error_bit_generator e) (m_pattern_generator e)
    (m_pattern_generator_previous_ts e) (m_time_to_wait e) (m_rate_limiter e)
    (m_packet_count e) (m_packet_count_tot e).

(** [start], up to the thread; [n] counts the readings of the limiter's clock. *)
Definition start (clock : nat -> Z) (n : nat) (e : emulator) : outcome (nat * emulator) :=
  '(n, limiter) ← new_limiter clock n (m_rate_khz args);
  Ret (n, mkEmulator (m_configuration e) (m_error_bit_generator e) (m_pattern_generator e)
            (m_pattern_generator_previous_ts e) (m_time_to_wait e) (Some limiter)
            (m_packet_count e) 0).

(** [packets] and the total, published. *)
Definition generate_emulator_opmon_data (e : emulator) : (Z * Z) * emulator :=
  ((m_packet_count_tot e, m_packet_count e),
   mkEmulator (m_configuration e) (m_error_bit_generator e) (m_pattern_generator e)
     (m_pattern_generator_previous_ts e) (m_time_to_wait e) (m_rate_limiter e) 0
     (m_packet_count_tot e)).

(** *** run_produce *)

(** The object at [rptr + offset], copied or read in place: the bytes must be there. *)
Definition element_at (source : list byte) (offset : Z) : outcome T :=
  let pos := u64 (offset * sizeof T) in
  if Z.of_nat (length source) <? pos + sizeof T then Undefined
  else Ret (of_bytes (take (Z.to_nat (sizeof T)) (drop (Z.to_nat pos) source))).

(** The local variables, the members [run_produce] changes, and the history: the
    payloads given to the sender. *)
Record production := mkProduction {
  offset : Z;
  timestamp : Z;
  dropout_index : Z;
  bits : generator;
  pattern : pattern_generator;
  previous_ts : Z;
  packets : Z;
  packets_tot : Z;
  sent : list T }.

Section run_produce.
Context (cf : configuration) (time_to_wait : Z).

(** Whether the sender takes its [n]-th payload, or throws an [ers::Issue]. *)
Context (accepts : nat -> bool).

Let source := get (m_file_source cf).
Let num_elem := u32 (num_elements (m_file_source cf)).

(** The periodic ADC pattern. *)
Definition lift_channel (payload : T) (p : production) : outcome (T * pattern_generator * Z) :=
  if m_generate_periodic_adc_pattern cf && (time_to_wait <? u64 (timestamp p - previous_ts p)) then
    '(channel, pattern) ← get_channel_number (pattern p);
    Ret (fake_adc_pattern channel payload, pattern, timestamp p)
  else Ret (payload, pattern p, previous_ts p).

(** One turn of the [for] loop. *)
Definition produce_frame (p : production) : outcome (production * list issue) :=
  let offset := if (offset p =? num_elem)
                   || (Z.of_nat (length source) <? u64 (u32 (offset p + 1) * sizeof T))
                then 0 else offset p in
  create_frame ← deref (m_dropouts cf !! Z.to_nat (dropout_index p));
  let dropout_index := (dropout_index p + 1) mod Z.of_nat (length (m_dropouts cf)) in
  if create_frame : bool then
    payload ← element_at source offset;
    let payload := fake_timestamps (timestamp p) (m_time_tick_diff args) payload in
    let payload := fake_geoid (m_crateid cf) (m_slotid cf) (m_linkid cf) payload in
    rptr ← element_at source 0;
    '(frame_errs, bits) ← nexts (Z.to_nat (get_num_frames rptr)) (bits p);
    let payload := fake_frame_errors frame_errs payload in
    '(payload, pattern, previous_ts) ← lift_channel payload p;
    Ret (mkProduction (u32 (offset + 1)) (timestamp p) dropout_index bits pattern previous_ts
           (i32 (packets p + 1)) (i32 (packets_tot p + 1)) (sent p ++ [payload]),
         if accepts (length (sent p)) then []
         else [CannotWriteToQueue (m_sourceid cf) "raw data input queue"])
  else
    Ret (mkProduction offset (timestamp p) dropout_index (bits p) (pattern p) (previous_ts p)
           (packets p) (packets_tot p) (sent p), []).

Fixpoint produce_frames (n : nat) (p : production) : outcome (production * list issue) :=
  match n with
  | O => Ret (p, [])
  | S n => '(p, l1) ← produce_frame p; '(p, l2) ← produce_frames n p; Ret (p, l1 ++ l2)
  end.

Definition set_production_timestamp (t : Z) (p : production) : production :=
  mkProduction (offset p) t (dropout_index p) (bits p) (pattern p) (previous_ts p)
    (packets p) (packets_tot p) (sent p).

(** The [while] loop, for the [turns] the run marker lasts; [spins] is the fuel
    of each wait of the limiter. *)
Fixpoint produce_loop (clock : nat -> Z) (spins turns n : nat) (l : limiter) (p : production)
    : outcome (production * limiter * nat * list issue) :=
  match turns with
  | O => Ret (p, l, n, [])
  | S turns =>
      '(p, l1) ← produce_frames (Z.to_nat (m_frames_per_tick args)) p;
      rptr ← element_at source 0;
      let p := set_production_timestamp
                 (u64 (timestamp p + u64 (m_time_tick_diff args * get_num_frames rptr))) p in
      '(n, l) ← limit clock spins n l;
      '(p, l, n, l2) ← produce_loop clock spins turns n l p;
      Ret (p, l, n, l1 ++ l2)
  end.
End run_produce.

(** [current_time] is the system clock, in microseconds. *)
Definition first_timestamp (cf : configuration) (current_time : Z) : outcome Z :=
  rptr ← element_at (get (m_file_source cf)) 0;
  Ret (if m_t0_now cf then u64 (625 * current_time) / 10 else get_timestamp rptr).

Definition run_produce (accepts : nat -> bool) (clock : nat -> Z) (spins turns n : nat)
    (current_time : Z) (e : emulator) : outcome (emulator * list T * nat * list issue) :=
  match m_configuration e, m_rate_limiter e with
  | Some cf, Some l =>
      ts_0 ← first_timestamp cf current_time;
      '(p, l, n, w) ←
        produce_loop cf (m_time_to_wait e) accepts clock spins turns n l
          (mkProduction 0 ts_0 0 (m_error_bit_generator e) (m_pattern_generator e)
             (m_pattern_generator_previous_ts e) (m_packet_count e) (m_packet_count_tot e) []);
      Ret (mkEmulator (Some cf) (bits p) (pattern p) (previous_ts p) (m_time_to_wait e) (Some l)
             (packets p) (packets_tot p), sent p, n, w)
  | _, _ => Undefined
  end.
End emulator.

(** ** What is sent

    Frame slot [g] of a run is the [for] turn [g mod frames_per_tick] of tick
    [g / frames_per_tick]; the dropouts, read round and round, say whether a
    payload is made in it. *)
Definition created (dropouts : list bool) (n : nat) : list nat :=
  filter (fun g => dropouts !! (g mod length dropouts)%nat = Some true) (seq 0 n).

Section spec.
Context {T : Type} `{ReadoutLaws T} `{EM : EmulatedType T}.
Context (args : emulator_args) (cf : configuration) (ts_0 : Z) (gen : generator).

(** The frames of an element, and of a tick. *)
Definition frame_count : nat := Z.to_nat (get_num_frames (default_element T)).

Definition tick_frames : nat := Z.to_nat (m_frames_per_tick args).

(** The timestamp of a tick. *)
Definition tick_time (t : nat) : Z :=
  u64 (ts_0 + Z.of_nat t * (m_time_tick_diff args * get_num_frames (default_element T))).

(** The [k]-th element of the file. *)
Definition file_element (k : nat) : T :=
  of_bytes (take (Z.to_nat (sizeof T)) (drop (k * Z.to_nat (sizeof T)) (get (m_file_source cf)))).

Definition file_elements : nat := whole_chunks (get (m_file_source cf)) (sizeof T).

(** The [j]-th payload made, in slot [g], but for a periodic pattern. *)
Definition faked (j g : nat) : T :=
  fake_frame_errors (output gen <$> seq (j * frame_count) frame_count)
    (fake_geoid (m_crateid cf) (m_slotid cf) (m_linkid cf)
       (fake_timestamps (tick_time (g / tick_frames)) (m_time_tick_diff args)
          (file_element (j mod file_elements)))).

Definition faked_payloads (n : nat) : list T := imap faked (created (m_dropouts cf) n).

(** The periodic pattern lifts a channel of some payloads. *)
Definition lifted (channels : list Z) (x y : T) : Prop :=
  x = y \/ (m_generate_periodic_adc_pattern cf = true
            /\ exists channel, channel ∈ channels /\ x = fake_adc_pattern channel y).

(** One warning for each payload the sender refuses. *)
Definition send_warnings (accepts : nat -> bool) (from to : nat) : list issue :=
  (fun _ => CannotWriteToQueue (m_sourceid cf) "raw data input queue")
    <$> filter (fun j => accepts j = false) (seq from (to - from)).

(** *** Lemmas *)

(** What [conf] on a usable file establishes. *)
Record usable : Prop := {
  us_size : 0 < sizeof T <= INT_MAX;
  us_elements : (0 < file_elements)%nat;
  us_count : num_elements (m_file_source cf) = Z.of_nat file_elements;
  us_limit : Z.of_nat file_elements <= INT_MAX;
  us_dropouts : m_dropouts cf <> [];
  us_bits : forall n, exists r, nexts n gen = Ret r }.

Context (Hus : usable) (time_to_wait : Z) (accepts : nat -> bool) (channels : list Z).
Context (Hchannels : m_generate_periodic_adc_pattern cf = true -> channels <> []).

(** The state before slot [g]. *)
Record at_slot (g : nat) (p : production (T:=T)) : Prop := {
  as_offset : let k := length (created (m_dropouts cf) g) in
    offset p = Z.of_nat (k mod file_elements)
    \/ (offset p = Z.of_nat file_elements /\ (k mod file_elements = 0)%nat);
  as_dropout : dropout_index p = Z.of_nat (g mod length (m_dropouts cf));
  as_bits : exists ws, nexts (length (created (m_dropouts cf) g) * frame_count) gen = Ret (ws, bits p);
  as_channels : m_channel (pattern p) = channels /\ 0 <= m_index (pattern p) <= Z.of_nat (length channels);
  as_packets : Z.of_nat (length (created (m_dropouts cf) g)) <= INT_MAX ->
    packets_tot p = Z.of_nat (length (created (m_dropouts cf) g));
  as_sent : Forall2 (lifted channels) (sent p) (faked_payloads g) }.

Lemma element_at_file (k : nat) :
  (k < file_elements)%nat -> element_at (get (m_file_source cf)) (Z.of_nat k) = Ret (file_element k).
Proof.
  intros Hk. destruct Hus as [[Hs Hs'] _ _ Hl _ _]. unfold INT_MAX in *. unfold element_at.
  pose proof (proj1 (whole_chunks_fit _ _ k Hs) Hk) as Hfit.
  rewrite u64_small by nia. destruct (Z.ltb_spec (Z.of_nat (length (get (m_file_source cf))))
    (Z.of_nat k * sizeof T + sizeof T)); [lia|].
  unfold file_element. do 4 f_equal. lia.
Qed.

Lemma element_at_start : element_at (get (m_file_source cf)) 0 = Ret (file_element 0).
Proof. pose proof (us_elements Hus). by rewrite <- (element_at_file 0) by lia. Qed.

Lemma created_S dropouts (g : nat) b :
  dropouts !! (g mod length dropouts)%nat = Some b ->
  created dropouts (S g) = created dropouts g ++ (if b : bool then [g] else []).
Proof.
  intros Hb. unfold created. rewrite seq_S, filter_app. f_equal. cbn [Nat.add].
  rewrite filter_cons, filter_nil. rewrite Hb. destruct b; case_decide as Hd; done || congruence.
Qed.

(** The test before each element: the offset starts again after the last. *)
Lemma wrap_offset (g : nat) p :
  at_slot g p ->
  (if (offset p =? u32 (num_elements (m_file_source cf)))
      || (Z.of_nat (length (get (m_file_source cf))) <? u64 (u32 (offset p + 1) * sizeof T))
   then 0 else offset p) = Z.of_nat (length (created (m_dropouts cf) g) mod file_elements).
Proof.
  intros [Ho _ _ _ _ _]. destruct Hus as [[Hs Hs'] Hne Hc Hl _ _]. unfold INT_MAX in *. rewrite Hc.
  rewrite (u32_small (Z.of_nat file_elements)) by lia. cbn zeta in Ho.
  set (k := length (created (m_dropouts cf) g)) in *. pose proof (Nat.mod_upper_bound k file_elements ltac:(lia)).
  destruct Ho as [Ho|[Ho Hk]].
  - rewrite Ho. destruct (Z.eqb_spec (Z.of_nat (k mod file_elements)) (Z.of_nat file_elements)); [lia|].
    rewrite u32_small, u64_small by nia. cbn [orb].
    pose proof (proj1 (whole_chunks_fit _ _ (k mod file_elements) Hs) ltac:(done)) as Hfit.
    destruct (Z.ltb_spec (Z.of_nat (length (get (m_file_source cf)))) ((Z.of_nat (k mod file_elements) + 1) * sizeof T));
      [lia|done].
  - rewrite Ho, Z.eqb_refl. cbn [orb]. lia.
Qed.

Lemma get_channel_number_in (q : pattern_generator) :
  m_channel q = channels -> channels <> [] -> 0 <= m_index q <= Z.of_nat (length channels) ->
  exists channel q', get_channel_number q = Ret (channel, q') /\ channel ∈ channels
    /\ m_channel q' = channels /\ 0 <= m_index q' <= Z.of_nat (length channels).
Proof.
  clear Hchannels. intros E Hne Hi. unfold get_channel_number. rewrite E.
  set (i := if m_index q =? Z.of_nat (length channels) then 0 else m_index q).
  assert (Hlt : 0 <= i < Z.of_nat (length channels)).
  { assert (0 < length channels)%nat by (destruct channels; [done|cbn; lia]).
    unfold i. destruct (Z.eqb_spec (m_index q) (Z.of_nat (length channels))); lia. }
  destruct (lookup_lt_is_Some_2 channels (Z.to_nat i)) as [c Hc]; [lia|]. rewrite Hc. cbn [deref]. outcome.
  eexists _, _. split; [reflexivity|]. cbn. split; [by eapply list_elem_of_lookup_2|]. split; [done|]. lia.
Qed.

Lemma lift_channel_lifted (x : T) p :
  m_channel (pattern p) = channels -> 0 <= m_index (pattern p) <= Z.of_nat (length channels) ->
  exists y q prev, lift_channel cf time_to_wait x p = Ret (y, q, prev) /\ lifted channels y x
    /\ m_channel q = channels /\ 0 <= m_index q <= Z.of_nat (length channels).
Proof.
  intros Hc Hi. unfold lift_channel, lifted.
  destruct (m_generate_periodic_adc_pattern cf) eqn:Eflag; cbn [andb].
  2:{ do 3 eexists. split; [reflexivity|]. auto. }
  destruct (_ <? _).
  - destruct (get_channel_number_in (pattern p)) as (c & q & -> & Hin & Hq & Hqi); auto. outcome.
    do 3 eexists. split; [reflexivity|]. split; [right; eauto|done].
  - do 3 eexists. split; [reflexivity|]. auto.
Qed.

Lemma next_offset (k : nat) :
  u32 (Z.of_nat (k mod file_elements) + 1) = Z.of_nat (S k mod file_elements)
  \/ u32 (Z.of_nat (k mod file_elements) + 1) = Z.of_nat file_elements /\ (S k mod file_elements = 0)%nat.
Proof.
  destruct Hus as [_ Hne _ Hl _ _]. unfold INT_MAX in *.
  pose proof (Nat.mod_upper_bound k file_elements ltac:(lia)) as Hk. rewrite u32_small by lia.
  rewrite <- (Nat.add_1_r k), <- (Nat.Div0.add_mod_idemp_l k 1).
  destruct (decide (k mod file_elements + 1 < file_elements)%nat).
  - left. rewrite (Nat.mod_small (_ + 1)) by done. lia.
  - right. replace (k mod file_elements + 1)%nat with file_elements by lia.
    rewrite Nat.Div0.mod_same. lia.
Qed.

Lemma next_dropout (g : nat) :
  (Z.of_nat (g mod length (m_dropouts cf)) + 1) mod Z.of_nat (length (m_dropouts cf))
  = Z.of_nat (S g mod length (m_dropouts cf)).
Proof.
  replace (Z.of_nat (g mod length (m_dropouts cf)) + 1)
    with (Z.of_nat (g mod length (m_dropouts cf) + 1)) by lia.
  rewrite <- Nat2Z.inj_mod, Nat.Div0.add_mod_idemp_l. do 2 f_equal. lia.
Qed.

Lemma frame_step (g : nat) p :
  at_slot g p -> timestamp p = tick_time (g / tick_frames) ->
  exists p', produce_frame args cf time_to_wait accepts p
      = Ret (p', send_warnings accepts (length (created (m_dropouts cf) g)) (length (created (m_dropouts cf) (S g))))
    /\ at_slot (S g) p' /\ timestamp p' = timestamp p.
Proof.
  intros Hp Ht. pose proof Hus as [Hs Hne Hc Hl Hd Hbits]. pose proof Hp as [_ Hdrop (ws & Hws) [Hch Hchi] Hpk Hsent].
  set (k := length (created (m_dropouts cf) g)) in *.
  assert (Hlen : length (sent p) = k).
  { rewrite (Forall2_length _ _ _ Hsent). unfold faked_payloads. apply length_imap. }
  assert (Hdl : (0 < length (m_dropouts cf))%nat) by (destruct (m_dropouts cf); [done|cbn; lia]).
  destruct (lookup_lt_is_Some_2 (m_dropouts cf) (g mod length (m_dropouts cf))) as [b Hb].
  { apply Nat.mod_upper_bound. lia. }
  unfold produce_frame. rewrite (wrap_offset g p Hp). fold k. rewrite Hdrop, next_dropout, Nat2Z.id, Hb.
  cbn [deref]. outcome. rewrite (created_S _ _ _ Hb). fold k. rewrite length_app. fold k.
  pose proof (Nat.mod_upper_bound k file_elements ltac:(lia)) as Hk.
  destruct b; cbn [length].
  2:{ rewrite Nat.add_0_r. unfold send_warnings. rewrite Nat.sub_diag. cbn [seq].
    eexists. split; [reflexivity|]. split; [|done].
    assert (Ecr : created (m_dropouts cf) (S g) = created (m_dropouts cf) g).
    { by rewrite (created_S _ _ _ Hb), app_nil_r. }
    split; cbn [offset dropout_index bits pattern packets_tot sent]; unfold faked_payloads;
      rewrite ?Ecr; fold k; eauto. }
  rewrite (element_at_file _ Hk). outcome.
  rewrite element_at_start. outcome.
  rewrite num_frames_const. fold frame_count.
  destruct (nexts_continue _ frame_count gen ws (bits p) Hbits Hws) as [g2 Eerrs]. rewrite Eerrs. outcome.
  rewrite Ht. fold (faked k g).
  destruct (lift_channel_lifted (faked k g) p) as (y & q & prev & -> & Hy & Hq & Hqi); [done..|]. outcome.
  rewrite Hlen. eexists. split.
  { unfold send_warnings. replace (k + 1 - k)%nat with 1%nat by lia. cbn [seq].
    rewrite filter_cons, filter_nil. destruct (accepts k); [done|]. by rewrite decide_True. }
  split; [|cbn; done].
  assert (Ek : length (created (m_dropouts cf) (S g)) = S k).
  { rewrite (created_S _ _ _ Hb), length_app. cbn. lia. }
  split; cbn [offset dropout_index bits pattern packets_tot sent].
  - rewrite Ek. by apply next_offset.
  - done.
  - rewrite Ek. eexists. rewrite Nat.mul_succ_l, nexts_app, Hws. outcome. by rewrite Eerrs.
  - done.
  - rewrite Ek. intros Hmax. unfold INT_MAX in *. rewrite Hpk by lia. rewrite i32_small by lia. lia.
  - unfold faked_payloads. rewrite (created_S _ _ _ Hb), imap_app. apply Forall2_app; [done|].
    cbn. rewrite Nat.add_0_r. fold k. by constructor.
Qed.

Lemma created_add dropouts (g m : nat) : exists l, created dropouts (g + m) = created dropouts g ++ l.
Proof. unfold created. rewrite seq_app, filter_app. by eexists. Qed.

Lemma created_mono dropouts (g g' : nat) :
  (g <= g')%nat -> (length (created dropouts g) <= length (created dropouts g'))%nat.
Proof.
  intros Hg. destruct (created_add dropouts g (g' - g)) as [l E].
  replace (g + (g' - g))%nat with g' in E by lia. rewrite E, length_app. lia.
Qed.

Lemma send_warnings_app (a b c : nat) :
  (a <= b <= c)%nat -> send_warnings accepts a b ++ send_warnings accepts b c = send_warnings accepts a c.
Proof.
  intros Ho. unfold send_warnings. rewrite <- fmap_app, <- filter_app. do 2 f_equal.
  replace (c - a)%nat with ((b - a) + (c - b))%nat by lia. rewrite seq_app. do 2 f_equal. lia.
Qed.

Let made (g : nat) : nat := length (created (m_dropouts cf) g).

Lemma frames_run (m g : nat) p :
  at_slot g p -> (forall i, (i < m)%nat -> timestamp p = tick_time ((g + i) / tick_frames)) ->
  exists p', produce_frames args cf time_to_wait accepts m p
      = Ret (p', send_warnings accepts (made g) (made (g + m)))
    /\ at_slot (g + m) p' /\ timestamp p' = timestamp p.
Proof.
  revert g p. induction m as [|m IH]; intros g p Hp Ht; cbn [produce_frames].
  - exists p. rewrite Nat.add_0_r. unfold send_warnings. by rewrite Nat.sub_diag.
  - destruct (frame_step g p Hp) as (p1 & -> & Hp1 & Ht1).
    { by rewrite (Ht 0%nat ltac:(lia)), Nat.add_0_r. }
    outcome. destruct (IH (S g) p1 Hp1) as (p2 & -> & Hp2 & Ht2).
    { intros i Hi. rewrite Ht1, (Ht (S i)) by lia. do 2 f_equal. lia. }
    outcome. exists p2. rewrite Nat.add_succ_r. cbn [Nat.add] in *.
    rewrite send_warnings_app by (split; apply created_mono; lia). by rewrite Ht2, Ht1.
Qed.

Lemma tick_time_S (t : nat) :
  u64 (tick_time t + u64 (m_time_tick_diff args * get_num_frames (default_element T))) = tick_time (S t).
Proof.
  unfold tick_time, u64. rewrite <- Zplus_mod. f_equal. lia.
Qed.

Lemma loop_run (clock : nat -> Z) (spins turns t n : nat) l p times n' l' :
  at_slot (t * tick_frames) p -> timestamp p = tick_time t ->
  limit_loop clock turns spins n l = Ret (times, n', l') ->
  exists p', produce_loop args cf time_to_wait accepts clock spins turns n l p
      = Ret (p', l', n', send_warnings accepts (made (t * tick_frames)) (made ((t + turns) * tick_frames)))
    /\ at_slot ((t + turns) * tick_frames) p'.
Proof.
  revert t n l p times. induction turns as [|turns IH]; intros t n l p times Hp Ht Hl;
    cbn [produce_loop limit_loop] in *.
  - injection Hl as <- <- <-. exists p. rewrite Nat.add_0_r. unfold send_warnings. by rewrite Nat.sub_diag.
  - apply bind_Ret_inv in Hl as ([n1 l1] & E1 & Hl).
    apply bind_Ret_inv in Hl as ([[times1 n2] l2] & Hl & [= <- <- <-]).
    fold tick_frames. destruct (frames_run tick_frames (t * tick_frames) p Hp) as (p1 & -> & Hp1 & Ht1).
    { intros i Hi. by rewrite Nat.div_add_l, Nat.div_small, Nat.add_0_r by lia. }
    outcome. rewrite element_at_start. outcome. rewrite E1. outcome. rewrite num_frames_const.
    rewrite Ht1, Ht, tick_time_S.
    replace (t * tick_frames + tick_frames)%nat with (S t * tick_frames)%nat in * by lia.
    destruct (IH (S t) n1 l1 (set_production_timestamp (tick_time (S t)) p1) times1) as (p2 & -> & Hp2);
      [by destruct Hp1; split|done..|].
    outcome. exists p2. rewrite Nat.add_succ_r. cbn [Nat.add] in *.
    rewrite send_warnings_app by (split; apply created_mono; lia). done.
Qed.
End spec.

(** [conf] of a new emulator on a file with a whole element. *)
Lemma conf_usable {T : Type} `{ReadoutLaws T} `{EM : EmulatedType T} args what emu files draw
    words errors no_errors rand bytes (previous_ts : Z) :
  0 < sizeof T <= INT_MAX -> files (get_data_file_name emu) = Some bytes ->
  (0 < whole_chunks bytes (sizeof T))%nat -> Z.of_nat (whole_chunks bytes (sizeof T)) <= INT_MAX ->
  tables_ok words errors no_errors -> 0 < get_random_population_size emu ->
  exists e w cf, conf (T:=T) args what emu files draw words errors no_errors rand (new_emulator previous_ts)
      = Ret (e, w)
    /\ m_configuration e = Some cf /\ get (m_file_source cf) = bytes /\ m_t0_now cf = get_set_t0 emu
    /\ m_error_bit_generator e = generate words errors no_errors new_generator
    /\ usable (T:=T) cf (m_error_bit_generator e)
    /\ (m_generate_periodic_adc_pattern cf = true -> m_channel (m_pattern_generator e) <> [])
    /\ m_index (m_pattern_generator e) = 0.
Proof.
  intros Hs Hfile Hne Hl Htab Hpop. unfold conf. cbn [new_emulator m_configuration].
  rewrite Hfile. rewrite i32_small by (unfold INT_MAX in *; lia).
  destruct (read_fresh what bytes (get_data_file_name emu) (get_input_file_size_limit emu) (sizeof T))
    as (s & w & -> & Hget & Hn); [lia|done|]. outcome.
  set (size := if SFeqb (m_dropout_rate args) (S754_zero false) then 1 else get_random_population_size emu).
  assert (Hsize : 0 < size) by (unfold size; destruct SFeqb; lia).
  destruct (if get_generate_periodic_adc_pattern emu then _ else _) as [pattern wait] eqn:Ep.
  do 3 eexists. split; [reflexivity|]. split; [reflexivity|].
  cbn [m_file_source m_error_bit_generator m_generate_periodic_adc_pattern m_pattern_generator].
  split; [done|]. split; [done|]. split; [done|]. split.
  - split; unfold file_elements; cbn [m_file_source m_dropouts]; rewrite ?Hget; try done.
    + intros E. apply (f_equal length) in E. rewrite length_fmap, length_seq in E. cbn in E. lia.
    + intros n. by apply nexts_return.
  - destruct (get_generate_periodic_adc_pattern emu); injection Ep as <- <-; [|done].
    split; [|done]. intros _ E. apply (f_equal length) in E. cbn in E.
    rewrite length_fmap, length_seq in E. lia.
Qed.

Lemma at_slot_start {T : Type} `{ReadoutLaws T} `{EM : EmulatedType T} args (cf : configuration)
    ts_0 gen channels (p : production (T:=T)) :
  offset p = 0 -> dropout_index p = 0 -> bits p = gen ->
  m_channel (pattern p) = channels -> m_index (pattern p) = 0 -> packets_tot p = 0 -> sent p = [] ->
  at_slot args cf ts_0 gen channels 0 p.
Proof.
  intros Ho Hd Hb Hc Hi Hp Hs.
  split; cbn [created seq filter list_filter length]; rewrite ?Ho, ?Hd, ?Hi, ?Hp, ?Hs, ?Hb.
  - left. by rewrite Nat.Div0.mod_0_l.
  - by rewrite Nat.Div0.mod_0_l.
  - by exists [].
  - split; [done|lia].
  - done.
  - constructor.
Qed.

(** ** Properties *)

(** What the emulator sends.  Configured with a file that holds a whole
    element, started, and run for any number of ticks in which the rate limiter
    returns, it never fails and the payloads it sends are, one for each frame
    slot the dropouts let through: the elements of the file in turn, over and over
    (a slot that is dropped uses up no element), with the timestamp of their tick,
    the configured ids, the next words of the error bit generator, and possibly a
    lifted channel of the periodic pattern.  Each refused payload gives one
    warning, and all are counted. *)
Theorem emulation_correct {T : Type} `{ReadoutLaws T} `{EM : EmulatedType T}
    (args : emulator_args) (what : issue -> string) (emu : emulation_settings)
    (files : string -> option (list byte)) (draw : nat -> spec_float) (words errors no_errors : list Z)
    (rand : nat -> Z) (bytes : list byte) (previous_ts : Z) :
  0 < sizeof T <= INT_MAX -> files (get_data_file_name emu) = Some bytes ->
  (0 < whole_chunks bytes (sizeof T))%nat -> Z.of_nat (whole_chunks bytes (sizeof T)) <= INT_MAX ->
  tables_ok words errors no_errors -> 0 < get_random_population_size emu ->
  exists e w cf, conf (T:=T) args what emu files draw words errors no_errors rand (new_emulator previous_ts)
      = Ret (e, w)
    /\ m_configuration e = Some cf /\ get (m_file_source cf) = bytes
    /\ forall clock n n1 e1 l spins turns times n2 l2 accepts current_time,
      start args clock n e = Ret (n1, e1) -> m_rate_limiter e1 = Some l ->
      limit_loop clock turns spins n1 l = Ret (times, n2, l2) ->
      exists e2 payloads w2,
        run_produce (T:=T) args accepts clock spins turns n1 current_time e1 = Ret (e2, payloads, n2, w2)
        /\ Forall2 (lifted cf (m_channel (m_pattern_generator e))) payloads
             (faked_payloads args cf
                (if get_set_t0 emu then u64 (625 * current_time) / 10
                 else get_timestamp (file_element (T:=T) cf 0))
                (generate words errors no_errors new_generator) (turns * tick_frames args))
        /\ w2 = send_warnings cf accepts 0 (length payloads)
        /\ (Z.of_nat (length payloads) <= INT_MAX -> m_packet_count_tot e2 = Z.of_nat (length payloads)).
Proof.
  intros Hs Hfile Hne Hl Htab Hpop.
  destruct (conf_usable args what emu files draw words errors no_errors rand bytes previous_ts Hs Hfile Hne Hl
    Htab Hpop) as (e & w & cf & Ec & Hcf & Hget & Ht0 & Hgen & Hus & Hch & Hi).
  exists e, w, cf. split; [done|]. split; [done|]. split; [done|].
  intros clock n n1 e1 l spins turns times n2 l2 accepts current_time Hstart Hlim Hloop.
  unfold start in Hstart. apply bind_Ret_inv in Hstart as ([n1' l'] & _ & [= <- <-]).
  cbn in Hlim. injection Hlim as ->. rewrite <- Hgen.
  set (ts_0 := if get_set_t0 emu then _ else _).
  unfold run_produce. cbn [m_configuration m_rate_limiter]. rewrite Hcf. unfold first_timestamp.
  rewrite (element_at_start cf _ Hus). outcome. rewrite Ht0. fold ts_0.
  cbn [m_time_to_wait]. match goal with |- context [produce_loop _ _ _ _ _ _ _ _ _ ?p] => set (p0 := p) end.
  destruct (loop_run args cf ts_0 (m_error_bit_generator e) Hus (m_time_to_wait e) accepts
    (m_channel (m_pattern_generator e)) Hch clock spins turns 0 n1' l p0 times n2 l2) as (p & Ep & Hp);
    [| |exact Hloop|].
  { by apply at_slot_start. }
  { unfold tick_time. rewrite Z.mul_0_l, Z.add_0_r. symmetry. cbn [p0 timestamp]. apply u64_small. unfold ts_0.
    pose proof (u64_range (625 * current_time)). pose proof (timestamp_range (file_element (T:=T) cf 0)).
    unfold UINT64_MAX in *. destruct (get_set_t0 emu); [|lia].
    split; [apply Z.div_pos; lia|]. apply Z.div_lt_upper_bound; lia. }
  rewrite Ep. outcome. destruct Hp as [_ _ _ _ Hpk Hsent]. cbn [Nat.add] in Hpk, Hsent.
  pose proof (Forall2_length _ _ _ Hsent) as Hlen. unfold faked_payloads in Hlen at 1.
  rewrite length_imap in Hlen. do 3 eexists. split; [reflexivity|]. split; [exact Hsent|].
  rewrite Hlen. split; [done|exact Hpk].
Qed.

(** [conf] accepts a file that does not hold one whole element (an empty one,
    for instance, without even a warning), and the producing thread then reads
    outside the buffer at once: it takes its first timestamp from an element that
    is not there. *)
Theorem small_file_undefined {T : Type} `{ReadoutLaws T} `{EM : EmulatedType T}
    (args : emulator_args) (what : issue -> string) (emu : emulation_settings)
    (files : string -> option (list byte)) (draw : nat -> spec_float) (words errors no_errors : list Z)
    (rand : nat -> Z) (bytes : list byte) (previous_ts : Z) :
  0 < sizeof T <= INT_MAX -> files (get_data_file_name emu) = Some bytes ->
  Z.of_nat (length bytes) < sizeof T ->
  exists e w, conf (T:=T) args what emu files draw words errors no_errors rand (new_emulator previous_ts)
      = Ret (e, w)
    /\ (bytes = [] -> 0 <= get_input_file_size_limit emu -> w = [])
    /\ forall clock n n1 e1 accepts spins turns current_time,
      start args clock n e = Ret (n1, e1) ->
      run_produce (T:=T) args accepts clock spins turns n1 current_time e1 = Undefined.
Proof.
  intros Hs Hfile Hshort. unfold conf, read. cbn [new_emulator m_configuration new_file_source ifs_open].
  rewrite Hfile. rewrite i32_small by (unfold INT_MAX in *; lia). outcome.
  destruct (if get_generate_periodic_adc_pattern emu then _ else _) as [pattern wait].
  eexists _, _. split; [reflexivity|]. cbn [new_file_source m_input_limit m_chunk_size]. split.
  - intros -> Hlim. change (Z.of_nat (length [])) with 0. destruct (Z.ltb_spec (get_input_file_size_limit emu) 0); [lia|].
    rewrite Z.rem_0_l by lia. change (i32 0) with 0. by rewrite andb_false_r.
  - intros clock n n1 e1 accepts spins turns current_time Hstart.
    unfold start in Hstart. apply bind_Ret_inv in Hstart as ([n1' l'] & _ & [= <- <-]).
    unfold run_produce. cbn [m_configuration m_rate_limiter]. unfold first_timestamp, element_at.
    cbn [m_file_source get m_input_buffer]. unfold get. cbn [m_input_buffer]. rewrite app_nil_r.
    rewrite Z.mul_0_l. change (u64 0) with 0.
    by destruct (Z.ltb_spec (Z.of_nat (length bytes)) (0 + sizeof T)); [|lia].
Qed.

(** ** The properties at work: a file of two elements of two bytes and one byte
    more, every third frame dropped *)
Import Chunk.

#[export] Instance chunk_emulated : EmulatedType chunk := {
  sizeof := 2;
  of_bytes l := mkChunk (nth 0 l 0 + 256 * nth 1 l 0);
  fake_timestamps ts _ _ := mkChunk ts;
  fake_geoid _ _ _ x := x;
  fake_frame_errors _ x := x;
  fake_adc_pattern _ x := x }.

Definition sample_args : emulator_args :=
  mkArgs 10 (binary_normalize 53 1024 1 (-1) false) one_khz 2.

Definition sample_emulation (size : Z) : emulation_settings :=
  mkEmulation (mkSourceID 1 7) 1 2 3 false 1000 "frames.bin" size true None.

Definition sample_file (bytes : list byte) : string -> option (list byte) :=
  fun name => if String.eqb name "frames.bin" then Some bytes else None.

(** 0.75, 1, 0.25, 0, ...: the third is below the rate of 0.5. *)
Definition sample_draw (i : nat) : spec_float :=
  binary_normalize 53 1024 (nth i [3; 4; 1] 0) (-2) false.

Lemma sample_tables_ok : tables_ok sample_words (replicate 1000 2) (replicate 1000 3).
Proof.
  unfold tables_ok. rewrite !length_replicate. unfold sample_words. rewrite length_seqZ.
  split_and!; [done..| |]; apply Forall_forall; intros x [-> _]%elem_of_replicate; lia.
Defined.

Lemma sample_start (e : emulator) :
  exists e1, start sample_args sample_clock 0 e = Ret (1%nat, e1) /\ m_rate_limiter e1 = Some sample_limiter.
Proof.
  unfold start. change (m_rate_khz sample_args) with one_khz. rewrite sample_limiter_is_new. outcome.
  by eexists.
Defined.

(** Of the six frames of three ticks two are dropped. *)
Lemma emulation_correct_witness :
  exists e w e1 e2 payloads n2 w2,
    conf (T:=chunk) sample_args (fun _ => EmptyString) (sample_emulation 3)
      (sample_file [1; 0; 2; 0; 9]) sample_draw sample_words (replicate 1000 2) (replicate 1000 3)
      Z.of_nat (new_emulator 0) = Ret (e, w)
    /\ start sample_args sample_clock 0 e = Ret (1%nat, e1)
    /\ run_produce (T:=chunk) sample_args (fun _ => true) sample_clock 10 3 1 0 e1
       = Ret (e2, payloads, n2, w2)
    /\ length payloads = 4%nat.
Proof.
  destruct (emulation_correct (T:=chunk) sample_args (fun _ => EmptyString) (sample_emulation 3)
    (sample_file [1; 0; 2; 0; 9]) sample_draw sample_words (replicate 1000 2) (replicate 1000 3)
    Z.of_nat [1; 0; 2; 0; 9] 0) as (e & w & cf & Ec & Hcf & _ & Hrun);
    [by vm_compute|done|by vm_compute; lia|by vm_compute|exact sample_tables_ok|by vm_compute|].
  destruct (sample_start e) as (e1 & Es & El).
  destruct (limit_loop sample_clock 3 10 1 sample_limiter) as [[[times n2] l2]| | | |] eqn:Eloop;
    [|by vm_compute in Eloop..].
  destruct (Hrun sample_clock 0%nat 1%nat e1 sample_limiter 10%nat 3%nat times n2 l2 (fun _ => true) 0 Es El Eloop)
    as (e2 & payloads & w2 & Er & Hsent & _).
  exists e, w, e1, e2, payloads, n2, w2. split; [exact Ec|]. split; [exact Es|]. split; [exact Er|].
  apply Forall2_length in Hsent as ->. unfold faked_payloads. rewrite length_imap.
  assert (Ed : match conf (T:=chunk) sample_args (fun _ => EmptyString) (sample_emulation 3)
    (sample_file [1; 0; 2; 0; 9]) sample_draw sample_words (replicate 1000 2) (replicate 1000 3)
    Z.of_nat (new_emulator 0) with
    | Ret (e, _) => m_dropouts <$> m_configuration e | _ => None end = Some [true; true; false])
    by (vm_compute; reflexivity).
  rewrite Ec, Hcf in Ed. injection Ed as ->. by vm_compute.
Defined.

Lemma small_file_undefined_witness :
  exists e w e1,
    conf (T:=chunk) sample_args (fun _ => EmptyString) (sample_emulation 3) (sample_file [])
      sample_draw sample_words [] [] Z.of_nat (new_emulator 0) = Ret (e, w) /\ w = []
    /\ start sample_args sample_clock 0 e = Ret (1%nat, e1)
    /\ run_produce (T:=chunk) sample_args (fun _ => true) sample_clock 10 3 1 0 e1 = Undefined.
Proof.
  destruct (small_file_undefined (T:=chunk) sample_args (fun _ => EmptyString) (sample_emulation 3)
    (sample_file []) sample_draw sample_words [] [] Z.of_nat [] 0) as (e & w & Ec & Hw & Hrun);
    [by vm_compute|done|by vm_compute|].
  destruct (sample_start e) as (e1 & Es & _).
  exists e, w, e1. split; [exact Ec|]. split; [by apply Hw; vm_compute|]. split; [exact Es|].
  exact (Hrun sample_clock 0%nat 1%nat e1 (fun _ => true) 10%nat 3%nat 0 Es).
Defined.
