(* ===== verification/DataHandling.v ===== *)
(** models/DataHandlingModel.hpp and models/detail/DataHandlingModel.hxx: the
    consumer that feeds the latency buffer and the postprocessors, the time
    synchronisation thread, the dispatch of data requests, and run control. *)
From S2P Require Import Prelude IterableQueue ReadoutTypes LatencyBuffer BinarySearchQueue.
From S2P Require Import RawDataProcessor RequestHandler.

(** ** The counters of the model *)
Inductive dh_counter :=
| m_num_payloads | m_sum_payloads | m_num_requests | m_sum_requests
| m_rawq_timeout_count | m_stats_packet_count | m_num_payloads_overwritten.

#[export] Instance dh_counter_eq_dec : EqDecision dh_counter.
Proof. solve_decision. Defined.

Definition dh_stats := counters dh_counter.

(** [++m_num_payloads; ++m_sum_payloads; ++m_stats_packet_count;] *)
Definition count_payload (s : dh_stats) : dh_stats :=
  incr m_stats_packet_count (incr m_sum_payloads (incr m_num_payloads s)).

(** [++m_num_requests; ++m_sum_requests;] *)
Definition count_request (s : dh_stats) : dh_stats :=
  incr m_sum_requests (incr m_num_requests s).

(** ** Initialisation: the words of a connection name *)
Section words.

(** [find_first_not_of(delim, pos)] and [find(delim, pos)]; [None] is [npos]. *)
Fixpoint find_from {A} (test : A -> bool) (l : list A) (pos : nat) : option nat :=
  match l, pos with
  | [], _ => None
  | x :: l, O => if test x then Some O else S <$> find_from test l 0
  | _ :: l, S pos => S <$> find_from test l pos
  end.

Context {A : Type} (is_delim : A -> bool).

(** The [while] loop; [end_] is where the search goes on, [None] for [npos]. *)
Fixpoint words_loop (fuel : nat) (conn_name : list A) (end_ : option nat) : outcome (list (list A)) :=
  match end_ with
  | None => Ret []
  | Some e =>
      match find_from (fun x => negb (is_delim x)) conn_name e with
      | None => Ret []
      | Some start =>
          match fuel with
          | O => OutOfFuel
          | S fuel =>
              let end_ := find_from is_delim conn_name start in
              let word := match end_ with
                          | Some e => take (e - start) (drop start conn_name)
                          | None => drop start conn_name
                          end in
              rest ← words_loop fuel conn_name end_;
              Ret (word :: rest)
          end
      end
  end.

Definition words (conn_name : list A) : outcome (list (list A)) :=
  words_loop (length conn_name) conn_name (Some 0%nat).

(** The words of a name, read from left to right. *)
Fixpoint split_words (l : list A) (word : list A) : list (list A) :=
  match l with
  | [] => match word with [] => [] | _ => [word] end
  | x :: l =>
      if is_delim x then match word with [] => split_words l [] | _ => word :: split_words l [] end
      else split_words l (word ++ [x])
  end.
End words.

(** ** The pointers the postprocessors get

    [P] is what stands for a [const ReadoutType*]: of [back()], which may be null, and of
    the element an iterator is at. *)
Class Pointers {T B It : Type} (LB : LatencyBuffer T B It) (P : Type) := {
  pt_back : B -> outcome P;
  pt_iter : B -> It -> outcome P }.

(** A pointer as what it points to when it is made; ModuleLife.v has the slots of the
    ring, which may be destroyed before they are read. *)
#[export] Instance pointees {T B It : Type} (LB : LatencyBuffer T B It) : Pointers LB (option T) := {
  pt_back := lb_back;
  pt_iter b it := x ← lb_deref b it; Ret (Some x) }.

(** ** The consumer *)
Section consumer.
Context {T B It P Q F : Type} `{RT : ReadoutType T} `{LB : LatencyBuffer T B It}
  `{!PointerQueue P Q} `{!Pointers LB P}.

(** Settings fixed at [init] and [start]; the cutoff is the request handler's. *)
Record consumer_conf := mkConsumerConf {
  m_processing_delay_ticks : Z;
  m_run_number : Z;
  supports_cutoff_timestamp : bool;
  get_cutoff_timestamp : Z }.

(** The postprocessors get [back()], which may be a null pointer. *)
Record consumer := mkConsumer {
  m_latency_buffer_impl : B;
  m_raw_processor_impl : processor T Q F;
  m_stats : dh_stats }.

Context (cfg : consumer_conf).

(** The check for data that arrive too late. *)
Definition cutoff_check (payload : T) : list issue :=
  if supports_cutoff_timestamp cfg then
    let diff1 := i64 (u64 (get_timestamp payload - get_cutoff_timestamp cfg)) in
    if diff1 <=? 0 then
      [DataPacketArrivedTooLate (m_run_number cfg) (get_timestamp payload) (get_cutoff_timestamp cfg) diff1]
    else []
  else [].

Definition process_item (payload : T) (st : consumer) : outcome (consumer * list issue) :=
  let payload := preprocess_item payload (m_raw_processor_impl st) in
  let late := cutoff_check payload in
  '(written, b) ← lb_write payload (m_latency_buffer_impl st);
  let s := if negb written then incr m_num_payloads_overwritten (m_stats st) else m_stats st in
  if m_processing_delay_ticks cfg =? 0 then
    back ← pt_back b;
    let '(m, issues) := postprocess_item back (m_raw_processor_impl st) in
    Ret (mkConsumer b m (count_payload s), late ++ issues)
  else Ret (mkConsumer b (m_raw_processor_impl st) s, late).

(** The callback entry: the same, but always postprocessed at once. *)
Definition consume_payload (payload : T) (st : consumer) : outcome (consumer * list issue) :=
  let payload := preprocess_item payload (m_raw_processor_impl st) in
  let late := cutoff_check payload in
  '(written, b) ← lb_write payload (m_latency_buffer_impl st);
  let s := if negb written then incr m_num_payloads_overwritten (m_stats st) else m_stats st in
  back ← pt_back b;
  let '(m, issues) := postprocess_item back (m_raw_processor_impl st) in
  Ret (mkConsumer b m (count_payload s), late ++ issues).

Fixpoint process_items (items : list T) (st : consumer) : outcome (consumer * list issue) :=
  match items with
  | [] => Ret (st, [])
  | x :: items =>
      '(st, l1) ← process_item x st;
      '(st, l2) ← process_items items st;
      Ret (st, l1 ++ l2)
  end.

(** *** Delayed postprocessing *)

(** [for (auto it = start_iter; it != end_iter; ++it)]: the pointers go to the
    postprocessors, which dereference them. *)
Fixpoint delayed_loop (fuel : nat) (b : B) (it end_iter : It) (m : processor T Q F) (s : dh_stats)
    : outcome (processor T Q F * dh_stats * list issue) :=
  if lb_eqb it end_iter then Ret (m, s, [])
  else match fuel with
  | O => OutOfFuel
  | S fuel =>
      x ← pt_iter b it;
      let '(m, l1) := postprocess_item x m in
      '(m, s, l2) ← delayed_loop fuel b (lb_next b it) end_iter m (count_payload s);
      Ret (m, s, l1 ++ l2)
  end.

(** The local variables of [run_consume]. *)
Record cycle := mkCycle { first_cycle : bool; last_post_proc_time : Z; processed_element : T }.

(** The block after the reception; [now] in nanoseconds. *)
Definition delayed_turn (now : Z) (cy : cycle) (st : consumer)
    : outcome (cycle * consumer * list issue) :=
  let b := m_latency_buffer_impl st in
  if negb (m_processing_delay_ticks cfg =? 0) && (0 <? lb_occupancy b) then
    let milliseconds := Z.quot (now - last_post_proc_time cy) 1000000 in
    if 1 <? milliseconds then
      tail ← lb_back b;
      newest ← deref tail;
      let newest_ts := get_timestamp newest in
      processed ←
        (if first_cycle cy then
           head ← lb_front b;
           oldest ← deref head;
           Ret (set_timestamp (get_timestamp oldest) (processed_element cy))
         else Ret (processed_element cy));
      if m_processing_delay_ticks cfg <? u64 (newest_ts - get_timestamp processed) then
        let end_win_ts := u64 (newest_ts - m_processing_delay_ticks cfg) in
        start_iter ← lb_lower_bound b processed false;
        let processed := set_timestamp end_win_ts processed in
        end_iter ← lb_lower_bound b processed false;
        '(m, s, issues) ← delayed_loop (Z.to_nat (lb_occupancy b)) b start_iter end_iter
            (m_raw_processor_impl st) (m_stats st);
        Ret (mkCycle false now processed, mkConsumer b m s, issues)
      else Ret (mkCycle false now processed, st, [])
    else Ret (cy, st, [])
  else Ret (cy, st, []).

(** One turn of [run_consume]: what was received (already transformed to the
    ReadoutType), or a timeout, then the delayed postprocessing. *)
Definition consume_turn (input : option (list T) * Z) (cy : cycle) (st : consumer)
    : outcome (cycle * consumer * list issue) :=
  '(st, l1) ←
    match input.1 with
    | Some items => process_items items st
    | None => Ret (mkConsumer (m_latency_buffer_impl st) (m_raw_processor_impl st)
                     (incr m_rawq_timeout_count (m_stats st)), [])
    end;
  '(cy, st, l2) ← delayed_turn input.2 cy st;
  Ret (cy, st, l1 ++ l2).

Fixpoint consume_turns (inputs : list (option (list T) * Z)) (cy : cycle) (st : consumer)
    : outcome (cycle * consumer * list issue) :=
  match inputs with
  | [] => Ret (cy, st, [])
  | input :: inputs =>
      '(cy, st, l1) ← consume_turn input cy st;
      '(cy, st, l2) ← consume_turns inputs cy st;
      Ret (cy, st, l1 ++ l2)
  end.

(** [run_consume], for the inputs of the turns made while the run marker is set. *)
Definition run_consume (started : Z) (inputs : list (option (list T) * Z)) (st : consumer)
    : outcome (consumer * list issue) :=
  let s := exchange0 [m_rawq_timeout_count; m_num_payloads; m_sum_payloads; m_stats_packet_count]
             (m_stats st) in
  '(_, st, issues) ← consume_turns inputs (mkCycle true started (default_element T))
      (mkConsumer (m_latency_buffer_impl st) (m_raw_processor_impl st) s);
  Ret (st, issues).
End consumer.
Arguments consumer : clear implicits.
Arguments cycle : clear implicits.

(** ** Time synchronisation *)

(** dfmessages::TimeSync, as far as it is set. *)
Record TimeSync := mkTimeSync {
  daq_time : Z;
  ts_run_number : Z;
  ts_sequence_number : Z;
  source_pid : Z }.

Record timesync_conf := mkTimesyncConf {
  run_number_of_sync : Z;
  m_pid_of_current_process : Z;
  m_fake_trigger : bool;
  m_timesync_connection_name : string;
  timesync_sourceid : SourceID }.

(** The local variables of [run_timesync], and the fake trigger number. *)
Record timesync_state := mkTimesyncState {
  msg_seqno : Z;
  prev_timestamp : Z;
  zero_timestamp_count : Z;
  duplicate_timestamp_count : Z;
  total_timestamp_count : Z;
  m_current_fake_trigger_id : Z }.

Definition us : Z := 1000.

(** The request of a fake trigger. *)
Definition fake_request (trigger_id daq : Z) : DataRequest :=
  let trigger_timestamp := if 500 * us <? daq then u64 (daq - 500 * us) else 0 in
  let window_begin := if 100 <? trigger_timestamp then u64 (trigger_timestamp - 100) else 0 in
  mkDataRequest 0 trigger_id 0 0 trigger_timestamp window_begin (u64 (window_begin + 300000))
    "data_fragments_q".

(** One turn of the loop for the DAQ time read: the message sent, the request
    issued, the warnings.  [send] is whether the sender takes a message. *)
Definition timesync_turn (cfg : timesync_conf) (send : TimeSync -> bool) (daq : Z)
    (v : timesync_state) (s : dh_stats)
    : option TimeSync * option DataRequest * timesync_state * dh_stats * list issue :=
  let total := u64 (total_timestamp_count v + 1) in
  if negb (daq =? 0) && negb (daq =? prev_timestamp v) then
    let seqno := u64 (msg_seqno v + 1) in
    let msg := mkTimeSync daq (run_number_of_sync cfg) seqno (m_pid_of_current_process cfg) in
    let issues := if send msg then []
                  else [TimeSyncTransmissionFailed (timesync_sourceid cfg) (m_timesync_connection_name cfg)] in
    if m_fake_trigger cfg then
      let trigger_id := i32 (m_current_fake_trigger_id v + 1) in
      (Some msg, Some (fake_request trigger_id daq),
       mkTimesyncState seqno daq (zero_timestamp_count v) (duplicate_timestamp_count v) total trigger_id,
       count_request s, issues)
    else
      (Some msg, None,
       mkTimesyncState seqno daq (zero_timestamp_count v) (duplicate_timestamp_count v) total
         (m_current_fake_trigger_id v), s, issues)
  else
    (None, None,
     mkTimesyncState (msg_seqno v) (prev_timestamp v)
       (if daq =? 0 then u64 (zero_timestamp_count v + 1) else zero_timestamp_count v)
       (if daq =? prev_timestamp v then u64 (duplicate_timestamp_count v + 1)
        else duplicate_timestamp_count v) total (m_current_fake_trigger_id v), s, []).

(** The messages of a run, one turn per DAQ time read. *)
Fixpoint timesync_turns (cfg : timesync_conf) (send : TimeSync -> bool) (daqs : list Z)
    (v : timesync_state) (s : dh_stats) : list TimeSync * timesync_state * dh_stats :=
  match daqs with
  | [] => ([], v, s)
  | daq :: daqs =>
      let '(msg, _, v, s, _) := timesync_turn cfg send daq v s in
      let '(msgs, v, s) := timesync_turns cfg send daqs v s in
      (match msg with Some m => m :: msgs | None => msgs end, v, s)
  end.

Definition run_timesync (cfg : timesync_conf) (send : TimeSync -> bool) (daqs : list Z)
    (trigger_id : Z) (s : dh_stats) : list TimeSync * timesync_state * dh_stats :=
  timesync_turns cfg send daqs (mkTimesyncState 0 0 0 0 0 trigger_id)
    (exchange0 [m_num_requests; m_sum_requests] s).

(** ** Requests *)

(** [dispatch_requests]: the request passed to [issue_request], if any. *)
Definition dispatch_requests (sourceid component : SourceID) (data_request : DataRequest) (s : dh_stats)
    : option DataRequest * dh_stats * list issue :=
  if decide (component = sourceid) then (Some data_request, count_request s, [])
  else (None, s, [RequestSourceIDMismatch sourceid component]).

(** ** Run control and monitoring *)

(** The counters [start] clears. *)
Definition start_dh_stats (s : dh_stats) : dh_stats :=
  exchange0 [m_sum_payloads; m_num_payloads; m_sum_requests; m_num_requests;
    m_num_payloads_overwritten; m_stats_packet_count; m_rawq_timeout_count] s.

(** opmon::DataHandlerInfo, but for the rate, which is only reported. *)
Record DataHandlerInfo := mkDataHandlerInfo {
  sum_payloads : Z;
  num_payloads : Z;
  num_data_input_timeouts : Z;
  num_payloads_overwritten : Z;
  sum_requests : Z;
  num_requests : Z;
  last_daq_timestamp : Z }.

Definition generate_dh_opmon_data (last_daq_time : Z) (s : dh_stats) : DataHandlerInfo * dh_stats :=
  (mkDataHandlerInfo (u64 (s m_sum_payloads)) (u64 (s m_num_payloads)) (u64 (s m_rawq_timeout_count))
     (u64 (s m_num_payloads_overwritten)) (u64 (s m_sum_requests)) (u64 (s m_num_requests)) last_daq_time,
   exchange0 [m_num_payloads; m_rawq_timeout_count; m_stats_packet_count; m_num_payloads_overwritten;
     m_num_requests] s).

(** ** Lemmas *)

Section words_lemmas.
Context {A : Type} (is_delim : A -> bool).
Implicit Types (l word : list A).

Lemma find_from_drop (test : A -> bool) l (pos : nat) :
  find_from test l pos = Nat.add pos <$> find_from test (drop pos l) 0.
Proof.
  revert pos. induction l as [|x l IH]; intros pos; [by destruct pos|].
  destruct pos as [|pos]; cbn [find_from drop].
  - destruct (test x); [done|]. by destruct (find_from test l 0).
  - rewrite IH. by destruct (find_from test (drop pos l) 0).
Qed.

(** What a search from the start finds splits the list. *)
Lemma find_from_split (test : A -> bool) l :
  match find_from test l 0 with
  | None => Forall (fun x => test x = false) l
  | Some n => exists x, l !! n = Some x /\ test x = true /\ Forall (fun x => test x = false) (take n l)
  end.
Proof.
  induction l as [|x l IH]; cbn; [done|]. destruct (test x) eqn:Ex; [by exists x|].
  destruct (find_from test l 0) as [n|]; cbn.
  - destruct IH as (y & Hy & Hty & Hall). exists y. split; [done|]. split; [done|]. by constructor.
  - by constructor.
Qed.

Lemma split_words_skip l l' :
  Forall (fun x => is_delim x = true) l -> split_words is_delim (l ++ l') [] = split_words is_delim l' [].
Proof. induction 1 as [|x l Hx _ IH]; [done|]. cbn. by rewrite Hx. Qed.

Lemma split_words_word l l' word :
  Forall (fun x => is_delim x = false) l ->
  split_words is_delim (l ++ l') word = split_words is_delim l' (word ++ l).
Proof.
  intros Hl. revert word. induction Hl as [|x l Hx _ IH]; intros word; cbn.
  - by rewrite app_nil_r.
  - rewrite Hx, IH, <- app_assoc. done.
Qed.

Lemma words_loop_split (fuel : nat) l (e : nat) :
  (length l - e <= fuel)%nat -> words_loop is_delim fuel l (Some e) = Ret (split_words is_delim (drop e l) []).
Proof.
  revert e. induction fuel as [|fuel IH]; intros e Hf; cbn [words_loop];
    rewrite find_from_drop;
    pose proof (find_from_split (fun x => negb (is_delim x)) (drop e l)) as Hskip;
    destruct (find_from _ (drop e l) 0) as [n|]; cbn [fmap option_fmap option_map].
  - destruct Hskip as (x & Hx & _). apply lookup_lt_Some in Hx. rewrite length_drop in Hx. lia.
  - rewrite <- (app_nil_r (drop e l)), split_words_skip; [done|].
    eapply Forall_impl; [exact Hskip|]. intros x Hx. by apply negb_false_iff in Hx.
  - destruct Hskip as (x & Hx & Htx & Hall).
    pose proof (lookup_lt_Some _ _ _ Hx) as Hn. rewrite length_drop in Hn.
    rewrite find_from_drop.
    rewrite <- (take_drop n (drop e l)), split_words_skip, drop_drop.
    2:{ eapply Forall_impl; [exact Hall|]. intros y Hy. by apply negb_false_iff in Hy. }
    pose proof (find_from_split is_delim (drop (e + n) l)) as Hword.
    destruct (find_from is_delim (drop (e + n) l) 0) as [k|]; cbn [fmap option_fmap option_map].
    + destruct Hword as (d & Hd & Htd & Hallw).
      pose proof (lookup_lt_Some _ _ _ Hd) as Hk. rewrite length_drop in Hk.
      assert (Hkpos : (0 < k)%nat).
      { destruct k; [|lia]. rewrite lookup_drop, Nat.add_0_r in Hd. rewrite lookup_drop in Hx.
        rewrite Hx in Hd. injection Hd as ->. by rewrite Htd in Htx. }
      rewrite IH by lia. outcome.
      replace (e + n + k - (e + n))%nat with k by lia.
      rewrite <- (take_drop k (drop (e + n) l)) at 2. rewrite split_words_word by done.
      rewrite drop_drop, (drop_S l d (e + n + k)) by (by rewrite <- lookup_drop).
      rewrite app_nil_l. cbn [split_words]. rewrite Htd.
      destruct (take k (drop (e + n) l)) eqn:Ew; [|done].
      apply (f_equal length) in Ew. rewrite length_take, length_drop in Ew. cbn in Ew. lia.
    + destruct fuel; cbn [words_loop]; outcome.
      all: rewrite <- (app_nil_r (drop (e + n) l)) at 2; rewrite split_words_word by done; cbn;
        destruct (drop (e + n) l) eqn:Ew; [|done];
        apply (f_equal length) in Ew; rewrite length_drop in Ew; cbn in Ew; lia.
  - rewrite <- (app_nil_r (drop e l)), split_words_skip; [done|].
    eapply Forall_impl; [exact Hskip|]. intros x Hx. by apply negb_false_iff in Hx.
Qed.
End words_lemmas.

Lemma delayed_turn_off {T B It P Q F : Type} `{ReadoutType T} `{LB : LatencyBuffer T B It}
    `{!PointerQueue P Q} `{!Pointers LB P} (cfg : consumer_conf) now cy (st : consumer T B Q F) :
  m_processing_delay_ticks cfg = 0 -> delayed_turn cfg now cy st = Ret (cy, st, []).
Proof. intros Hd. unfold delayed_turn. by rewrite Hd. Qed.

Section consumer_lemmas.
Context {T B It Q F : Type} `{RT : ReadoutType T} `{!ReadoutLaws T}
  `{LB : LatencyBuffer T B It} `{!LatencyBufferLaws T B It} `{!PointerQueue (option T) Q}.
Context (cfg : consumer_conf).
Implicit Types (c : list T) (m : processor T Q F) (s : dh_stats).

(** What the postprocessors are offered, one pointer after the other. *)
Definition postprocess_all (ps : list (option T)) m : processor T Q F :=
  foldl (fun m p => fst (postprocess_item p m)) m ps.

Lemma postprocess_item_functions p m :
  m_preprocess_functions (fst (postprocess_item p m)) = m_preprocess_functions m.
Proof. unfold postprocess_item. by destruct (postprocess_loop _ _ _ _). Qed.

(** The buffer after payloads that find [room] places, and the pointers offered
    on the way: the newest element after each write. *)
Definition stored (room : nat) c (xs : list T) : list T := take room (c ++ xs).

Fixpoint offered (room : nat) c (xs : list T) : list (option T) :=
  match xs with
  | [] => []
  | x :: xs => let c := if decide (length c < room)%nat then c ++ [x] else c in
               last c :: offered room c xs
  end.

(** [s'] counts [n] payloads, [o] of them refused, and [t] timeouts more than [s]. *)
Definition counted (n o t : nat) s s' : Prop :=
  s' m_sum_payloads = s m_sum_payloads + Z.of_nat n
  /\ s' m_num_payloads = s m_num_payloads + Z.of_nat n
  /\ s' m_num_payloads_overwritten = s m_num_payloads_overwritten + Z.of_nat o
  /\ s' m_rawq_timeout_count = s m_rawq_timeout_count + Z.of_nat t.

Definition may_count (n : nat) s : Prop :=
  0 <= s m_sum_payloads <= INT_MAX - Z.of_nat n /\ 0 <= s m_num_payloads <= INT_MAX - Z.of_nat n
  /\ 0 <= s m_num_payloads_overwritten <= INT_MAX - Z.of_nat n
  /\ 0 <= s m_rawq_timeout_count <= INT_MAX - Z.of_nat n.

Lemma counted_trans n1 o1 t1 n2 o2 t2 s1 s2 s3 :
  counted n1 o1 t1 s1 s2 -> counted n2 o2 t2 s2 s3 -> counted (n1 + n2) (o1 + o2) (t1 + t2) s1 s3.
Proof. unfold counted. lia. Qed.

Lemma counted_eq n o t n' o' t' s s' :
  counted n o t s s' -> n = n' -> o = o' -> t = t' -> counted n' o' t' s s'.
Proof. by intros ? -> -> ->. Qed.

Lemma counted_may n o t n' s s' :
  may_count (n + t + n') s -> (o <= n)%nat -> counted n o t s s' -> may_count n' s'.
Proof. unfold may_count, counted. lia. Qed.

(** A payload, written or refused, and counted. *)
Lemma count_payload_counted (written : bool) s :
  0 <= s m_sum_payloads < INT_MAX -> 0 <= s m_num_payloads < INT_MAX ->
  0 <= s m_num_payloads_overwritten < INT_MAX ->
  counted 1 (if written then 0 else 1) 0 s
    (count_payload (if negb written then incr m_num_payloads_overwritten s else s)).
Proof.
  intros H1 H2 H3. unfold count_payload, counted, incr, add_counter, INT_MAX in *.
  destruct written; cbn [negb];
    repeat first [rewrite set_counter_eq | rewrite set_counter_ne by done]; machine; lia.
Qed.

Lemma timeout_counted s :
  0 <= s m_rawq_timeout_count < INT_MAX -> counted 0 0 1 s (incr m_rawq_timeout_count s).
Proof.
  intros H1. unfold counted, incr, add_counter, INT_MAX in *.
  repeat first [rewrite set_counter_eq | rewrite set_counter_ne by done]; machine; lia.
Qed.

Lemma stored_cons (room : nat) c x xs :
  (length c <= room)%nat ->
  stored room (if decide (length c < room)%nat then c ++ [x] else c) xs = stored room c (x :: xs).
Proof.
  intros Hc. unfold stored. case_decide; [by rewrite <- app_assoc|].
  rewrite !take_app_ge by lia. f_equal. by replace (room - length c)%nat with 0%nat by lia.
Qed.

Lemma length_push (room : nat) c x :
  (length c <= room)%nat ->
  (length (if decide (length c < room)%nat then c ++ [x] else c) <= room)%nat.
Proof. intros Hc. case_decide; [rewrite length_app; cbn|]; lia. Qed.

Context `{!FifoLaws T B It}.

(** One payload, without a delay. *)
Lemma process_item_spec (st : consumer T B Q F) c payload :
  m_processing_delay_ticks cfg = 0 -> lb_model (m_latency_buffer_impl st) c ->
  let room := lb_room (m_latency_buffer_impl st) in
  let x := preprocess_item payload (m_raw_processor_impl st) in
  let c' := if decide (length c < room)%nat then c ++ [x] else c in
  exists b' issues,
    process_item cfg payload st
    = Ret (mkConsumer b' (fst (postprocess_item (last c') (m_raw_processor_impl st)))
             (count_payload (if decide (length c < room)%nat then m_stats st
                             else incr m_num_payloads_overwritten (m_stats st))),
           cutoff_check cfg x ++ issues)
    /\ lb_model b' c' /\ lb_room b' = room.
Proof.
  intros Hd Hb. cbn zeta. unfold process_item. rewrite Hd. cbn [Z.eqb].
  set (x := preprocess_item payload (m_raw_processor_impl st)).
  pose proof (lb_write_spec _ c x Hb) as Hw. case_decide.
  all: destruct Hw as (b' & -> & Hb' & Hroom); outcome; cbn [negb pt_back pointees];
    rewrite (lb_back_spec b' _ Hb'); outcome;
    destruct (postprocess_item _ _) as [m' issues]; by exists b', issues.
Qed.

Lemma preprocess_after p m (items : list T) :
  (fun x => preprocess_item x (fst (postprocess_item p m))) <$> items
  = (fun x => preprocess_item x m) <$> items.
Proof.
  apply list_fmap_ext. intros _ x _. unfold preprocess_item. by rewrite postprocess_item_functions.
Qed.

(** A sequence of payloads. *)
Lemma process_items_spec (items : list T) (st : consumer T B Q F) c :
  m_processing_delay_ticks cfg = 0 -> lb_model (m_latency_buffer_impl st) c ->
  (length c <= lb_room (m_latency_buffer_impl st))%nat -> may_count (length items) (m_stats st) ->
  let room := lb_room (m_latency_buffer_impl st) in
  let xs := (fun x => preprocess_item x (m_raw_processor_impl st)) <$> items in
  exists b' s' issues,
    process_items cfg items st
    = Ret (mkConsumer b' (postprocess_all (offered room c xs) (m_raw_processor_impl st)) s', issues)
    /\ lb_model b' (stored room c xs) /\ lb_room b' = room
    /\ counted (length items) (length c + length items - room) 0 (m_stats st) s'.
Proof.
  intros Hd. revert st c. induction items as [|y items IH]; intros st c Hb Hc Hs; cbn zeta.
  { exists (m_latency_buffer_impl st), (m_stats st), []. cbn [process_items fmap list_fmap offered].
    split; [by destruct st|]. unfold stored. rewrite app_nil_r, take_ge by lia.
    split; [done|]. split; [done|]. unfold counted. cbn [length]. lia. }
  cbn [process_items]. rewrite fmap_cons. cbn [offered postprocess_all foldl].
  set (room := lb_room _) in *. set (m := m_raw_processor_impl st) in *.
  set (x := preprocess_item y m).
  destruct (process_item_spec st c y Hd Hb) as (b1 & l1 & E1 & Hb1 & Hroom1).
  fold m room x in E1, Hb1, Hroom1. rewrite E1. outcome. clear E1.
  set (c1 := if decide _ then _ else c) in *. fold m.
  assert (Hcount' : counted 1 (if decide (length c < room)%nat then 0 else 1) 0 (m_stats st)
      (count_payload (if decide (length c < room)%nat then m_stats st
                      else incr m_num_payloads_overwritten (m_stats st)))).
  { unfold may_count in Hs. cbn [length] in Hs.
    case_decide; [apply (count_payload_counted true)|apply (count_payload_counted false)]; lia. }
  destruct (IH (mkConsumer b1 (fst (postprocess_item (last c1) m))
      (count_payload (if decide (length c < room)%nat then m_stats st
                      else incr m_num_payloads_overwritten (m_stats st)))) c1)
    as (b2 & s2 & l2 & -> & Hb2 & Hroom2 & Hcounted); cbn [m_latency_buffer_impl m_stats].
  - done.
  - rewrite Hroom1. by apply length_push.
  - eapply (counted_may 1 _ 0 (length items)); [exact Hs| |exact Hcount']. case_decide; lia.
  - cbn [m_raw_processor_impl m_latency_buffer_impl] in *. outcome.
    rewrite preprocess_after in *. rewrite Hroom1 in *. do 3 eexists.
    split; [reflexivity|]. split; [|split; [done|]].
    + by rewrite <- stored_cons by done.
    + pose proof (counted_trans _ _ _ _ _ _ _ _ _ Hcount' Hcounted) as Hsum.
      cbn [length]. replace (length c + S (length items) - room)%nat
        with ((if decide (length c < room)%nat then 0 else 1) + (length c1 + length items - room))%nat;
        [exact Hsum|].
      unfold c1. case_decide; [rewrite length_app; cbn|]; lia.
Qed.

Definition received (inputs : list (option (list T) * Z)) : list T :=
  concat (default [] <$> inputs.*1).

Definition timeouts (inputs : list (option (list T) * Z)) : nat :=
  length (filter (fun i => i.1 = None) inputs).

Lemma offered_app (room : nat) c xs ys :
  (length c <= room)%nat ->
  offered room c (xs ++ ys) = offered room c xs ++ offered room (stored room c xs) ys.
Proof.
  revert c. induction xs as [|x xs IH]; intros c Hc; cbn [app offered].
  - unfold stored. by rewrite app_nil_r, take_ge by lia.
  - rewrite IH by (by apply length_push). by rewrite stored_cons.
Qed.

Lemma stored_app (room : nat) c xs ys : stored room (stored room c xs) ys = stored room c (xs ++ ys).
Proof.
  unfold stored. rewrite app_assoc. destruct (decide (length (c ++ xs) <= room)%nat).
  - by rewrite (take_ge (c ++ xs)).
  - rewrite take_app_le by (rewrite length_take; lia).
    rewrite take_take, Nat.min_id. by rewrite (take_app_le (c ++ xs)) by lia.
Qed.

Lemma length_stored (room : nat) c xs : length (stored room c xs) = min room (length c + length xs).
Proof. unfold stored. by rewrite length_take, length_app. Qed.

Lemma postprocess_all_app ps qs m : postprocess_all (ps ++ qs) m = postprocess_all qs (postprocess_all ps m).
Proof. apply foldl_app. Qed.

(** Preprocessing does not depend on what was postprocessed. *)
Lemma preprocess_all ps m (items : list T) :
  (fun x => preprocess_item x (postprocess_all ps m)) <$> items
  = (fun x => preprocess_item x m) <$> items.
Proof.
  revert m. induction ps as [|p ps IH]; intros m; [done|]. cbn [postprocess_all foldl].
  fold (postprocess_all ps (fst (postprocess_item p m))). by rewrite IH, preprocess_after.
Qed.


Lemma consume_turns_spec inputs cy (st : consumer T B Q F) c :
  m_processing_delay_ticks cfg = 0 -> lb_model (m_latency_buffer_impl st) c ->
  (length c <= lb_room (m_latency_buffer_impl st))%nat ->
  may_count (length (received inputs) + timeouts inputs) (m_stats st) ->
  let room := lb_room (m_latency_buffer_impl st) in
  let xs := (fun x => preprocess_item x (m_raw_processor_impl st)) <$> received inputs in
  exists b' s' issues,
    consume_turns cfg inputs cy st
    = Ret (cy, mkConsumer b' (postprocess_all (offered room c xs) (m_raw_processor_impl st)) s', issues)
    /\ lb_model b' (stored room c xs) /\ lb_room b' = room
    /\ counted (length xs) (length c + length xs - room) (timeouts inputs) (m_stats st) s'.
Proof.
  intros Hd. cbn zeta. revert st c. induction inputs as [|[input now] inputs IH]; intros st c Hb Hc Hs.
  { exists (m_latency_buffer_impl st), (m_stats st), []. cbn. split; [by destruct st|].
    unfold stored. rewrite app_nil_r, take_ge by lia. split; [done|]. split; [done|].
    unfold counted. lia. }
  cbn [consume_turns]. unfold consume_turn. cbn [fst snd].
  destruct input as [items|].
  - assert (Er : received ((Some items, now) :: inputs) = items ++ received inputs) by done.
    assert (Et : timeouts ((Some items, now) :: inputs) = timeouts inputs) by done.
    rewrite Er, Et in *. rewrite length_app in Hs.
    destruct (process_items_spec items st c Hd Hb Hc) as (b1 & s1 & l1 & -> & Hb1 & Hroom1 & Hcount1).
    { unfold may_count in *. lia. }
    outcome. rewrite delayed_turn_off by done. outcome.
    rewrite fmap_app, offered_app, postprocess_all_app by done.
    set (room := lb_room _) in *. set (m := m_raw_processor_impl st) in *.
    set (xs := (fun x => preprocess_item x m) <$> items) in *.
    destruct (IH (mkConsumer b1 (postprocess_all (offered room c xs) m) s1) (stored room c xs) Hb1)
      as (b2 & s2 & l2 & -> & Hb2 & Hroom2 & Hcount2); cbn [m_latency_buffer_impl m_stats m_raw_processor_impl] in *.
    + rewrite Hroom1, length_stored. lia.
    + eapply (counted_may (length items) _ 0); [| |exact Hcount1]; [unfold may_count in *; lia|lia].
    + rewrite preprocess_all in *. rewrite Hroom1 in *. outcome. do 3 eexists. split; [reflexivity|].
      rewrite stored_app in Hb2. split; [exact Hb2|]. split; [done|].
      pose proof (counted_trans _ _ _ _ _ _ _ _ _ Hcount1 Hcount2) as Hcount.
      rewrite length_stored in Hcount. rewrite length_app. unfold xs in *.
      rewrite !length_fmap in *. cbn [Nat.add] in Hcount.
      eapply counted_eq; [exact Hcount|lia..].
  - assert (Er : received ((None, now) :: inputs) = received inputs) by done.
    assert (Et : timeouts ((None, now) :: inputs) = S (timeouts inputs)) by done.
    rewrite Er, Et in *. outcome. rewrite delayed_turn_off by done. outcome.
    assert (Hcount1 : counted 0 0 1 (m_stats st) (incr m_rawq_timeout_count (m_stats st)))
      by (apply timeout_counted; unfold may_count in Hs; lia).
    destruct (IH (mkConsumer (m_latency_buffer_impl st) (m_raw_processor_impl st)
        (incr m_rawq_timeout_count (m_stats st))) c Hb Hc)
      as (b2 & s2 & l2 & -> & Hb2 & Hroom2 & Hcount2); cbn [m_latency_buffer_impl m_stats m_raw_processor_impl] in *.
    + eapply (counted_may 0 0 1); [|lia|exact Hcount1]. unfold may_count in *. lia.
    + outcome. do 3 eexists. split; [reflexivity|]. split; [done|]. split; [done|].
      exact (counted_trans _ _ _ _ _ _ _ _ _ Hcount1 Hcount2).
Qed.

(** The delayed loop processes what lies between its two iterators. *)
Lemma delayed_loop_spec (fuel : nat) b c it end_iter mid rest m s :
  lb_rest b c it (mid ++ rest) -> lb_rest b c end_iter rest -> rest <> [] ->
  (length mid <= fuel)%nat ->
  exists issues, delayed_loop fuel b it end_iter m s
    = Ret (postprocess_all (Some <$> mid) m, Nat.iter (length mid) count_payload s, issues).
Proof.
  intros Hit Hend Hne. revert it m s fuel Hit. induction mid as [|x mid IH]; intros it m s fuel Hit Hf.
  - exists []. destruct fuel; cbn [delayed_loop]; rewrite (lb_eqb_spec b c it end_iter _ rest Hit Hend Hne);
      by rewrite bool_decide_true.
  - destruct fuel as [|fuel]; [cbn in Hf; lia|]. cbn [delayed_loop].
    rewrite (lb_eqb_spec b c it end_iter _ rest Hit Hend Hne).
    rewrite bool_decide_false by (rewrite length_app; cbn; lia).
    cbn [app] in Hit. apply lb_step_spec in Hit as [Hx Hit]. cbn [pt_iter pointees]. rewrite Hx. outcome.
    cbn [length] in Hf. cbn [fmap list_fmap postprocess_all foldl length Nat.iter].
    destruct (postprocess_item (Some x) m) as [m1 l1] eqn:Em.
    destruct (IH (lb_next b it) m1 (count_payload s) fuel Hit) as (l2 & ->); [lia|]. outcome.
    exists (l1 ++ l2). cbn [fst]. by rewrite Nat.iter_succ_r.
Qed.

(** The elements between two keys. *)
Lemma from_timestamp_between p e c :
  increasing c -> p <= e ->
  from_timestamp p c
  = filter (fun x => p <= get_timestamp x /\ get_timestamp x < e) c ++ from_timestamp e c.
Proof.
  intros Hc Hpe. induction c as [|x c IH]; [done|].
  pose proof Hc as [Hlt Hc']%increasing_cons. cbn [from_timestamp]. rewrite filter_cons.
  destruct (Z.ltb_spec (get_timestamp x) p), (Z.ltb_spec (get_timestamp x) e); try lia.
  - rewrite decide_False by lia. by apply IH.
  - rewrite decide_True by lia. cbn. f_equal. rewrite <- IH by done.
    destruct c as [|y c]; [done|]. cbn. specialize (Hlt y ltac:(by left)).
    destruct (Z.ltb_spec (get_timestamp y) p); [lia|done].
  - rewrite decide_False by lia. rewrite filter_none; [done|].
    intros y Hy. specialize (Hlt y Hy). lia.
Qed.
End consumer_lemmas.

(** ** Properties *)

(** The words of a connection name are the maximal runs without the
    delimiter, from left to right; the search for them always ends. *)
Theorem words_correct {A : Type} (is_delim : A -> bool) (conn_name : list A) :
  words is_delim conn_name = Ret (split_words is_delim conn_name []).
Proof. unfold words. rewrite words_loop_split by lia. done. Qed.

(** C25: a run of the consumer without a postprocessing delay, over any sequence
    of receptions and timeouts: the payloads received, preprocessed, are appended
    to the buffer in order until it is full, and those that find it full are
    dropped (what is stored stays); after each of them the newest stored element
    is offered to the postprocessors (so again after a drop); every payload, every
    drop and every timeout is counted once. *)
Theorem run_consume_correct {T B It Q F : Type} `{ReadoutLaws T}
    `{LB : LatencyBuffer T B It} `{!LatencyBufferLaws T B It} `{!FifoLaws T B It}
    `{!PointerQueue (option T) Q} (cfg : consumer_conf) (started : Z)
    (inputs : list (option (list T) * Z)) (st : consumer T B Q F) (c : list T) :
  m_processing_delay_ticks cfg = 0 -> lb_model (m_latency_buffer_impl st) c ->
  (length c <= lb_room (m_latency_buffer_impl st))%nat ->
  0 <= m_stats st m_num_payloads_overwritten ->
  m_stats st m_num_payloads_overwritten + Z.of_nat (length (received inputs) + timeouts inputs) <= INT_MAX ->
  let room := lb_room (m_latency_buffer_impl st) in
  let xs := (fun x => preprocess_item x (m_raw_processor_impl st)) <$> received inputs in
  exists b' s' issues,
    run_consume cfg started inputs st
    = Ret (mkConsumer b' (postprocess_all (offered room c xs) (m_raw_processor_impl st)) s', issues)
    /\ lb_model b' (take room (c ++ xs))
    /\ s' m_sum_payloads = Z.of_nat (length xs)
    /\ s' m_num_payloads = Z.of_nat (length xs)
    /\ s' m_rawq_timeout_count = Z.of_nat (timeouts inputs)
    /\ s' m_num_payloads_overwritten
       = m_stats st m_num_payloads_overwritten + Z.of_nat (length c + length xs - room).
Proof.
  intros Hd Hb Hc Ho1 Ho2. cbn zeta. unfold run_consume.
  set (s0 := exchange0 _ _).
  assert (Hs0 : s0 m_sum_payloads = 0 /\ s0 m_num_payloads = 0 /\ s0 m_rawq_timeout_count = 0
    /\ s0 m_num_payloads_overwritten = m_stats st m_num_payloads_overwritten) by done.
  destruct Hs0 as (E1 & E2 & E3 & E4).
  destruct (consume_turns_spec cfg inputs (mkCycle true started (default_element T))
    (mkConsumer (m_latency_buffer_impl st) (m_raw_processor_impl st) s0) c Hd Hb Hc)
    as (b' & s' & issues & -> & Hb' & _ & Hcount); cbn [m_latency_buffer_impl m_stats m_raw_processor_impl] in *.
  - unfold may_count. rewrite E1, E2, E3, E4. lia.
  - outcome. do 3 eexists. split; [reflexivity|]. split; [exact Hb'|].
    unfold counted in Hcount. rewrite E1, E2, E3, E4 in Hcount. lia.
Qed.

(** C26: a turn of the delayed postprocessing offers to the postprocessors, in
    order and counted, exactly the stored elements from the last processed
    timestamp on (from the oldest in the first cycle) that are more than the
    delay older than the newest, and the next turn goes on from there; it does
    nothing when none is old enough.  It needs [lower_bound] to answer for the
    last processed timestamp. *)
Theorem delayed_turn_correct {T B It Q F : Type} `{ReadoutLaws T}
    `{LB : LatencyBuffer T B It} `{!LatencyBufferLaws T B It} `{!PointerQueue (option T) Q}
    (cfg : consumer_conf) (now : Z) (cy : cycle T) (st : consumer T B Q F) (c : list T)
    (oldest newest : T) :
  let delay := m_processing_delay_ticks cfg in
  let from := if first_cycle cy then get_timestamp oldest else get_timestamp (processed_element cy) in
  0 < delay -> lb_model (m_latency_buffer_impl st) c -> lb_searchable false c ->
  head c = Some oldest -> last c = Some newest ->
  1 < Z.quot (now - last_post_proc_time cy) 1000000 ->
  lb_finds_older = true \/ get_timestamp oldest <= from -> from <= get_timestamp newest ->
  exists x m' s' issues,
    delayed_turn cfg now cy st
    = Ret (mkCycle false now x, mkConsumer (m_latency_buffer_impl st) m' s', issues)
    /\ if delay <? get_timestamp newest - from then
         let mid := filter (fun y => from <= get_timestamp y
                      /\ get_timestamp y < get_timestamp newest - delay) c in
         get_timestamp x = get_timestamp newest - delay
         /\ m' = postprocess_all (Some <$> mid) (m_raw_processor_impl st)
         /\ s' = Nat.iter (length mid) count_payload (m_stats st)
       else get_timestamp x = from /\ m' = m_raw_processor_impl st /\ s' = m_stats st.
Proof.
  intros delay from Hd Hb Hsearch Hold Hnew Hms Holder Hle. unfold delayed_turn. fold delay.
  pose proof (lb_searchable_increasing _ _ Hsearch) as Hc.
  assert (Hne : c <> []) by (by intros ->).
  rewrite (lb_occupancy_spec _ c Hb).
  replace (delay =? 0) with false by (symmetry; apply Z.eqb_neq; lia).
  replace (0 <? Z.of_nat (length c)) with true
    by (symmetry; apply Z.ltb_lt; destruct c; [done|cbn; lia]).
  replace (1 <? Z.quot (now - last_post_proc_time cy) 1000000) with true by (symmetry; by apply Z.ltb_lt).
  cbn [negb andb]. rewrite (lb_back_spec _ c Hb), Hnew. outcome. cbn [deref]. outcome.
  pose proof (timestamp_range oldest). pose proof (timestamp_range newest).
  pose proof (timestamp_range (processed_element cy)).
  set (x0 := if first_cycle cy then set_timestamp (get_timestamp oldest) (processed_element cy)
             else processed_element cy).
  replace (if first_cycle cy then _ else _) with (Ret x0).
  2:{ unfold x0. destruct (first_cycle cy); [|done].
      rewrite (lb_front_spec _ c Hb), Hold. done. }
  assert (Ex0 : get_timestamp x0 = from).
  { unfold x0, from. destruct (first_cycle cy); [|done]. by apply get_set_timestamp. }
  outcome. rewrite Ex0. unfold UINT64_MAX in *. assert (0 <= from) by (rewrite <- Ex0; apply timestamp_range).
  machine. destruct (Z.ltb_spec delay (get_timestamp newest - from)) as [Hold'|Hyoung].
  2:{ exists x0, (m_raw_processor_impl st), (m_stats st), []. by destruct st. }
  machine. set (e := get_timestamp newest - delay) in *.
  assert (Ex1 : get_timestamp (set_timestamp e x0) = e) by (apply get_set_timestamp; unfold UINT64_MAX; lia).
  destruct (lb_lower_bound_spec _ c x0 false Hb Hsearch Hne) as (it1 & -> & Hr1). outcome.
  destruct (lb_lower_bound_spec _ c (set_timestamp e x0) false Hb Hsearch Hne) as (it2 & -> & Hr2). outcome.
  rewrite Ex0 in Hr1. rewrite Ex1 in Hr2.
  assert (Hfind : forall t, from <= t ->
    (if lb_finds_older then from_timestamp t c else search_queue t c) = from_timestamp t c).
  { intros t Ht. destruct lb_finds_older; [done|]. destruct c as [|y c]; [done|]. injection Hold as ->.
    cbn [search_queue]. destruct Holder as [|Holder]; [done|].
    destruct (Z.ltb_spec t (get_timestamp oldest)); [lia|done]. }
  rewrite Hfind in Hr1, Hr2 by lia. rewrite (from_timestamp_between from e c Hc) in Hr1 by lia.
  destruct (delayed_loop_spec (Z.to_nat (Z.of_nat (length c))) (m_latency_buffer_impl st) c it1 it2
    _ _ (m_raw_processor_impl st) (m_stats st) Hr1 Hr2) as (issues & ->).
  - eapply from_timestamp_nonempty; [by apply last_Some_elem_of|lia].
  - rewrite Nat2Z.id. apply length_filter.
  - outcome. do 4 eexists. split; [reflexivity|]. auto.
Qed.

(** C37: on the ring, delayed postprocessing that has fallen behind (the last
    processed timestamp is no longer stored, as after a cleanup) runs off the
    buffer: [lower_bound] answers [end()], and the loop dereferences it. *)
Theorem delayed_turn_stale_ring {T Q F : Type} `{ReadoutLaws T} `{!TimestampOrder T} `{!PointerQueue (option T) Q}
    (p : platform) (cfg : consumer_conf) (now : Z) (cy : cycle T) (st : consumer T (queue T) Q F)
    (c : list T) (oldest newest : T) :
  let delay := m_processing_delay_ticks cfg in
  let from := get_timestamp (processed_element cy) in
  0 < delay -> repr (m_latency_buffer_impl st) c -> increasing c ->
  head c = Some oldest -> last c = Some newest -> first_cycle cy = false ->
  1 < Z.quot (now - last_post_proc_time cy) 1000000 ->
  from < get_timestamp oldest -> get_timestamp oldest <= get_timestamp newest - delay ->
  delayed_turn (LB := binary_search_buffer p) cfg now cy st = Undefined.
Proof.
  intros delay from Hd Hb Hc Hold Hnew Hfirst Hms Hfrom Hwin. unfold delayed_turn. fold delay.
  cbn [binary_search_buffer queue_buffer lb_occupancy lb_back lb_lower_bound].
  rewrite (occupancy_repr _ c Hb), (back_repr _ c Hb), Hnew, Hfirst.
  destruct c as [|y c]; [done|]. injection Hold as ->.
  replace (delay =? 0) with false by (symmetry; apply Z.eqb_neq; lia).
  replace (1 <? Z.quot (now - last_post_proc_time cy) 1000000) with true by (symmetry; by apply Z.ltb_lt).
  cbn [length]. replace (0 <? Z.of_nat (S (length c))) with true by (symmetry; apply Z.ltb_lt; lia).
  cbn [negb andb]. outcome. cbn [deref]. outcome. fold from.
  pose proof (timestamp_range oldest). pose proof (timestamp_range newest).
  assert (0 <= from <= UINT64_MAX) by apply timestamp_range. unfold UINT64_MAX in *. machine.
  replace (delay <? get_timestamp newest - from) with true by (symmetry; apply Z.ltb_lt; lia).
  rewrite (lower_bound_before _ oldest c (processed_element cy) false Hb Hfrom). outcome.
  set (key := set_timestamp _ _).
  assert (Ek : get_timestamp key = get_timestamp newest - delay)
    by (apply get_set_timestamp; unfold UINT64_MAX; lia).
  destruct (lower_bound_repr _ (oldest :: c) key false Hb Hc) as (it2 & -> & Hr2). outcome.
  rewrite Nat2Z.id. cbn [delayed_loop pt_iter pointees]. change (lb_eqb iter_end it2) with (iter_end =? it2).
  assert (Hgood : iter_good (m_latency_buffer_impl st) it2 = true).
  { rewrite (iter_rest_good _ _ _ _ Hr2), bool_decide_true; [done|]. rewrite Ek. cbn [search_queue].
    destruct (Z.ltb_spec (get_timestamp newest - delay) (get_timestamp oldest)); [lia|].
    eapply from_timestamp_nonempty; [by apply last_Some_elem_of|lia]. }
  destruct (Z.eqb_spec iter_end it2) as [<-|_]; [by rewrite iter_good_end in Hgood|].
  change (lb_deref (m_latency_buffer_impl st) iter_end)
    with (slot_read (records_ (m_latency_buffer_impl st)) iter_end).
  by rewrite (slot_read_end _ (oldest :: c)).
Qed.

Lemma timesync_turns_spec (cfg : timesync_conf) (send : TimeSync -> bool) daqs v s :
    0 <= msg_seqno v -> 0 <= total_timestamp_count v ->
    msg_seqno v + Z.of_nat (length daqs) <= UINT64_MAX ->
    total_timestamp_count v + Z.of_nat (length daqs) <= UINT64_MAX ->
    let '(msgs, v', _) := timesync_turns cfg send daqs v s in
    sublist (daq_time <$> msgs) daqs
    /\ (forall m, msgs !! 0%nat = Some m -> daq_time m <> prev_timestamp v)
    /\ (forall i m, msgs !! i = Some m ->
         daq_time m <> 0 /\ ts_sequence_number m = msg_seqno v + Z.of_nat (S i)
         /\ forall m', msgs !! S i = Some m' -> daq_time m' <> daq_time m)
    /\ total_timestamp_count v' = total_timestamp_count v + Z.of_nat (length daqs).
Proof.
  revert v s. induction daqs as [|d daqs IH]; intros v s H1 H2 H3 H4; cbn [timesync_turns].
  - cbn. split_and!; try done. lia.
  - unfold timesync_turn. unfold UINT64_MAX in *. cbn [length] in *. machine.
    destruct (negb (d =? 0) && negb (d =? prev_timestamp v)) eqn:E.
    + apply andb_true_iff in E as [E1 E2]. apply negb_true_iff, Z.eqb_neq in E1, E2.
      destruct (m_fake_trigger cfg);
        match goal with |- context [timesync_turns cfg send daqs ?v1 ?s1] =>
          specialize (IH v1 s1); destruct (timesync_turns cfg send daqs v1 s1) as [[msgs v'] s'] end;
        destruct IH as (Ha & Hb & Hc & Hd); cbn [msg_seqno total_timestamp_count prev_timestamp] in *;
        try lia; (split; [by constructor|]); (split; [by intros m [= <-]|]); (split; [|lia]);
        (intros [|i] m Hm; cbn in Hm;
         [injection Hm as <-; cbn; split; [done|]; split; [lia|]; apply Hb|
          destruct (Hc i m Hm) as (Hc1 & Hc2 & Hc3); split; [done|]; split; [lia|exact Hc3]]).
    + match goal with |- context [timesync_turns cfg send daqs ?v1 ?s1] =>
        specialize (IH v1 s1); destruct (timesync_turns cfg send daqs v1 s1) as [[msgs v'] s'] end.
      destruct IH as (Ha & Hb & Hc & Hd); cbn [msg_seqno total_timestamp_count prev_timestamp] in *; try lia.
      split; [by constructor|]. split; [done|]. split; [done|lia].
Qed.

(** The time synchronisation of a run sends only nonzero DAQ times, never
    the same one twice in a row, in the order they were read and numbered 1, 2,
    3, ...; and it counts the turns. *)
Theorem run_timesync_correct (cfg : timesync_conf) (send : TimeSync -> bool) (daqs : list Z)
    (trigger_id : Z) (s : dh_stats) :
  Z.of_nat (length daqs) <= UINT64_MAX ->
  let '(msgs, v, _) := run_timesync cfg send daqs trigger_id s in
  sublist (daq_time <$> msgs) daqs
  /\ (forall i m, msgs !! i = Some m ->
       daq_time m <> 0 /\ ts_sequence_number m = Z.of_nat (S i)
       /\ forall m', msgs !! S i = Some m' -> daq_time m' <> daq_time m)
  /\ total_timestamp_count v = Z.of_nat (length daqs).
Proof.
  intros Hlen. unfold run_timesync. set (s0 := exchange0 _ _). set (v0 := mkTimesyncState _ _ _ _ _ _).
  pose proof (timesync_turns_spec cfg send daqs v0 s0) as Hgen.
  destruct (timesync_turns cfg send daqs v0 s0) as [[msgs v'] s'].
  destruct Hgen as (H1 & _ & H2 & H3); cbn in *; try lia. split; [done|]. split; [exact H2|lia].
Qed.

(** ** The properties at work: the ring of three elements, one postprocessing queue *)
Import Chunk.
#[local] Existing Instance BoundedList.bounded_queue.

Definition sample_postprocessor : processor chunk (BoundedList.bounded (option chunk)) unit :=
  mkProcessor [] [tt] [BoundedList.mkBounded 5 []] ["post"%string] 6 (mkSourceID 1 7) true 0 true.

Definition sample_consumer (n : nat) : consumer chunk (queue chunk) (BoundedList.bounded (option chunk)) unit :=
  mkConsumer (ring_of n sample) sample_postprocessor (fun _ => 0).

Definition sample_consumer_conf (delay : Z) : consumer_conf := mkConsumerConf delay 1 false 0.

(** A timeout, then two payloads; the ring of five has room for one. *)
Lemma run_consume_correct_witness :
  exists b' s' issues m,
    run_consume (LB := binary_search_buffer sample_platform)
      (PointerQueue0 := BoundedList.bounded_queue (option chunk)) (sample_consumer_conf 0) 0
      [(None, 1); (Some [mkChunk 160; mkChunk 180], 2)] (sample_consumer 5)
    = Ret (mkConsumer b' m s', issues)
    /\ repr b' [mkChunk 100; mkChunk 120; mkChunk 140; mkChunk 160]
    /\ s' m_sum_payloads = 2 /\ s' m_rawq_timeout_count = 1 /\ s' m_num_payloads_overwritten = 1.
Proof.
  destruct (run_consume_correct (LB := binary_search_buffer sample_platform)
    (LatencyBufferLaws0 := binary_search_laws sample_platform)
    (FifoLaws0 := queue_fifo sample_platform _ _ _ _)
    (PointerQueue0 := BoundedList.bounded_queue (option chunk)) (sample_consumer_conf 0) 0
    [(None, 1); (Some [mkChunk 160; mkChunk 180], 2)] (sample_consumer 5) sample)
    as (b' & s' & issues & E & Hb & H1 & _ & H2 & H3).
  - done.
  - apply ring_of_repr; cbn; unfold INT_MAX; lia.
  - change (3 <= Z.to_nat (5 - 1))%nat. lia.
  - done.
  - by vm_compute.
  - exists b', s', issues. eexists. split_and!; [exact E|exact Hb|exact H1|exact H2|exact H3].
Defined.

(** The first cycle: everything more than 15 ticks older than the newest. *)
Lemma delayed_turn_correct_witness :
  exists x m' s' issues,
    delayed_turn (LB := binary_search_buffer sample_platform)
      (PointerQueue0 := BoundedList.bounded_queue (option chunk)) (sample_consumer_conf 15) 5000000
      (mkCycle true 0 (mkChunk 0)) (sample_consumer 4)
    = Ret (mkCycle false 5000000 x, mkConsumer (ring_of 4 sample) m' s', issues)
    /\ get_timestamp x = 125
    /\ m' = postprocess_all [Some (mkChunk 100); Some (mkChunk 120)] sample_postprocessor
    /\ s' = Nat.iter 2 count_payload (fun _ => 0).
Proof.
  refine (delayed_turn_correct (LB := binary_search_buffer sample_platform)
    (LatencyBufferLaws0 := binary_search_laws sample_platform)
    (PointerQueue0 := BoundedList.bounded_queue (option chunk)) (sample_consumer_conf 15) 5000000
    (mkCycle true 0 (mkChunk 0)) (sample_consumer 4) sample (mkChunk 100) (mkChunk 140)
    eq_refl sample_repr sample_increasing eq_refl eq_refl eq_refl _ _);
    [right|]; by vm_compute.
Defined.

(** A cleanup has removed everything up to the last processed timestamp, 50. *)
Lemma delayed_turn_stale_ring_witness :
  delayed_turn (LB := binary_search_buffer sample_platform)
    (PointerQueue0 := BoundedList.bounded_queue (option chunk)) (sample_consumer_conf 15) 5000000
    (mkCycle false 0 (mkChunk 50)) (sample_consumer 4) = Undefined.
Proof.
  refine (delayed_turn_stale_ring (PointerQueue0 := BoundedList.bounded_queue (option chunk))
    sample_platform (sample_consumer_conf 15) 5000000 (mkCycle false 0 (mkChunk 50))
    (sample_consumer 4) sample (mkChunk 100) (mkChunk 140) _ sample_repr sample_increasing
    eq_refl eq_refl eq_refl _ _ _); by vm_compute.
Defined.

Lemma run_timesync_correct_witness :
  let cfg := mkTimesyncConf 1 99 true "timesync" (mkSourceID 1 7) in
  let '(msgs, v, _) := run_timesync cfg (fun _ => true) [0; 5; 5; 9] 0 (fun _ => 0) in
  msgs = [mkTimeSync 5 1 1 99; mkTimeSync 9 1 2 99] /\ total_timestamp_count v = 4.
Proof.
  cbn zeta. split; [reflexivity|].
  refine (proj2 (proj2 (run_timesync_correct (mkTimesyncConf 1 99 true "timesync" (mkSourceID 1 7))
    (fun _ => true) [0; 5; 5; 9] 0 (fun _ => 0) _))).
  by vm_compute.
Defined.
