(* ===== verification/HandlerLife.v ===== *)
(** The life of DefaultRequestHandlerModel: [start], [stop] and [record]
    with the threads they start and wait for, in every interleaving. *)
From S2P Require Import Prelude Threads Float32 RequestHandler Recording.

(** ** The state *)

(** Where a [while (m_run_marker)] loop is. *)
Inductive turn := AtTest | AtBody.

(** The recording before it reads the clock for the first time and in its loop, or one of
    the two periodic loops. *)
Inductive work := Begin | Turning (start_of_recording current_time : Z) | Loop (at_ : turn).

(** The std::thread of the waiting requests: not joinable, running, or to be joined. *)
Inductive waiter := Unjoinable | Running (at_ : turn) | Ended.

(** The boost::asio::thread_pool behind its unique_ptr; a task is a request, [true]
    for a retry.  As documented, join waits for the tasks posted so far, and a pool that was
    joined runs nothing any more. *)
Inductive task_pool := NoPool | Open (tasks : list bool) | Joined.

(** Where [stop] is, once the run marker is cleared. *)
Inductive stop_place := WaitRecording | WaitCleanup | WaitPeriodic | JoinWaiting | JoinPool.

Section life.
Context {R : Type} `{ReusableThread work R}.

(** [m_waiting_requests] is their number; [stopping] is the command at work; [readings]
    counts the readings of the clock by the recording. *)
Record life := mkLife {
  m_run_marker : bool;
  m_recording : bool;
  m_recording_thread : R;
  m_cleanup_thread : R;
  m_periodic_transmission_thread : R;
  m_waiting_queue_thread : waiter;
  m_request_handler_thread_pool : task_pool;
  m_waiting_requests : nat;
  life_stats : stats;
  stopping : option stop_place;
  readings : nat }.

Definition new_life (s : stats) : life :=
  mkLife false false new_thread new_thread new_thread Unjoinable NoPool 0 s None 0.

Implicit Types st : life.

Definition with_recording_thread (recording : bool) (r : R) (n : nat) st : life :=
  mkLife (m_run_marker st) recording r (m_cleanup_thread st) (m_periodic_transmission_thread st)
    (m_waiting_queue_thread st) (m_request_handler_thread_pool st) (m_waiting_requests st)
    (life_stats st) (stopping st) n.

Definition with_loops (cleanup periodic : R) st : life :=
  mkLife (m_run_marker st) (m_recording st) (m_recording_thread st) cleanup periodic
    (m_waiting_queue_thread st) (m_request_handler_thread_pool st) (m_waiting_requests st)
    (life_stats st) (stopping st) (readings st).

Definition with_requests (t : waiter) (p : task_pool) (n : nat) st : life :=
  mkLife (m_run_marker st) (m_recording st) (m_recording_thread st) (m_cleanup_thread st)
    (m_periodic_transmission_thread st) t p n (life_stats st) (stopping st) (readings st).

Definition with_stopping (place : option stop_place) st : life :=
  mkLife (m_run_marker st) (m_recording st) (m_recording_thread st) (m_cleanup_thread st)
    (m_periodic_transmission_thread st) (m_waiting_queue_thread st) (m_request_handler_thread_pool st)
    (m_waiting_requests st) (life_stats st) place (readings st).

Context (cfg : settings).

(** *** The commands *)

(** get_iom_sender, which may throw or give a null pointer, and is_ready_for_sending. *)
Context (get_iom_sender : string -> outcome (option bool)).

Fixpoint ready_senders (ids : list string) : outcome unit :=
  match ids with
  | [] => Ret tt
  | frag_out_conn :: ids => _ ← get_iom_sender frag_out_conn; ready_senders ids
  end.

(** Assigning to a std::thread that can still be joined ends the program (here as a
    failed assertion does). *)
Definition start st : outcome life :=
  _ ← ready_senders (m_frag_out_conn_ids cfg);
  let '(_, cleanup) := set_work (Loop AtTest) (m_cleanup_thread st) in
  let periodic :=
    if 0 <? m_periodic_data_transmission_ms cfg
    then snd (set_work (Loop AtTest) (m_periodic_transmission_thread st))
    else m_periodic_transmission_thread st in
  match m_waiting_queue_thread st with
  | Unjoinable =>
      Ret (mkLife true (m_recording st) (m_recording_thread st) cleanup periodic (Running AtTest) (Open [])
             (m_waiting_requests st) (start_stats (life_stats st)) (stopping st) (readings st))
  | _ => AssertFail
  end.

(** The first line of [stop], and the rest of it place by place; [None] while it waits.
    Joining what is not joinable is a std::system_error. *)
Definition begin_stop st : life :=
  mkLife false (m_recording st) (m_recording_thread st) (m_cleanup_thread st)
    (m_periodic_transmission_thread st) (m_waiting_queue_thread st) (m_request_handler_thread_pool st)
    (m_waiting_requests st) (life_stats st) (Some WaitRecording) (readings st).

Definition stop_step st : option (outcome life) :=
  match stopping st with
  | None => None
  | Some WaitRecording =>
      if get_readiness (m_recording_thread st) then Some (Ret (with_stopping (Some WaitCleanup) st)) else None
  | Some WaitCleanup =>
      if get_readiness (m_cleanup_thread st) then Some (Ret (with_stopping (Some WaitPeriodic) st)) else None
  | Some WaitPeriodic =>
      if get_readiness (m_periodic_transmission_thread st)
      then Some (Ret (with_stopping (Some JoinWaiting) st)) else None
  | Some JoinWaiting =>
      match m_waiting_queue_thread st with
      | Unjoinable => Some (Throw std_exception)
      | Running _ => None
      | Ended =>
          Some (Ret (with_stopping (Some JoinPool)
            (with_requests Unjoinable (m_request_handler_thread_pool st) (m_waiting_requests st) st)))
      end
  | Some JoinPool =>
      match m_request_handler_thread_pool st with
      | NoPool => Some Undefined
      | Open (_ :: _) => None
      | Open [] | Joined =>
          Some (Ret (with_stopping None
            (with_requests (m_waiting_queue_thread st) Joined (m_waiting_requests st) st)))
      end
  end.

(** [set_work]'s answer is ignored. *)
Definition record (is_open : bool) st : life * list issue :=
  let '(starts, issues) := Recording.record cfg (m_recording st) is_open in
  (if starts : bool
   then with_recording_thread (m_recording st) (snd (set_work Begin (m_recording_thread st))) (readings st) st
   else st, issues).

(** [issue_request]'s post; a pool that was joined runs nothing any more. *)
Definition post (tasks : list bool) (p : task_pool) : outcome task_pool :=
  match p with
  | NoPool => Undefined
  | Open l => Ret (Open (l ++ tasks))
  | Joined => Ret Joined
  end.

Definition submit st : outcome life :=
  p ← post [false] (m_request_handler_thread_pool st);
  Ret (with_requests (m_waiting_queue_thread st) p (m_waiting_requests st) st).

(** *** The threads

    Each turn is a step; what a turn does to the buffer and the requests is in
    RequestHandler.v, Recording.v and RequestFlow.v. *)
Context (clock : nat -> Z).

Definition recording_time_sec : Z := 1.

Definition recording_step st : option life :=
  let now := clock (readings st) in
  let r := m_recording_thread st in
  match work_of r with
  | Some Begin => Some (with_recording_thread true (go_on (Some (Turning now now)) r) (S (readings st)) st)
  | Some (Turning start_of_recording current_time) =>
      if Z.quot (current_time - start_of_recording) 1000000000 <? recording_time_sec
      then Some (with_recording_thread (m_recording st) (go_on (Some (Turning start_of_recording now)) r)
                   (S (readings st)) st)
      else Some (with_recording_thread false (go_on None r) (readings st) st)
  | _ => None
  end.

(** [periodic_cleanups] and [periodic_data_transmissions]. *)
Definition loop_step (run_marker : bool) (r : R) : option R :=
  match work_of r with
  | Some (Loop AtTest) => Some (go_on (if run_marker then Some (Loop AtBody) else None) r)
  | Some (Loop AtBody) => Some (go_on (Some (Loop AtTest)) r)
  | _ => None
  end.

Definition cleanup_step st : option life :=
  r ← loop_step (m_run_marker st) (m_cleanup_thread st);
  Some (with_loops r (m_periodic_transmission_thread st) st).

Definition periodic_step st : option life :=
  r ← loop_step (m_run_marker st) (m_periodic_transmission_thread st);
  Some (with_loops (m_cleanup_thread st) r st).

(** [check_waiting_requests], whose pass reissues [k] requests. *)
Definition waiting_step (k : nat) st : option (outcome life) :=
  match m_waiting_queue_thread st with
  | Running AtTest =>
      Some (Ret (with_requests (if m_run_marker st then Running AtBody else Ended)
                   (m_request_handler_thread_pool st) (m_waiting_requests st) st))
  | Running AtBody =>
      if (k <=? m_waiting_requests st)%nat
      then Some (p ← post (replicate k true) (m_request_handler_thread_pool st);
                 Ret (with_requests (Running AtTest) p (m_waiting_requests st - k) st))
      else None
  | _ => None
  end.

(** The [i]-th task of the pool, which may put its request aside. *)
Definition task_step (i : nat) (aside : bool) st : option life :=
  match m_request_handler_thread_pool st with
  | Open tasks =>
      match tasks !! i with
      | Some retry =>
          Some (with_requests (m_waiting_queue_thread st) (Open (delete i tasks))
                  (if aside && (0 <? m_request_timeout_ms cfg) && negb retry then S (m_waiting_requests st) else m_waiting_requests st) st)
      | None => None
      end
  | _ => None
  end.
(** *** All of them

    The commands come one after another; requests come at any time. *)
Inductive move :=
| Start | Stop | Record (is_open : bool) | Submit
| StopTurn | RecordTurn | CleanupTurn | PeriodicTurn | WaitingTurn (k : nat) | TaskTurn (i : nat) (aside : bool).

(** The turns of the threads and of a [stop] at work. *)
Definition is_turn (m : move) : bool :=
  match m with Start | Stop | Record _ | Submit => false | _ => true end.

Definition command (c : outcome life) st : option (outcome life) :=
  match stopping st with None => Some c | Some _ => None end.

Definition do_move (m : move) st : option (outcome life) :=
  match m with
  | Start => command (start st) st
  | Stop => command (Ret (begin_stop st)) st
  | Record is_open => command (Ret (fst (record is_open st))) st
  | Submit => Some (submit st)
  | StopTurn => stop_step st
  | RecordTurn => Ret <$> recording_step st
  | CleanupTurn => Ret <$> cleanup_step st
  | PeriodicTurn => Ret <$> periodic_step st
  | WaitingTurn k => waiting_step k st
  | TaskTurn i aside => Ret <$> task_step i aside st
  end.

Definition life_step st st' : Prop := exists m, do_move m st = Some (Ret st').

(** A step of a thread, or of [stop]. *)
Definition turn_step st st' : Prop := exists m, is_turn m = true /\ do_move m st = Some (Ret st').

Definition reachable (s : stats) st : Prop := rtc life_step (new_life s) st.
End life.

(** ** What holds all along *)
Section invariant.
Context {R : Type} `{ReusableThreadLaws work R}.
Context (cfg : settings) (get_iom_sender : string -> outcome (option bool)) (clock : nat -> Z).
Implicit Types st : life (R:=R).

Definition recorder_thread (r : R) : Prop := forall t, work_of r <> Some (Loop t).
Definition loop_thread (r : R) : Prop := idle r \/ exists t, work_of r = Some (Loop t).
Definition pool_open (p : task_pool) : Prop := exists tasks, p = Open tasks.

(** A module that runs has its threads at work; one that does not has none but a
    recording. *)
Definition at_work st : Prop :=
  ~ idle (m_cleanup_thread st)
  /\ (exists t, m_waiting_queue_thread st = Running t) /\ pool_open (m_request_handler_thread_pool st).

Definition at_rest st : Prop :=
  idle (m_cleanup_thread st) /\ idle (m_periodic_transmission_thread st)
  /\ m_waiting_queue_thread st = Unjoinable /\ ~ pool_open (m_request_handler_thread_pool st).

(** What [stop] has already waited for. *)
Definition waited st (place : stop_place) : Prop :=
  match place with
  | WaitRecording => True
  | WaitCleanup => idle (m_recording_thread st)
  | WaitPeriodic => idle (m_recording_thread st) /\ idle (m_cleanup_thread st)
  | JoinWaiting =>
      idle (m_recording_thread st) /\ idle (m_cleanup_thread st) /\ idle (m_periodic_transmission_thread st)
  | JoinPool =>
      idle (m_recording_thread st) /\ idle (m_cleanup_thread st) /\ idle (m_periodic_transmission_thread st)
      /\ m_waiting_queue_thread st = Unjoinable
  end.

Record life_ok st : Prop := {
  lo_recorder : recorder_thread (m_recording_thread st);
  lo_cleanup : loop_thread (m_cleanup_thread st);
  lo_periodic : loop_thread (m_periodic_transmission_thread st);
  lo_place : match stopping st with
             | None => if m_run_marker st then at_work st else at_rest st
             | Some place => m_run_marker st = false /\ waited st place
             end }.

Lemma loop_step_cases marker (r r' : R) :
  loop_step marker r = Some r' -> loop_thread r' /\ ~ idle r /\ (marker = true -> ~ idle r').
Proof.
  unfold loop_step, loop_thread, idle. destruct (work_of r) as [[|s c|[]]|] eqn:E; try done; intros [= <-];
    rewrite go_on_spec by (by rewrite E).
  - split; [destruct marker; eauto|]. split; [done|]. by intros ->.
  - split; [eauto|]. done.
Qed.

Lemma recording_step_cases st st' :
  recording_step clock st = Some st' ->
  ~ idle (m_recording_thread st) /\ exists b r n, st' = with_recording_thread b r n st /\ recorder_thread r.
Proof.
  unfold recording_step, idle, recorder_thread. destruct (work_of (m_recording_thread st)) as [[|s c|t]|] eqn:E; try done.
  - intros [= <-]. split; [done|]. eexists _, _, _. split; [done|]. by rewrite go_on_spec by (by rewrite E).
  - intros Hst. split; [done|]. destruct (_ <? _); injection Hst as <-; eexists _, _, _; (split; [done|]);
      by rewrite go_on_spec by (by rewrite E).
Qed.

Lemma post_open (tasks : list bool) (p p' : task_pool) : post tasks p = Ret p' -> pool_open p <-> pool_open p'.
Proof.
  unfold pool_open. destruct p as [|l|]; cbn; [done| |]; intros [= <-]; [|done].
  split; intros _; by eexists.
Qed.

Lemma start_ok st st' :
  life_ok st -> stopping st = None -> start cfg get_iom_sender st = Ret st' ->
  at_rest st /\ life_ok st' /\ stopping st' = None /\ m_run_marker st' = true
  /\ work_of (m_cleanup_thread st') = Some (Loop AtTest)
  /\ work_of (m_periodic_transmission_thread st')
     = (if 0 <? m_periodic_data_transmission_ms cfg then Some (Loop AtTest) else None)
  /\ m_waiting_queue_thread st' = Running AtTest /\ m_request_handler_thread_pool st' = Open [].
Proof.
  intros [Hr Hc Hp Hpl] Hs. unfold start. intros (_ & _ & Hst)%bind_Ret_inv.
  destruct (set_work (Loop AtTest) (m_cleanup_thread st)) as [b cl] eqn:Ecl.
  destruct (m_waiting_queue_thread st) eqn:Ew; try done. injection Hst as <-.
  rewrite Hs in Hpl. destruct (m_run_marker st).
  { destruct Hpl as (_ & (t & Ht) & _). congruence. }
  pose proof Hpl as (H1 & H2 & _). split; [done|].
  assert (Hcl : work_of cl = Some (Loop AtTest)).
  { pose proof (set_work_idle (Loop AtTest) _ H1) as Hw. by rewrite Ecl in Hw. }
  assert (Hper : work_of (if 0 <? m_periodic_data_transmission_ms cfg
                  then snd (set_work (Loop AtTest) (m_periodic_transmission_thread st))
                  else m_periodic_transmission_thread st)
    = (if 0 <? m_periodic_data_transmission_ms cfg then Some (Loop AtTest) else None)).
  { destruct (0 <? _); [by apply set_work_idle|done]. }
  split; [|by rewrite Hs]. split; cbn; [done| | |].
  - right. by exists AtTest.
  - unfold loop_thread, idle. rewrite Hper. destruct (0 <? _); eauto.
  - rewrite Hs. split; [unfold idle; cbn; by rewrite Hcl|]. split; by eexists.
Qed.

Lemma record_ok st is_open : life_ok st -> stopping st = None -> life_ok (fst (record cfg is_open st)).
Proof.
  intros [Hr Hc Hp Hpl] Hs. unfold record. destruct (Recording.record _ _ _) as [[] l]; [|by split].
  split; cbn; [|done|done|by rewrite Hs in *].
  destruct (work_of (m_recording_thread st)) eqn:E.
  - rewrite set_work_busy by (unfold idle; by rewrite E). done.
  - unfold recorder_thread. by rewrite set_work_idle.
Qed.

Lemma stop_step_ok st st' : life_ok st -> stop_step st = Some (Ret st') -> life_ok st'.
Proof.
  intros [Hr Hc Hp Hpl]. unfold stop_step. destruct (stopping st) as [place|]; [|done].
  destruct Hpl as [Hm Hw]. destruct place; cbn in Hw.
  1-3: destruct (get_readiness _) eqn:E; [|done]; intros [= <-]; apply idle_readiness in E; split; cbn; try done;
    (split; [done|]); cbn; tauto.
  - destruct (m_waiting_queue_thread st); try done. intros [= <-]. split; cbn; try done. split; [done|]. cbn. tauto.
  - destruct Hw as (H1 & H2 & H3 & H4).
    assert (Hrest : life_ok (with_stopping None
      (with_requests (m_waiting_queue_thread st) Joined (m_waiting_requests st) st))).
    { split; cbn; try done. rewrite Hm. split; [done|]. split; [done|]. split; [done|]. by intros [? ?]. }
    destruct (m_request_handler_thread_pool st) as [|[|]|]; try done; by intros [= <-].
Qed.

(** A change of the waiting thread and the pool that keeps a module at work at work, and does
    not happen to one at rest. *)
Lemma requests_ok st (t : waiter) (p : task_pool) (n : nat) :
  life_ok st ->
  (pool_open (m_request_handler_thread_pool st) <-> pool_open p) ->
  (t = m_waiting_queue_thread st
   \/ m_waiting_queue_thread st <> Unjoinable /\ (m_run_marker st = true -> exists at_, t = Running at_)) ->
  life_ok (with_requests t p n st).
Proof.
  intros [Hr Hc Hp Hpl] Hpool Ht. split; cbn; try done. destruct (stopping st) as [place|].
  - destruct Hpl as [Hm Hw]. split; [done|]. destruct place; try done. cbn in *.
    destruct Ht as [->|[Ht _]]; [done|]. by destruct Hw as (_ & _ & _ & ?).
  - destruct (m_run_marker st).
    + destruct Hpl as (H1 & H2 & H3). split; [done|]. split; [|by apply Hpool].
      destruct Ht as [->|[_ Ht]]; [done|by apply Ht].
    + destruct Hpl as (H1 & H2 & H3 & H4). split; [done|]. split; [done|]. split; [|by rewrite <- Hpool].
      destruct Ht as [->|[Ht _]]; done.
Qed.

Lemma loops_ok st (cl per : R) :
  life_ok st -> loop_thread cl -> loop_thread per ->
  (idle (m_cleanup_thread st) -> idle cl) -> (idle (m_periodic_transmission_thread st) -> idle per) ->
  (m_run_marker st = true -> ~ idle (m_cleanup_thread st) -> ~ idle cl) ->
  life_ok (with_loops cl per st).
Proof.
  intros [Hr Hc Hp Hpl] Hcl Hper H1 H2 H3. split; cbn; try done. destruct (stopping st) as [place|].
  - destruct Hpl as [Hm Hw]. split; [done|]. destruct place; cbn in *; tauto.
  - unfold at_work, at_rest in *. cbn. destruct (m_run_marker st); tauto.
Qed.

Lemma life_step_ok st st' : life_step cfg get_iom_sender clock st st' -> life_ok st -> life_ok st'.
Proof.
  intros [m Hm] Hok. destruct m as [| |is_open| | | | | |k|i aside]; cbn [do_move] in Hm; unfold command in Hm.
  - destruct (stopping st) eqn:Hs; [done|]. injection Hm as Hm. by apply (start_ok st).
  - destruct (stopping st) eqn:Hs; [done|]. injection Hm as <-. destruct Hok. by split.
  - destruct (stopping st) eqn:Hs; [done|]. injection Hm as <-. by apply record_ok.
  - injection Hm as Hm. unfold submit in Hm. apply bind_Ret_inv in Hm as (p & Hp & [= <-]).
    apply requests_ok; [done|by apply (post_open [false])|by left].
  - by apply (stop_step_ok st).
  - destruct (recording_step clock st) as [st1|] eqn:E; [|done]. injection Hm as <-.
    destruct (recording_step_cases st st1 E) as (Hi & b & r & n & -> & Hrec). destruct Hok as [Hr Hc Hp Hpl].
    split; cbn; try done. destruct (stopping st) as [[]|]; cbn in *; tauto.
  - unfold cleanup_step in Hm. destruct (loop_step (m_run_marker st) (m_cleanup_thread st)) as [r|] eqn:E; [|done].
    injection Hm as <-. destruct (loop_step_cases _ _ _ E) as (H1 & H2 & H3). pose proof (lo_periodic _ Hok).
    apply loops_ok; try done; tauto.
  - unfold periodic_step in Hm.
    destruct (loop_step (m_run_marker st) (m_periodic_transmission_thread st)) as [r|] eqn:E; [|done].
    injection Hm as <-. destruct (loop_step_cases _ _ _ E) as (H1 & H2 & H3). pose proof (lo_cleanup _ Hok).
    apply loops_ok; try done; tauto.
  - unfold waiting_step in Hm. destruct (m_waiting_queue_thread st) as [|[]|] eqn:Ew; try done.
    + injection Hm as <-. apply requests_ok; [done|done|]. right. split; [by rewrite Ew|]. intros ->. by eexists.
    + destruct (_ <=? _)%nat; [|done]. injection Hm as Hm. apply bind_Ret_inv in Hm as (p & Hp & [= <-]).
      apply requests_ok; [done|by apply (post_open (replicate k true))|]. right. split; [by rewrite Ew|]. by eexists.
  - unfold task_step in Hm. destruct (m_request_handler_thread_pool st) as [|tasks|] eqn:Ep; try done.
    destruct (tasks !! i) as [retry|]; [|done]. injection Hm as <-.
    apply requests_ok; [done| |by left]. rewrite Ep. split; intros _; by eexists.
Qed.

Lemma new_life_ok (s : stats) : life_ok (new_life s).
Proof.
  assert (Hidle : idle (new_thread (W:=work))) by apply new_thread_idle.
  split; cbn; [unfold recorder_thread; by rewrite Hidle|by left|by left|].
  split; [done|]. split; [done|]. split; [done|]. by intros [? ?].
Qed.

Lemma reachable_ok (s : stats) st : reachable cfg get_iom_sender clock s st -> life_ok st.
Proof.
  intros Hreach. pose proof (new_life_ok s) as Hok. revert Hok.
  induction Hreach as [st|st0 st1 st Hstep _ IH]; [done|]. intros Hok. apply IH. by apply (life_step_ok st0).
Qed.
End invariant.

(** ** A stop ends *)
Section ending.
Context {R : Type} `{ReusableThreadLaws work R}.
Context (cfg : settings) (get_iom_sender : string -> outcome (option bool)) (clock : nat -> Z).
Implicit Types st : life (R:=R).

(** The recording's second is over at every reading from the [M]-th on. *)
Definition recording_ends (M : nat) st : Prop :=
  match work_of (m_recording_thread st) with
  | Some Begin => forall k, (M <= k)%nat -> clock (readings st) + 1000000000 <= clock k
  | Some (Turning start_of_recording _) => forall k, (M <= k)%nat -> start_of_recording + 1000000000 <= clock k
  | _ => True
  end.

(** A stop of a module that was started. *)
Record ending (M : nat) st : Prop := {
  en_ok : life_ok st;
  en_marker : m_run_marker st = false;
  en_recording : recording_ends M st;
  en_place : match stopping st with
             | None => True
             | Some JoinPool => pool_open (m_request_handler_thread_pool st)
             | Some _ => pool_open (m_request_handler_thread_pool st)
                         /\ m_waiting_queue_thread st <> Unjoinable
             end }.

(** *** The turns left *)
Definition turns_of (t : turn) : nat := match t with AtTest => 1 | AtBody => 2 end.

Definition recording_turns (M : nat) st : nat :=
  match work_of (m_recording_thread st) with
  | Some Begin => 3 + (M - readings st)
  | Some (Turning s c) => if Z.quot (c - s) 1000000000 <? 1 then 2 + (M - readings st) else 1
  | _ => 0
  end.

Definition loop_turns (r : R) : nat :=
  match work_of r with Some (Loop t) => turns_of t | _ => 0 end.

Definition waiter_turns (w : waiter) : nat := match w with Running t => turns_of t | _ => 0 end.

Definition task_turns (p : task_pool) : nat :=
  match p with Open l => sum_list_with (fun retry : bool => if retry then 1%nat else 2%nat) l | _ => 0%nat end.

Definition stop_turns (p : option stop_place) : nat :=
  match p with
  | Some WaitRecording => 5 | Some WaitCleanup => 4 | Some WaitPeriodic => 3
  | Some JoinWaiting => 2 | Some JoinPool => 1 | None => 0
  end.

Definition turns_left (M : nat) st : nat :=
  recording_turns M st + loop_turns (m_cleanup_thread st) + loop_turns (m_periodic_transmission_thread st)
  + waiter_turns (m_waiting_queue_thread st) + task_turns (m_request_handler_thread_pool st)
  + m_waiting_requests st + stop_turns (stopping st).

Lemma recording_decreases (M : nat) st st' :
  recording_ends M st -> recording_step clock st = Some st' ->
  recording_ends M st' /\ (recording_turns M st' < recording_turns M st)%nat.
Proof.
  unfold recording_ends, recording_turns, recording_step.
  destruct (work_of (m_recording_thread st)) as [[|s c|t]|] eqn:E; try done; intros Hend.
  - intros [= <-]. cbn. rewrite go_on_spec by (by rewrite E). split; [done|].
    destruct (_ <? 1); lia.
  - unfold recording_time_sec. destruct (_ <? 1) eqn:Et; intros [= <-]; cbn; rewrite go_on_spec by (by rewrite E).
    + split; [done|]. destruct (Z.ltb_spec (Z.quot (clock (readings st) - s) 1000000000) 1) as [Hlt|]; [|lia].
      destruct (le_lt_dec M (readings st)) as [Hle|]; [|lia]. specialize (Hend _ Hle).
      assert (1 <= Z.quot (clock (readings st) - s) 1000000000) by (apply Z.quot_le_lower_bound; lia). lia.
    + split; [done|lia].
Qed.

Lemma loop_decreases (r r' : R) : loop_step false r = Some r' -> (loop_turns r' < loop_turns r)%nat.
Proof.
  unfold loop_step, loop_turns. destruct (work_of r) as [[|s c|[]]|] eqn:E; try done; intros [= <-];
    rewrite go_on_spec by (by rewrite E); cbn; lia.
Qed.

Lemma task_turns_delete (tasks : list bool) (i : nat) (retry : bool) :
  tasks !! i = Some retry ->
  task_turns (Open tasks) = (task_turns (Open (delete i tasks)) + (if retry then 1 else 2))%nat.
Proof.
  revert i. cbn. induction tasks as [|t tasks IH]; intros [|i] Hi; cbn in *; [done|done| |].
  - injection Hi as ->. destruct retry; lia.
  - unfold delete in *. rewrite (IH i Hi). destruct t, retry; lia.
Qed.

(** A turn of a thread, or of [stop] itself, never fails and is one turn less. *)
Lemma turn_decreases (M : nat) (m : move) st o :
  ending M st -> is_turn m = true -> do_move cfg get_iom_sender clock m st = Some o ->
  exists st', o = Ret st' /\ ending M st' /\ (turns_left M st' < turns_left M st)%nat.
Proof.
  intros Hen Hturn Hm.
  assert (Hgo : forall st', o = Ret st' -> m_run_marker st' = false -> recording_ends M st' ->
    match stopping st' with
    | None => True
    | Some JoinPool => pool_open (m_request_handler_thread_pool st')
    | Some _ => pool_open (m_request_handler_thread_pool st') /\ m_waiting_queue_thread st' <> Unjoinable
    end -> (turns_left M st' < turns_left M st)%nat ->
    exists st', o = Ret st' /\ ending M st' /\ (turns_left M st' < turns_left M st)%nat).
  { intros st' -> H1 H2 H3 H4. exists st'. split; [done|]. split; [|done]. split; try done.
    apply (life_step_ok cfg get_iom_sender clock st); [by exists m|apply Hen]. }
  destruct Hen as [Hok Hmark Hrec Hpl].
  destruct m as [| | | | | | | |k|i aside]; try done; cbn [do_move] in Hm.
  - unfold stop_step in Hm. destruct (stopping st) as [place|] eqn:Es; [|done].
    destruct place.
    1-3: destruct (get_readiness _); [|done]; injection Hm as <-; eapply Hgo; try done;
      unfold turns_left; cbn; rewrite Es; cbn; unfold recording_turns; cbn; lia.
    + destruct (m_waiting_queue_thread st) eqn:Ew; [by destruct Hpl|done|]. injection Hm as <-.
      eapply Hgo; try done; [cbn; apply Hpl|]. unfold turns_left. cbn. rewrite Es, Ew. cbn.
      unfold recording_turns. cbn. lia.
    + destruct Hpl as [tasks Hpool]. rewrite Hpool in Hm. destruct tasks; [|done]. injection Hm as <-.
      eapply Hgo; try done. unfold turns_left. cbn. rewrite Es, Hpool. cbn. unfold recording_turns. cbn. lia.
  - destruct (recording_step clock st) as [st1|] eqn:E; [|done]. injection Hm as <-.
    destruct (recording_decreases M st st1 Hrec E) as [Hrec' Hlt].
    destruct (recording_step_cases clock st st1 E) as (_ & b & r & n & -> & _).
    eapply Hgo; try done. unfold turns_left. cbn. lia.
  - unfold cleanup_step in Hm. rewrite Hmark in Hm. destruct (loop_step _ _) as [r|] eqn:E; [|done].
    apply loop_decreases in E. injection Hm as <-. eapply Hgo; try done.
    unfold turns_left, recording_turns. cbn. lia.
  - unfold periodic_step in Hm. rewrite Hmark in Hm. destruct (loop_step _ _) as [r|] eqn:E; [|done].
    apply loop_decreases in E. injection Hm as <-. eapply Hgo; try done.
    unfold turns_left, recording_turns. cbn. lia.
  - unfold waiting_step in Hm. rewrite Hmark in Hm. destruct (m_waiting_queue_thread st) as [|at_|] eqn:Ew; try done.
    assert (Hopen : pool_open (m_request_handler_thread_pool st) /\ stopping st <> Some JoinPool
      /\ stopping st <> None).
    { pose proof (lo_place _ Hok) as Hl. rewrite Hmark in Hl. destruct (stopping st) as [[]|]; try by destruct Hpl.
      - destruct Hl as (_ & _ & _ & _ & ?). congruence.
      - destruct Hl as (_ & _ & ? & _). congruence. }
    destruct Hopen as ([tasks Hpool] & Hs1 & Hs2). destruct at_.
    + injection Hm as <-. eapply Hgo; try done.
      * cbn. by destruct (stopping st) as [[]|]; try destruct Hpl.
      * unfold turns_left, recording_turns. cbn. rewrite Ew. cbn. lia.
    + destruct (k <=? _)%nat eqn:Ek; [|done]. apply Nat.leb_le in Ek. rewrite Hpool in Hm. cbn in Hm.
      injection Hm as <-. eapply Hgo; try done.
      * cbn. destruct (stopping st) as [[]|]; try done; (split; [by eexists|done]).
      * unfold turns_left, recording_turns. cbn. rewrite Ew, Hpool. cbn. rewrite sum_list_with_app.
        assert (Hk : sum_list_with (fun retry : bool => if retry then 1%nat else 2%nat) (replicate k true) = k)
          by (clear; induction k; cbn; lia). lia.
  - unfold task_step in Hm. destruct (m_request_handler_thread_pool st) as [|tasks|] eqn:Ep; try done.
    destruct (tasks !! i) as [retry|] eqn:Ei; [|done]. injection Hm as <-. eapply Hgo; try done.
    + cbn. destruct (stopping st) as [[]|]; try done; try (split; [by eexists|by destruct Hpl]). by eexists.
    + unfold turns_left, recording_turns. cbn [with_requests m_recording_thread m_cleanup_thread readings stopping
        m_periodic_transmission_thread m_waiting_queue_thread m_request_handler_thread_pool m_waiting_requests].
      rewrite Ep, (task_turns_delete _ _ _ Ei). destruct retry; rewrite ?andb_false_r; cbn; [lia|].
      destruct (_ && _); lia.
Qed.

(** While a [stop] has not returned, it or a thread it waits for can go on. *)
Lemma ending_moves (M : nat) st place :
  ending M st -> stopping st = Some place ->
  exists m o, is_turn m = true /\ do_move cfg get_iom_sender clock m st = Some o.
Proof.
  intros [[Hr Hc Hp Hl] Hmark Hrec Hpl] Hs. rewrite Hs in Hpl, Hl.
  assert (Hloop : forall r, loop_thread r -> ~ idle r -> is_Some (loop_step (m_run_marker st) r)).
  { intros r [?|[t Ht]] Hn; [done|]. unfold loop_step. rewrite Ht. by destruct t. }
  assert (Hstop : forall r : R, get_readiness r = true \/ ~ idle r).
  { intros r. unfold idle. rewrite readiness_spec. destruct (work_of r); [by right|by left]. }
  destruct place.
  - destruct (Hstop (m_recording_thread st)) as [E|E].
    + exists StopTurn. cbn. unfold stop_step. rewrite Hs, E. by eexists.
    + exists RecordTurn. cbn. unfold recording_step, idle, recorder_thread in *.
      destruct (work_of (m_recording_thread st)) as [[|s c|t]|]; [by eexists| |by destruct (Hr t)|done].
      destruct (_ <? _); by eexists.
  - destruct (Hstop (m_cleanup_thread st)) as [E|E].
    + exists StopTurn. cbn. unfold stop_step. rewrite Hs, E. by eexists.
    + exists CleanupTurn. cbn. unfold cleanup_step. destruct (Hloop _ Hc E) as [r ->]. by eexists.
  - destruct (Hstop (m_periodic_transmission_thread st)) as [E|E].
    + exists StopTurn. cbn. unfold stop_step. rewrite Hs, E. by eexists.
    + exists PeriodicTurn. cbn. unfold periodic_step. destruct (Hloop _ Hp E) as [r ->]. by eexists.
  - destruct Hpl as [_ Hw]. destruct (m_waiting_queue_thread st) as [|t|] eqn:Ew; [done| |].
    + exists (WaitingTurn 0). cbn. unfold waiting_step. rewrite Ew. destruct t; by eexists.
    + exists StopTurn. cbn. unfold stop_step. rewrite Hs, Ew. by eexists.
  - destruct Hpl as [[|retry tasks] Hpool].
    + exists StopTurn. cbn. unfold stop_step. rewrite Hs, Hpool. by eexists.
    + exists (TaskTurn 0 false). cbn. unfold task_step. rewrite Hpool. by eexists.
Qed.

(** The clock passes every time. *)
Context (Hclock : forall t, exists M, forall k, (M <= k)%nat -> t <= clock k).

Lemma begin_stop_ending st :
  life_ok st -> m_run_marker st = true -> stopping st = None -> exists M, ending M (begin_stop st).
Proof.
  intros [Hr Hc Hp Hl] Hmark Hs. rewrite Hs, Hmark in Hl. destruct Hl as (_ & (t & Ht) & Hpool).
  assert (exists M, recording_ends M (begin_stop st)) as [M HM].
  { unfold recording_ends. cbn. destruct (work_of (m_recording_thread st)) as [[|s c|]|];
      [apply Hclock|apply Hclock|by exists 0%nat..]. }
  exists M. split; [by split|done|done|]. cbn. split; [done|]. by rewrite Ht.
Qed.
End ending.

(** ** What [start] and [stop] promise *)
Section properties.
Context {R : Type} `{ReusableThreadLaws work R}.
Context (cfg : settings) (get_iom_sender : string -> outcome (option bool)) (clock : nat -> Z).
Implicit Types st : life (R:=R).

(** C18: a [stop] of a running handler ends, however its turns and those of the recording,
    the cleanup, the periodic transmission, the waiting thread and the tasks of the pool
    interleave, if the clock passes every time: there is no infinite sequence of turns,
    none of them fails, and as long as [stop] has not returned there is a next one. *)
Theorem stop_returns (s : stats) st :
  (forall t, exists M, forall k, (M <= k)%nat -> t <= clock k) ->
  reachable cfg get_iom_sender clock s st -> m_run_marker st = true -> stopping st = None ->
  let turn_step := turn_step cfg get_iom_sender clock in
  sn turn_step (begin_stop st)
  /\ forall st', rtc turn_step (begin_stop st) st' ->
     (forall m o, is_turn m = true -> do_move cfg get_iom_sender clock m st' = Some o -> exists st'', o = Ret st'')
     /\ (stopping st' <> None -> exists st'', turn_step st' st'').
Proof.
  intros Hclock Hreach Hmark Hs turn_step.
  destruct (begin_stop_ending clock Hclock st (reachable_ok _ _ _ s st Hreach) Hmark Hs) as [M HM].
  assert (Hstep : forall st1 st2, ending clock M st1 -> turn_step st1 st2 ->
    ending clock M st2 /\ (turns_left M st2 < turns_left M st1)%nat).
  { intros st1 st2 Hen (m & Ht & Hm).
    destruct (turn_decreases cfg get_iom_sender clock M m st1 _ Hen Ht Hm) as (st3 & [= <-] & H3). done. }
  split.
  - remember (turns_left M (begin_stop st)) as n eqn:Hn. revert HM Hn. generalize (begin_stop st).
    induction (lt_wf n) as [n _ IH]. intros st1 Hen ->. constructor. intros st2 H12.
    destruct (Hstep _ _ Hen H12) as [Hen2 Hlt]. by apply (IH _ Hlt).
  - intros st' Hrun. assert (Hen : ending clock M st').
    { induction Hrun as [st1|st1 st2 st3 H12 _ IH]; [done|]. apply IH. by apply (Hstep st1). }
    assert (Hret : forall m o, is_turn m = true -> do_move cfg get_iom_sender clock m st' = Some o ->
      exists st'', o = Ret st'').
    { intros m o Ht Hm. destruct (turn_decreases cfg get_iom_sender clock M m st' o Hen Ht Hm) as (st'' & -> & _).
      by exists st''. }
    split; [exact Hret|]. intros Hne. destruct (stopping st') as [place|] eqn:Ep; [|done].
    destruct (ending_moves cfg get_iom_sender clock M st' place Hen Ep) as (m & o & Ht & Hm).
    destruct (Hret m o Ht Hm) as [st'' ->]. exists st'', m. done.
Qed.

(** C19: when [stop] returns, nothing of the handler runs any more: every thread is ready or
    joined, the pool is empty, and none of them can take a turn, whatever came before, a
    recording included; and the next [start], if the senders can be had, finds every
    thread free: the periodic ones and the waiting thread begin, and the pool is new. *)
Theorem stop_quiesces (s : stats) st st' :
  reachable cfg get_iom_sender clock s st -> stopping st <> None ->
  stop_step st = Some (Ret st') -> stopping st' = None ->
  get_readiness (m_recording_thread st') = true /\ get_readiness (m_cleanup_thread st') = true
  /\ get_readiness (m_periodic_transmission_thread st') = true
  /\ m_waiting_queue_thread st' = Unjoinable /\ m_request_handler_thread_pool st' = Joined
  /\ (forall m, is_turn m = true -> do_move cfg get_iom_sender clock m st' = None)
  /\ (ready_senders get_iom_sender (m_frag_out_conn_ids cfg) = Ret tt ->
      exists st2, do_move cfg get_iom_sender clock Start st' = Some (Ret st2) /\ m_run_marker st2 = true
        /\ work_of (m_cleanup_thread st2) = Some (Loop AtTest)
        /\ work_of (m_periodic_transmission_thread st2)
           = (if 0 <? m_periodic_data_transmission_ms cfg then Some (Loop AtTest) else None)
        /\ m_waiting_queue_thread st2 = Running AtTest /\ m_request_handler_thread_pool st2 = Open []).
Proof.
  intros Hreach Hne Hstop Hs'. pose proof (reachable_ok _ _ _ s st Hreach) as Hok.
  assert (Hok' : life_ok st') by (by apply (stop_step_ok st)).
  unfold stop_step in Hstop. pose proof (lo_place _ Hok) as Hl.
  destruct (stopping st) as [place|]; [|done]. destruct Hl as [Hmark Hw].
  destruct place.
  1-3: destruct (get_readiness _); [|done]; by injection Hstop as <-.
  { destruct (m_waiting_queue_thread st); try done. by injection Hstop as <-. }
  destruct Hw as (H1 & H2 & H3 & H4).
  assert (Est : st' = with_stopping None (with_requests Unjoinable Joined (m_waiting_requests st) st)).
  { rewrite H4 in Hstop. destruct (m_request_handler_thread_pool st) as [|[|]|]; try done; by injection Hstop as <-. }
  split_and!; try (rewrite Est; cbn; first [by apply idle_readiness|done]).
  - intros m Hm. destruct m as [| | | | | | | |k|i aside]; try done; cbn [do_move];
      [unfold stop_step|unfold recording_step|unfold cleanup_step|unfold periodic_step|..]; rewrite Est; cbn.
    + done.
    + by rewrite H1.
    + unfold loop_step. by rewrite H2.
    + unfold loop_step. by rewrite H3.
    + done.
    + done.
  - intros Hready. assert (exists st2, start cfg get_iom_sender st' = Ret st2) as [st2 Hst2].
    { unfold start. rewrite Hready. rewrite Est. cbn. destruct (set_work _ _). by eexists. }
    exists st2. destruct (start_ok cfg get_iom_sender st' st2 Hok' Hs' Hst2) as (_ & _ & _ & ? & ? & ? & ? & ?).
    split; [|done]. cbn. unfold command. by rewrite Hs', Hst2.
Qed.

(** Commands out of turn: a second [start] ends the program, a [stop] without a start
    throws once it comes to the waiting thread, and a request before the first start is
    posted to no pool. *)
Theorem commands_out_of_turn (s : stats) st :
  reachable cfg get_iom_sender clock s st -> stopping st = None ->
  ready_senders get_iom_sender (m_frag_out_conn_ids cfg) = Ret tt ->
  (m_run_marker st = true -> start cfg get_iom_sender st = AssertFail)
  /\ (m_run_marker st = false ->
      stop_step (with_stopping (Some JoinWaiting) (begin_stop st)) = Some (Throw std_exception))
  /\ submit (new_life (R:=R) s) = Undefined.
Proof.
  intros Hreach Hs Hready. pose proof (reachable_ok _ _ _ s st Hreach) as Hok.
  pose proof (lo_place _ Hok) as Hl. rewrite Hs in Hl. split; [|split; [|done]]; intros Hm; rewrite Hm in Hl.
  - destruct Hl as (_ & (t & Ht) & _). unfold start. rewrite Hready, Ht. cbn. by destruct (set_work _ _).
  - destruct Hl as (_ & _ & Hw & _). unfold stop_step. cbn. by rewrite Hw.
Qed.

(** A second [record] before the thread of the first has begun is not refused, but
    nothing comes of it. *)
Theorem record_race st :
  idle (m_recording_thread st) -> m_recording st = false ->
  let '(st1, issues) := record cfg true st in
  issues = [] /\ work_of (m_recording_thread st1) = Some Begin
  /\ exists st2, record cfg true st1 = (st2, []) /\ m_recording_thread st2 = m_recording_thread st1.
Proof.
  intros Hi Hr. unfold record. rewrite Hr. cbn. split; [done|]. split; [by apply set_work_idle|].
  eexists. split; [reflexivity|]. cbn.
  by rewrite (set_work_busy _ (snd (set_work Begin (m_recording_thread st)))) by (unfold idle; by rewrite set_work_idle).
Qed.
End properties.

(** ** The properties at work: a start, a recording and a request, and a stop *)

Definition sample_settings : settings :=
  mkSettings (mkSourceID 1 7) 0 (f32_of_Z 0) (f32_of_Z 0) 0 0 10 1 100 100 ["fragments"] true "rec.bin" 4096
    false false 10.

Definition sample_sender (_ : string) : outcome (option bool) := Ret (Some true).

(** Half a second between two readings. *)
Definition sample_clock (n : nat) : Z := Z.of_nat n * 500000000.

Fixpoint run_all (moves : list move) (st : life (R := option work)) : option (life (R := option work)) :=
  match moves with
  | [] => Some st
  | m :: moves =>
      match do_move sample_settings sample_sender sample_clock m st with
      | Some (Ret st) => run_all moves st
      | _ => None
      end
  end.

Lemma run_all_reachable s moves st :
  run_all moves (new_life s) = Some st -> reachable sample_settings sample_sender sample_clock s st.
Proof.
  unfold reachable. generalize (new_life (R := option work) s).
  induction moves as [|m moves IH]; intros a; cbn [run_all]; [by intros [= ->]|].
  destruct (do_move _ _ _ m a) as [[b| | | |]|] eqn:E; try done. intros Hrun.
  econstructor; [by exists m|]. by apply IH.
Qed.

Definition running_moves : list move :=
  [Start; Record true; RecordTurn; Submit; CleanupTurn; WaitingTurn 0; TaskTurn 0 true; Submit; PeriodicTurn].

(** The stop of it, turn by turn, to the last. *)
Definition stopping_moves : list move :=
  [Stop; RecordTurn; WaitingTurn 1; RecordTurn; CleanupTurn; RecordTurn; StopTurn; CleanupTurn; StopTurn;
   PeriodicTurn; PeriodicTurn; StopTurn; TaskTurn 0 false; WaitingTurn 0; StopTurn; TaskTurn 0 false].

Definition sample_stats : stats := fun _ => 0.

Lemma stop_returns_witness :
  exists st, run_all running_moves (new_life sample_stats) = Some st
    /\ sn (turn_step sample_settings sample_sender sample_clock) (begin_stop st).
Proof.
  assert (Hst : match run_all running_moves (new_life sample_stats) with
    | Some st => (m_run_marker st, stopping st) | None => (false, None) end = (true, None))
    by (vm_compute; reflexivity).
  destruct (run_all running_moves (new_life sample_stats)) as [st|] eqn:E; [|discriminate Hst].
  injection Hst as Hmark Hs. exists st. split; [reflexivity|].
  destruct (stop_returns sample_settings sample_sender sample_clock sample_stats st) as [Hsn _].
  - intros t. exists (Z.to_nat t). intros k Hk. unfold sample_clock. lia.
  - exact (run_all_reachable _ _ _ E).
  - exact Hmark.
  - exact Hs.
  - exact Hsn.
Defined.

Lemma stop_quiesces_witness :
  exists st st', run_all (running_moves ++ stopping_moves) (new_life sample_stats) = Some st
    /\ stop_step st = Some (Ret st')
    /\ (forall m, is_turn m = true -> do_move sample_settings sample_sender sample_clock m st' = None).
Proof.
  assert (Hst : match run_all (running_moves ++ stopping_moves) (new_life sample_stats) with
    | Some st =>
        match stop_step st with Some (Ret st') => Some (stopping st, stopping st') | _ => None end
    | None => None end = Some (Some JoinPool, None)) by (vm_compute; reflexivity).
  destruct (run_all (running_moves ++ stopping_moves) (new_life sample_stats)) as [st|] eqn:E; [|discriminate Hst].
  destruct (stop_step st) as [[st'| | | |]|] eqn:Es; try discriminate Hst.
  injection Hst as Hplace Hs. exists st, st'. split; [reflexivity|]. split; [exact Es|].
  destruct (stop_quiesces sample_settings sample_sender sample_clock sample_stats st st')
    as (_ & _ & _ & _ & _ & Hquiet & _).
  - exact (run_all_reachable _ _ _ E).
  - rewrite Hplace. discriminate.
  - exact Es.
  - exact Hs.
  - exact Hquiet.
Defined.
