(* ===== verification/RequestFlow.v ===== *)
(** The life of a data request in DefaultRequestHandlerModel: posted to the
    thread pool, answered or put aside once, reissued by the waiting thread,
    answered; over all orders of submissions, tasks, turns of the waiting thread,
    starts and stops, with what becomes of the requests no pool runs any more. *)
From S2P Require Import Prelude IterableQueue BinarySearchQueue ReadoutTypes LatencyBuffer FrameErrorRegistry FragmentSearch RequestHandler.
From S2P Require Import Threads Recording HandlerLife.

(** ** The state *)

(** A posted task: its request and its [is_retry]. *)
Definition task : Type := DataRequest * bool.

(** The thread pool as in HandlerLife.v, with the tasks in it: a pool that was joined
    keeps what is posted to it, and drops it when the pointer gets the next pool. *)
Inductive request_pool := Absent | Working (tasks : list task) | Finished (tasks : list task).

Definition posted (p : request_pool) : list task :=
  match p with Absent => [] | Working tasks | Finished tasks => tasks end.

(** The tasks no thread takes any more. *)
Definition stuck (p : request_pool) : list task :=
  match p with Finished tasks => tasks | _ => [] end.

#[export] Instance turn_eq_dec : EqDecision turn.
Proof. solve_decision. Defined.

#[export] Instance waiter_eq_dec : EqDecision waiter.
Proof. solve_decision. Defined.

(** The three histories: the requests issued from outside, those whose fragment was
    handed to a sender, and those destroyed with a pool. *)
Record flow := mkFlow {
  submitted : list DataRequest;
  answered : list DataRequest;
  destroyed : list DataRequest;
  pool : request_pool;
  waiting : list RequestElement;
  waiting_thread : waiter;
  run_marker : bool;
  stop_at : option stop_place;
  counters : stats }.

(** A new request handler. *)
Definition initial (s : stats) : flow := mkFlow [] [] [] Absent [] Unjoinable false None s.

Implicit Types st : flow.

Definition with_pool (p : request_pool) st : flow :=
  mkFlow (submitted st) (answered st) (destroyed st) p (waiting st) (waiting_thread st)
    (run_marker st) (stop_at st) (counters st).

Definition with_waiting (l : list RequestElement) (t : waiter) (s : stats) st : flow :=
  mkFlow (submitted st) (answered st) (destroyed st) (pool st) l t (run_marker st) (stop_at st) s.

Definition with_answered (dr : DataRequest) (s : stats) st : flow :=
  mkFlow (submitted st) (answered st ++ [dr]) (destroyed st) (pool st) (waiting st)
    (waiting_thread st) (run_marker st) (stop_at st) s.

Definition with_place (place : option stop_place) st : flow :=
  mkFlow (submitted st) (answered st) (destroyed st) (pool st) (waiting st) (waiting_thread st)
    (run_marker st) place (counters st).

(** ** The steps *)

(** [boost::asio::post]; before the first start the pointer is null. *)
Definition post_to (tasks : list task) (p : request_pool) : outcome request_pool :=
  match p with
  | Absent => Undefined
  | Working l => Ret (Working (l ++ tasks))
  | Finished l => Ret (Finished (l ++ tasks))
  end.

(** [issue_request] of a request from outside. *)
Definition issue_request (dr : DataRequest) st : outcome flow :=
  p ← post_to [(dr, false)] (pool st);
  Ret (mkFlow (submitted st ++ [dr]) (answered st) (destroyed st) p (waiting st)
         (waiting_thread st) (run_marker st) (stop_at st) (counters st)).

Section flow.
Context {T B It : Type} `{RT : ReadoutType T} `{LB : LatencyBuffer T B It}.
Context (f : formats) (cfg : settings) (send : string -> Fragment T -> bool).

(** The [i]-th task of a pool at work, with the buffer, the errors and the times it sees. *)
Definition run_task (i : nat) (b : B) (errors : registry) (t1 t2 t3 : Z) st : option (outcome flow) :=
  match pool st with
  | Working tasks =>
      '(dr, is_retry) ← tasks !! i;
      Some ('(d, s, _) ← request_task f cfg send b errors dr is_retry t1 t2 t3 (counters st);
            let st := with_pool (Working (delete i tasks)) st in
            Ret match d with
                | Requeued e => with_waiting (waiting st ++ [e]) (waiting_thread st) s st
                | Answered _ => with_answered dr s st
                end)
  | _ => None
  end.

(** [check_waiting_requests]: the test of the run marker, and the body of the loop, which
    holds the lock of the waiting requests for the whole pass. *)
Definition waiting_turn (clock : nat -> Z) (b : B) st : option (outcome flow) :=
  match waiting_thread st with
  | Running AtTest =>
      Some (Ret (with_waiting (waiting st) (if run_marker st then Running AtBody else Ended) (counters st) st))
  | Running AtBody =>
      Some ('(issued, kept, s, _) ← waiting_pass cfg clock b (waiting st) (counters st);
            p ← post_to ((fun dr => (dr, true)) <$> issued) (pool st);
            Ret (with_waiting kept (Running AtTest) s (with_pool p st)))
  | _ => None
  end.

(** [start], which destroys the pool of the run before; a sender that cannot be had ends
    it with an exception after the counters are cleared. *)
Definition start (get_iom_sender : string -> outcome (option bool)) st : outcome flow :=
  let cleared := with_waiting (waiting st) (waiting_thread st) (start_stats (counters st)) st in
  match ready_senders get_iom_sender (m_frag_out_conn_ids cfg) with
  | Ret _ =>
      match waiting_thread st with
      | Unjoinable =>
          Ret (mkFlow (submitted st) (answered st) (destroyed st ++ (posted (pool st)).*1)
                 (Working []) (waiting st) (Running AtTest) true (stop_at st) (counters cleared))
      | _ => AssertFail
      end
  | Throw _ => Ret cleared
  | AssertFail => AssertFail
  | Undefined => Undefined
  | OutOfFuel => OutOfFuel
  end.

(** [stop], as in HandlerLife.v but for its waits for the other threads, which only
    delay it; joining a thread that is not joinable ends it with an exception. *)
Definition begin_stop st : flow :=
  mkFlow (submitted st) (answered st) (destroyed st) (pool st) (waiting st) (waiting_thread st)
    false (Some JoinWaiting) (counters st).

Definition stop_turn st : option (outcome flow) :=
  match stop_at st with
  | Some JoinWaiting =>
      match waiting_thread st with
      | Unjoinable => Some (Ret (with_place None st))
      | Running _ => None
      | Ended => Some (Ret (with_place (Some JoinPool) (with_waiting (waiting st) Unjoinable (counters st) st)))
      end
  | Some JoinPool =>
      match pool st with
      | Absent => Some Undefined
      | Working (_ :: _) => None
      | Working [] => Some (Ret (with_place None (with_pool (Finished []) st)))
      | Finished l => Some (Ret (with_place None st))
      end
  | _ => None
  end.

(** Requests come at any time; the commands come one after another, and one that ends
    with an exception has ended. *)
Inductive event :=
| Submitted (dr : DataRequest)
| TaskRun (i : nat) (b : B) (errors : registry) (t1 t2 t3 : Z)
| WaitingTurned (clock : nat -> Z) (b : B)
| Started (get_iom_sender : string -> outcome (option bool))
| StopBegun
| StopTurned.

Definition flow_step (e : event) st : option (outcome flow) :=
  match e with
  | Submitted dr => Some (issue_request dr st)
  | TaskRun i b errors t1 t2 t3 => run_task i b errors t1 t2 t3 st
  | WaitingTurned clock b => waiting_turn clock b st
  | Started get_iom_sender =>
      match stop_at st with None => Some (start get_iom_sender st) | Some _ => None end
  | StopBegun => match stop_at st with None => Some (Ret (begin_stop st)) | Some _ => None end
  | StopTurned => stop_turn st
  end.

(** [None] when an event cannot happen where it stands. *)
Fixpoint flow_run (es : list event) st : option (outcome flow) :=
  match es with
  | [] => Some (Ret st)
  | e :: es =>
      match flow_step e st with
      | Some (Ret st) => flow_run es st
      | r => r
      end
  end.

(** ** What the properties speak of *)

(** The requests inside the handler, and the runs of tasks still to come: at most two
    for a new task, one for a retry or a waiting request. *)
Definition pending st : list DataRequest := (posted (pool st)).*1 ++ (request <$> waiting st).

Definition runs_of (t : task) : nat := if t.2 then 1 else 2.

Definition runs_left st : nat :=
  match pool st with
  | Working tasks => sum_list_with runs_of tasks + length (waiting st)
  | _ => length (waiting st)
  end.

Definition is_run (e : event) : bool := match e with TaskRun _ _ _ _ _ _ => true | _ => false end.
Definition is_submission (e : event) : bool := match e with Submitted _ => true | _ => false end.
Definition is_start (e : event) : bool := match e with Started _ => true | _ => false end.
Definition is_waiting_turn (e : event) : bool := match e with WaitingTurned _ _ => true | _ => false end.

Definition occurrences (p : event -> bool) (es : list event) : nat := length (filter p es).

(** The requests of [es] that come after a stop has joined the pool. *)
Fixpoint late (es : list event) st : list DataRequest :=
  match es with
  | [] => []
  | e :: es =>
      match e, pool st with Submitted dr, Finished _ => [dr] | _, _ => [] end
      ++ match flow_step e st with Some (Ret st) => late es st | _ => [] end
  end.

(** The passes over the waiting requests. *)
Fixpoint passes (es : list event) st : nat :=
  match es with
  | [] => 0
  | e :: es =>
      (match e, waiting_thread st with WaitingTurned _ _, Running AtBody => 1 | _, _ => 0 end
       + match flow_step e st with Some (Ret st) => passes es st | _ => 0 end)%nat
  end.
End flow.
Arguments event : clear implicits.

(** ** What holds all along *)
Section invariant.
Context {T B It : Type} `{RT : ReadoutType T} `{LB : LatencyBuffer T B It}.
Context (f : formats) (cfg : settings) (send : string -> Fragment T -> bool).
Implicit Types (b : B) (e : event B) (es : list (event B)).

(** A waiting element is the request itself, put aside for the first time. *)
Lemma request_task_requeued b errors dr retry t1 t2 t3 s r s' issues :
  request_task f cfg send b errors dr retry t1 t2 t3 s = Ret (Requeued r, s', issues) ->
  request r = dr /\ retry = false.
Proof.
  unfold request_task. intros ([[result s1] l1] & _ & H)%bind_Ret_inv.
  destruct (_ && _ && _) eqn:E.
  - apply andb_true_iff in E as [_ Er]. injection H as <- <- <-. by destruct retry.
  - by destruct (send_fragment _ _ _ _).
Qed.

(** What a pass issues and keeps is what was waiting. *)
Lemma waiting_pass_requests clock b waiting s issued kept s' issues :
  waiting_pass cfg clock b waiting s = Ret (issued, kept, s', issues) ->
  request <$> waiting ≡ₚ issued ++ (request <$> kept)
  /\ length waiting = (length issued + length kept)%nat.
Proof.
  unfold waiting_pass. destruct waiting as [|e waiting]; [by intros [= <- <- <- <-]|].
  intros (last_frame & _ & H)%bind_Ret_inv.
  destruct (waiting_loop_spec cfg clock
    (match last_frame with None => 0 | Some x => get_timestamp x end) (e :: waiting) 0 s)
    as (due & kept' & s'' & issues' & E & Hperm & _).
  rewrite E in H. injection H as <- <- <- <-. split.
  - by rewrite Hperm, fmap_app.
  - rewrite Hperm, length_app, length_fmap. done.
Qed.

Lemma post_to_posted tasks p p' : post_to tasks p = Ret p' -> posted p' = posted p ++ tasks.
Proof. destruct p; [done|intros [= <-]|intros [= <-]]; done. Qed.

(** The cases of a step that returns. *)
Inductive step_case st : event B -> flow -> Prop :=
| case_submit dr p :
    post_to [(dr, false)] (pool st) = Ret p ->
    step_case st (Submitted dr)
      (mkFlow (submitted st ++ [dr]) (answered st) (destroyed st) p (waiting st)
         (waiting_thread st) (run_marker st) (stop_at st) (counters st))
| case_requeued i b errors t1 t2 t3 pre dr post r s :
    pool st = Working (pre ++ (dr, false) :: post) -> request r = dr ->
    step_case st (TaskRun i b errors t1 t2 t3)
      (with_waiting (waiting st ++ [r]) (waiting_thread st) s (with_pool (Working (pre ++ post)) st))
| case_answered i b errors t1 t2 t3 pre dr retry post s :
    pool st = Working (pre ++ (dr, retry) :: post) ->
    step_case st (TaskRun i b errors t1 t2 t3) (with_answered dr s (with_pool (Working (pre ++ post)) st))
| case_test clock b :
    waiting_thread st = Running AtTest ->
    step_case st (WaitingTurned clock b)
      (with_waiting (waiting st) (if run_marker st then Running AtBody else Ended) (counters st) st)
| case_pass clock b issued kept s p :
    waiting_thread st = Running AtBody ->
    request <$> waiting st ≡ₚ issued ++ (request <$> kept) ->
    length (waiting st) = (length issued + length kept)%nat ->
    post_to ((fun dr => (dr, true)) <$> issued) (pool st) = Ret p ->
    step_case st (WaitingTurned clock b) (with_waiting kept (Running AtTest) s (with_pool p st))
| case_start get_iom_sender s :
    waiting_thread st = Unjoinable -> stop_at st = None ->
    step_case st (Started get_iom_sender)
      (mkFlow (submitted st) (answered st) (destroyed st ++ (posted (pool st)).*1) (Working [])
         (waiting st) (Running AtTest) true None s)
| case_start_failed get_iom_sender s :
    stop_at st = None ->
    step_case st (Started get_iom_sender) (with_waiting (waiting st) (waiting_thread st) s st)
| case_stop : stop_at st = None -> step_case st StopBegun (begin_stop st)
| case_stopped :
    (stop_at st = Some JoinWaiting /\ waiting_thread st = Unjoinable) \/ (exists l, pool st = Finished l) ->
    step_case st StopTurned (with_place None st)
| case_joined s :
    step_case st StopTurned (with_place (Some JoinPool) (with_waiting (waiting st) Unjoinable s st))
| case_pool_joined :
    stop_at st = Some JoinPool -> pool st = Working [] ->
    step_case st StopTurned (with_place None (with_pool (Finished []) st)).

Lemma flow_step_cases e st st' : flow_step f cfg send e st = Some (Ret st') -> step_case st e st'.
Proof.
  destruct e as [dr|i b errors t1 t2 t3|clock b|senders| |]; cbn [flow_step].
  - intros [= H]. apply bind_Ret_inv in H as (p & Hp & [= <-]). by constructor.
  - unfold run_task. destruct (pool st) as [|tasks|] eqn:Hp; try done.
    destruct (tasks !! i) as [[dr retry]|] eqn:Hi; cbn; [|done]. intros [= H].
    apply bind_Ret_inv in H as ([[d s] issues] & Ht & [= <-]).
    pose proof (delete_take_drop tasks i) as Hd. rewrite Hd. apply take_drop_middle in Hi. symmetry in Hi.
    destruct d as [r|ev].
    + apply request_task_requeued in Ht as [Hr ->]. rewrite Hi in Hp at 1.
      by apply (case_requeued st i b errors t1 t2 t3 _ _ _ _ _ Hp).
    + rewrite Hi in Hp at 1. by apply (case_answered st i b errors t1 t2 t3 _ _ _ _ _ Hp).
  - unfold waiting_turn. destruct (waiting_thread st) as [|[]|] eqn:Hw; try done.
    + intros [= <-]. by constructor.
    + intros [= H]. apply bind_Ret_inv in H as ([[[issued kept] s] issues] & Hpass & H).
      apply bind_Ret_inv in H as (p & Hpost & [= <-]). apply waiting_pass_requests in Hpass as [H1 H2].
      by eapply case_pass.
  - destruct (stop_at st) eqn:Hs; [done|]. unfold start. intros [= H].
    destruct (ready_senders _ _); try done.
    + destruct (waiting_thread st) eqn:Hw; try done. injection H as <-. rewrite Hs. by constructor.
    + injection H as <-. by constructor.
  - destruct (stop_at st) eqn:Hs; [done|]. intros [= <-]. by constructor.
  - unfold stop_turn. destruct (stop_at st) as [[]|] eqn:Hs; try done.
    + destruct (waiting_thread st) eqn:Hw; try done; intros [= <-]; constructor. by left.
    + destruct (pool st) as [|[|t l]|l] eqn:Hp; try done; intros [= <-];
        constructor; eauto.
Qed.

(** Nothing is lost or duplicated. *)
Definition conserved st : Prop := submitted st ≡ₚ pending st ++ answered st ++ destroyed st.

Lemma conserved_step e st st' : step_case st e st' -> conserved st -> conserved st'.
Proof.
  unfold conserved, pending. intros [] Hinv; cbn; try done; rewrite Hinv;
    repeat match goal with H : post_to _ _ = Ret _ |- _ => apply post_to_posted in H; rewrite H end;
    repeat match goal with H : pool st = _ |- _ => rewrite H end; cbn; rewrite ?fmap_app; cbn.
  - solve_Permutation.
  - subst. solve_Permutation.
  - solve_Permutation.
  - rewrite H0, <- list_fmap_compose. change (fst ∘ _) with (fun dr : DataRequest => dr).
    rewrite list_fmap_id. solve_Permutation.
  - solve_Permutation.
  - done.
Qed.

Lemma conserved_initial s : conserved (initial s).
Proof. unfold conserved. done. Qed.

(** A waiting thread is at work exactly as long as a pool it may post to, and a module
    that does not run, with no stop at work, has neither. *)
Record flow_ok st : Prop := {
  fo_waiting : match pool st with
               | Working _ => waiting_thread st = Unjoinable -> stop_at st = Some JoinPool
               | _ => waiting_thread st = Unjoinable
               end;
  fo_join : stop_at st = Some JoinPool -> waiting_thread st = Unjoinable;
  fo_rest : run_marker st = false -> stop_at st = None -> forall tasks, pool st <> Working tasks }.

Lemma post_to_kind tasks p p' :
  post_to tasks p = Ret p' ->
  match p' with
  | Absent => False
  | Working l => exists l0, p = Working l0 /\ l = l0 ++ tasks
  | Finished l => exists l0, p = Finished l0 /\ l = l0 ++ tasks
  end.
Proof. destruct p; [done|intros [= <-]|intros [= <-]]; eauto. Qed.

Lemma flow_ok_step e st st' : step_case st e st' -> flow_ok st -> flow_ok st'.
Proof.
  intros Hc [Hw Hj Hr]. destruct Hc as [dr p Hp|? ? ? ? ? ? pre dr post r s Hp _|? ? ? ? ? ? pre dr retry post s Hp
    |clock b Ht|clock b issued kept s p Ht _ _ Hp|? s Ht Hs|? s Hs|Hs|Hs|s|Hs Hp]; split; cbn; try done.
  all: try (apply post_to_kind in Hp; destruct p as [|l|l]; [done|destruct Hp as (l0 & E & _); rewrite E in *..]).
  all: try (rewrite Hp in *).
  all: try (rewrite Ht in *).
  all: try done.
  all: try (intros Hm Hn; by destruct (Hr Hm Hn _ eq_refl)).
  - destruct (pool st), (run_marker st); done.
  - by intros ?%Hj.
  - by intros ?%Hj.
  - destruct (pool st); try done. intros Hu. apply Hw in Hu. congruence.
  - destruct Hs as [[Hs Hu]|[l E]]; [|by rewrite E in *]. destruct (pool st); try done. apply Hw in Hu. congruence.
  - intros _ _ tasks Hp. rewrite Hp in *. destruct Hs as [[Hs Hu]|[l E]]; [|done]. apply Hw in Hu. congruence.
  - by destruct (pool st).
  - auto.
Qed.

Lemma flow_ok_initial s : flow_ok (initial s).
Proof. by split. Qed.

(** A run of a retry, or of a request put aside, is one less to come. *)
Lemma runs_left_step e st st' :
  step_case st e st' ->
  (runs_left st' + (if is_run e then 1 else 0) <= runs_left st + 2 * (if is_submission e then 1 else 0))%nat.
Proof.
  unfold runs_left.
  assert (Hpost : forall tasks p p', post_to tasks p = Ret p' ->
    (match p' with Working l => sum_list_with runs_of l | _ => 0 end
     <= match p with Working l => sum_list_with runs_of l | _ => 0 end + sum_list_with runs_of tasks)%nat).
  { intros tasks [|l|l] p'; [done| |]; intros [= <-]; rewrite ?sum_list_with_app; lia. }
  intros []; cbn -[Nat.mul]; try lia.
  - apply Hpost in H. cbn in H. destruct p, (pool st); lia.
  - rewrite H. rewrite !sum_list_with_app, length_app. cbn. lia.
  - rewrite H. rewrite !sum_list_with_app. unfold runs_of. cbn. destruct retry; lia.
  - apply Hpost in H2. enough (sum_list_with runs_of ((fun dr => (dr, true)) <$> issued) = length issued)
      by (destruct p, (pool st); lia).
    clear. induction issued as [|dr issued IH]; [done|]. cbn. by rewrite IH.
  - destruct (pool st); lia.
  - rewrite H0. cbn. lia.
Qed.

(** What a step adds to the requests no pool will run. *)
Lemma lost_step e st st' :
  flow_ok st -> step_case st e st' ->
  destroyed st' ++ (stuck (pool st')).*1
  = (destroyed st ++ (stuck (pool st)).*1)
    ++ match e, pool st with Submitted dr, Finished _ => [dr] | _, _ => [] end.
Proof.
  intros [Hw _ _] Hc. destruct Hc as [dr p Hp|? ? ? ? ? ? pre dr post r s Hp _|? ? ? ? ? ? pre dr retry post s Hp
    |clock b Ht|clock b issued kept s p Ht _ _ Hp|? s Ht Hs|? s Hs|Hs|Hs|s|Hs Hp]; cbn; rewrite ?app_nil_r; try done.
  - destruct (pool st) as [|l|l]; [done| |]; injection Hp as <-; cbn; rewrite ?app_nil_r; [done|].
    by rewrite fmap_app, app_assoc.
  - rewrite Hp. cbn. by rewrite ?app_nil_r.
  - rewrite Hp. cbn. by rewrite ?app_nil_r.
  - rewrite Ht in Hw. destruct (pool st) as [|l|l]; [done| |done]. by injection Hp as <-.
  - destruct (pool st) as [|l|l]; cbn; rewrite ?app_nil_r; try done. apply Hw in Ht. congruence.
  - rewrite Hp. cbn. by rewrite ?app_nil_r.
Qed.

Lemma flow_run_invariant (P : flow -> Prop) es st st' :
  (forall e st st', step_case st e st' -> P st -> P st') ->
  flow_run f cfg send es st = Some (Ret st') -> P st -> P st'.
Proof.
  intros HP. revert st. induction es as [|e es IH]; intros st; cbn; [by intros [= ->]|].
  destruct (flow_step _ _ _ e st) as [[st1| | | |]|] eqn:E; try done. intros H Hst. apply (IH st1 H).
  eapply HP; [|done]. by eapply flow_step_cases.
Qed.

Lemma runs_left_run es st st' :
  flow_run f cfg send es st = Some (Ret st') ->
  (runs_left st' + occurrences is_run es <= runs_left st + 2 * occurrences is_submission es)%nat.
Proof.
  revert st. induction es as [|e es IH]; intros st; cbn [flow_run]; [intros [= ->]; cbn; lia|].
  destruct (flow_step _ _ _ e st) as [[st1| | | |]|] eqn:E; try done. intros H%IH.
  apply flow_step_cases, runs_left_step in E. unfold occurrences in *. rewrite !filter_cons.
  destruct (is_run e), (is_submission e); repeat case_decide; cbn [length] in *; try done; lia.
Qed.

Lemma lost_run es st st' :
  flow_ok st -> flow_run f cfg send es st = Some (Ret st') ->
  destroyed st' ++ (stuck (pool st')).*1 = (destroyed st ++ (stuck (pool st)).*1) ++ late f cfg send es st.
Proof.
  revert st. induction es as [|e es IH]; intros st Hok; cbn [flow_run late]; [intros [= ->]; by rewrite app_nil_r|].
  destruct (flow_step _ _ _ e st) as [[st1| | | |]|] eqn:E; try done. intros H. apply flow_step_cases in E.
  rewrite (IH st1 (flow_ok_step _ _ _ E Hok) H), (lost_step _ _ _ Hok E), <- app_assoc. done.
Qed.

(** Once the run marker is cleared: what the steps but a start leave in place. *)
Lemma stopping_step e st st' :
  step_case st e st' -> is_start e = false -> run_marker st = false ->
  run_marker st' = false
  /\ (waiting_thread st <> Running AtBody -> waiting_thread st' <> Running AtBody /\ waiting st `prefix_of` waiting st')
  /\ (waiting_thread st = Running AtBody -> is_waiting_turn e = true -> waiting_thread st' <> Running AtBody).
Proof.
  intros Hc He Hm. destruct Hc; cbn in *; try done; rewrite ?Hm; split_and!; try done; intros Hb; try done.
  split; [done|]. by apply prefix_app_r.
Qed.

Lemma at_rest_step e st st' :
  step_case st e st' -> is_start e = false -> waiting_thread st = Unjoinable ->
  (forall tasks, pool st <> Working tasks) ->
  waiting st' = waiting st /\ answered st' = answered st
  /\ waiting_thread st' = Unjoinable /\ (forall tasks, pool st' <> Working tasks).
Proof.
  intros Hc He Hu Hp. destruct Hc; cbn in *; try done; try congruence.
  - split_and!; try done. apply post_to_kind in H. destruct p; try done.
    intros l _. destruct H as (l0 & E & _). by apply (Hp l0).
Qed.

Lemma stopping_run es st st' :
  Forall (fun e => is_start e = false) es -> run_marker st = false ->
  flow_run f cfg send es st = Some (Ret st') ->
  run_marker st' = false
  /\ (passes f cfg send es st <= if decide (waiting_thread st = Running AtBody) then 1 else 0)%nat
  /\ (waiting_thread st <> Running AtBody -> waiting st `prefix_of` waiting st').
Proof.
  intros Hes. revert st. induction Hes as [|e es He _ IH]; intros st Hm; cbn [flow_run passes].
  { intros [= ->]. split_and!; [done|lia|done]. }
  destruct (flow_step _ _ _ e st) as [[st1| | | |]|] eqn:E; try done. intros H. apply flow_step_cases in E.
  destruct (stopping_step _ _ _ E He Hm) as (Hm1 & Hout & Hpass).
  destruct (IH st1 Hm1 H) as (Hm' & Hn & Hpre). split_and!; [done| |].
  - destruct (decide (waiting_thread st = Running AtBody)) as [Hb|Hb].
    + rewrite Hb. destruct e; cbn in Hpass |- *; try (repeat case_decide; lia).
      rewrite decide_False in Hn by auto. lia.
    + destruct (Hout Hb) as [Hb1 _]. rewrite decide_False in Hn by done.
      destruct e; try lia. destruct (waiting_thread st) as [|[]|]; try done; lia.
  - intros Hb. destruct (Hout Hb) as [Hb1 Hp1]. etrans; [exact Hp1|by apply Hpre].
Qed.

Lemma at_rest_run es st st' :
  Forall (fun e => is_start e = false) es -> waiting_thread st = Unjoinable ->
  (forall tasks, pool st <> Working tasks) -> flow_run f cfg send es st = Some (Ret st') ->
  waiting st' = waiting st /\ answered st' = answered st.
Proof.
  intros Hes. revert st. induction Hes as [|e es He _ IH]; intros st Hu Hp; cbn [flow_run]; [by intros [= ->]|].
  destruct (flow_step _ _ _ e st) as [[st1| | | |]|] eqn:E; try done. intros H. apply flow_step_cases in E.
  destruct (at_rest_step _ _ _ E He Hu Hp) as (<- & <- & Hu1 & Hp1). by apply IH.
Qed.
End invariant.

(** ** Properties *)

(** C6: whatever the order of submissions, tasks, turns of the waiting thread, starts and
    stops, no request is lost or duplicated: at any time every request submitted is exactly
    once posted, waiting, answered, or destroyed with a pool.  Each is run at most twice.
    The requests destroyed, or posted where no thread takes them, are exactly those that
    came after a stop had joined the pool and before the next start. *)
Theorem request_conservation {T B It : Type} `{RT : ReadoutType T} `{LB : LatencyBuffer T B It}
    (f : formats) (cfg : settings) (send : string -> Fragment T -> bool)
    (es : list (event B)) (s : stats) st :
  flow_run f cfg send es (initial s) = Some (Ret st) ->
  submitted st ≡ₚ pending st ++ answered st ++ destroyed st
  /\ (occurrences is_run es + runs_left st <= 2 * occurrences is_submission es)%nat
  /\ destroyed st ++ (stuck (pool st)).*1 = late f cfg send es (initial s).
Proof.
  intros Hrun. split_and!.
  - exact (flow_run_invariant f cfg send conserved es _ st (conserved_step (B:=B)) Hrun (conserved_initial s)).
  - apply runs_left_run in Hrun. cbn in Hrun. lia.
  - apply (lost_run _ _ _ _ _ _ (flow_ok_initial s) Hrun).
Qed.

(** C36: a stop abandons the waiting requests.  Once it has cleared the run marker, and
    until the next start, the waiting thread makes at most one more pass, and that only
    when it had already tested the marker; without it every waiting request stays where it
    is.  Once the stop has returned, whatever still happens, the waiting requests are the
    same and no request is answered. *)
Theorem stop_abandons_waiting {T B It : Type} `{RT : ReadoutType T} `{LB : LatencyBuffer T B It}
    (f : formats) (cfg : settings) (send : string -> Fragment T -> bool)
    (before es : list (event B)) (s : stats) st st' :
  flow_run f cfg send before (initial s) = Some (Ret st) -> run_marker st = false ->
  Forall (fun e => is_start e = false) es -> flow_run f cfg send es st = Some (Ret st') ->
  run_marker st' = false
  /\ (passes f cfg send es st <= if decide (waiting_thread st = Running AtBody) then 1 else 0)%nat
  /\ (waiting_thread st <> Running AtBody -> waiting st `prefix_of` waiting st')
  /\ (stop_at st = None -> waiting st' = waiting st /\ answered st' = answered st).
Proof.
  intros Hbefore Hm Hes Hrun.
  pose proof (flow_run_invariant f cfg send flow_ok before _ _ (flow_ok_step (B:=B)) Hbefore (flow_ok_initial s))
    as [Hw _ Hr]. destruct (stopping_run f cfg send es st st' Hes Hm Hrun) as (H1 & H2 & H3).
  split_and!; [done..|]. intros Hs. specialize (Hr Hm Hs).
  apply (at_rest_run f cfg send es st st' Hes); [|done..].
  destruct (pool st) as [|tasks|tasks]; try done. by destruct (Hr tasks).
Qed.

(** ** The properties at work: a request whose data are in the ring of three elements, one
    whose data are still to come, and one submitted after the stop *)
Import Chunk.

Definition future_request : DataRequest := mkDataRequest 1 6 0 1 1000 995 1005 "trb"%string.

Definition sample_event : Type := event (queue chunk).

Definition run_sample (i : nat) : sample_event := TaskRun i (ring_of 4 sample) ∅ 0 0 5000.
Definition turn_sample : sample_event := WaitingTurned (fun _ => 0) (ring_of 4 sample).
Definition start_sample : sample_event := Started (fun _ => Ret (Some true)).

(** A run: two requests, one of them put aside; the stop meets the waiting thread behind
    its test. *)
Definition sample_running : list sample_event :=
  [start_sample; Submitted sample_request; Submitted future_request; run_sample 1; run_sample 0;
   turn_sample; StopBegun].

Definition sample_stopping : list sample_event :=
  [turn_sample; turn_sample; StopTurned; StopTurned; Submitted sample_request].

Definition run_flow (es : list sample_event) : option (outcome flow) :=
  flow_run (LB := binary_search_buffer sample_platform) sample_formats (RequestHandler.sample_settings half)
    sample_send es (initial no_stats).

(** What is read off a flow: everything but the counters. *)
Definition shape st :=
  (submitted st, answered st, destroyed st, pool st, request <$> waiting st, run_marker st, stop_at st).

(** A request before the first start goes through a null pointer. *)
Example submit_before_start : run_flow [Submitted sample_request] = Some Undefined.
Proof. reflexivity. Qed.

(** The third request is destroyed by the next start; the second is still waiting. *)
Example sample_flow :
  match run_flow (sample_running ++ sample_stopping ++ [start_sample]) with
  | Some (Ret st) =>
      shape st = ([sample_request; future_request; sample_request], [sample_request], [sample_request],
                  Working [], [future_request], true, None)
  | _ => False
  end.
Proof. by vm_compute. Qed.

(** The state a sample run ends in. *)
Definition state_of (es : list sample_event) : flow :=
  match run_flow es with Some (Ret st) => st | _ => initial no_stats end.

Lemma request_conservation_witness :
  let es := sample_running ++ sample_stopping in
  late (LB := binary_search_buffer sample_platform) sample_formats (RequestHandler.sample_settings half)
    sample_send es (initial no_stats) = [sample_request]
  /\ submitted (state_of es) ≡ₚ pending (state_of es) ++ answered (state_of es) ++ destroyed (state_of es)
  /\ stuck (pool (state_of es)) = [(sample_request, false)].
Proof.
  intros es. split; [by vm_compute|]. split; [|by vm_compute].
  refine (proj1 (request_conservation (LB := binary_search_buffer sample_platform) sample_formats
    (RequestHandler.sample_settings half) sample_send es no_stats (state_of es) _)).
  by vm_compute.
Defined.

(** The pass of the waiting thread that meets the stop; the request it finds stays. *)
Lemma stop_abandons_waiting_witness :
  waiting_thread (state_of sample_running) = Running AtBody
  /\ (passes (LB := binary_search_buffer sample_platform) sample_formats (RequestHandler.sample_settings half)
        sample_send sample_stopping (state_of sample_running) <= 1)%nat
  /\ request <$> waiting (state_of (sample_running ++ sample_stopping)) = [future_request].
Proof.
  split; [by vm_compute|]. split; [|by vm_compute].
  refine (proj1 (proj2 (stop_abandons_waiting (LB := binary_search_buffer sample_platform) sample_formats
    (RequestHandler.sample_settings half) sample_send sample_running sample_stopping no_stats
    (state_of sample_running) (state_of (sample_running ++ sample_stopping)) _ _ _ _))).
  - by vm_compute.
  - by vm_compute.
  - by repeat constructor.
  - by vm_compute.
Defined.
