(* ===== verification/ModuleLife.v ===== *)
(** The life of a data handling module: RawDataHandlerBase.hpp over
    models/DataHandlingModel.hpp, with the ring (BinarySearchQueueModel) as the
    latency buffer, the default request handler with its threads (HandlerLife.v)
    and the task processor, whose queues hold pointers into the ring. *)
From stdpp Require Import pretty.
From S2P Require Import Prelude IterableQueue ReadoutTypes LatencyBuffer BinarySearchQueue.
From S2P Require Import FrameErrorRegistry CallbackRegistry Float32 RequestHandler Recording RawDataProcessor DataHandling.
From S2P Require Import Threads HandlerLife.

(** ** Configuration *)

Record input_conf := mkInput {
  in_data_type : string;
  in_UID : string }.

(** appmodel::DataHandlerModule, as far as [init] and the [conf]s it calls read
    it.  [mc_handler] is the request handler's view of it, with the source
    identifier and the outputs. *)
Record module_conf := mkModuleConf {
  get_inputs : list input_conf;
  get_post_processing_enabled : bool;
  get_queue_sizes : Z;
  get_thread_names_prefix : string;
  get_post_processing_delay_ticks : Z;
  mc_latency_buffer : LatencyBufferConf;
  mc_handler : handler_conf }.

(** The connections of the model; [None] is a null pointer. *)
Record connections := mkConnections {
  m_callback_mode : bool;
  m_raw_data_receiver : option string;
  m_raw_data_receiver_connection_name : string;
  m_data_request_receiver : option string;
  m_generate_timesync : bool;
  m_timesync_connection_name : string }.

(** The constructor's values. *)
Definition no_connections : connections := mkConnections false None EmptyString None false EmptyString.

Section connections.
(** The connections the IOManager can make: it throws an ers::Issue for others. *)
Context (connected : string -> bool).

Definition resource_error {A} : outcome A :=
  Throw (IssueExn (ResourceQueueError "raw_input or frag_output" "DataHandlingModel")).

Definition is_delim (c : Ascii.ascii) : bool := Ascii.eqb c (Ascii.ascii_of_nat 95).

(** One turn of the loop over the inputs. *)
Definition scan_input (input : input_conf) (cs : connections) : outcome connections :=
  if String.eqb (in_data_type input) "DataRequest" then
    if connected (in_UID input)
    then Ret (mkConnections (m_callback_mode cs) (m_raw_data_receiver cs)
                (m_raw_data_receiver_connection_name cs) (Some (in_UID input))
                (m_generate_timesync cs) (m_timesync_connection_name cs))
    else resource_error
  else
    ws ← words is_delim (String.list_ascii_of_string (in_UID input));
    front ← deref (head ws);
    let callback_mode := m_callback_mode cs
      || String.eqb (String.string_of_list_ascii front) "cb" in
    let cs := mkConnections callback_mode (m_raw_data_receiver cs) (in_UID input)
                (m_data_request_receiver cs) (m_generate_timesync cs) (m_timesync_connection_name cs) in
    if negb callback_mode then
      if connected (in_UID input)
      then Ret (mkConnections callback_mode (Some (in_UID input)) (in_UID input)
                  (m_data_request_receiver cs) (m_generate_timesync cs) (m_timesync_connection_name cs))
      else resource_error
    else Ret cs.

Fixpoint scan_inputs (inputs : list input_conf) (cs : connections) : outcome connections :=
  match inputs with
  | [] => Ret cs
  | input :: inputs => cs ← scan_input input cs; scan_inputs inputs cs
  end.

(** The loop over the outputs ends at the first for TimeSync messages. *)
Fixpoint scan_outputs (outputs : list output_conf) (cs : connections) : outcome connections :=
  match outputs with
  | [] => Ret cs
  | output :: outputs =>
      if String.eqb (get_data_type output) "TimeSync" then
        if connected (UID output)
        then Ret (mkConnections (m_callback_mode cs) (m_raw_data_receiver cs)
                    (m_raw_data_receiver_connection_name cs) (m_data_request_receiver cs) true (UID output))
        else resource_error
      else scan_outputs outputs cs
  end.
End connections.

(** ** Pointers into the ring *)

(** A [const ReadoutType*] is the index of its slot, or null; the slot must hold an
    element when it is read. *)
Definition read_element {T : Type} (q : queue T) (element : option Z) : outcome T :=
  i ← deref element; slot_read (records_ q) i.

#[export] Instance slots {T : Type} `{ReadoutType T} (p : platform) : Pointers (binary_search_buffer (T:=T) p) (option Z) := {
  pt_back q := Ret (back q);
  pt_iter q it := _ ← slot_read (records_ q) it; Ret (Some it) }.

(** An event that cannot happen where it stands gives [None]; one that can has an
    outcome. *)
Definition obind {A B : Type} (o : option (outcome A)) (k : A -> option (outcome B)) : option (outcome B) :=
  match o with
  | None => None
  | Some (Ret a) => k a
  | Some (Throw e) => Some (Throw e)
  | Some AssertFail => Some AssertFail
  | Some Undefined => Some Undefined
  | Some OutOfFuel => Some OutOfFuel
  end.

(** ** DataHandlingModel *)

(** Where [run_consume] is, with its local variables, or [run_timesync]. *)
Inductive model_work (T : Type) :=
| ConsumeBegin | ConsumeTest (cy : cycle T) | ConsumeBody (cy : cycle T)
| SyncBegin | SyncLoop (at_ : turn).
Arguments ConsumeBegin {T}.
Arguments ConsumeTest {T} cy.
Arguments ConsumeBody {T} cy.
Arguments SyncBegin {T}.
Arguments SyncLoop {T} at_.

Section model.
Context {T Q F R C : Type} `{RT : ReadoutType T} `{!PointerQueue (option Z) Q}
  `{!ReusableThread work R} `{!ReusableThread (model_work T) C}.
Context (p : platform) (sizeof_T : Z) (trivially_destructible : bool).
Context (connected : string -> bool) (f : formats).
Context (open_writer : string -> Z -> string -> bool -> outcome unit).

(** daqdataformats::SourceID(). *)
Context (default_sourceid : SourceID).

(** The Fragment senders, and the clock of a recording (HandlerLife.v). *)
Context (get_iom_sender : string -> outcome (option bool)) (clock : nat -> Z).

#[local] Hint Extern 0 (LatencyBuffer _ (queue T) _) => exact (binary_search_buffer p) : typeclass_instances.

(** The tasks the raw data processor [RPT] registers for itself before it calls
    the inherited [conf]. *)
Context (preprocess_tasks : list (T -> T)) (postprocess_tasks : list F).

(** The model once initialised.  [m_handler] and [m_request_handler_impl] are the settings
    of the request handler and its threads, [m_writer_open] is is_open() of its writer,
    [dispatching] whether the request receiver has its callback, [module_run_marker] the
    run marker of the module, which the model has by reference. *)
Record data_handler := mkDataHandler {
  m_connections : connections;
  m_consumer_conf : consumer_conf;
  m_consumer : consumer T (queue T) Q F;
  m_handler : settings;
  m_request_handler_impl : life (R:=R);
  m_writer_open : bool;
  m_next_timestamp : Z;
  m_error_registry : registry;
  m_consumer_thread : C;
  m_timesync_thread : C;
  dispatching : bool;
  module_run_marker : bool }.

(** The request handler's settings before its [conf]. *)
Definition new_settings : settings :=
  mkSettings default_sourceid 0 (f32_of_Z 0) (f32_of_Z 0) 0 0 0 0 0 0 [] false EmptyString 0 true true 0.

Definition new_handler_stats : RequestHandler.stats := set_counter m_response_time_min INT_MAX (fun _ => 0).

(** The latency buffer's [conf], whose bad_alloc is caught and reported. *)
Definition conf_buffer (sourceid : SourceID) (cfg : LatencyBufferConf) (q : queue T)
    : outcome (queue T * list issue) :=
  match IterableQueue.conf p sizeof_T trivially_destructible (default_element T) q cfg with
  | Throw std_bad_alloc =>
      q ← renew p sizeof_T trivially_destructible q cfg;
      Ret (q, [ConfigurationError sourceid "Latency Buffer can't be allocated with size!"])
  | m => q ← m; Ret (q, [])
  end.

Definition conf_processor (mc : module_conf) (m : processor T Q F) : outcome (processor T Q F) :=
  let m := foldl (fun m task => add_preprocess_task task m) m preprocess_tasks in
  let m := foldl (fun m task => add_postprocess_task task m) m postprocess_tasks in
  RawDataProcessor.conf (get_queue_sizes mc) (get_source_id (mc_handler mc)) (rdt_subsystem f)
    (fun i => (get_thread_names_prefix mc ++ pretty i)%string) m.

Definition init (mc : module_conf) : outcome (data_handler * list issue) :=
  cs ← scan_inputs connected (get_inputs mc) no_connections;
  cs ← scan_outputs connected (get_outputs (mc_handler mc)) cs;
  let l1 := match m_callback_mode cs, m_raw_data_receiver cs with
            | false, None =>
                [ConfigurationError default_sourceid "Non callback mode, and receiver is unset!"]
            | _, _ => []
            end in
  let sourceid := mkSourceID (rdt_subsystem f) (get_source_id (mc_handler mc)) in
  m ← conf_processor mc (new_processor (get_post_processing_enabled mc));
  '(q, l2) ← conf_buffer sourceid (mc_latency_buffer mc) (new_queue p sizeof_T);
  '(handler, l3) ← RequestHandler.conf f open_writer new_settings (mc_handler mc);
  Ret (mkDataHandler cs (mkConsumerConf (get_post_processing_delay_ticks mc) 0 false 0)
         (mkConsumer q m (fun _ => 0)) handler (new_life new_handler_stats)
         (m_recording_configured handler) UINT64_MAX ∅ new_thread new_thread false false, l1 ++ l2 ++ l3).

Implicit Types h : data_handler.

Definition with_consumer h (st : consumer T (queue T) Q F) : data_handler :=
  mkDataHandler (m_connections h) (m_consumer_conf h) st (m_handler h) (m_request_handler_impl h)
    (m_writer_open h) (m_next_timestamp h) (m_error_registry h) (m_consumer_thread h)
    (m_timesync_thread h) (dispatching h) (module_run_marker h).

Definition with_handler (l : life (R:=R)) h : data_handler :=
  mkDataHandler (m_connections h) (m_consumer_conf h) (m_consumer h) (m_handler h) l
    (m_writer_open h) (m_next_timestamp h) (m_error_registry h) (m_consumer_thread h)
    (m_timesync_thread h) (dispatching h) (module_run_marker h).

Definition with_threads (consumer_thread timesync_thread : C) h : data_handler :=
  mkDataHandler (m_connections h) (m_consumer_conf h) (m_consumer h) (m_handler h)
    (m_request_handler_impl h) (m_writer_open h) (m_next_timestamp h) (m_error_registry h)
    consumer_thread timesync_thread (dispatching h) (module_run_marker h).

Definition with_marker (marker : bool) h : data_handler :=
  mkDataHandler (m_connections h) (m_consumer_conf h) (m_consumer h) (m_handler h)
    (m_request_handler_impl h) (m_writer_open h) (m_next_timestamp h) (m_error_registry h)
    (m_consumer_thread h) (m_timesync_thread h) (dispatching h) marker.

Definition with_stats h (s : dh_stats) : data_handler :=
  with_consumer h (mkConsumer (m_latency_buffer_impl (m_consumer h)) (m_raw_processor_impl (m_consumer h)) s).

Definition with_processor h (m : processor T Q F) : data_handler :=
  with_consumer h (mkConsumer (m_latency_buffer_impl (m_consumer h)) m (m_stats (m_consumer h))).

(** [conf] only registers [consume_payload] as a callback; [this] names the model. *)
Definition conf {type callback : Type} (RDT : type) (this : callback) h
    (m : gmap string (@DataMoveCallback type callback)) : gmap string (@DataMoveCallback type callback) :=
  if m_callback_mode (m_connections h)
  then register_callback RDT (m_raw_data_receiver_connection_name (m_connections h)) this m
  else m.

(** The request handler closes its writer, the buffer and the processor go back
    to where they were before their [conf]. *)
Definition scrap h : outcome data_handler :=
  let st := m_consumer h in
  q ← IterableQueue.scrap p sizeof_T trivially_destructible (m_latency_buffer_impl st);
  Ret (mkDataHandler (m_connections h) (m_consumer_conf h)
         (mkConsumer q (RawDataProcessor.scrap (m_raw_processor_impl st)) (m_stats st))
         (m_handler h) (m_request_handler_impl h) false (m_next_timestamp h) (m_error_registry h)
         (m_consumer_thread h) (m_timesync_thread h) (dispatching h) (module_run_marker h)).

(** The answers of [set_work] are ignored. *)
Definition start (run : option Z) h : outcome data_handler :=
  let st := m_consumer h in
  let cfg := m_consumer_conf h in
  m ← RawDataProcessor.start (m_raw_processor_impl st);
  l ← HandlerLife.start (m_handler h) get_iom_sender (m_request_handler_impl h);
  let consumer_thread :=
    if negb (m_callback_mode (m_connections h))
    then snd (set_work ConsumeBegin (m_consumer_thread h)) else m_consumer_thread h in
  let timesync_thread :=
    if m_generate_timesync (m_connections h)
    then snd (set_work SyncBegin (m_timesync_thread h)) else m_timesync_thread h in
  _ ← deref (m_data_request_receiver (m_connections h));
  Ret (mkDataHandler (m_connections h)
         (mkConsumerConf (m_processing_delay_ticks cfg) (default 1 run) (supports_cutoff_timestamp cfg)
            (get_cutoff_timestamp cfg))
         (mkConsumer (m_latency_buffer_impl st) m (start_dh_stats (m_stats st)))
         (m_handler h) l (m_writer_open h) (m_next_timestamp h) (m_error_registry h)
         consumer_thread timesync_thread true (module_run_marker h)).

(** What the postprocessing threads still do when they are told to stop: each takes the
    pointers left in its queue, and its function reads through them. *)
Fixpoint drain_queue (n : nat) (ring : queue T) (q : Q) : outcome Q :=
  match n with
  | O => Ret q
  | S n =>
      match pcq_read q with
      | Some (element, q) => _ ← read_element ring element; drain_queue n ring q
      | None => Ret q
      end
  end.

Fixpoint drain_all (ring : queue T) (queues : list Q) : outcome (list Q) :=
  match queues with
  | [] => Ret []
  | q :: queues =>
      q ← drain_queue (Z.to_nat (pcq_sizeGuess q)) ring q;
      queues ← drain_all ring queues;
      Ret (q :: queues)
  end.

Definition with_queues (queues : list Q) (m : processor T Q F) : processor T Q F :=
  mkProcessor (m_preprocess_functions m) (m_post_process_functions m) queues
    (m_post_process_threads m) (m_postprocess_queue_sizes m) (RawDataProcessor.m_sourceid m)
    (RawDataProcessor.m_run_marker m) (m_last_processed_daq_ts m) (m_post_processing_enabled m).

(** The processor's [stop], which waits until its threads have ended. *)
Definition stop_processor (ring : queue T) (m : processor T Q F) : outcome (processor T Q F) :=
  let m := RawDataProcessor.stop m in
  queues ← drain_all ring (m_items_to_postprocess_queues m);
  Ret (with_queues queues m).

(** [stop] up to its first wait: no more requests, and the request handler's [stop]
    begins, which goes on by its own turns. *)
Definition begin_stop h : outcome data_handler :=
  _ ← deref (m_data_request_receiver (m_connections h));
  Ret (mkDataHandler (m_connections h) (m_consumer_conf h) (m_consumer h) (m_handler h)
         (HandlerLife.begin_stop (m_request_handler_impl h)) (m_writer_open h) (m_next_timestamp h)
         (m_error_registry h) (m_consumer_thread h) (m_timesync_thread h) false (module_run_marker h)).

(** What [stop] waits for: the request handler's [stop], and the readiness of the threads. *)
Definition waits_over h : bool :=
  match stopping (m_request_handler_impl h) with None => true | Some _ => false end
  && (if m_generate_timesync (m_connections h) then get_readiness (W:=model_work T) (m_timesync_thread h) else true)
  && (if negb (m_callback_mode (m_connections h)) then get_readiness (W:=model_work T) (m_consumer_thread h) else true).

(** The rest of [stop]: the buffer is flushed, then the processor stopped. *)
Definition end_stop h : option (outcome data_handler) :=
  if waits_over h then
    let st := m_consumer h in
    Some (q ← lb_flush (m_latency_buffer_impl st);
          m ← stop_processor q (m_raw_processor_impl st);
          Ret (with_consumer h (mkConsumer q (reset_last_daq_time m) (m_stats st))))
  else None.

Definition record h : data_handler * list issue :=
  let '(l, issues) := HandlerLife.record (m_handler h) (m_writer_open h) (m_request_handler_impl h) in
  (with_handler l h, issues).

(** *** What happens during a run *)

(** A step of the consumer thread outside the body of its loop, or the body with what was
    received; a payload by callback; a step of the time synchronisation; a turn of a thread
    of the request handler, or of its [stop]; a request, for [component]; a turn of the
    [i]-th postprocessing thread; the command to stop. *)
Inductive event :=
| ConsumerStep
| Receive (input : option (list T) * Z)
| Callback (payload : T)
| TimesyncStep
| HandlerTurn (m : move)
| Dispatch (component : SourceID) (dr : DataRequest)
| PostTurn (i : nat)
| StopCommand.

(** The first lines of [run_consume], and the test of the run marker. *)
Definition consumer_step h : option data_handler :=
  let go w := with_threads (go_on w (m_consumer_thread h)) (m_timesync_thread h) h in
  match work_of (m_consumer_thread h) with
  | Some ConsumeBegin =>
      Some (with_stats (go (Some (ConsumeTest (mkCycle true 0 (default_element T)))))
        (exchange0 [m_rawq_timeout_count; m_num_payloads; m_sum_payloads; m_stats_packet_count]
          (m_stats (m_consumer h))))
  | Some (ConsumeTest cy) => Some (go (if module_run_marker h then Some (ConsumeBody cy) else None))
  | _ => None
  end.

(** The body of its loop. *)
Definition receive (input : option (list T) * Z) h : option (outcome data_handler) :=
  match work_of (m_consumer_thread h) with
  | Some (ConsumeBody cy) =>
      Some (_ ← deref (m_raw_data_receiver (m_connections h));
            '(cy, st, _) ← consume_turn (m_consumer_conf h) input cy (m_consumer h);
            Ret (with_consumer
              (with_threads (go_on (Some (ConsumeTest cy)) (m_consumer_thread h)) (m_timesync_thread h) h) st))
  | _ => None
  end.

(** [run_timesync], whose turns are in DataHandling.v; [init] has turned its fake trigger
    off, so that they issue no requests. *)
Definition timesync_step h : option data_handler :=
  let go w := with_threads (m_consumer_thread h) (go_on w (m_timesync_thread h)) h in
  match work_of (m_timesync_thread h) with
  | Some SyncBegin =>
      Some (with_stats (go (Some (SyncLoop AtTest)))
        (exchange0 [DataHandling.m_num_requests; m_sum_requests] (m_stats (m_consumer h))))
  | Some (SyncLoop AtTest) => Some (go (if module_run_marker h then Some (SyncLoop AtBody) else None))
  | Some (SyncLoop AtBody) => Some (go (Some (SyncLoop AtTest)))
  | _ => None
  end.

(** Whether a turn of the request handler is the body of [periodic_cleanups]. *)
Definition cleans (m : move) (l : life (R:=R)) : bool :=
  match m, work_of (m_cleanup_thread l) with CleanupTurn, Some (Loop AtBody) => true | _, _ => false end.

Definition with_life_stats (s : RequestHandler.stats) (l : life (R:=R)) : life (R:=R) :=
  mkLife (HandlerLife.m_run_marker l) (m_recording l) (m_recording_thread l) (m_cleanup_thread l)
    (m_periodic_transmission_thread l) (m_waiting_queue_thread l) (m_request_handler_thread_pool l)
    (m_waiting_requests l) s (stopping l) (readings l).

Definition handler_turn (m : move) h : option (outcome data_handler) :=
  if is_turn m then
    obind (do_move (m_handler h) get_iom_sender clock m (m_request_handler_impl h)) (fun l =>
      Some (if cleans m (m_request_handler_impl h) then
              let st := m_consumer h in
              '(q, errors, s) ← cleanup_check_body (m_handler h) (m_next_timestamp h)
                  (m_latency_buffer_impl st) (m_error_registry h) (life_stats l);
              Ret (mkDataHandler (m_connections h) (m_consumer_conf h)
                     (mkConsumer q (m_raw_processor_impl st) (m_stats st)) (m_handler h)
                     (with_life_stats s l) (m_writer_open h) (m_next_timestamp h) errors
                     (m_consumer_thread h) (m_timesync_thread h) (dispatching h) (module_run_marker h))
            else Ret (with_handler l h)))
  else None.

(** [dispatch_requests], as long as the receiver has the callback. *)
Definition dispatch (component : SourceID) (dr : DataRequest) h : option (outcome data_handler) :=
  if dispatching h then
    let '(request, s, _) :=
      dispatch_requests (RequestHandler.m_sourceid (m_handler h)) component dr (m_stats (m_consumer h)) in
    Some match request with
         | Some _ => l ← submit (m_request_handler_impl h); Ret (with_stats (with_handler l h) s)
         | None => Ret (with_stats h s)
         end
  else None.

(** A postprocessing thread takes the oldest pointer of its queue, and its function reads
    through it; with no pointer it sleeps. *)
Definition post_turn (i : nat) h : outcome data_handler :=
  let m := m_raw_processor_impl (m_consumer h) in
  match m_items_to_postprocess_queues m !! i ≫= pcq_read with
  | Some (element, q) =>
      _ ← read_element (m_latency_buffer_impl (m_consumer h)) element;
      Ret (with_processor h (with_queues (<[i := q]> (m_items_to_postprocess_queues m)) m))
  | None => Ret h
  end.

(** The stop command clears the run marker of the module first. *)
Definition event_step (e : event) h : option (outcome data_handler) :=
  match e with
  | ConsumerStep => Ret <$> consumer_step h
  | Receive input => receive input h
  | Callback payload =>
      if m_callback_mode (m_connections h)
      then Some ('(st, _) ← consume_payload (m_consumer_conf h) payload (m_consumer h); Ret (with_consumer h st))
      else None
  | TimesyncStep => Ret <$> timesync_step h
  | HandlerTurn m => handler_turn m h
  | Dispatch component dr => dispatch component dr h
  | PostTurn i => Some (post_turn i h)
  | StopCommand =>
      match stopping (m_request_handler_impl h) with
      | None => Some (begin_stop (with_marker false h))
      | Some _ => None
      end
  end.

Fixpoint events (es : list event) h : option (outcome data_handler) :=
  match es with
  | [] => Some (Ret h)
  | e :: es => obind (event_step e h) (events es)
  end.

(** A run: what happens after the start, and after the command to stop until it returns. *)
Record run := mkRun {
  run_number : option Z;
  during : list event;
  closing : list event }.

Definition events_of (r : run) : list event := during r ++ StopCommand :: closing r.

Definition module_run (r : run) h : option (outcome data_handler) :=
  obind (Some (start (run_number r) (with_marker true h))) (fun h =>
    obind (events (events_of r) h) end_stop).

(** Several runs, with the counters at the end of each. *)
Fixpoint module_runs (rs : list run) h : option (outcome (list dh_stats * data_handler)) :=
  match rs with
  | [] => Some (Ret ([], h))
  | r :: rs =>
      obind (module_run r h) (fun h =>
        obind (module_runs rs h) (fun '(ss, h') => Some (Ret (m_stats (m_consumer h) :: ss, h'))))
  end.

(** *** Postprocessing that keeps up

    No pointer is queued when a cleanup, or the flush at the end, destroys elements. *)
Definition drained h : bool :=
  forallb (fun q => pcq_sizeGuess q =? 0) (m_items_to_postprocess_queues (m_raw_processor_impl (m_consumer h))).

Definition cleanup_event (e : event) h : bool :=
  match e with HandlerTurn m => cleans m (m_request_handler_impl h) | _ => false end.

(** At the cleanups of [es]. *)
Fixpoint prompt (es : list event) h : bool :=
  match es with
  | [] => true
  | e :: es =>
      implb (cleanup_event e h) (drained h)
      && match event_step e h with Some (Ret h) => prompt es h | _ => true end
  end.

(** During a run. *)
Definition keeps_up (r : run) h : bool :=
  match start (run_number r) (with_marker true h) with
  | Ret h =>
      prompt (events_of r) h
      && match events (events_of r) h with Some (Ret h) => drained h | _ => true end
  | _ => true
  end.

Fixpoint all_keep_up (rs : list run) h : bool :=
  match rs with
  | [] => true
  | r :: rs => keeps_up r h && match module_run r h with Some (Ret h) => all_keep_up rs h | _ => true end
  end.
End model.
Arguments data_handler : clear implicits.
Arguments event : clear implicits.
Arguments run : clear implicits.

(** ** RawDataHandlerBase *)
Section base.
Context {T Q F R C : Type} `{RT : ReadoutType T} `{!PointerQueue (option Z) Q}
  `{!ReusableThread work R} `{!ReusableThread (model_work T) C}.
Context (p : platform) (sizeof_T : Z) (trivially_destructible : bool).
Context (get_iom_sender : string -> outcome (option bool)) (clock : nat -> Z).

(** [create_readout] is the derived module's: it makes and initialises a model for
    the settings, or gives a null pointer. *)
Context (get_dal : string -> option module_conf).
Context (create_readout : module_conf -> outcome (option (data_handler T Q F R C))).

(** The run marker is in the model, which has it by reference. *)
Record base := mkBase {
  m_configured : bool;
  base_run_number : Z;
  m_name : string;
  m_readout_impl : option (data_handler T Q F R C) }.

(** The constructor; [run] is what the uninitialised run number holds. *)
Definition new_base (run : Z) (name : string) : base := mkBase false run name None.

Implicit Types b : base.

Definition with_impl b (h : option (data_handler T Q F R C)) : base :=
  mkBase (m_configured b) (base_run_number b) (m_name b) h.

Definition base_init b : outcome base :=
  match get_dal (m_name b) with
  | None => Throw (IssueExn (FailedReadoutInitialization (m_name b) "not a DataHandlerModule"))
  | Some modconf =>
      impl ← create_readout modconf;
      match impl with
      | None => Throw (IssueExn (FailedReadoutInitialization (m_name b) ""))
      | Some _ => Ret (with_impl b impl)
      end
  end.

(** The callbacks registered, beside the module. *)
Definition do_conf {type callback : Type} (RDT : type) (this : callback) b
    (m : gmap string (@DataMoveCallback type callback))
    : outcome (base * gmap string (@DataMoveCallback type callback)) :=
  h ← deref (m_readout_impl b);
  Ret (mkBase true (base_run_number b) (m_name b) (Some h), conf RDT this h m).

Definition do_scrap b : outcome base :=
  h ← deref (m_readout_impl b);
  h ← scrap p sizeof_T trivially_destructible h;
  Ret (mkBase false (base_run_number b) (m_name b) (Some h)).

(** The run marker is set before the model's [start]. *)
Definition do_start (run : Z) b : outcome base :=
  h ← deref (m_readout_impl b);
  h ← start get_iom_sender (Some run) (with_marker true h);
  Ret (mkBase (m_configured b) run (m_name b) (Some h)).

(** The run marker is cleared before the model's [stop]; [closing] is what happens until
    it returns. *)
Definition do_stop (closing : list (event T)) b : option (outcome base) :=
  obind (Some (deref (m_readout_impl b))) (fun h =>
    obind (events p get_iom_sender clock (StopCommand :: closing) h) (fun h =>
      obind (end_stop p h) (fun h => Some (Ret (with_impl b (Some h)))))).

Definition do_record b : outcome (base * list issue) :=
  h ← deref (m_readout_impl b);
  let '(h, issues) := record h in
  Ret (with_impl b (Some h), issues).
End base.
Arguments base : clear implicits.

(** ** Lemmas *)

(** *** The request handler of a module: no recording, started or stopping *)
Section handler.
Context {R : Type} `{ReusableThreadLaws work R}.
Context (cfg : settings) (get_iom_sender : string -> outcome (option bool)) (clock : nat -> Z).
Implicit Types l : life (R:=R).

Record quiet l : Prop := {
  q_ok : life_ok l;
  q_thread : idle (m_recording_thread l);
  q_recording : m_recording l = false }.

Definition alive (started : bool) l : Prop :=
  quiet l
  /\ if started then stopping l = None /\ HandlerLife.m_run_marker l = true else ending clock 0 l.

Lemma turn_recording (m : move) l l' :
  idle (m_recording_thread l) -> is_turn m = true ->
  do_move cfg get_iom_sender clock m l = Some (Ret l') ->
  m_recording_thread l' = m_recording_thread l /\ m_recording l' = m_recording l.
Proof.
  intros Hi Ht Hm. destruct m as [| | | | | | | |k|i aside]; try done; cbn [do_move] in Hm.
  - unfold stop_step in Hm. repeat case_match; try done; injection Hm as <-; done.
  - unfold recording_step in Hm. unfold idle in Hi. by rewrite Hi in Hm.
  - unfold cleanup_step in Hm. destruct (loop_step _ _); [|done]. by injection Hm as <-.
  - unfold periodic_step in Hm. destruct (loop_step _ _); [|done]. by injection Hm as <-.
  - unfold waiting_step in Hm. destruct (m_waiting_queue_thread l) as [|[]|]; try done; [by injection Hm as <-|].
    destruct (_ <=? _)%nat; [|done]. injection Hm as Hm. by apply bind_Ret_inv in Hm as (q & _ & [= <-]).
  - unfold task_step in Hm. repeat case_match; try done; injection Hm as <-; done.
Qed.

(** While the module runs no turn fails. *)
Lemma running_turn (m : move) l o :
  life_ok l -> stopping l = None -> HandlerLife.m_run_marker l = true -> is_turn m = true ->
  do_move cfg get_iom_sender clock m l = Some o ->
  exists l', o = Ret l' /\ stopping l' = None /\ HandlerLife.m_run_marker l' = true.
Proof.
  intros Hok Hs Hm Ht E. pose proof (lo_place _ Hok) as Hl. rewrite Hs, Hm in Hl.
  destruct Hl as (_ & (t & Hw) & (tasks & Hp)).
  destruct m as [| | | | | | | |k|i aside]; try done; cbn [do_move] in E.
  - unfold stop_step in E. by rewrite Hs in E.
  - unfold recording_step in E. destruct (work_of _) as [[]|]; try done; [by injection E as <-; eexists|].
    destruct (_ <? _); injection E as <-; by eexists.
  - unfold cleanup_step in E. destruct (loop_step _ _); [|done]. injection E as <-. by eexists.
  - unfold periodic_step in E. destruct (loop_step _ _); [|done]. injection E as <-. by eexists.
  - unfold waiting_step in E. rewrite Hw in E. destruct t; [injection E as <-; by eexists|].
    rewrite Hp in E. destruct (_ <=? _)%nat; [|done]. injection E as <-. by eexists.
  - unfold task_step in E. rewrite Hp in E. destruct (tasks !! i); [|done]. injection E as <-. by eexists.
Qed.

Lemma alive_turn (started : bool) (m : move) l o :
  alive started l -> is_turn m = true -> do_move cfg get_iom_sender clock m l = Some o ->
  exists l', o = Ret l' /\ alive started l'.
Proof.
  intros [[Hok Hi Hr] Hpl] Ht E.
  cut (exists l', o = Ret l' /\ if started then stopping l' = None /\ HandlerLife.m_run_marker l' = true
                               else ending clock 0 l').
  { intros (l' & -> & Hpl'). exists l'. split; [done|]. split; [|done].
    destruct (turn_recording m l l' Hi Ht E) as [E1 E2].
    split; [|by rewrite E1|by rewrite E2]. apply (life_step_ok cfg get_iom_sender clock l); [by exists m|done]. }
  destruct started.
  - destruct Hpl as [Hs Hm]. destruct (running_turn m l o Hok Hs Hm Ht E) as (l' & -> & ?). by exists l'.
  - destruct (turn_decreases cfg get_iom_sender clock 0 m l o Hpl Ht E) as (l' & -> & ? & _). by exists l'.
Qed.

(** The counters are no part of it. *)
Lemma alive_stats (started : bool) s l : alive started l -> alive started (with_life_stats s l).
Proof.
  intros [[[H1 H2 H3 H4] Hi Hr] Hpl]. split; [by split|]. destruct started; [done|].
  destruct Hpl as [_ ? ? ?]. by split.
Qed.

Lemma alive_submit l : alive true l -> exists l', submit l = Ret l' /\ alive true l'.
Proof.
  intros [[Hok Hi Hr] [Hs Hm]]. pose proof (lo_place _ Hok) as Hl. rewrite Hs, Hm in Hl.
  destruct Hl as (_ & _ & (tasks & Hp)). unfold submit. rewrite Hp. cbn. eexists. split; [done|].
  split; [|done]. split; [|done|done]. apply requests_ok; [done| |by left]. rewrite Hp. split; intros _; by eexists.
Qed.

Lemma alive_begin_stop l : alive true l -> alive false (HandlerLife.begin_stop l).
Proof.
  intros [[Hok Hi Hr] [Hs Hm]]. pose proof (lo_place _ Hok) as Hl. rewrite Hs, Hm in Hl.
  destruct Hl as (_ & (t & Hw) & Hp).
  assert (Hok' : life_ok (HandlerLife.begin_stop l)) by (destruct Hok; by split).
  split; [by split|]. split; [done|done| |].
  - unfold recording_ends. cbn. unfold idle in Hi. by rewrite Hi.
  - cbn. split; [done|]. by rewrite Hw.
Qed.

(** At rest: new, or after a [stop] that has returned. *)
Definition resting l : Prop :=
  quiet l /\ stopping l = None /\ HandlerLife.m_run_marker l = false.

Lemma alive_stopped l : alive false l -> stopping l = None -> resting l.
Proof. intros [Hq Hen] Hs. split; [done|]. split; [done|]. apply Hen. Qed.

Lemma resting_new (s : stats) : resting (new_life s).
Proof. split; [|done]. split; [apply new_life_ok|apply new_thread_idle|done]. Qed.

Lemma resting_start l :
  resting l -> ready_senders get_iom_sender (m_frag_out_conn_ids cfg) = Ret tt ->
  exists l', HandlerLife.start cfg get_iom_sender l = Ret l' /\ alive true l'.
Proof.
  intros [[Hok Hi Hr] [Hs Hm]] Hready.
  pose proof (lo_place _ Hok) as Hl. rewrite Hs, Hm in Hl. destruct Hl as (_ & _ & Hw & _).
  assert (exists l', HandlerLife.start cfg get_iom_sender l = Ret l' /\ m_recording l' = m_recording l
    /\ m_recording_thread l' = m_recording_thread l) as (l' & E & E1 & E2).
  { unfold HandlerLife.start. rewrite Hready. outcome. destruct (set_work _ _). rewrite Hw. by eexists. }
  exists l'. split; [done|]. destruct (start_ok cfg get_iom_sender l l' Hok Hs E) as (_ & Hok' & Hs' & Hm' & _).
  split; [|done]. split; [done|by rewrite E2|by rewrite E1].
Qed.
End handler.

(** *** The ring and the pointers into it *)
Section store.
Context {T Q F : Type} `{RT : ReadoutType T} `{!ReadoutLaws T} `{!TimestampOrder T}
  `{PQ : PointerQueue (option Z) Q} `{!PointerQueueLaws (option Z) Q}.
Context (p : platform) (n qroom : nat).

#[local] Hint Extern 0 (LatencyBuffer _ (queue T) _) => exact (binary_search_buffer p) : typeclass_instances.
#[local] Hint Extern 0 (LatencyBufferLaws _ (queue T) _) => exact (binary_search_laws p) : typeclass_instances.
#[local] Hint Extern 0 (FifoLaws _ (queue T) _) => exact (queue_fifo p _ _ _ _) : typeclass_instances.

Implicit Types (c : list T) (q : queue T) (m : processor T Q F) (st : consumer T (queue T) Q F).

(** A pointer that can be read. *)
Definition live q (element : option Z) : Prop := exists x, read_element q element = Ret x.

Lemma write_live q x b q' element : write q x = Ret (b, q') -> live q element -> live q' element.
Proof.
  unfold write. destruct (negb _); [|by intros [= _ <-]].
  intros (s & Hs & [= _ <-])%bind_Ret_inv (y & Hy). unfold live, read_element in *.
  destruct element as [i|]; [|done]. cbn [deref] in *. revert Hy. outcome.
  unfold slot_construct in Hs. destruct (records_ q) as [| |k l]; try done.
  destruct (_ || _) eqn:E; [done|]. injection Hs as <-. apply orb_false_iff in E as [E1 E2].
  apply Z.ltb_ge in E1. apply Z.leb_gt in E2. cbn.
  destruct (i <? 0) eqn:Ei; [done|]. apply Z.ltb_ge in Ei. intros Hy.
  destruct (decide (Z.to_nat (writeIndex_ q) = Z.to_nat i)) as [Eq|Hne].
  - rewrite Eq, list_lookup_insert_eq by lia. by eexists.
  - rewrite list_lookup_insert_ne by done. by exists y.
Qed.

Lemma back_live q c : repr q c -> c <> [] -> live q (back q).
Proof.
  intros Hq Hc. pose proof (back_repr q c Hq) as Hb. destruct (last c) as [x|] eqn:El; [|by apply last_None in El].
  unfold live, read_element, deref_slot in *. destruct (back q) as [i|]; [|done]. cbn [deref]. outcome.
  destruct (slot_read (records_ q) i) as [y| | | |]; try done. by exists y.
Qed.

(** Nothing can be read from an empty ring. *)
Lemma slot_read_empty q (i : Z) : repr q [] -> slot_read (records_ q) i = Undefined.
Proof.
  intros (k & l & r & [Hr _ _ _ Hlt _ _ Hring]). rewrite Hr. apply ring_nil_inv in Hring as ->; [|done].
  cbn. destruct (i <? 0); [done|]. by destruct (decide (Z.to_nat i < length l)%nat);
    [rewrite lookup_replicate_2|rewrite lookup_ge_None_2 by (rewrite length_replicate; lia)].
Qed.

Lemma read_element_empty q element : repr q [] -> read_element q element = Undefined.
Proof. intros Hq. destruct element as [i|]; [|done]. unfold read_element. cbn [deref]. outcome. by apply slot_read_empty. Qed.

(** A configured processor: a queue of readable pointers and a name for each function. *)
Definition queue_ok q (pointers : Q) : Prop := exists l, pcq_model pointers qroom l /\ Forall (live q) l.

Definition processor_ok q m : Prop :=
  length (m_post_process_threads m) = length (m_post_process_functions m)
  /\ length (m_items_to_postprocess_queues m) = length (m_post_process_functions m)
  /\ Forall (queue_ok q) (m_items_to_postprocess_queues m).

Definition queues_empty m : Prop :=
  Forall (fun pointers => pcq_model pointers qroom []) (m_items_to_postprocess_queues m).

Lemma processor_ok_live q q' m :
  (forall element, live q element -> live q' element) -> processor_ok q m -> processor_ok q' m.
Proof.
  intros Hl (H1 & H2 & H3). split; [done|]. split; [done|]. apply (Forall_impl _ _ _ H3).
  intros pointers (l & Hm & Hall). exists l. split; [done|]. by apply (Forall_impl _ _ _ Hall).
Qed.

Lemma postprocess_item_ok q ptr m :
  live q ptr -> processor_ok q m -> processor_ok q (fst (postprocess_item ptr m)).
Proof.
  intros Hptr (H1 & H2 & H3). unfold postprocess_item.
  destruct (postprocess_loop _ _ _ _) as [queues issues] eqn:E. unfold processor_ok. cbn.
  assert (Hq : length queues = length (m_items_to_postprocess_queues m) /\ Forall (queue_ok q) queues).
  { clear H1 H2. revert queues issues E. generalize 0 at 1. generalize (RawDataProcessor.m_sourceid m).
    induction H3 as [|q0 qs (l & Hq & Hl) Hqs IH]; intros id i queues issues; cbn [postprocess_loop];
      [by intros [= <- _]|].
    destruct (pcq_write ptr q0) as [b q1] eqn:Ew.
    destruct (postprocess_loop id ptr (i + 1) qs) as [qs1 is1] eqn:E1. intros [= <- _].
    destruct (IH _ _ _ _ E1) as [Hlen Hf]. split; [cbn; congruence|]. constructor; [|done].
    pose proof (pcq_write_spec _ _ _ ptr Hq) as Hw. rewrite Ew in Hw. case_decide.
    - destruct Hw as [_ Hw]. exists (l ++ [ptr]). split; [done|]. apply Forall_app. by repeat constructor.
    - injection Hw as -> ->. by exists l. }
  destruct Hq as [Hl Hf]. by rewrite Hl.
Qed.

(** What the consumer keeps: a ring of [n] places that holds [c], and the processor. *)
Record store_ok st c : Prop := {
  s_owns : owns p (m_latency_buffer_impl st) c;
  s_size : size_ (m_latency_buffer_impl st) = Z.of_nat (S n);
  s_processor : processor_ok (m_latency_buffer_impl st) (m_raw_processor_impl st) }.

Lemma owns_shape q q' c c' : owns p q c -> repr q' c' -> shape q' = shape q -> owns p q' c' /\ size_ q' = size_ q.
Proof.
  intros [_ Hrel] Hq' Hs. split; [|unfold shape in Hs; congruence]. split; [done|].
  by rewrite (releasable_shape p q q').
Qed.

Lemma owns_length q c : owns p q c -> size_ q = Z.of_nat (S n) -> (length c <= n)%nat.
Proof. intros [Hq _] Hs. pose proof (repr_length q c Hq). lia. Qed.

(** Another ring that holds [c'], with nothing queued that points to what is gone. *)
Lemma store_ok_ring q' st c c' s :
  store_ok st c -> repr q' c' -> shape q' = shape (m_latency_buffer_impl st) ->
  processor_ok q' (m_raw_processor_impl st) -> store_ok (mkConsumer q' (m_raw_processor_impl st) s) c'.
Proof.
  intros [Ho Hs Hp] Hq' Hsh Hp'. destruct (owns_shape _ _ _ _ Ho Hq' Hsh) as [Ho' Hs'].
  split; [done|cbn; congruence|done].
Qed.

(** One payload of the consumer, or by callback. *)
Lemma item_ok (cfg : consumer_conf) x st c :
  (0 < n)%nat -> m_processing_delay_ticks cfg = 0 -> store_ok st c -> may_count 1 (m_stats st) ->
  exists st' c' l (o : nat), process_item cfg x st = Ret (st', l) /\ consume_payload cfg x st = Ret (st', l)
    /\ store_ok st' c' /\ (o <= 1)%nat /\ counted 1 o 0 (m_stats st) (m_stats st').
Proof.
  intros Hn Hd Hst Hc. pose proof Hst as [Ho Hs Hp]. unfold process_item, consume_payload. rewrite Hd. cbn [Z.eqb].
  set (x' := preprocess_item x (m_raw_processor_impl st)).
  pose proof (owns_length _ c Ho Hs) as Hlen.
  assert (Hb : lb_model (m_latency_buffer_impl st) c) by apply Ho.
  pose proof (lb_write_spec _ c x' Hb) as Hw. clear Hb.
  assert (Hroom : lb_room (m_latency_buffer_impl st) = n)
    by (change (Z.to_nat (size_ (m_latency_buffer_impl st) - 1) = n); lia).
  rewrite Hroom in Hw.
  assert (exists (written : bool) q' c', lb_write x' (m_latency_buffer_impl st) = Ret (written, q')
    /\ repr q' c' /\ c' <> []) as (written & q' & c' & E & Hq' & Hne).
  { case_decide.
    - destruct Hw as (q' & E & Hq' & _). exists true, q', (c ++ [x']). split_and!; [done|done|by destruct c].
    - destruct Hw as (q' & E & Hq' & _). exists false, q', c. split_and!; [done|done|]. intros ->. cbn in *. lia. }
  rewrite E. outcome. cbn [pt_back slots]. outcome.
  change (write (m_latency_buffer_impl st) x' = Ret (written, q')) in E.
  assert (Hp' : processor_ok q' (m_raw_processor_impl st)).
  { apply (processor_ok_live (m_latency_buffer_impl st)); [|done]. intros element. by apply (write_live _ x' written). }
  pose proof (postprocess_item_ok q' (back q') _ (back_live q' c' Hq' Hne) Hp') as Hp''.
  destruct (postprocess_item (back q') (m_raw_processor_impl st)) as [m' l]. cbn in Hp''.
  destruct (owns_shape _ q' c c' Ho Hq' (write_shape _ _ _ _ E)) as [Ho' Hs'].
  eexists _, c', _, (if written then 0 else 1)%nat. split; [reflexivity|]. split; [reflexivity|].
  split; [split; cbn; [done|congruence|done]|]. split; [by destruct written; lia|].
  cbn. unfold may_count in Hc. apply count_payload_counted; lia.
Qed.

Lemma items_ok (cfg : consumer_conf) (items : list T) st c :
  (0 < n)%nat -> m_processing_delay_ticks cfg = 0 -> store_ok st c -> may_count (length items) (m_stats st) ->
  exists st' c' l (o : nat), process_items cfg items st = Ret (st', l) /\ store_ok st' c'
    /\ (o <= length items)%nat /\ counted (length items) o 0 (m_stats st) (m_stats st').
Proof.
  intros Hn Hd. revert st c. induction items as [|x items IH]; intros st c Hst Hc; cbn [process_items].
  { exists st, c, [], 0%nat. split_and!; try done; unfold counted; cbn; lia. }
  destruct (item_ok cfg x st c Hn Hd Hst) as (st1 & c1 & l1 & o1 & -> & _ & Hst1 & Ho1 & Hc1).
  { unfold may_count in *. cbn [length] in Hc. lia. }
  outcome. destruct (IH st1 c1 Hst1) as (st2 & c2 & l2 & o2 & -> & Hst2 & Ho2 & Hc2).
  { by apply (counted_may 1 o1 0 (length items) (m_stats st)). }
  outcome. exists st2, c2, (l1 ++ l2), (o1 + o2)%nat. split; [done|]. split; [done|]. split; [cbn; lia|].
  exact (counted_trans _ _ _ _ _ _ _ _ _ Hc1 Hc2).
Qed.

(** *** The postprocessing threads *)



(** None of them can, once the ring is empty. *)
Lemma drain_all_empty q (queues : list Q) :
  repr q [] -> Forall (fun pointers => exists l, pcq_model pointers qroom l) queues ->
  drain_all q queues
  = if forallb (fun pointers => pcq_sizeGuess pointers =? 0) queues then Ret queues else Undefined.
Proof.
  intros Hq Hall. induction Hall as [|pointers queues (l & Hm) _ IH]; [done|]. cbn [drain_all forallb].
  rewrite (pcq_size_spec _ _ _ Hm), Nat2Z.id. destruct l as [|element l].
  - cbn. rewrite IH. by destruct (forallb _ _).
  - cbn [length drain_queue]. destruct (pcq_read_spec _ _ _ Hm) as (p1 & -> & _).
    by rewrite (read_element_empty q element Hq).
Qed.

Lemma stop_processor_drained q m :
  repr q [] -> Forall (fun pointers => exists l, pcq_model pointers qroom l) (m_items_to_postprocess_queues m) ->
  stop_processor q m
  = if forallb (fun pointers => pcq_sizeGuess pointers =? 0) (m_items_to_postprocess_queues m)
    then Ret (RawDataProcessor.stop m) else Undefined.
Proof.
  intros Hq Hall. unfold stop_processor. cbn [RawDataProcessor.stop m_items_to_postprocess_queues].
  rewrite (drain_all_empty q _ Hq Hall). by destruct (forallb _ _).
Qed.

Lemma queues_drained (queues : list Q) :
  Forall (fun pointers => exists l, pcq_model pointers qroom l) queues ->
  forallb (fun pointers => pcq_sizeGuess pointers =? 0) queues = true ->
  Forall (fun pointers => pcq_model pointers qroom []) queues.
Proof.
  intros Hall. induction Hall as [|pointers queues (l & Hm) _ IH]; [done|]. cbn. rewrite (pcq_size_spec _ _ _ Hm).
  intros [E1 E2]%andb_true_iff. constructor; [|by apply IH]. apply Z.eqb_eq in E1. by destruct l; [|cbn in E1; lia].
Qed.

Lemma processor_ok_empty q m :
  length (m_post_process_threads m) = length (m_post_process_functions m) ->
  length (m_items_to_postprocess_queues m) = length (m_post_process_functions m) ->
  queues_empty m -> processor_ok q m.
Proof.
  intros H1 H2 H3. split; [done|]. split; [done|]. apply (Forall_impl _ _ _ H3). intros pointers Hm. by exists [].
Qed.

Lemma processor_ok_models q m :
  processor_ok q m -> Forall (fun pointers => exists l, pcq_model pointers qroom l) (m_items_to_postprocess_queues m).
Proof. intros (_ & _ & H3). apply (Forall_impl _ _ _ H3). intros pointers (l & Hm & _). by exists l. Qed.
End store.

(** *** A module at work *)
Section working.
Context {T Q F R C : Type} `{RT : ReadoutType T} `{!ReadoutLaws T} `{!TimestampOrder T}
  `{PQ : PointerQueue (option Z) Q} `{!PointerQueueLaws (option Z) Q}
  `{RR : ReusableThread work R} `{!ReusableThreadLaws work R}
  `{RC : ReusableThread (model_work T) C} `{!ReusableThreadLaws (model_work T) C}.
Context (p : platform) (get_iom_sender : string -> outcome (option bool)) (clock : nat -> Z) (n qroom : nat).

#[local] Hint Extern 0 (LatencyBuffer _ (queue T) _) => exact (binary_search_buffer p) : typeclass_instances.
#[local] Hint Extern 0 (LatencyBufferLaws _ (queue T) _) => exact (binary_search_laws p) : typeclass_instances.
#[local] Hint Extern 0 (FifoLaws _ (queue T) _) => exact (queue_fifo p _ _ _ _) : typeclass_instances.

Implicit Types (c : list T) (h : data_handler T Q F R C) (e : event T) (es : list (event T)).

(** What holds at rest and in a run: the ring and the processor, receivers, no delay, and
    shares of a cleanup that leave an element. *)
Record setup h c : Prop := {
  w_store : store_ok p n qroom (m_consumer h) c;
  w_receiver : m_callback_mode (m_connections h) = false -> m_raw_data_receiver (m_connections h) <> None;
  w_callback : m_callback_mode (m_connections h) = true -> idle (W:=model_work T) (m_consumer_thread h);
  w_requests : m_data_request_receiver (m_connections h) <> None;
  w_delay : m_processing_delay_ticks (m_consumer_conf h) = 0;
  w_room : (0 < n)%nat;
  w_limit : 0 <= m_pop_limit_size (m_handler h);
  w_share : leaves_one (m_handler h) n }.

(** The counters after [payloads] payloads and [timeouts] timeouts. *)
Definition reported (payloads timeouts : nat) (s : dh_stats) : Prop :=
  s m_sum_payloads = Z.of_nat payloads /\ s m_num_payloads = Z.of_nat payloads
  /\ 0 <= s m_num_payloads_overwritten <= Z.of_nat payloads
  /\ s m_rawq_timeout_count = Z.of_nat timeouts.

(** In a run; the consumer thread clears the counters before it receives anything. *)
Record working (payloads timeouts : nat) h c : Prop := {
  w_setup : setup h c;
  w_handler : alive clock (dispatching h) (m_request_handler_impl h);
  w_reported : reported payloads timeouts (m_stats (m_consumer h));
  w_begin : work_of (m_consumer_thread h) = Some ConsumeBegin -> payloads = 0%nat /\ timeouts = 0%nat }.

(** What no event changes. *)
Definition same_setup h h' : Prop :=
  m_connections h' = m_connections h /\ m_consumer_conf h' = m_consumer_conf h
  /\ m_handler h' = m_handler h.

(** The payloads and the timeouts of an event. *)
Definition payloads_of e : list T :=
  match e with Receive (Some l, _) => l | Callback x => [x] | _ => [] end.

Definition timeouts_of e : nat := match e with Receive (None, _) => 1 | _ => 0 end.

Lemma reported_counted (payloads timeouts k o t : nat) s s' :
  reported payloads timeouts s -> (o <= k)%nat -> counted k o t s s' ->
  reported (payloads + k) (timeouts + t) s'.
Proof. unfold reported, counted. lia. Qed.

Lemma reported_may (payloads timeouts k : nat) s :
  reported payloads timeouts s -> Z.of_nat (payloads + timeouts + k) <= INT_MAX -> may_count k s.
Proof. unfold reported, may_count. lia. Qed.

(** A consumer thread that goes on. *)
Lemma setup_threads h c (consumer timesync : C) :
  setup h c -> (idle (W:=model_work T) (m_consumer_thread h) -> idle (W:=model_work T) consumer) ->
  setup (with_threads consumer timesync h) c.
Proof. intros [? ? Hcb ? ? ? ? ?] Hi. split; try done. intros Hm. by apply Hi, Hcb. Qed.

Lemma setup_stats h c s : setup h c -> setup (with_stats h s) c.
Proof. intros [[? ? ?] ? ? ? ? ? ? ?]. by split. Qed.

Lemma setup_handler h c l : setup h c -> setup (with_handler l h) c.
Proof. by intros []. Qed.

Lemma setup_store h c st c' : setup h c -> store_ok p n qroom st c' -> setup (with_consumer h st) c'.
Proof. by intros []. Qed.

(** What an event must do. *)
Definition goes_on (payloads timeouts : nat) e h (o : outcome (data_handler T Q F R C)) : Prop :=
  exists h' c', o = Ret h' /\ working (payloads + length (payloads_of e)) (timeouts + timeouts_of e) h' c'
    /\ same_setup h h' /\ dispatching h' = dispatching h.

Lemma consumer_step_working payloads timeouts h c h' :
  working payloads timeouts h c -> consumer_step h = Some h' ->
  working payloads timeouts h' c /\ same_setup h h' /\ dispatching h' = dispatching h.
Proof.
  intros [Hs Ha Hr Hb]. unfold consumer_step.
  destruct (work_of (m_consumer_thread h)) as [[|cy|cy| |at_]|] eqn:E; try done; intros [= <-];
    (split; [|by split]).
  - destruct (Hb eq_refl) as [-> ->]. split; [|done| |].
    + apply setup_stats, setup_threads; [done|]. unfold idle. by rewrite E.
    + revert Hr. unfold reported, exchange0. cbn. by intros (_ & _ & ? & _).
    + intros _. done.
  - split; [|done..|]; cbn.
    + apply setup_threads; [done|]. unfold idle. by rewrite E.
    + rewrite go_on_spec by (by rewrite E). by destruct (module_run_marker h).
Qed.

Lemma timesync_step_working payloads timeouts h c h' :
  working payloads timeouts h c -> timesync_step h = Some h' ->
  working payloads timeouts h' c /\ same_setup h h' /\ dispatching h' = dispatching h.
Proof.
  intros [Hs Ha Hr Hb]. unfold timesync_step.
  assert (Ht : forall t, setup (with_threads (m_consumer_thread h) t h) c) by (intros t; by apply setup_threads).
  destruct (work_of (m_timesync_thread h)) as [[|cy|cy| |[]]|] eqn:E; try done; intros [= <-];
    (split; [|by split]); split; try done; try apply Ht.
  by apply setup_stats, Ht.
Qed.

Lemma receive_working payloads timeouts input h c o :
  working payloads timeouts h c ->
  Z.of_nat (payloads + timeouts + (length (payloads_of (Receive input)) + timeouts_of (Receive input))) <= INT_MAX ->
  receive p input h = Some o -> goes_on payloads timeouts (Receive input) h o.
Proof.
  intros [Hs Ha Hr Hb] Hmax. unfold receive.
  destruct (work_of (m_consumer_thread h)) as [[|cy|cy| |at_]|] eqn:E; try done. intros [= <-].
  pose proof Hs as [Hst Hrec Hcb Hreq Hdelay Hroom Hlim Hshare].
  assert (Hmode : m_callback_mode (m_connections h) = false).
  { destruct (m_callback_mode (m_connections h)) eqn:Em; [|done]. specialize (Hcb eq_refl). unfold idle in Hcb. congruence. }
  destruct (proj1 (not_eq_None_Some _) (Hrec Hmode)) as [y Ey]. rewrite Ey. cbn [deref]. outcome.
  assert (Hgo : forall st c' (k o t : nat), store_ok p n qroom st c' -> (o <= k)%nat ->
    counted k o t (m_stats (m_consumer h)) (m_stats st) ->
    let h' := with_consumer
      (with_threads (go_on (Some (ConsumeTest cy)) (m_consumer_thread h)) (m_timesync_thread h) h) st in
    working (payloads + k) (timeouts + t) h' c' /\ same_setup h h' /\ dispatching h' = dispatching h).
  { intros st c' k o t Hst' Ho Hc h'. split; [|by split]. split; [|done| |].
    - apply (setup_store _ c); [|done]. apply setup_threads; [done|]. unfold idle. by rewrite E.
    - by apply (reported_counted payloads timeouts k o t (m_stats (m_consumer h))).
    - cbn. by rewrite go_on_spec by (by rewrite E). }
  destruct input as [[items|] now]; cbn [payloads_of timeouts_of fst snd] in *; unfold consume_turn; cbn [fst snd].
  - destruct (items_ok p n qroom (m_consumer_conf h) items (m_consumer h) c Hroom Hdelay Hst)
      as (st & c' & l & o & -> & Hst' & Ho & Hc).
    { apply (reported_may payloads timeouts); [done|]. cbn in Hmax. lia. }
    outcome. rewrite delayed_turn_off by done. outcome.
    destruct (Hgo st c' (length items) o 0%nat Hst' Ho Hc) as (Hw & Hsame). eexists _, c'. split; [done|]. done.
  - outcome. rewrite delayed_turn_off by done. outcome.
    destruct (Hgo (mkConsumer (m_latency_buffer_impl (m_consumer h)) (m_raw_processor_impl (m_consumer h))
      (incr m_rawq_timeout_count (m_stats (m_consumer h)))) c 0%nat 0%nat 1%nat) as (Hw & Hsame);
      [by destruct Hst|done| |by eexists _, c].
    apply timeout_counted. revert Hr. unfold reported. lia.
Qed.

Lemma callback_working payloads timeouts x h c :
  working payloads timeouts h c -> m_callback_mode (m_connections h) = true ->
  Z.of_nat (payloads + timeouts + 1) <= INT_MAX ->
  goes_on payloads timeouts (Callback x) h
    ('(st, _) ← consume_payload (m_consumer_conf h) x (m_consumer h); Ret (with_consumer h st)).
Proof.
  intros [Hs Ha Hr Hb] Hmode Hmax. pose proof Hs as [Hst Hrec Hcb Hreq Hdelay Hroom Hlim Hshare].
  destruct (item_ok p n qroom (m_consumer_conf h) x (m_consumer h) c Hroom Hdelay Hst)
    as (st & c' & l & o & _ & -> & Hst' & Ho & Hc); [by apply (reported_may payloads timeouts)|].
  outcome. exists (with_consumer h st), c'. split; [done|]. split; [|by split]. cbn.
  split; [by apply (setup_store _ c)|done| |].
  - by apply (reported_counted payloads timeouts 1 o 0 (m_stats (m_consumer h))).
  - intros E. specialize (Hcb Hmode). unfold idle in Hcb. cbn in E. congruence.
Qed.

Lemma drained_empty h c :
  store_ok p n qroom (m_consumer h) c -> drained h = true ->
  queues_empty qroom (m_raw_processor_impl (m_consumer h)).
Proof.
  intros [_ _ Hp] Hd. apply queues_drained; [|done]. by apply (processor_ok_models _ (m_latency_buffer_impl (m_consumer h))).
Qed.

(** The cleanup keeps the block of the ring. *)
Lemma cleanup_check_shape (cfg : settings) next (q : queue T) errors s q' errors' s' :
  cleanup_check_body cfg next q errors s = Ret (q', errors', s') -> shape q' = shape q.
Proof. unfold cleanup_check_body. destruct (_ <? _); [apply cleanup_shape|by intros [= <- _ _]]. Qed.

Lemma cleanup_working next errors h c (s : RequestHandler.stats) :
  setup h c -> drained h = true ->
  exists q' errors' s' c', cleanup_check_body (m_handler h) next (m_latency_buffer_impl (m_consumer h)) errors s
      = Ret (q', errors', s')
    /\ store_ok p n qroom (mkConsumer q' (m_raw_processor_impl (m_consumer h)) (m_stats (m_consumer h))) c'.
Proof.
  intros [Hst Hrec Hcb Hreq Hdelay Hroom Hlim Hshare] Hd. pose proof Hst as [Hown Hsize Hp].
  pose proof (drained_empty h c Hst Hd) as He. pose proof (owns_length p n _ c Hown Hsize) as Hlen.
  assert (Hb : lb_model (m_latency_buffer_impl (m_consumer h)) c) by apply Hown.
  assert (exists q' errors' s' c', cleanup_check_body (m_handler h) next (m_latency_buffer_impl (m_consumer h)) errors s
    = Ret (q', errors', s') /\ repr q' c') as (q' & errors' & s' & c' & E & Hq').
  { unfold cleanup_check_body. rewrite (lb_occupancy_spec _ c Hb).
    destruct (Z.ltb_spec (m_pop_limit_size (m_handler h)) (Z.of_nat (length c))) as [Hover|_].
    2:{ eexists _, _, _, c. split; [done|apply Hown]. }
    destruct (Hshare (length c)) as (k & Ek & Hk); [lia|].
    destruct (cleanup_drops (m_handler h) next _ c errors s k Hb Ek Hk) as (q' & errors' & s' & j & E & Hq' & _).
    by exists q', errors', s', (drop j c). }
  exists q', errors', s', c'. split; [done|].
  apply (store_ok_ring p n qroom q' (m_consumer h) c c'); [done|done|by apply (cleanup_check_shape _ _ _ _ _ _ _ _ E)|].
  destruct Hp as (H1 & H2 & _). by apply processor_ok_empty.
Qed.

Lemma handler_turn_working payloads timeouts (m : move) h c o :
  working payloads timeouts h c -> implb (cleanup_event (HandlerTurn m) h) (drained h) = true ->
  handler_turn p get_iom_sender clock m h = Some o -> goes_on payloads timeouts (HandlerTurn m) h o.
Proof.
  intros [Hs Ha Hr Hb] Hdr. unfold handler_turn. destruct (is_turn m) eqn:Et; [|done].
  destruct (do_move (m_handler h) get_iom_sender clock m (m_request_handler_impl h)) as [o1|] eqn:Em; [|done].
  destruct (alive_turn (m_handler h) get_iom_sender clock _ m _ o1 Ha Et Em) as (l & -> & Ha').
  cbn [obind]. intros [= <-]. cbn [cleanup_event] in Hdr. unfold goes_on. cbn [payloads_of timeouts_of length].
  rewrite !Nat.add_0_r. destruct (cleans m (m_request_handler_impl h)).
  - destruct (cleanup_working (m_next_timestamp h) (m_error_registry h) h c (life_stats l) Hs Hdr)
      as (q' & errors' & s' & c' & -> & Hst'). outcome.
    eexists _, c'. split; [done|]. split; [|by split]. split; cbn.
    + destruct Hs. by split.
    + by apply alive_stats.
    + exact Hr.
    + exact Hb.
  - eexists _, c. split; [done|]. split; [|by split]. split; [by apply setup_handler|done|done|done].
Qed.

Lemma dispatch_working payloads timeouts component dr h c o :
  working payloads timeouts h c -> dispatch component dr h = Some o ->
  goes_on payloads timeouts (Dispatch component dr) h o.
Proof.
  intros [Hs Ha Hr Hb]. unfold dispatch. destruct (dispatching h) eqn:Ed; [|done].
  unfold dispatch_requests, goes_on. cbn [payloads_of timeouts_of length]. rewrite !Nat.add_0_r.
  destruct (decide _); intros [= <-].
  - destruct (alive_submit _ _ Ha) as (l & -> & Ha'). outcome.
    eexists _, c. split; [done|]. split; [|by split]. split; cbn; [|by rewrite Ed|exact Hr|exact Hb].
    by apply (setup_stats (with_handler l h)), setup_handler.
  - eexists _, c. split; [done|]. split; [|by split]. split; cbn; [|by rewrite Ed|exact Hr|exact Hb].
    by apply setup_stats.
Qed.

Lemma post_turn_working payloads timeouts (i : nat) h c :
  working payloads timeouts h c -> goes_on payloads timeouts (PostTurn i) h (post_turn i h).
Proof.
  intros [Hs Ha Hr Hb]. pose proof (w_store _ _ Hs) as [Hown Hsize (H1 & H2 & H3)].
  unfold goes_on, post_turn. cbn [payloads_of timeouts_of length]. rewrite !Nat.add_0_r.
  destruct (m_items_to_postprocess_queues (m_raw_processor_impl (m_consumer h)) !! i) as [pointers|] eqn:Eq; cbn;
    [|by exists h, c].
  destruct (Forall_lookup_1 _ _ _ _ H3 Eq) as (l & Hm & Hl). pose proof (pcq_read_spec _ _ _ Hm) as Hread.
  destruct l as [|element l]; [by rewrite Hread; exists h, c|]. destruct Hread as (pointers' & -> & Hm').
  apply Forall_cons in Hl as [(x & Hx) Hl]. rewrite Hx. outcome. eexists _, c. split; [done|].
  split; [|by split]. split; try done. destruct Hs as [_ ? ? ? ? ? ? ?]. split; try done.
  split; try done. split; [done|]. cbn. split; [by rewrite length_insert|].
  apply Forall_insert; [done|]. by exists l.
Qed.

Lemma event_step_working payloads timeouts e h c o :
  working payloads timeouts h c -> e <> StopCommand -> implb (cleanup_event e h) (drained h) = true ->
  Z.of_nat (payloads + timeouts + (length (payloads_of e) + timeouts_of e)) <= INT_MAX ->
  event_step p get_iom_sender clock e h = Some o -> goes_on payloads timeouts e h o.
Proof.
  intros Hw He Hdr Hmax. destruct e as [|input|x| |m|component dr|i|]; cbn [event_step]; try done.
  - destruct (consumer_step h) as [h'|] eqn:E; [|done]. intros [= <-].
    destruct (consumer_step_working _ _ _ _ _ Hw E) as [H1 H2]. exists h', c. cbn. by rewrite !Nat.add_0_r.
  - by apply (receive_working _ _ _ _ c).
  - destruct (m_callback_mode (m_connections h)) eqn:Em; [|done]. intros [= <-].
    by apply (callback_working _ _ _ _ c).
  - destruct (timesync_step h) as [h'|] eqn:E; [|done]. intros [= <-].
    destruct (timesync_step_working _ _ _ _ _ Hw E) as [H1 H2]. exists h', c. cbn. by rewrite !Nat.add_0_r.
  - by apply (handler_turn_working _ _ _ _ c).
  - by apply (dispatch_working _ _ _ _ _ c).
  - intros [= <-]. by apply (post_turn_working _ _ _ _ c).
Qed.

Definition payloads es : list T := concat (payloads_of <$> es).

Definition run_timeouts es : nat := sum_list_with timeouts_of es.

Lemma same_setup_trans h1 h2 h3 : same_setup h1 h2 -> same_setup h2 h3 -> same_setup h1 h3.
Proof. unfold same_setup. intuition congruence. Qed.

Lemma events_working es : forall (np nt : nat) h c o,
  working np nt h c -> Forall (fun e => e <> StopCommand) es ->
  prompt p get_iom_sender clock es h = true ->
  Z.of_nat (np + nt + (length (payloads es) + run_timeouts es)) <= INT_MAX ->
  events p get_iom_sender clock es h = Some o ->
  exists h' c', o = Ret h' /\ working (np + length (payloads es)) (nt + run_timeouts es) h' c'
    /\ same_setup h h' /\ dispatching h' = dispatching h.
Proof.
  induction es as [|e es IH]; intros np nt h c o Hw Hes Hpr Hmax; cbn [events].
  { intros [= <-]. exists h, c. cbn. by rewrite !Nat.add_0_r. }
  apply Forall_cons in Hes as [He Hes]. cbn [prompt] in Hpr. apply andb_true_iff in Hpr as [Hdr Hpr].
  assert (Hp : length (payloads (e :: es)) = (length (payloads_of e) + length (payloads es))%nat)
    by apply length_app.
  change (run_timeouts (e :: es)) with (timeouts_of e + run_timeouts es)%nat in *. rewrite Hp in *.
  destruct (event_step p get_iom_sender clock e h) as [o1|] eqn:E; [|done].
  destruct (event_step_working np nt e h c o1 Hw He Hdr) as (h1 & c1 & -> & Hw1 & Hsame & Hdis); [lia|done|].
  cbn [obind] in *. intros Ho.
  destruct (IH _ _ h1 c1 o Hw1 Hes Hpr) as (h2 & c2 & -> & Hw2 & Hsame2 & Hdis2); [lia|done|].
  exists h2, c2. split; [done|]. rewrite !Nat.add_assoc. split; [done|].
  split; [by apply (same_setup_trans h h1)|congruence].
Qed.

Lemma events_app es es' h :
  events p get_iom_sender clock (es ++ es') h
  = obind (events p get_iom_sender clock es h) (events p get_iom_sender clock es').
Proof.
  revert h. induction es as [|e es IH]; intros h; [done|]. cbn.
  destruct (event_step _ _ _ e h) as [[h1| | | |]|]; cbn; try done.
Qed.

Lemma prompt_app es es' h :
  prompt p get_iom_sender clock (es ++ es') h
  = prompt p get_iom_sender clock es h
    && match events p get_iom_sender clock es h with
       | Some (Ret h) => prompt p get_iom_sender clock es' h | _ => true end.
Proof.
  revert h. induction es as [|e es IH]; intros h; [done|]. cbn. rewrite <- andb_assoc. f_equal.
  destruct (event_step _ _ _ e h) as [[h1| | | |]|]; cbn; try done.
Qed.

(** At rest: nothing stored, nothing queued, no thread at work. *)
Record at_rest h : Prop := {
  r_setup : setup h [];
  r_queues : queues_empty qroom (m_raw_processor_impl (m_consumer h));
  r_handler : resting (m_request_handler_impl h);
  r_consumer : idle (W:=model_work T) (m_consumer_thread h) }.

Lemma start_working number h :
  at_rest h -> ready_senders get_iom_sender (m_frag_out_conn_ids (m_handler h)) = Ret tt ->
  exists h', start get_iom_sender number (with_marker true h) = Ret h' /\ working 0 0 h' []
    /\ dispatching h' = true /\ m_connections h' = m_connections h /\ m_handler h' = m_handler h.
Proof.
  intros [[Hst Hrec Hcb Hreq Hdelay Hroom Hlim Hshare] Hq Hl Hc] Hready. unfold start, RawDataProcessor.start.
  cbn [with_marker m_consumer m_handler m_request_handler_impl m_connections m_consumer_thread m_timesync_thread].
  pose proof (s_processor _ _ _ _ _ Hst) as (H1 & H2 & H3). rewrite H1, H2, Nat.leb_refl. cbn [andb]. outcome.
  destruct (resting_start _ get_iom_sender clock _ Hl Hready) as (l & -> & Hl'). outcome.
  destruct (proj1 (not_eq_None_Some _) Hreq) as [y Ey]. rewrite Ey. cbn [deref]. outcome.
  eexists. split; [reflexivity|]. split; [|done]. split; cbn; [|done|done|].
  - split; cbn; try done.
    + by destruct Hst.
    + intros Hm. rewrite Hm. by apply Hcb.
  - destruct (m_callback_mode (m_connections h)); cbn; done.
Qed.

(** The command to stop. *)
Lemma begin_stop_working (np nt : nat) h c :
  working np nt h c -> dispatching h = true ->
  exists h', event_step p get_iom_sender clock StopCommand h = Some (Ret h') /\ working np nt h' c
    /\ dispatching h' = false /\ same_setup h h'.
Proof.
  intros [Hs Ha Hr Hb] Hd. rewrite Hd in Ha. pose proof Ha as [_ [Hstop _]]. cbn [event_step]. rewrite Hstop.
  unfold begin_stop. cbn [with_marker m_connections].
  destruct (proj1 (not_eq_None_Some _) (w_requests _ _ Hs)) as [y Ey]. rewrite Ey. cbn [deref]. outcome.
  eexists. split; [done|]. split; [|by split]. split; cbn; [|by apply alive_begin_stop|done|done].
  destruct Hs. by split.
Qed.

(** What [stop] does in the end: it fails exactly when a pointer is still queued. *)
Lemma end_stop_working (np nt : nat) h c o :
  working np nt h c -> dispatching h = false -> end_stop p h = Some o ->
  if drained h then exists h', o = Ret h' /\ at_rest h' /\ same_setup h h'
    /\ m_stats (m_consumer h') = m_stats (m_consumer h)
  else o = Undefined.
Proof.
  intros [Hs Ha Hr Hb] Hd. unfold end_stop. destruct (waits_over h) eqn:Ew; [|done]. intros [= <-].
  unfold waits_over in Ew. apply andb_true_iff in Ew as [[Ew1 _]%andb_true_iff Ew2].
  destruct (stopping (m_request_handler_impl h)) eqn:Estop; [done|]. clear Ew1. rewrite Hd in Ha.
  pose proof (w_store _ _ Hs) as [Hown Hsize Hp].
  destruct (flush_repr p _ c (proj1 Hown)) as (q' & Ef & Hq' & _).
  change (lb_flush (m_latency_buffer_impl (m_consumer h))) with (flush p (m_latency_buffer_impl (m_consumer h))).
  rewrite Ef. outcome. pose proof (pop_loop_shape p _ _ _ Ef) as Hshape.
  pose proof (processor_ok_models qroom _ _ Hp) as Hmodels.
  rewrite (stop_processor_drained qroom q' _ Hq' Hmodels). unfold drained.
  destruct (forallb _ _) eqn:Edr; [|done]. outcome. pose proof (queues_drained qroom _ Hmodels Edr) as He.
  eexists. split; [done|]. split; [|by split].
  destruct Hs as [Hst Hrec Hcb Hreq Hdelay Hroom Hlim Hshare].
  destruct Hp as (H1 & H2 & _). destruct (owns_shape p _ q' c [] Hown Hq' Hshape) as [Hown' Hsize'].
  split; cbn; [|done|by apply (alive_stopped clock)|].
  - split; cbn; try done. split; cbn; [done|congruence|]. by apply processor_ok_empty.
  - destruct (m_callback_mode (m_connections h)) eqn:Em; [by apply Hcb|]. by apply idle_readiness.
Qed.

(** What may happen in a run. *)
Definition possible_run (r : run T) : Prop :=
  Forall (fun e => e <> StopCommand) (during r ++ closing r)
  /\ Z.of_nat (length (payloads (during r ++ closing r)) + run_timeouts (during r ++ closing r)) <= INT_MAX.

(** What the counters of a run say. *)
Definition honest_report (r : run T) (s : dh_stats) : Prop :=
  reported (length (payloads (during r ++ closing r))) (run_timeouts (during r ++ closing r)) s.

Lemma payloads_app es es' : payloads (es ++ es') = payloads es ++ payloads es'.
Proof. unfold payloads. by rewrite fmap_app, concat_app. Qed.

Lemma run_timeouts_app es es' : run_timeouts (es ++ es') = (run_timeouts es + run_timeouts es')%nat.
Proof. apply sum_list_with_app. Qed.

(** The events of a run, from its start on. *)
Lemma run_events_working (r : run T) h c o :
  possible_run r -> working 0 0 h c -> dispatching h = true ->
  prompt p get_iom_sender clock (events_of r) h = true ->
  events p get_iom_sender clock (events_of r) h = Some o ->
  exists h' c', o = Ret h'
    /\ working (length (payloads (during r ++ closing r))) (run_timeouts (during r ++ closing r)) h' c'
    /\ dispatching h' = false /\ same_setup h h'.
Proof.
  intros [Hes Hmax] Hw Hd. unfold events_of. rewrite prompt_app, events_app.
  rewrite payloads_app, run_timeouts_app, length_app in *. apply Forall_app in Hes as [Hes1 Hes2].
  intros [Hp1 Hp2]%andb_true_iff Ho.
  destruct (events p get_iom_sender clock (during r) h) as [o1|] eqn:E1; [|done].
  destruct (events_working (during r) 0 0 h c o1 Hw Hes1 Hp1) as (h1 & c1 & -> & Hw1 & Hs1 & Hd1); [lia|done|].
  cbn [obind events prompt] in *.
  destruct (begin_stop_working _ _ h1 c1 Hw1 ltac:(congruence)) as (h2 & E2 & Hw2 & Hd2 & Hs2).
  rewrite E2 in *. cbn [obind cleanup_event implb andb] in *.
  destruct (events_working (closing r) _ _ h2 c1 o Hw2 Hes2 Hp2) as (h3 & c3 & -> & Hw3 & Hs3 & Hd3); [lia|done|].
  exists h3, c3. split; [done|]. split; [done|]. split; [congruence|].
  by apply (same_setup_trans h h1), (same_setup_trans h1 h2).
Qed.

Lemma module_run_at_rest (r : run T) h o :
  at_rest h -> possible_run r -> ready_senders get_iom_sender (m_frag_out_conn_ids (m_handler h)) = Ret tt ->
  keeps_up p get_iom_sender clock r h = true -> module_run p get_iom_sender clock r h = Some o ->
  exists h', o = Ret h' /\ at_rest h' /\ m_connections h' = m_connections h /\ m_handler h' = m_handler h
    /\ honest_report r (m_stats (m_consumer h')).
Proof.
  intros Hrest Hr Hready. unfold keeps_up, module_run.
  destruct (start_working (run_number r) h Hrest Hready) as (h1 & -> & Hw1 & Hd1 & Ec1 & Eh1). cbn [obind].
  intros [Hp Hdr]%andb_true_iff Ho.
  destruct (events p get_iom_sender clock (events_of r) h1) as [o2|] eqn:E2; [|done].
  destruct (run_events_working r h1 [] o2 Hr Hw1 Hd1 Hp E2) as (h2 & c2 & -> & Hw2 & Hd2 & (Ec2 & _ & Eh2)).
  cbn [obind] in Ho. pose proof (end_stop_working _ _ h2 c2 o Hw2 Hd2 Ho) as Hend. rewrite Hdr in Hend.
  destruct Hend as (h3 & -> & Hrest3 & (Ec3 & _ & Eh3) & Es3). exists h3. split; [done|]. split; [done|].
  split; [congruence|]. split; [congruence|]. unfold honest_report. rewrite Es3. apply Hw2.
Qed.

Lemma module_runs_at_rest (rs : list (run T)) h o :
  at_rest h -> Forall possible_run rs ->
  ready_senders get_iom_sender (m_frag_out_conn_ids (m_handler h)) = Ret tt ->
  all_keep_up p get_iom_sender clock rs h = true -> module_runs p get_iom_sender clock rs h = Some o ->
  exists ss h', o = Ret (ss, h') /\ at_rest h' /\ Forall2 honest_report rs ss
    /\ m_connections h' = m_connections h /\ m_handler h' = m_handler h.
Proof.
  revert h o. induction rs as [|r rs IH]; intros h o Hrest Hrs Hready; cbn [module_runs all_keep_up].
  { intros _ [= <-]. by exists [], h. }
  apply Forall_cons in Hrs as [Hr Hrs]. intros [Hk Hks]%andb_true_iff Ho.
  destruct (module_run p get_iom_sender clock r h) as [o1|] eqn:E1; [|done].
  destruct (module_run_at_rest r h o1 Hrest Hr Hready Hk E1) as (h1 & -> & Hrest1 & Ec1 & Eh1 & Hs1).
  cbn [obind] in *. destruct (module_runs p get_iom_sender clock rs h1) as [o2|] eqn:E2; [|done].
  destruct (IH h1 o2 Hrest1 Hrs) as (ss & h2 & -> & Hrest2 & Hss & Ec2 & Eh2); [by rewrite Eh1|done|done|].
  cbn [obind] in Ho. injection Ho as <-. eexists _, h2. split; [done|]. split; [done|].
  split; [by constructor|]. split; congruence.
Qed.
End working.

(** *** Initialisation *)
Section init_lemmas.
Context {T Q F R C : Type} `{RT : ReadoutType T} `{!ReadoutLaws T} `{!TimestampOrder T}
  `{PQ : PointerQueue (option Z) Q} `{!PointerQueueLaws (option Z) Q}
  `{RR : ReusableThread work R} `{!ReusableThreadLaws work R}
  `{RC : ReusableThread (model_work T) C} `{!ReusableThreadLaws (model_work T) C}.
Context (p : platform) (sizeof_T : Z) (trivially_destructible : bool).
Context (connected : string -> bool) (f : formats).
Context (open_writer : string -> Z -> string -> bool -> outcome unit).
Context (default_sourceid : SourceID).
Context (preprocess_tasks : list (T -> T)) (postprocess_tasks : list F).
Implicit Types (m : processor T Q F) (h : data_handler T Q F R C) (mc : module_conf).

Lemma conf_loop_spec (n i : nat) (sizes : Z) name_of (queues : list Q) (threads : list string) :
  (i + n <= length threads)%nat ->
  exists threads', conf_loop n i sizes name_of queues threads
      = Ret (queues ++ replicate n (pcq_create sizes), threads')
    /\ length threads' = length threads.
Proof.
  revert i queues threads. induction n as [|n IH]; intros i queues threads Hi; cbn [conf_loop replicate].
  - exists threads. by rewrite app_nil_r.
  - destruct (lookup_lt_is_Some_2 threads i ltac:(lia)) as [x ->].
    destruct (IH (S i) (queues ++ [pcq_create sizes]) (<[i:=name_of i]> threads)) as (threads' & -> & Hl).
    + rewrite length_insert. lia.
    + exists threads'. rewrite <- app_assoc. split; [done|]. by rewrite Hl, length_insert.
Qed.

(** The tasks registered: one thread for each postprocessing function, no queue. *)
Lemma tasks_registered (enabled : bool) :
  let m := foldl (fun m task => add_postprocess_task task m)
             (foldl (fun m task => add_preprocess_task task m) (new_processor enabled) preprocess_tasks)
             postprocess_tasks in
  m_post_process_functions m = postprocess_tasks
  /\ length (m_post_process_threads m) = length postprocess_tasks
  /\ m_items_to_postprocess_queues m = [].
Proof.
  assert (Hpre : forall l m, m_post_process_functions m = [] /\ m_post_process_threads m = []
      /\ m_items_to_postprocess_queues m = [] ->
    let m := foldl (fun m task => add_preprocess_task task m) m l in
    m_post_process_functions m = [] /\ m_post_process_threads m = [] /\ m_items_to_postprocess_queues m = []).
  { intros l. induction l as [|x l IH]; intros m Hm; [done|]. by apply IH. }
  specialize (Hpre preprocess_tasks (new_processor enabled)). cbn zeta in *.
  set (m0 := foldl _ (new_processor enabled) _) in *.
  destruct Hpre as (E1 & E2 & E3); [done|]. clearbody m0.
  cut (forall l m, let m' := foldl (fun m task => add_postprocess_task task m) m l in
    m_post_process_functions m' = m_post_process_functions m ++ l
    /\ length (m_post_process_threads m') = (length (m_post_process_threads m) + length l)%nat
    /\ m_items_to_postprocess_queues m' = m_items_to_postprocess_queues m).
  { intros Hpost. destruct (Hpost postprocess_tasks m0) as (F1 & F2 & F3).
    rewrite F1, F2, F3, E1, E2, E3. done. }
  intros l. induction l as [|x l IH]; intros m; cbn zeta; cbn [foldl].
  - by rewrite app_nil_r, Nat.add_0_r.
  - destruct (IH (add_postprocess_task x m)) as (F1 & F2 & F3). rewrite F1, F2, F3. cbn.
    rewrite <- app_assoc, length_app. cbn. split_and!; [done|lia|done].
Qed.

Lemma conf_processor_ok mc (enabled : bool) m :
  2 <= get_queue_sizes mc ->
  conf_processor f preprocess_tasks postprocess_tasks mc (new_processor enabled) = Ret m ->
  length (m_post_process_threads m) = length (m_post_process_functions m)
  /\ length (m_items_to_postprocess_queues m) = length (m_post_process_functions m)
  /\ queues_empty (Z.to_nat (get_queue_sizes mc - 1)) m.
Proof.
  intros Hsizes. unfold conf_processor. pose proof (tasks_registered enabled) as (E1 & E2 & E3).
  cbn zeta in *. set (m0 := foldl _ (foldl _ _ _) _) in *. unfold RawDataProcessor.conf.
  destruct (conf_loop_spec (length (m_post_process_functions m0)) 0 (get_queue_sizes mc)
    (fun i => (get_thread_names_prefix mc ++ pretty i)%string)
    (m_items_to_postprocess_queues m0) (m_post_process_threads m0)) as (threads' & -> & Hl).
  { rewrite E1, E2. lia. }
  outcome. intros [= <-]. rewrite E3. cbn [app].
  assert (Hq : Forall (fun q => pcq_model q (Z.to_nat (get_queue_sizes mc - 1)) [])
    (replicate (length (m_post_process_functions m0)) (pcq_create (get_queue_sizes mc)))).
  { apply Forall_replicate. by apply pcq_create_spec. }
  unfold queues_empty. cbn. rewrite length_replicate, Hl, E2, E1 in *. done.
Qed.

Lemma handler_conf_limit s hc s' l :
  RequestHandler.conf f open_writer s hc = Ret (s', l) -> 0 <= m_pop_limit_size s -> 0 <= m_pop_limit_size s'.
Proof.
  unfold RequestHandler.conf. destruct (foldl scan_output _ _) as [timeout ids].
  intros ([[configured file] size] & _ & H)%bind_Ret_inv Hs.
  apply bind_Ret_inv in H as ([[limit elements] issues] & H & [= <- _]). cbn.
  destruct (_ || _); [by injection H as <- _ _|].
  apply bind_Ret_inv in H as (limit' & Hlimit & H). apply bind_Ret_inv in H as (elements' & _ & [= -> _ _]).
  pose proof (f32_to_unsigned_range 4294967296 _ limit ltac:(lia) Hlimit). lia.
Qed.

(** An initialisation that reports nothing. *)
Lemma init_at_rest mc h :
  alloc_succeeds p Malloc (u64 (sizeof_T * 2)) = true -> sane_conf p (mc_latency_buffer mc) ->
  2 <= get_queue_sizes mc -> get_post_processing_delay_ticks mc = 0 ->
  init p sizeof_T trivially_destructible connected f open_writer default_sourceid preprocess_tasks postprocess_tasks mc
    = Ret (h, []) ->
  m_data_request_receiver (m_connections h) <> None ->
  leaves_one (m_handler h) (Z.to_nat (get_size (mc_latency_buffer mc) - 1)) ->
  at_rest p (Z.to_nat (get_size (mc_latency_buffer mc) - 1)) (Z.to_nat (get_queue_sizes mc - 1)) h
  /\ m_writer_open h = m_recording_configured (m_handler h).
Proof.
  intros Hmalloc Hsane Hsizes Hdelay. unfold init.
  intros (cs0 & _ & (cs & _ & (m & Hm & H)%bind_Ret_inv)%bind_Ret_inv)%bind_Ret_inv.
  apply bind_Ret_inv in H as ([q l2] & Hq & H). apply bind_Ret_inv in H as ([handler l3] & Hh & [= <- El]).
  apply app_nil in El as [El1 [-> ->]%app_nil]. cbn [m_connections m_handler m_writer_open].
  intros Hreq Hshare. split; [|done]. apply (conf_processor_ok mc _ m Hsizes) in Hm as (H1 & H2 & Hempty).
  pose proof (conf_cases p sizeof_T trivially_destructible (default_element T) (new_queue p sizeof_T) []
    (mc_latency_buffer mc) (new_queue_owns p sizeof_T Hmalloc) Hsane) as Hc.
  unfold conf_buffer in Hq. destruct (alloc_succeeds p (selected (mc_latency_buffer mc)) _).
  2:{ rewrite Hc in Hq. by apply bind_Ret_inv in Hq as (? & _ & [=]). }
  destruct Hc as (q' & Ec & Hown & Hsize & _). rewrite Ec in Hq.
  apply bind_Ret_inv in Hq as (q1 & [= <-] & [= <-]). destruct Hsane as ([Hs _] & _).
  assert (Hidle : idle (W:=model_work T) (R:=C) new_thread) by apply new_thread_idle.
  split; cbn; [|done|apply resting_new|done]. split; cbn; try done.
  - split; cbn; [done|rewrite Hsize; lia|by apply processor_ok_empty].
  - intros Hmode. rewrite Hmode in El1. by destruct (m_raw_data_receiver cs).
  - lia.
  - by apply (handler_conf_limit _ _ _ _ Hh).
Qed.
End init_lemmas.

(** ** Properties *)

Section properties.
Context {T Q F R C : Type} `{RT : ReadoutType T} `{!ReadoutLaws T} `{!TimestampOrder T}
  `{PQ : PointerQueue (option Z) Q} `{!PointerQueueLaws (option Z) Q}
  `{RR : ReusableThread work R} `{!ReusableThreadLaws work R}
  `{RC : ReusableThread (model_work T) C} `{!ReusableThreadLaws (model_work T) C}.
Context (p : platform) (sizeof_T : Z) (trivially_destructible : bool).
Context (connected : string -> bool) (f : formats).
Context (open_writer : string -> Z -> string -> bool -> outcome unit).
Context (default_sourceid : SourceID).
Context (preprocess_tasks : list (T -> T)) (postprocess_tasks : list F).
Context (get_iom_sender : string -> outcome (option bool)) (clock : nat -> Z).

#[local] Hint Extern 0 (LatencyBuffer _ (queue T) _) => exact (binary_search_buffer p) : typeclass_instances.

(** A module whose [init] reports nothing, and which has what [init] does not ask for: a
    receiver of data requests, its Fragment senders, no postprocessing delay, and a share
    of a cleanup that leaves an element. *)
Definition well_made (mc : module_conf) (h : data_handler T Q F R C) : Prop :=
  alloc_succeeds p Malloc (u64 (sizeof_T * 2)) = true /\ sane_conf p (mc_latency_buffer mc)
  /\ 2 <= get_queue_sizes mc /\ get_post_processing_delay_ticks mc = 0
  /\ init p sizeof_T trivially_destructible connected f open_writer default_sourceid preprocess_tasks postprocess_tasks mc
     = Ret (h, [])
  /\ m_data_request_receiver (m_connections h) <> None
  /\ leaves_one (m_handler h) (Z.to_nat (get_size (mc_latency_buffer mc) - 1))
  /\ ready_senders get_iom_sender (m_frag_out_conn_ids (m_handler h)) = Ret tt.

Lemma well_made_at_rest mc h :
  well_made mc h ->
  at_rest p (Z.to_nat (get_size (mc_latency_buffer mc) - 1)) (Z.to_nat (get_queue_sizes mc - 1)) h
  /\ m_writer_open h = m_recording_configured (m_handler h)
  /\ ready_senders get_iom_sender (m_frag_out_conn_ids (m_handler h)) = Ret tt.
Proof.
  intros (H1 & H2 & H3 & H4 & H5 & H6 & H7 & H8).
  by destruct (init_at_rest p sizeof_T trivially_destructible connected f open_writer default_sourceid
    preprocess_tasks postprocess_tasks mc h H1 H2 H3 H4 H5 H6 H7).
Qed.



(** C38: scrap is not undone by conf.  After any runs of a well made module, scrap, conf
    and start all succeed, and leave a module whose ring has a single place, whose
    processor has lost its functions and queues, and which refuses to record. *)
Theorem scrap_not_undone {type callback : Type} (RDT : type) (this : callback)
    (callbacks : gmap string DataMoveCallback) (mc : module_conf) (h h' : data_handler T Q F R C)
    (rs : list (run T)) (ss : list dh_stats) (b : base T Q F R C) (number : Z) :
  well_made mc h -> Forall possible_run rs -> all_keep_up p get_iom_sender clock rs h = true ->
  module_runs p get_iom_sender clock rs h = Some (Ret (ss, h')) -> m_readout_impl b = Some h' ->
  exists b1 b2 b3 h3 callbacks', do_scrap p sizeof_T trivially_destructible b = Ret b1
    /\ do_conf RDT this b1 callbacks = Ret (b2, callbacks') /\ m_configured b2 = true
    /\ do_start get_iom_sender number b2 = Ret b3 /\ m_readout_impl b3 = Some h3
    /\ repr (m_latency_buffer_impl (m_consumer h3)) [] /\ size_ (m_latency_buffer_impl (m_consumer h3)) = 2
    /\ m_preprocess_functions (m_raw_processor_impl (m_consumer h3)) = []
    /\ m_items_to_postprocess_queues (m_raw_processor_impl (m_consumer h3)) = []
    /\ m_recording_configured (m_handler h3) = m_recording_configured (m_handler h)
    /\ do_record b3
       = Ret (b3, [CommandError (RequestHandler.m_sourceid (m_handler h)) "DLH is not configured for recording"]).
Proof.
  intros Hmade Hrs Hk Hruns Hb. pose proof Hmade as (Hmalloc & _). destruct (well_made_at_rest mc h Hmade) as (Hr & _ & Hready).
  destruct (module_runs_at_rest p get_iom_sender clock _ _ rs h _ Hr Hrs Hready Hk Hruns)
    as (ss1 & h1 & [= <- <-] & [[[Hown _ _] _ _ Hreq _ _ _ _] _ Hl _] & _ & Ec & Eh).
  unfold do_scrap, scrap. rewrite Hb. cbn [deref]. outcome.
  destruct (scrap_owns p sizeof_T trivially_destructible _ _ Hown Hmalloc) as (q' & -> & [Hq' _] & Hs' & _).
  outcome. destruct (proj1 (not_eq_None_Some _) Hreq) as [y Ey].
  rewrite <- Eh in Hready. destruct (resting_start _ get_iom_sender clock _ Hl Hready) as (l & El & [[_ _ Hrec] _]).
  do 5 eexists. split; [reflexivity|]. unfold do_conf. cbn [m_readout_impl deref]. outcome.
  split; [reflexivity|]. split; [done|]. unfold do_start, start. cbn [m_readout_impl deref]. outcome.
  unfold RawDataProcessor.start. cbn [m_raw_processor_impl m_consumer RawDataProcessor.scrap with_marker m_handler
    m_request_handler_impl m_post_process_threads m_post_process_functions m_items_to_postprocess_queues
    length Nat.leb andb].
  outcome. rewrite El. outcome. cbn [m_connections with_marker]. rewrite Ey. cbn [deref]. outcome.
  split; [reflexivity|]. split; [reflexivity|]. split; [exact Hq'|]. split; [exact Hs'|].
  split; [done|]. split; [done|]. cbn [m_handler]. rewrite <- Eh. split; [done|].
  unfold do_record, record, HandlerLife.record. cbn [m_readout_impl deref]. outcome.
  cbn [m_handler m_writer_open m_request_handler_impl]. unfold Recording.record. rewrite Hrec. reflexivity.
Qed.

(** When the latency buffer cannot be allocated, [init] reports it and
    returns; the module can be configured and started, and the first payload is
    written through a null pointer. *)
Theorem init_bad_alloc (mc : module_conf) (h : data_handler T Q F R C) (l : list issue) (payload : T) :
  alloc_succeeds p Malloc (u64 (sizeof_T * 2)) = true -> sane_conf p (mc_latency_buffer mc) ->
  alloc_succeeds p (selected (mc_latency_buffer mc))
    (u64 (sizeof_T * get_size (mc_latency_buffer mc))) = false ->
  init p sizeof_T trivially_destructible connected f open_writer default_sourceid preprocess_tasks postprocess_tasks mc
    = Ret (h, l) ->
  ConfigurationError (mkSourceID (rdt_subsystem f) (get_source_id (mc_handler mc)))
    "Latency Buffer can't be allocated with size!" ∈ l
  /\ process_item (m_consumer_conf h) payload (m_consumer h) = Undefined
  /\ consume_payload (m_consumer_conf h) payload (m_consumer h) = Undefined.
Proof.
  intros Hmalloc Hsane Halloc. unfold init.
  intros (cs0 & _ & (cs & _ & (m & Hm & H)%bind_Ret_inv)%bind_Ret_inv)%bind_Ret_inv.
  apply bind_Ret_inv in H as ([q l2] & Hq & H). apply bind_Ret_inv in H as ([handler l3] & _ & [= <- <-]).
  pose proof (new_queue_owns (T := T) p sizeof_T Hmalloc) as Hown.
  pose proof (conf_cases p sizeof_T trivially_destructible (default_element T) _ []
    (mc_latency_buffer mc) Hown Hsane) as Hc.
  rewrite Halloc in Hc. unfold conf_buffer in Hq. rewrite Hc in Hq.
  destruct (renew_sane p sizeof_T trivially_destructible _ [] (mc_latency_buffer mc) Hown Hsane)
    as (q1 & E & Hnull & _ & Hs & Hr & Hw & _).
  rewrite E in Hq. injection Hq as <- <-. unfold obtain in Hnull. rewrite Halloc in Hnull.
  split; [rewrite !elem_of_app; right; left; by left|].
  assert (Hwrite : forall x, write q1 x = Undefined).
  { intros x. unfold write, next_record. rewrite Hw, Hr, Hs, Hnull.
    destruct Hsane as ([Hs2 _] & _). machine. by destruct (Z.eqb_spec (0 + 1) (get_size (mc_latency_buffer mc))); [lia|]. }
  unfold process_item, consume_payload. cbn [m_latency_buffer_impl m_consumer m_raw_processor_impl].
  change (@lb_write T (queue T) Z (binary_search_buffer p)) with (fun x (q : queue T) => write q x).
  cbn beta. by rewrite !Hwrite.
Qed.

(** Missing connections.  Without a connection for data requests [init]
    reports nothing about it, and start dereferences a null pointer; without one
    for the data, outside callback mode, [init] only reports it, and the consumer
    thread dereferences a null pointer in its first turn. *)
Theorem missing_receivers (mc : module_conf) (h : data_handler T Q F R C) (l : list issue) (number : option Z)
    (input : option (list T) * Z) :
  init p sizeof_T trivially_destructible connected f open_writer default_sourceid preprocess_tasks postprocess_tasks mc
    = Ret (h, l) -> 2 <= get_queue_sizes mc ->
  ready_senders get_iom_sender (m_frag_out_conn_ids (m_handler h)) = Ret tt ->
  (m_data_request_receiver (m_connections h) = None -> start get_iom_sender number h = Undefined)
  /\ (m_callback_mode (m_connections h) = false -> m_raw_data_receiver (m_connections h) = None ->
      ConfigurationError default_sourceid "Non callback mode, and receiver is unset!" ∈ l
      /\ forall (h' : data_handler T Q F R C) cy, m_connections h' = m_connections h ->
         work_of (m_consumer_thread h') = Some (ConsumeBody cy) ->
         event_step p get_iom_sender clock (Receive input) h' = Some Undefined).
Proof.
  intros Hinit Hsizes Hready. unfold init in Hinit.
  apply bind_Ret_inv in Hinit as (cs0 & _ & (cs & _ & (m & Hm & H)%bind_Ret_inv)%bind_Ret_inv).
  apply bind_Ret_inv in H as ([q l2] & _ & H). apply bind_Ret_inv in H as ([handler l3] & _ & [= <- <-]).
  apply conf_processor_ok in Hm as (E1 & E2 & _); [|done]. cbn [m_connections m_handler] in *. split.
  - intros E. unfold start, RawDataProcessor.start.
    cbn [m_consumer m_raw_processor_impl m_connections m_handler m_request_handler_impl].
    rewrite E1, E2, Nat.leb_refl. cbn [andb]. outcome.
    destruct (resting_start _ get_iom_sender clock _ (resting_new new_handler_stats) Hready) as (l & -> & _). outcome.
    by rewrite E.
  - intros Emode E. rewrite Emode, E. split; [by left|]. intros h' cy Ec Ew. cbn [event_step]. unfold receive.
    by rewrite Ew, Ec, E.
Qed.
End properties.


(** ** The properties at work: a ring of three places, one postprocessing queue *)
Import Chunk.
#[local] Existing Instance BoundedList.bounded_queue.
#[local] Existing Instance BoundedList.bounded_queue_laws.

Abbreviation pointers := (BoundedList.bounded (option Z)).
Abbreviation sample_handler := (data_handler chunk pointers unit (option work) (option (model_work chunk))).

Definition sample_handler_conf : handler_conf :=
  mkHandlerConf 7 3 half half 4 1 0
    [mkOutput "Fragment" 10 "fragments_7"; mkOutput "TimeSync" 10 "timesync_7"]
    (Some (mkRecorderConf "record.out" 4096 "None" false)) true true 0.

Definition sample_module_conf (inputs : list input_conf) : module_conf :=
  mkModuleConf inputs true 6 "post-" 0 (mkLatencyBufferConf 4 false 0 false 64 false) sample_handler_conf.

Definition request_input : input_conf := mkInput "DataRequest" "requests_7".
Definition data_input : input_conf := mkInput "chunk" "raw_7".

(** The machine whose aligned allocations fail, and what [init] makes. *)
Definition small_platform : platform :=
  mkPlatform true false (fun k _ => match k with Malloc => true | _ => false end).

Definition sample_open : string -> Z -> string -> bool -> outcome unit := fun _ _ _ _ => Ret tt.

Definition sample_init (p : platform) (inputs : list input_conf) : outcome (sample_handler * list issue) :=
  init p 8 false (fun _ => true) sample_formats sample_open (mkSourceID 0 0) [fun x => x] [tt] (sample_module_conf inputs).

Definition sample_module (p : platform) (raw request : option string) (connection : string) : sample_handler :=
  let handler :=
    match RequestHandler.conf sample_formats sample_open (new_settings (mkSourceID 0 0)) sample_handler_conf with
    | Ret (s, _) => s | _ => new_settings (mkSourceID 0 0) end in
  let q := match conf_buffer p 8 false (mkSourceID 1 7) (mkLatencyBufferConf 4 false 0 false 64 false)
                   (new_queue p 8) with
           | Ret (q, _) => q | _ => new_queue p 8 end in
  mkDataHandler (mkConnections false raw connection request true "timesync_7") (mkConsumerConf 0 0 false 0)
    (mkConsumer q
       (mkProcessor [fun x => x] [tt] [BoundedList.mkBounded 5 []] ["post-0"%string] 6 (mkSourceID 1 7)
          false 0 true) (fun _ => 0))
    handler (new_life new_handler_stats) true UINT64_MAX ∅ None None false false.

Definition sample_ready : sample_handler :=
  sample_module sample_platform (Some "raw_7"%string) (Some "requests_7"%string) "raw_7".

Lemma sample_init_ready : sample_init sample_platform [request_input; data_input] = Ret (sample_ready, []).
Proof. reflexivity. Qed.

(** The turns in which the threads end and [stop] goes on. *)
Definition sample_closing : list (event chunk) :=
  [HandlerTurn StopTurn; ConsumerStep; TimesyncStep; TimesyncStep; HandlerTurn CleanupTurn; HandlerTurn StopTurn;
   HandlerTurn StopTurn; HandlerTurn (WaitingTurn 0); HandlerTurn StopTurn; HandlerTurn StopTurn].

(** Two runs: a timeout and two payloads; then four payloads, with a cleanup and a request
    on the way. *)
Definition sample_runs : list (run chunk) :=
  [mkRun (Some 1)
     [ConsumerStep; ConsumerStep; Receive (None, 1); ConsumerStep; Receive (Some [mkChunk 100; mkChunk 120], 2);
      PostTurn 0; PostTurn 0] sample_closing;
   mkRun None
     [ConsumerStep; ConsumerStep; Receive (Some [mkChunk 300; mkChunk 320; mkChunk 340], 1);
      PostTurn 0; PostTurn 0; PostTurn 0; HandlerTurn CleanupTurn; HandlerTurn CleanupTurn;
      Dispatch (mkSourceID 1 7) sample_request; ConsumerStep; Receive (Some [mkChunk 360], 2); PostTurn 0]
     (HandlerTurn (TaskTurn 0 false) :: sample_closing)].

Abbreviation sample_history :=
  (module_runs sample_platform sample_sender sample_clock sample_runs sample_ready).

Lemma sample_sane (inputs : list input_conf) (p : platform) : sane_conf p (mc_latency_buffer (sample_module_conf inputs)).
Proof. split; [by vm_compute|]. split; [by vm_compute|]. by split. Qed.

Lemma sample_made :
  well_made sample_platform 8 false (fun _ => true) sample_formats sample_open (mkSourceID 0 0) [fun x => x] [tt]
    sample_sender (sample_module_conf [request_input; data_input]) sample_ready.
Proof.
  split; [done|]. split; [apply sample_sane|]. split; [by vm_compute|]. split; [done|].
  split; [exact sample_init_ready|]. split; [done|]. split; [|done]. exact (half_leaves_one 3 ltac:(lia)).
Qed.

Lemma sample_runs_possible : Forall possible_run sample_runs.
Proof. repeat constructor; vm_compute; done. Qed.

Lemma sample_keeps_up : all_keep_up sample_platform sample_sender sample_clock sample_runs sample_ready = true.
Proof. by vm_compute. Qed.

Lemma sample_history_returns : exists ss h, sample_history = Some (Ret (ss, h)).
Proof.
  assert (E : match sample_history with Some (Ret _) => true | _ => false end = true) by (by vm_compute).
  destruct sample_history as [[[ss h]| | | |]|]; try done. by exists ss, h.
Qed.


(** The module's base after the runs. *)
Definition sample_base (h : sample_handler) : base chunk pointers unit (option work) (option (model_work chunk)) :=
  mkBase true 1 "dlh-7" (Some h).

Lemma scrap_not_undone_witness :
  exists ss h b1 b2 b3 h3 callbacks, sample_history = Some (Ret (ss, h))
    /\ do_scrap sample_platform 8 false (sample_base h) = Ret b1
    /\ do_conf tt 9%nat b1 ∅ = Ret (b2, callbacks) /\ do_start sample_sender 2 b2 = Ret b3
    /\ m_readout_impl b3 = Some h3 /\ size_ (m_latency_buffer_impl (m_consumer h3)) = 2
    /\ m_recording_configured (m_handler sample_ready) = true
    /\ exists l, do_record b3 = Ret (b3, l) /\ l <> [].
Proof.
  destruct sample_history_returns as (ss & h & E).
  destruct (scrap_not_undone sample_platform 8 false (fun _ => true) sample_formats sample_open (mkSourceID 0 0)
    [fun x => x] [tt] sample_sender sample_clock tt 9%nat ∅ (sample_module_conf [request_input; data_input])
    sample_ready h sample_runs ss (sample_base h) 2 sample_made sample_runs_possible sample_keeps_up E eq_refl)
    as (b1 & b2 & b3 & h3 & callbacks & E1 & E2 & _ & E3 & Eh & _ & Es & _ & _ & Er & El).
  exists ss, h, b1, b2, b3, h3, callbacks. split; [exact E|]. split; [exact E1|]. split; [exact E2|].
  split; [exact E3|]. split; [exact Eh|]. split; [exact Es|]. split; [reflexivity|]. eexists. split; [exact El|done].
Defined.


Definition started : sample_handler :=
  match start sample_sender (Some 1) (with_marker true sample_ready) with Ret h => h | _ => sample_ready end.







Lemma init_bad_alloc_witness :
  let h := sample_module small_platform (Some "raw_7"%string) (Some "requests_7"%string) "raw_7" in
  exists l, sample_init small_platform [request_input; data_input] = Ret (h, l) /\ l <> []
    /\ process_item (LB := binary_search_buffer small_platform) (m_consumer_conf h) (mkChunk 100) (m_consumer h)
       = Undefined.
Proof.
  cbn zeta. eexists. split; [reflexivity|].
  destruct (init_bad_alloc small_platform 8 false (fun _ => true) sample_formats sample_open (mkSourceID 0 0)
    [fun x => x] [tt] (sample_module_conf [request_input; data_input])
    _ _ (mkChunk 100)
    eq_refl (sample_sane _ _) eq_refl eq_refl) as (_ & E & _).
  split; [done|exact E].
Defined.

(** Only one of the two connections. *)
Definition deaf_module : sample_handler := sample_module sample_platform (Some "raw_7"%string) None "raw_7".
Definition blind_module : sample_handler := sample_module sample_platform None (Some "requests_7"%string) "".

Lemma missing_receivers_witness :
  let h := with_threads (Some (ConsumeBody (mkCycle true 0 (mkChunk 0)))) None blind_module in
  sample_init sample_platform [data_input] = Ret (deaf_module, []) /\ start sample_sender (Some 1) deaf_module = Undefined
  /\ exists l, sample_init sample_platform [request_input] = Ret (blind_module, l)
       /\ event_step sample_platform sample_sender sample_clock (Receive (None, 0)) h = Some Undefined.
Proof.
  cbn zeta. split; [reflexivity|]. split.
  - refine (proj1 (missing_receivers sample_platform 8 false (fun _ => true) sample_formats sample_open (mkSourceID 0 0)
      [fun x => x] [tt] sample_sender sample_clock (sample_module_conf [data_input])
      deaf_module [] (Some 1) (None, 0) eq_refl _ eq_refl) eq_refl). by vm_compute.
  - eexists. split; [reflexivity|].
    refine (proj2 (proj2 (missing_receivers sample_platform 8 false (fun _ => true) sample_formats sample_open (mkSourceID 0 0)
      [fun x => x] [tt] sample_sender sample_clock (sample_module_conf [request_input])
      blind_module _ (Some 1) (None, 0)
      eq_refl _ eq_refl) eq_refl eq_refl)
      (with_threads (Some (ConsumeBody (mkCycle true 0 (mkChunk 0)))) None blind_module)
      (mkCycle true 0 (mkChunk 0)) eq_refl eq_refl). by vm_compute.
Defined.
