(* ===== verification/ZeroCopy.v ===== *)
(** models/ZeroCopyRecordingRequestHandlerModel.hpp and its .hxx: a recording that
    writes the memory of the ring to a file, without going through elements. *)
From S2P Require Import Prelude IterableQueue BinarySearchQueue ReadoutTypes LatencyBuffer.
From S2P Require Import FrameErrorRegistry Float32 RequestHandler Recording BufferCopy FileIO.

Section zero_copy.
Context {T F : Type} `{RT : ReadoutType T} `{PF : Posix F}.
Context (p : platform).
#[local] Hint Extern 0 (LatencyBuffer _ (queue T) _) => exact (binary_search_buffer p) : typeclass_instances.

(** sizeof(ReadoutType) and ReadoutType::fixed_payload_size, the bytes of an
    element, and those of a slot that holds none. *)
Context (sizeof_T fixed_payload_size : Z) (bytes_of : T -> list byte) (raw_bytes : list byte).

(** *** Configuration *)
Context (f : formats) (open_writer : string -> Z -> string -> bool -> outcome unit).

(** daqdataformats::SourceID::to_string. *)
Context (to_string : SourceID -> string).

Definition with_recording (s : settings) (sourceid : SourceID) (file : string) (size : Z) : settings :=
  mkSettings sourceid (m_detid s) (m_pop_limit_pct s) (m_pop_size_pct s) (m_pop_limit_size s)
    (m_max_requested_elements s) (m_buffer_capacity s) (m_num_request_handling_threads s)
    (m_request_timeout_ms s) (m_fragment_send_timeout_ms s) (m_frag_out_conn_ids s) true file size
    (m_warn_on_timeout s) (m_warn_about_empty_buffer s) (m_periodic_data_transmission_ms s).

(** The settings, the descriptor, whether [m_oflag] has O_DIRECT, and the issues. *)
Definition conf (s : settings) (m_fd : Z) (m_direct : bool) (cfg : handler_conf) (q : queue T) (fs : F)
    : outcome (settings * Z * bool * F * list issue) :=
  '(s, m_fd, m_direct, fs, l) ←
    match get_data_recorder cfg with
    | Some dr =>
        if negb (String.eqb (get_output_file dr) EmptyString) then
          let sourceid := mkSourceID (rdt_subsystem f) (get_source_id cfg) in
          let l1 := if (alignment_size_ q =? 0) || negb (u64 (sizeof_T * size_ q) mod 4096 =? 0)
                    then [ConfigurationError sourceid "Latency buffer is not 4kB aligned"] else [] in
          let stream_buffer_size := get_streaming_buffer_size dr in
          let l2 := if negb (stream_buffer_size mod 4096 =? 0)
                    then [ConfigurationError sourceid "Streaming chunk size is not divisible by 4kB!"]
                    else [] in
          let file_full_path := (get_output_file dr ++ to_string sourceid ++ ".bin")%string in
          let '(_, fs) := fs_remove file_full_path fs in
          match fs_open_write file_full_path (get_use_o_direct dr) fs with
          | (None, _) => Throw (IssueExn (ConfigurationError sourceid "Failed to open file!"))
          | (Some fd, fs) =>
              Ret (with_recording s sourceid file_full_path stream_buffer_size, fd,
                   get_use_o_direct dr, fs, l1 ++ l2)
          end
        else Ret (s, m_fd, m_direct, fs, [])
    | None => Ret (s, m_fd, m_direct, fs, [])
    end;
  '(s, l') ← RequestHandler.conf f open_writer s cfg;
  Ret (s, m_fd, m_direct, fs, l ++ l').

(** *** The record command: the duration of the recording it starts, and the issues *)
Definition record (cfg : settings) (m_recording : bool) (duration : option Z) : option Z * list issue :=
  if m_recording then
    (None, [CommandError (m_sourceid cfg) "A recording is still running, no new recording was started!"])
  else
    let recording_time_sec := default 0 duration in
    let missing := match duration with
                   | Some _ => []
                   | None => [CommandError (m_sourceid cfg)
                                "A recording command with missing duration field received!"]
                   end in
    if recording_time_sec =? 0 then
      (None, missing ++ [CommandError (m_sourceid cfg)
         "Recording for 0 seconds requested. Recording command is ignored!"])
    else (Some recording_time_sec, missing).

(** *** The recording thread

    Pointers are offsets in bytes from [start_of_buffer_pointer], whose address is
    [start_address]; [chunk_size] is the stream buffer's. *)
Context (start_address chunk_size m_fd : Z) (m_direct : bool).

(** Where the thread is: at the head of the outer loop, or in the inner loop with
    [current_end_pointer] and [considered_chunks_in_loop]. *)
Inductive place := Head | Inner (current_end_pointer considered : Z).

Record zthread := mkZthread {
  at_place : place;
  m_next_timestamp_to_record : Z;
  current_write_pointer : option Z;
  bytes_written : Z;
  failed_writes : Z }.

(** The start of the thread. *)
Definition start_thread : zthread := mkZthread Head 0 None 0 0.

(** The bytes of the ring's block. *)
Definition memory (q : queue T) : list byte :=
  match records_ q with
  | Block _ l => concat ((fun s => match s with Some x => bytes_of x | None => raw_bytes end) <$> l)
  | _ => []
  end.

Definition end_of_buffer (q : queue T) : Z := size_ q * sizeof_T.

(** [::write]: the number of bytes, or -1. *)
Definition sys_write (from n : Z) (q : queue T) (fs : F) : outcome (Z * F) :=
  if (0 <=? from) && (0 <=? n) && (from + n <=? Z.of_nat (length (memory q))) then
    let '(ok, fs) := fs_write m_fd (take (Z.to_nat n) (drop (Z.to_nat from) (memory q))) fs in
    Ret (if ok : bool then n else -1, fs)
  else Undefined.

(** [latency_buffer->back()]; the null pointer is the address 0. *)
Definition end_pointer (q : queue T) : Z :=
  match back q with Some i => i * sizeof_T | None => - start_address end.

(** The loop that skips elements up to an aligned one.  At the end of the buffer
    its [continue] goes on with the loop, which then dereferences [end()]. *)
Fixpoint skip_loop (fuel : nat) (q : queue T) (begin : Z) : outcome Z :=
  if (alignment_size_ q =? 0) || negb (begin <? size_ q) then Undefined
  else if (start_address + begin * sizeof_T) mod alignment_size_ q =? 0 then Ret begin
  else match fuel with
  | O => OutOfFuel
  | S fuel => skip_loop fuel q (iter_next q begin)
  end.

(** The head of the outer loop; [m_cleanup_requested] as it reads it. *)
Definition turn_start (m_cleanup_requested : bool) (q : queue T) (t : zthread) : outcome zthread :=
  if negb m_cleanup_requested || (m_next_timestamp_to_record t =? 0) then
    if m_next_timestamp_to_record t =? 0 then
      let begin := iter_begin q in
      if begin =? iter_end then Ret t
      else
        x ← iter_deref q begin;
        i ← skip_loop (S (Z.to_nat (size_ q))) q begin;
        Ret (mkZthread (Inner (end_pointer q) 0) (get_timestamp x) (Some (i * sizeof_T))
               (bytes_written t) (failed_writes t))
    else Ret (mkZthread (Inner (end_pointer q) 0) (m_next_timestamp_to_record t)
                (current_write_pointer t) (bytes_written t) (failed_writes t))
  else Ret t.

(** Writing [n] bytes at the write pointer; a write has failed when it gives 0. *)
Definition write_part (from n : Z) (q : queue T) (bytes : Z) (fs : F) : outcome (bool * Z * F) :=
  '(r, fs) ← sys_write from n q fs;
  let failed_write := r =? 0 in
  Ret (failed_write, if failed_write then bytes else u64 (bytes + n), fs).

(** The frame an offset lies in. *)
Definition frame_start (from : Z) : Z := Z.quot from fixed_payload_size * fixed_payload_size.

(** The element at an offset. *)
Definition element_at (q : queue T) (from : Z) : outcome T :=
  if from mod sizeof_T =? 0 then slot_read (records_ q) (from / sizeof_T) else Undefined.

(** What one turn of the inner loop writes: whether that failed, the bytes
    written, and the new write pointer. *)
Definition write_next (q : queue T) (e current bytes : Z) (fs : F) : outcome (bool * Z * Z * F) :=
  if current + chunk_size <? e then
    '(failed_write, bytes, fs) ← write_part current chunk_size q bytes fs;
    Ret (failed_write, bytes, current + chunk_size, fs)
  else if e <? current then
    if current + chunk_size <? end_of_buffer q then
      '(failed_write, bytes, fs) ← write_part current chunk_size q bytes fs;
      Ret (failed_write, bytes, current + chunk_size, fs)
    else
      '(failed_write, bytes, fs) ←
        write_part current (end_of_buffer q - current) q bytes (fs_fcntl m_fd false fs);
      Ret (failed_write, bytes, 0, fs_fcntl m_fd m_direct fs)
  else Ret (false, bytes, current, fs).

(** One turn of the inner loop, or its end. *)
Definition chunk_step (q : queue T) (e considered : Z) (t : zthread) (fs : F) : outcome (zthread * F) :=
  if considered <? 100 then
    current ← deref (current_write_pointer t);
    if alignment_size_ q =? 0 then Undefined else
    '(failed_write, bytes, current, fs) ← write_next q e current (bytes_written t) fs;
    let current := if current =? end_of_buffer q then 0 else current in
    x ← element_at q (frame_start current);
    Ret (mkZthread (Inner e (considered + 1)) (get_timestamp x) (Some current) bytes
           (if failed_write : bool then u64 (failed_writes t + 1) else failed_writes t), fs)
  else Ret (mkZthread Head (m_next_timestamp_to_record t) (current_write_pointer t)
              (bytes_written t) (failed_writes t), fs).

(** One step of the thread, while time is left. *)
Definition thread_step (m_cleanup_requested : bool) (q : queue T) (t : zthread) (fs : F)
    : outcome (zthread * F) :=
  match at_place t with
  | Head => t ← turn_start m_cleanup_requested q t; Ret (t, fs)
  | Inner e considered => chunk_step q e considered t fs
  end.

(** After the loop: the rest of the last frame started. *)
Definition finish (q : queue T) (t : zthread) (fs : F) : outcome (zthread * F) :=
  '(bytes, fs) ←
    match current_write_pointer t with
    | None => Ret (bytes_written t, fs)
    | Some current =>
        let last_started_frame := frame_start current in
        if negb (last_started_frame =? current) then
          let fs := fs_fcntl m_fd false fs in
          '(_, bytes, fs) ←
            write_part current (last_started_frame + fixed_payload_size - current) q (bytes_written t) fs;
          Ret (bytes, fs)
        else Ret (bytes_written t, fs)
    end;
  Ret (mkZthread (at_place t) UINT64_MAX (current_write_pointer t) bytes (failed_writes t),
       fs_close m_fd fs).

(** *** A recording beside the consumer and the cleanup

    [zstored] is the history: what the buffer held at the start of the recording
    and every element it took since. *)
Context (cfg : settings).

Record zscene := mkZscene {
  zbuffer : queue T;
  zerrors : registry;
  zstats : stats;
  zrec : zthread;
  zfs : F;
  zstored : list T }.

Inductive zevent := ZStore (x : T) | ZClean | ZStep (m_cleanup_requested : bool).

Definition zscene_step (sc : zscene) (e : zevent) : outcome zscene :=
  match e with
  | ZStore x =>
      '(ok, q) ← lb_write x (zbuffer sc);
      Ret (mkZscene q (zerrors sc) (zstats sc) (zrec sc) (zfs sc)
             (if ok : bool then zstored sc ++ [x] else zstored sc))
  | ZClean =>
      '(q, errors, s) ← cleanup cfg (m_next_timestamp_to_record (zrec sc)) (zbuffer sc) (zerrors sc)
                          (zstats sc);
      Ret (mkZscene q errors s (zrec sc) (zfs sc) (zstored sc))
  | ZStep requested =>
      '(t, fs) ← thread_step requested (zbuffer sc) (zrec sc) (zfs sc);
      Ret (mkZscene (zbuffer sc) (zerrors sc) (zstats sc) t fs (zstored sc))
  end.

Fixpoint zscene_run (es : list zevent) (sc : zscene) : outcome zscene :=
  match es with
  | [] => Ret sc
  | e :: es => sc ← zscene_step sc e; zscene_run es sc
  end.

(** The payloads offered to the buffer. *)
Definition zoffered (es : list zevent) : list T :=
  omap (fun e => match e with ZStore x => Some x | _ => None end) es.

Definition first_zscene (q : queue T) (c : list T) (m : registry) (s : stats) (fs : F) : zscene :=
  mkZscene q m s start_thread fs c.
End zero_copy.
Arguments zscene : clear implicits.
Arguments zevent : clear implicits.

(** ** Lemmas *)

(** *** Blocks of equal length *)
Section blocks.
Context {A : Type} (s : nat).
Implicit Types (ls : list (list A)).

Lemma concat_blocks_length ls : Forall (fun l => length l = s) ls -> length (concat ls) = (length ls * s)%nat.
Proof. induction 1 as [|l ls Hl _ IH]; [done|]. cbn. rewrite length_app, IH, Hl. done. Qed.

Lemma concat_blocks_lookup ls (i o : nat) : Forall (fun l => length l = s) ls -> (o < s)%nat ->
  concat ls !! (i * s + o)%nat = ls !! i ≫= (fun l => l !! o).
Proof.
  intros Hls Ho. revert i. induction Hls as [|l ls Hl Hls IH]; intros i; [done|]. cbn [concat].
  destruct i as [|i]; cbn.
  - by rewrite lookup_app_l by lia.
  - rewrite lookup_app_r by lia. replace (s + i * s + o - length l)%nat with (i * s + o)%nat by lia. apply IH.
Qed.

Lemma concat_blocks_drop ls (i : nat) : Forall (fun l => length l = s) ls ->
  drop (i * s) (concat ls) = concat (drop i ls).
Proof.
  intros Hls. revert i. induction Hls as [|l ls Hl Hls IH]; intros i; [cbn; by rewrite !drop_nil|].
  destruct i as [|i]; [done|]. cbn. rewrite drop_app_ge by lia.
  replace (s + i * s - length l)%nat with (i * s)%nat by lia. apply IH.
Qed.

Lemma concat_blocks_take ls (i : nat) : Forall (fun l => length l = s) ls ->
  take (i * s) (concat ls) = concat (take i ls).
Proof.
  intros Hls. revert i. induction Hls as [|l ls Hl Hls IH]; intros i; [cbn; by rewrite !take_nil|].
  destruct i as [|i]; [done|]. cbn. rewrite take_app_ge by lia.
  replace (s + i * s - length l)%nat with (i * s)%nat by lia. by rewrite IH.
Qed.

(** A position in the blocks, and where it lies in a ring of [n] of them. *)
Lemma mod_blocks (n r i o : nat) : (o < s)%nat -> (0 < n)%nat ->
  ((r * s + (i * s + o)) mod (n * s) = ((r + i) mod n) * s + o)%nat.
Proof.
  intros Ho Hn. replace (r * s + (i * s + o))%nat with ((r + i) * s + o)%nat by lia.
  rewrite (Nat.div_mod_eq (r + i) n) at 1. set (m := ((r + i) mod n)%nat).
  assert (m < n)%nat by (apply Nat.mod_upper_bound; lia).
  replace ((n * ((r + i) / n) + m) * s + o)%nat with (m * s + o + ((r + i) / n) * (n * s))%nat by lia.
  rewrite Nat.Div0.mod_add, Nat.mod_small; [done|]. nia.
Qed.

(** Within one round of the ring. *)
Lemma mod_step (b a d : nat) : (a mod b + d < b)%nat -> ((a + d) mod b = a mod b + d)%nat.
Proof.
  intros Hd. rewrite (Nat.div_mod_eq a b) at 1.
  replace (b * (a / b) + a mod b + d)%nat with (a mod b + d + (a / b) * b)%nat by lia.
  by rewrite Nat.Div0.mod_add, Nat.mod_small.
Qed.

Lemma mod_end (b a d : nat) : (0 < b)%nat -> (a mod b + d = b)%nat -> ((a + d) mod b = 0)%nat.
Proof.
  intros Hb Hd. rewrite (Nat.div_mod_eq a b) at 1.
  replace (b * (a / b) + a mod b + d)%nat with (0 + (a / b + 1) * b)%nat by lia.
  rewrite Nat.Div0.mod_add. by apply Nat.mod_small.
Qed.

Lemma mod_wrapped (b a d : nat) : (d < b)%nat -> (b <= a mod b + d)%nat -> ((a + d) mod b = a mod b + d - b)%nat.
Proof.
  intros Hd Hb. rewrite (Nat.div_mod_eq a b) at 1.
  replace (b * (a / b) + a mod b + d)%nat with (a mod b + d - b + (a / b + 1) * b)%nat by lia.
  rewrite Nat.Div0.mod_add. apply Nat.mod_small.
  pose proof (Nat.mod_upper_bound a b ltac:(lia)). lia.
Qed.
End blocks.

(** *** The ring as a window on the history

    [located n a q c i]: the ring of [n] slots, whose addresses are multiples of
    [a] where they are aligned, holds [c], whose first element is the [i]-th of all
    that went through. *)
Section window.
Context {T : Type} `{RT : ReadoutType T} `{!ReadoutLaws T} `{!TimestampOrder T} (p : platform) (n : nat) (a : Z).
Implicit Types (q : queue T) (c : list T).
#[local] Hint Extern 0 (LatencyBuffer _ (queue T) _) => exact (binary_search_buffer p) : typeclass_instances.
#[local] Hint Extern 0 (LatencyBufferLaws _ (queue T) _) => exact (binary_search_laws p) : typeclass_instances.
#[local] Hint Extern 0 (FifoLaws _ (queue T) _) => exact (queue_fifo p _ _ _ _) : typeclass_instances.

Definition located q c (i : nat) : Prop :=
  repr q c /\ size_ q = Z.of_nat n /\ readIndex_ q = Z.of_nat (i mod n) /\ alignment_size_ q = a.

Lemma located_model q c i : located q c i -> lb_model q c.
Proof. by intros []. Qed.

Lemma wrap_mod (i d : nat) : (d < n)%nat -> wrap n (i mod n + d) = ((i + d) mod n)%nat.
Proof.
  intros Hd. pose proof (Nat.mod_upper_bound i n ltac:(lia)). unfold wrap. case_decide.
  - by rewrite mod_step.
  - by rewrite mod_wrapped by lia.
Qed.

Lemma located_length q c i : located q c i -> (length c < n)%nat /\ (2 <= n)%nat /\ Z.of_nat n <= INT_MAX.
Proof.
  intros (Hq & Hs & _). pose proof (repr_length q c Hq). destruct Hq as (k & l & r & []). lia.
Qed.

Lemma write_keeps q x ok q' : IterableQueue.write q x = Ret (ok, q') ->
  readIndex_ q' = readIndex_ q /\ alignment_size_ q' = alignment_size_ q.
Proof.
  unfold IterableQueue.write. destruct (negb _); [|by intros [= _ <-]].
  by intros (s & _ & [= _ <-])%bind_Ret_inv.
Qed.

Lemma located_write q c i x :
  located q c i -> exists ok q', lb_write x q = Ret (ok, q')
    /\ located q' (if ok : bool then c ++ [x] else c) i.
Proof.
  intros (Hq & Hs & Hr & Ha). change (lb_write x q) with (IterableQueue.write q x).
  pose proof (lb_write_spec q c x Hq) as Hw. change (lb_write x q) with (IterableQueue.write q x) in Hw.
  assert (Hsize : forall ok q', IterableQueue.write q x = Ret (ok, q') -> size_ q' = size_ q).
  { intros ok q' H%write_shape. unfold shape in H. congruence. }
  case_decide; destruct Hw as (q' & E & Hq' & _); rewrite E; do 2 eexists; (split; [done|]);
    destruct (write_keeps _ _ _ _ E) as [Er Ea]; split_and!; try done;
    rewrite ?(Hsize _ _ E), ?Er, ?Ea; done.
Qed.

Lemma located_pop q x c i q' : located q (x :: c) i -> lb_pop 1 q = Ret q' -> located q' c (S i).
Proof.
  intros Hq Hpop. pose proof (located_length _ _ _ Hq) as (Hlen & Hn & Hmax). destruct Hq as (Hq & Hs & Hr & Ha).
  destruct (popFront_cons p q c x Hq) as (q1 & E & Hq1 & Hs1 & _).
  change (lb_pop 1 q) with (IterableQueue.pop_loop p 1 q) in Hpop. cbn [IterableQueue.pop_loop] in Hpop.
  rewrite E in Hpop. injection Hpop as ->.
  unfold popFront in E. apply bind_Ret_inv in E as (u & _ & E).
  apply bind_Ret_inv in E as (recs & _ & [= <-]).
  split_and!; [exact Hq1|by rewrite Hs1|cbn [readIndex_ with_readIndex]|exact Ha].
  rewrite Hs, Hr, next_record_wrap by (try lia; apply Nat.mod_upper_bound; lia).
  rewrite wrap_mod by lia. do 2 f_equal. lia.
Qed.

Lemma located_slot q c i (k : nat) x :
  located q c i -> c !! k = Some x -> slot_read (records_ q) (Z.of_nat ((i + k) mod n)) = Ret x.
Proof.
  intros Hq Hx. pose proof (located_length _ _ _ Hq) as (Hlen & _). pose proof (lookup_lt_Some _ _ _ Hx).
  destruct Hq as ((kind & l & r & [Hrec Hsz _ Hrd Hlt Hroom _ Hring]) & Hs & Hr & _).
  assert (E : length l = n) by lia. assert (Er : r = (i mod n)%nat) by lia. subst r. rewrite E in *.
  rewrite Hrec. apply slot_read_Block. rewrite <- wrap_mod by lia. rewrite <- E.
  eapply ring_lookup; [by rewrite E|lia|done].
Qed.

Lemma located_slots q c i : located q c i -> exists kind l, records_ q = Block kind l /\ length l = n
  /\ forall (k : nat) x, c !! k = Some x -> l !! ((i + k) mod n)%nat = Some (Some x).
Proof.
  intros Hq. pose proof (located_length _ _ _ Hq) as (Hlen & _).
  destruct Hq as ((kind & l & r & [Hrec Hsz _ Hrd Hlt Hroom _ Hring]) & Hs & Hr & _).
  assert (E : length l = n) by lia. assert (Er : r = (i mod n)%nat) by lia. subst r.
  exists kind, l. split; [done|]. split; [done|]. intros k x Hx. pose proof (lookup_lt_Some _ _ _ Hx).
  rewrite <- wrap_mod, <- E by lia. eapply ring_lookup; [rewrite E in *; exact Hring|lia|done].
Qed.

Lemma located_begin q c i : located q c i -> c <> [] ->
  iter_begin q = Z.of_nat (i mod n) /\ iter_begin q <> iter_end.
Proof.
  intros Hq Hne. pose proof (located_length _ _ _ Hq) as (_ & Hn & Hmax).
  destruct Hq as (Hq & Hs & Hr & _). pose proof (isEmpty_repr q c Hq) as He.
  unfold isEmpty in He. unfold iter_begin. rewrite He, bool_decide_false by done. split; [done|].
  rewrite Hr. pose proof (Nat.mod_upper_bound i n ltac:(lia)). unfold iter_end, INT_MAX, UINT32_MAX in *. lia.
Qed.

Lemma located_next q c i (k : nat) : located q c i -> (S k < length c)%nat ->
  iter_next q (Z.of_nat ((i + k) mod n)) = Z.of_nat ((i + S k) mod n).
Proof.
  intros Hq Hk. pose proof (located_length _ _ _ Hq) as (Hlen & _).
  destruct Hq as ((kind & l & r & H) & Hs & Hr & _). pose proof H as [Hrec Hsz _ Hrd _ _ _ _].
  assert (E : length l = n) by lia. assert (Er : r = (i mod n)%nat) by lia.
  rewrite <- !wrap_mod by lia. rewrite <- Er, <- E.
  rewrite (iter_next_at q c kind l r k H) by lia. by rewrite decide_True by lia.
Qed.

Lemma located_back q c i : located q c i -> c <> [] ->
  back q = Some (Z.of_nat ((i + pred (length c)) mod n)).
Proof.
  intros Hq Hne. pose proof (located_length _ _ _ Hq) as (Hlen & Hn & Hmax).
  assert (Hpos : (0 < length c)%nat) by (destruct c; [done|cbn; lia]).
  destruct Hq as ((kind & l & r & [_ Hsz _ Hrd Hlt _ Hwr _]) & Hs & Hr & _).
  assert (E : length l = n) by lia. assert (Er : r = (i mod n)%nat) by lia.
  unfold back. rewrite <- wrap_mod, <- Er by lia. rewrite E in *. rewrite Hwr, Hrd, Hs. unfold INT_MAX in *.
  destruct (Z.eqb_spec (Z.of_nat (wrap n (r + length c))) (Z.of_nat r)); [wrap_lia|].
  pose proof (wrap_lt n (r + length c) ltac:(lia)). machine. f_equal.
  destruct (Z.eqb_spec (Z.of_nat (wrap n (r + length c))) 0); wrap_lia.
Qed.

(** A cleanup only moves the window on, over elements that are not to be recorded. *)
Lemma pop_loop_located next (k : nat) popped q c i (res : Z) q' :
  located q c i -> RequestHandler.pop_loop next k popped q = Ret (res, q') ->
  exists m, located q' (drop m c) (i + m) /\ (m <= length c)%nat
    /\ Forall (fun x => get_timestamp x < next) (take m c).
Proof.
  revert popped q c i. induction k as [|k IH]; intros popped q c i Hq; cbn [RequestHandler.pop_loop].
  { intros [= _ <-]. exists 0%nat. rewrite Nat.add_0_r. split; [done|]. split; [lia|done]. }
  destruct Hq as (Hr & Hq). change (lb_front q) with (deref_slot q (front q)). rewrite (front_repr q c Hr).
  outcome. destruct c as [|x c]; [done|]. cbn [head deref]. outcome.
  destruct (Z.ltb_spec (get_timestamp x) next) as [Hx|_].
  2:{ intros [= _ <-]. exists 0%nat. rewrite Nat.add_0_r. split; [by split|]. split; [lia|done]. }
  intros (q1 & Hpop & H)%bind_Ret_inv. apply (located_pop q x c i q1) in Hpop; [|by split].
  destruct (IH _ _ _ _ Hpop H) as (m & Hm & Hle & Hall).
  exists (S m). rewrite Nat.add_succ_r. split; [done|]. split; [cbn; lia|]. by constructor.
Qed.

Lemma cleanup_located (cfg : settings) next q c i errors (st : stats) :
  located q c i -> leaves_one cfg n -> c <> [] ->
  exists q' errors' st' m, cleanup cfg next q errors st = Ret (q', errors', st')
    /\ located q' (drop m c) (i + m) /\ (m < length c)%nat
    /\ Forall (fun x => get_timestamp x < next) (take m c).
Proof.
  intros Hq Hshare Hne. pose proof (located_length _ _ _ Hq) as (Hlen & _).
  assert (Hpos : (0 < length c)%nat) by (destruct c; [done|cbn; lia]).
  destruct (Hshare (length c)) as (k & Ek & Hk); [lia|].
  destruct (cleanup_drops cfg next q c errors st k (located_model q c i Hq) Ek Hk)
    as (q' & errors' & st' & m & E & Hm & Hlt & Hall).
  assert (Hloc : exists m', located q' (drop m' c) (i + m') /\ (m' <= length c)%nat
      /\ Forall (fun x => get_timestamp x < next) (take m' c)).
  { unfold cleanup in E. apply bind_Ret_inv in E as ([[q1 e1] s1] & E & [= -> _ _]).
    destruct (_ <? _).
    - apply bind_Ret_inv in E as (to_pop & _ & E). apply bind_Ret_inv in E as ([res q2] & Ep & E).
      apply bind_Ret_inv in E as (front & _ & E). apply bind_Ret_inv in E as (x & _ & [= -> _ _]).
      by eapply pop_loop_located.
    - injection E as -> _ _. exists 0%nat. rewrite Nat.add_0_r. split; [done|]. split; [lia|done]. }
  destruct Hloc as (m' & Hloc & Hle & Hall').
  assert (Emm : length (drop m c) = length (drop m' c)).
  { pose proof (lb_occupancy_spec q' _ Hm) as E1. pose proof (lb_occupancy_spec q' _ (located_model _ _ _ Hloc)) as E2.
    rewrite E1 in E2. lia. }
  rewrite !length_drop in Emm. exists q', errors', st', m'. split; [done|]. split; [done|]. split; [lia|done].
Qed.
End window.

(** *** The thread *)
Section thread_lemmas.
Context {T F : Type} `{RT : ReadoutType T} `{!ReadoutLaws T} `{!TimestampOrder T} `{PL : PosixLaws F}.
Context (p : platform) (n s chunk block r0 : nat) (a start_address m_fd : Z) (m_direct : bool).
Context (bytes_of : T -> list byte) (raw_bytes : list byte) (name : string).
Context (Hs : (0 < s)%nat) (Hbytes : forall x, length (bytes_of x) = s) (Hraw : length raw_bytes = s).
Context (Hrel : reliable (F:=F) block).
Implicit Types (q : queue T) (c st : list T) (P : nat).

(** The bytes of a history, and where the byte [P] of it lies in the block. *)
Definition history st : list byte := concat (bytes_of <$> st).
Definition address P : nat := ((r0 * s + P) mod (n * s))%nat.

Lemma history_blocks st : Forall (fun l => length l = s) (bytes_of <$> st).
Proof. apply Forall_fmap, Forall_true. apply Hbytes. Qed.

Lemma history_length st : length (history st) = (length st * s)%nat.
Proof. unfold history. by rewrite (concat_blocks_length s), length_fmap by apply history_blocks. Qed.

Lemma history_app st c : history (st ++ c) = history st ++ history c.
Proof. unfold history. by rewrite fmap_app, concat_app. Qed.

Lemma address_split (i o : nat) : (o < s)%nat -> (0 < n)%nat -> address (i * s + o) = (((r0 + i) mod n) * s + o)%nat.
Proof. intros Ho Hn. by apply mod_blocks. Qed.

Lemma address_start (i : nat) : (0 < n)%nat -> address (i * s) = (((r0 + i) mod n) * s)%nat.
Proof. intros Hn. pose proof (address_split i 0 Hs Hn) as E. by rewrite !Nat.add_0_r in E. Qed.

Lemma memory_blocks (l : list (option T)) :
  Forall (fun l => length l = s)
    ((fun o => match o with Some x => bytes_of x | None => raw_bytes end) <$> l).
Proof. apply Forall_fmap, Forall_true. intros [x|]; [apply Hbytes|apply Hraw]. Qed.

(** A stretch of the block that does not cross its end is a stretch of the history. *)
Lemma memory_history q st (j P m : nat) :
  located n a q (drop j st) (r0 + j) -> (j * s <= P)%nat -> (P + m <= length st * s)%nat ->
  (address P + m <= n * s)%nat ->
  length (memory bytes_of raw_bytes q) = (n * s)%nat
  /\ take m (drop (address P) (memory bytes_of raw_bytes q)) = take m (drop P (history st)).
Proof.
  intros Hq HP Hm Hend. pose proof (located_length _ _ _ _ _ Hq) as (_ & Hn & _).
  destruct (located_slots _ _ _ _ _ Hq) as (k & l & Hrec & Hl & Hslots).
  unfold memory. rewrite Hrec. split.
  { by rewrite (concat_blocks_length s), length_fmap, Hl by apply memory_blocks. }
  apply list_eq. intros t. destruct (decide (t < m)%nat) as [Ht|Ht].
  2:{ rewrite !lookup_ge_None_2; [done|rewrite length_take; lia..]. }
  rewrite !lookup_take_lt, !lookup_drop by done.
  assert (E : (address P + t)%nat = address (P + t)).
  { unfold address. rewrite <- mod_step; [f_equal; lia|]. fold (address P). lia. }
  rewrite E. pose proof (Nat.div_mod_eq (P + t) s) as Ediv.
  set (i := ((P + t) / s)%nat) in *. set (o := ((P + t) mod s)%nat) in *.
  assert (Ho : (o < s)%nat) by (apply Nat.mod_upper_bound; lia).
  replace (P + t)%nat with (i * s + o)%nat by lia.
  rewrite address_split by lia. unfold history.
  rewrite (concat_blocks_lookup s) by (done || apply memory_blocks).
  rewrite (concat_blocks_lookup s) by (done || apply history_blocks).
  assert (Hi : (j <= i < length st)%nat) by nia.
  destruct (lookup_lt_is_Some_2 st i ltac:(lia)) as [x Hx].
  rewrite !list_lookup_fmap, Hx.
  assert (Hx' : drop j st !! (i - j)%nat = Some x) by (rewrite lookup_drop, <- Hx; f_equal; lia).
  specialize (Hslots _ _ Hx'). replace (r0 + j + (i - j))%nat with (r0 + i)%nat in Hslots by lia.
  by rewrite Hslots.
Qed.

(** The element whose bytes lie at a position. *)
Lemma element_history q st (j P : nat) x :
  located n a q (drop j st) (r0 + j) -> (j * s <= P)%nat -> st !! (P / s)%nat = Some x ->
  element_at (Z.of_nat s) q (frame_start (Z.of_nat s) (Z.of_nat (address P))) = Ret x.
Proof.
  intros Hq HP Hx. pose proof (located_length _ _ _ _ _ Hq) as (_ & Hn & _).
  pose proof (Nat.div_mod_eq P s) as Ediv. set (i := (P / s)%nat) in *.
  assert (Ho : (P mod s < s)%nat) by (apply Nat.mod_upper_bound; lia).
  assert (E : address P = (((r0 + i) mod n) * s + P mod s)%nat).
  { rewrite Ediv at 1. replace (s * i + P mod s)%nat with (i * s + P mod s)%nat by lia.
    apply address_split; lia. }
  unfold frame_start. rewrite E, Z.quot_div_nonneg by lia.
  rewrite <- Nat2Z.inj_div, Nat.div_add_l, Nat.div_small, Nat.add_0_r by lia.
  unfold element_at. rewrite Z.mod_mul, Z.div_mul by lia. cbn [Z.eqb].
  assert (Hj : (j <= i)%nat) by nia.
  assert (Hx' : drop j st !! (i - j)%nat = Some x) by (rewrite lookup_drop, <- Hx; f_equal; lia).
  apply (located_slot _ _ _ _ _ _ _ Hq) in Hx'. by replace (r0 + j + (i - j))%nat with (r0 + i)%nat in Hx' by lia.
Qed.

(** The descriptor is at the end of the file, which holds [l]. *)
Definition recorded_file (direct : bool) (l : list byte) (fs : F) : Prop :=
  fs_fd fs m_fd name (length l) direct /\ fs_contents fs name = Some l.

Lemma fcntl_recorded direct direct' l fs :
  recorded_file direct l fs -> recorded_file direct' l (fs_fcntl m_fd direct' fs).
Proof. intros [Hfd Hc]. destruct (fs_fcntl_spec fs m_fd name _ direct direct' Hfd) as [H1 H2]. split; [done|congruence]. Qed.

Lemma overwrite_end (l bytes : list byte) : overwrite (length l) bytes l = l ++ bytes.
Proof. unfold overwrite. by rewrite firstn_all, drop_ge, app_nil_r by lia. Qed.

(** A write of a stretch of the history. *)
Lemma write_part_history q st (j P m : nat) direct l fs bytes :
  located n a q (drop j st) (r0 + j) -> (j * s <= P)%nat -> (P + m <= length st * s)%nat ->
  (address P + m <= n * s)%nat -> (0 < m)%nat ->
  recorded_file direct l fs ->
  (direct = true -> Nat.divide block (length l) /\ Nat.divide block m) ->
  0 <= bytes -> bytes + Z.of_nat m <= UINT64_MAX ->
  exists fs', write_part bytes_of raw_bytes m_fd (Z.of_nat (address P)) (Z.of_nat m) q bytes fs
      = Ret (false, bytes + Z.of_nat m, fs')
    /\ recorded_file direct (l ++ take m (drop P (history st))) fs'.
Proof.
  intros Hq HP Hm Hend Hm0 [Hfd Hc] Hdir Hb0 Hb.
  destruct (memory_history q st j P m Hq HP Hm Hend) as [Hlen Emem].
  unfold write_part, sys_write. rewrite Hlen.
  replace (_ && _ && _) with true by (symmetry; rewrite !andb_true_iff, !Z.leb_le; lia).
  rewrite !Nat2Z.id, Emem. set (piece := take m (drop P (history st))) in *.
  assert (Hpiece : length piece = m).
  { unfold piece. rewrite length_take, length_drop, history_length. lia. }
  destruct (Hrel fs m_fd name (length l) direct piece Hfd) as [fs' E].
  { intros Ed. rewrite Hpiece. by apply Hdir. }
  rewrite E. outcome. destruct (Z.eqb_spec (Z.of_nat m) 0); [lia|]. unfold UINT64_MAX in *. machine.
  exists fs'. split; [done|].
  destruct (fs_write_spec fs m_fd name (length l) direct piece l fs' Hfd Hc) as [H1 H2]; [lia|done|].
  rewrite overwrite_end in H2. split; [|done]. by rewrite length_app.
Qed.

(** *** The recording as a window on the history

    It starts at the element [i0] of the history. *)
Context (i0 : nat) (Ha : a <> 0) (Hchunk : (0 < chunk)%nat).
Context (Hdirect : m_direct = true ->
  Nat.divide block chunk /\ Nat.divide block (n * s) /\ (Z.of_nat block | a) /\ (Z.of_nat block | start_address)).

(** What is in the file when the byte [P] of the history is next. *)
Definition file_upto st P : list byte := take (P - i0 * s) (drop (i0 * s) (history st)).

(** The first element has a timestamp that is not zero. *)
Definition starts_late st : Prop := exists x, st !! 0%nat = Some x /\ 0 < get_timestamp x.

(** The thread has found where to start, and [P] is next. *)
Record going st (j : nat) (t : zthread) (fs : F) P : Prop := {
  g_first : (i0 * s <= P)%nat;
  g_window : (j * s <= P)%nat;
  g_end : (P <= pred (length st) * s)%nat;
  g_pointer : current_write_pointer t = Some (Z.of_nat (address P));
  g_positive : 0 < m_next_timestamp_to_record t;
  g_next : exists x, st !! (P / s)%nat = Some x /\ m_next_timestamp_to_record t <= get_timestamp x;
  g_bytes : bytes_written t = Z.of_nat (P - i0 * s);
  g_failed : failed_writes t = 0;
  g_place : match at_place t with
            | Head => True
            | Inner e _ => exists E, (E < length st)%nat /\ (P <= E * s)%nat /\ e = Z.of_nat (address (E * s))
            end;
  g_file : recorded_file m_direct (file_upto st P) fs;
  g_block : m_direct = true -> Nat.divide block (P - i0 * s) /\ Nat.divide block (address P) }.

(** Nothing is written yet. *)
Definition fresh (j : nat) (t : zthread) (fs : F) : Prop :=
  j = 0%nat /\ t = start_thread /\ recorded_file m_direct [] fs.

Definition thread_ok st (j : nat) (t : zthread) (fs : F) : Prop :=
  fresh j t fs \/ exists P, going st j t fs P.

Lemma file_upto_length st P : (P <= length st * s)%nat -> length (file_upto st P) = (P - i0 * s)%nat.
Proof. intros HP. unfold file_upto. rewrite length_take, length_drop, history_length. lia. Qed.

Lemma file_upto_more st P (m : nat) : (i0 * s <= P)%nat ->
  file_upto st P ++ take m (drop P (history st)) = file_upto st (P + m).
Proof.
  intros HP. unfold file_upto. replace (drop P (history st)) with (drop (P - i0 * s) (drop (i0 * s) (history st))).
  2:{ rewrite drop_drop. f_equal. lia. }
  rewrite take_take_drop. f_equal. lia.
Qed.

(** A write of [m] bytes on the way to the element [E]. *)
Lemma going_write q st (j : nat) t fs fs0 P (m E : nat) direct :
  located n a q (drop j st) (r0 + j) -> going st j t fs P -> (0 < m)%nat ->
  (P + m <= E * s)%nat -> (E < length st)%nat -> (address P + m <= n * s)%nat ->
  recorded_file direct (file_upto st P) fs0 ->
  (direct = true -> Nat.divide block (P - i0 * s) /\ Nat.divide block m) ->
  Z.of_nat (length st * s) <= UINT64_MAX ->
  exists fs', write_part bytes_of raw_bytes m_fd (Z.of_nat (address P)) (Z.of_nat m) q (bytes_written t) fs0
      = Ret (false, Z.of_nat (P + m - i0 * s), fs')
    /\ recorded_file direct (file_upto st (P + m)) fs'.
Proof.
  intros Hq Hg Hm HE Hlen Hend Hfile Hdir Hmax. destruct Hg as [Hf Hw _ _ _ _ Hb _ _ _ _].
  destruct (write_part_history q st j P m direct (file_upto st P) fs0 (bytes_written t) Hq Hw)
    as (fs' & E1 & Hrec); try done; try nia.
  - rewrite file_upto_length by nia. done.
  - exists fs'. rewrite E1, file_upto_more in * by done. split; [|done]. do 3 f_equal. lia.
Qed.

(** Where the window ends up after [m] more bytes. *)
Lemma going_on q st (j : nat) t fs P (m : nat) (E : nat) (considered : Z) bytes fs' :
  located n a q (drop j st) (r0 + j) -> increasing st -> starts_late st ->
  going st j t fs P -> (P + m <= E * s)%nat -> (E < length st)%nat ->
  bytes = Z.of_nat (P + m - i0 * s) -> recorded_file m_direct (file_upto st (P + m)) fs' ->
  (m_direct = true -> Nat.divide block (P + m - i0 * s) /\ Nat.divide block (address (P + m))) ->
  exists x, element_at (Z.of_nat s) q (frame_start (Z.of_nat s) (Z.of_nat (address (P + m)))) = Ret x
    /\ going st j (mkZthread (Inner (Z.of_nat (address (E * s))) considered) (get_timestamp x)
                     (Some (Z.of_nat (address (P + m)))) bytes 0) fs' (P + m).
Proof.
  intros Hq Hinc (y & Hy & Hpos) Hg HE Hlen -> Hfile Hdiv. destruct Hg as [Hf Hw He _ _ _ _ _ _ _ _].
  assert (Hi : ((P + m) / s <= E)%nat) by (apply Nat.Div0.div_le_upper_bound; lia).
  destruct (lookup_lt_is_Some_2 st ((P + m) / s)%nat ltac:(lia)) as [x Hx].
  exists x. split.
  - eapply (element_history q st j); [exact Hq|lia|exact Hx].
  - split; cbn; try done; try nia.
    + destruct ((P + m) / s)%nat as [|i] eqn:Ei; [congruence|].
      specialize (Hinc 0%nat (S i) y x Hy Hx ltac:(lia)). lia.
    + exists x. split; [done|lia].
    + exists E. split; [done|]. split; [lia|done].
Qed.

(** The distance to the end pointer. *)
Lemma address_gap P (E : nat) : (0 < n)%nat -> (P <= E * s)%nat -> (E * s - P < n * s)%nat ->
  (address (E * s) = address P + (E * s - P) \/ address P + (E * s - P) = address (E * s) + n * s)%nat.
Proof.
  intros Hn HP Hgap. unfold address.
  replace (r0 * s + E * s)%nat with (r0 * s + P + (E * s - P))%nat by lia.
  set (w := ((r0 * s + P) mod (n * s))%nat). destruct (decide (w + (E * s - P) < n * s)%nat) as [Hlt|Hge].
  - left. by apply mod_step.
  - right. rewrite mod_wrapped by (fold w; lia). fold w. lia.
Qed.

Lemma address_lt P : (0 < n)%nat -> (address P < n * s)%nat.
Proof. intros Hn. apply Nat.mod_upper_bound. nia. Qed.

Lemma address_within P (m : nat) : (address P + m < n * s)%nat -> address (P + m) = (address P + m)%nat.
Proof. intros Hm. unfold address in *. rewrite Nat.add_assoc. by apply mod_step. Qed.

Lemma address_round P (m : nat) : (0 < n)%nat -> (address P + m = n * s)%nat -> address (P + m) = 0%nat.
Proof. intros Hn Hm. unfold address in *. rewrite Nat.add_assoc. apply mod_end; [nia|done]. Qed.

(** What a turn of the inner loop writes: a chunk, the rest of the block, or nothing. *)
Lemma chunk_part q st (j : nat) t fs P (E : nat) :
  located n a q (drop j st) (r0 + j) -> going st j t fs P -> (E < length st)%nat -> (P <= E * s)%nat ->
  Z.of_nat (length st * s) <= UINT64_MAX ->
  exists (m : nat) fs',
    write_next (Z.of_nat s) bytes_of raw_bytes (Z.of_nat chunk) m_fd m_direct q
      (Z.of_nat (address (E * s))) (Z.of_nat (address P)) (bytes_written t) fs
    = Ret (false, Z.of_nat (P + m - i0 * s), Z.of_nat (address (P + m)), fs')
    /\ (P + m <= E * s)%nat /\ recorded_file m_direct (file_upto st (P + m)) fs'
    /\ (m_direct = true -> Nat.divide block (P + m - i0 * s) /\ Nat.divide block (address (P + m)))
    /\ ((P + chunk < E * s)%nat -> m = chunk \/ (0 < m)%nat /\ (address P + m = n * s)%nat).
Proof.
  intros Hq Hg HE HP Hmax. pose proof (located_length _ _ _ _ _ Hq) as (Hlen & Hn & _). rewrite length_drop in Hlen.
  pose proof Hg as [Hf Hw _ _ _ _ Hb _ _ Hfile Hblock].
  assert (Hgap : (E * s - P < n * s)%nat) by nia.
  pose proof (address_lt P ltac:(lia)) as Hlt1. pose proof (address_lt (E * s) ltac:(lia)) as Hlt2.
  assert (Esize : end_of_buffer (Z.of_nat s) q = Z.of_nat (n * s)).
  { unfold end_of_buffer. destruct Hq as (_ & -> & _). lia. }
  unfold write_next. rewrite Esize. pose proof (address_gap P E ltac:(lia) HP Hgap) as Hcases.
  assert (Hdiv : forall m, m_direct = true -> Nat.divide block m -> Nat.divide block (P + m - i0 * s)).
  { intros m Ed Hm. destruct (Hblock Ed) as [H1 _].
    replace (P + m - i0 * s)%nat with (P - i0 * s + m)%nat by lia. by apply Nat.divide_add_r. }
  assert (Hwhole : (address P + chunk < n * s)%nat -> (P + chunk <= E * s)%nat ->
    exists fs', write_part bytes_of raw_bytes m_fd (Z.of_nat (address P)) (Z.of_nat chunk) q (bytes_written t) fs
        = Ret (false, Z.of_nat (P + chunk - i0 * s), fs')
      /\ recorded_file m_direct (file_upto st (P + chunk)) fs'
      /\ (m_direct = true ->
          Nat.divide block (P + chunk - i0 * s) /\ Nat.divide block (address (P + chunk)))).
  { intros H1 H2. destruct (going_write q st j t fs fs P chunk E m_direct Hq Hg) as (fs' & E1 & Hrec); try done; try lia.
    { intros Ed. destruct (Hblock Ed), (Hdirect Ed) as (? & _). done. }
    exists fs'. split; [done|]. split; [done|]. intros Ed. destruct (Hblock Ed), (Hdirect Ed) as (? & _).
    split; [by apply Hdiv|]. rewrite address_within by done. by apply Nat.divide_add_r. }
  destruct (Z.ltb_spec (Z.of_nat (address P) + Z.of_nat chunk) (Z.of_nat (address (E * s)))) as [H1|H1];
    [|destruct (Z.ltb_spec (Z.of_nat (address (E * s))) (Z.of_nat (address P))) as [H2|H2];
      [destruct (Z.ltb_spec (Z.of_nat (address P) + Z.of_nat chunk) (Z.of_nat (n * s))) as [H3|H3]|]].
  1-2: destruct Hwhole as (fs' & E1 & Hrec & Hd); [lia..|]; rewrite E1; outcome;
    exists chunk, fs'; replace (Z.of_nat (address P) + Z.of_nat chunk) with (Z.of_nat (address (P + chunk)))
      by (rewrite address_within; lia);
    (split; [done|]); (split; [lia|]); (split; [done|]); (split; [done|]); intros _; by left.
  - set (m := (n * s - address P)%nat). replace (Z.of_nat (n * s) - Z.of_nat (address P)) with (Z.of_nat m) by lia.
    destruct (going_write q st j t fs (fs_fcntl m_fd false fs) P m E false Hq Hg) as (fs' & E1 & Hrec);
      try done; try lia; [by eapply fcntl_recorded|].
    rewrite E1. outcome. exists m, (fs_fcntl m_fd m_direct fs').
    rewrite address_round by lia. split; [done|]. split; [lia|]. split; [by eapply fcntl_recorded|].
    split; [|intros _; right; lia]. intros Ed. destruct (Hblock Ed), (Hdirect Ed) as (_ & ? & _).
    split; [|by apply Nat.divide_0_r]. apply Hdiv; [done|]. by apply Nat.divide_sub_r.
  - exists 0%nat, fs. rewrite Nat.add_0_r, Hb. split; [done|]. split; [lia|]. split; [done|]. split; [done|].
    lia.
Qed.

Lemma chunk_step_at q st (j : nat) t fs P (E : nat) (k : Z) :
  located n a q (drop j st) (r0 + j) -> increasing st -> starts_late st ->
  going st j t fs P -> at_place t = Inner (Z.of_nat (address (E * s))) k -> k < 100 ->
  (E < length st)%nat -> (P <= E * s)%nat -> Z.of_nat (length st * s) <= UINT64_MAX ->
  exists t' fs' (m : nat), chunk_step (Z.of_nat s) (Z.of_nat s) bytes_of raw_bytes (Z.of_nat chunk) m_fd m_direct
      q (Z.of_nat (address (E * s))) k t fs = Ret (t', fs')
    /\ going st j t' fs' (P + m) /\ at_place t' = Inner (Z.of_nat (address (E * s))) (k + 1)
    /\ (P + m <= E * s)%nat
    /\ ((P + chunk < E * s)%nat -> m = chunk \/ (0 < m)%nat /\ (address P + m = n * s)%nat).
Proof.
  intros Hq Hinc Hpos Hg Hplace Hk HE HPE Hmax. pose proof (located_length _ _ _ _ _ Hq) as (_ & Hn & _).
  unfold chunk_step. destruct (Z.ltb_spec k 100); [|lia]. pose proof Hg as [_ _ _ Hptr _ _ _ Hfail _ _ _].
  rewrite Hptr. cbn [deref]. outcome. replace (alignment_size_ q) with a by (by destruct Hq as (_ & _ & _ & ->)).
  destruct (Z.eqb_spec a 0); [done|].
  destruct (chunk_part q st j t fs P E Hq Hg HE HPE Hmax) as (m & fs' & -> & Hm & Hrec & Hd & Hmore).
  outcome. pose proof (address_lt (P + m) ltac:(lia)) as Hlt.
  replace (Z.of_nat (address (P + m)) =? end_of_buffer (Z.of_nat s) q) with false.
  2:{ symmetry. apply Z.eqb_neq. unfold end_of_buffer. destruct Hq as (_ & -> & _). lia. }
  destruct (going_on q st j t fs P m E (k + 1) (Z.of_nat (P + m - i0 * s)) fs' Hq Hinc Hpos Hg Hm HE eq_refl Hrec Hd)
    as (x & -> & Hg').
  outcome. rewrite Hfail. eexists _, fs', m. split; [done|]. split; [done|]. done.
Qed.

Lemma chunk_step_going q st (j : nat) t fs P e (k : Z) :
  located n a q (drop j st) (r0 + j) -> increasing st -> starts_late st ->
  going st j t fs P -> at_place t = Inner e k -> Z.of_nat (length st * s) <= UINT64_MAX ->
  exists t' fs' P', chunk_step (Z.of_nat s) (Z.of_nat s) bytes_of raw_bytes (Z.of_nat chunk) m_fd m_direct
      q e k t fs = Ret (t', fs')
    /\ going st j t' fs' P'.
Proof.
  intros Hq Hinc Hpos Hg Hplace Hmax. destruct (decide (k < 100)) as [Hk|Hk].
  - pose proof Hg as [_ _ _ _ _ _ _ _ Hpl _ _]. rewrite Hplace in Hpl. destruct Hpl as (E & HE & HPE & ->).
    destruct (chunk_step_at q st j t fs P E k Hq Hinc Hpos Hg Hplace Hk HE HPE Hmax) as (t' & fs' & m & -> & Hg' & _).
    by eexists t', fs', (P + m)%nat.
  - unfold chunk_step. destruct (Z.ltb_spec k 100); [lia|].
    exists (mkZthread Head (m_next_timestamp_to_record t) (current_write_pointer t) (bytes_written t)
        (failed_writes t)), fs, P. split; [done|]. by destruct Hg; split.
Qed.

(** The [i]-th element of the history lies at an aligned address. *)
Definition aligned_at (i : nat) : Prop := (start_address + Z.of_nat ((r0 + i) mod n) * Z.of_nat s) mod a = 0.

Lemma skip_loop_first q c (fuel k : nat) :
  located n a q c r0 -> (k <= i0 < length c)%nat -> (i0 - k <= fuel)%nat -> aligned_at i0 ->
  (forall i, (i < i0)%nat -> ~ aligned_at i) ->
  skip_loop (Z.of_nat s) start_address fuel q (Z.of_nat ((r0 + k) mod n)) = Ret (Z.of_nat ((r0 + i0) mod n)).
Proof.
  intros Hq. pose proof (located_length _ _ _ _ _ Hq) as (Hlen & Hn & _). pose proof Hq as (_ & Hsz & _ & Hal).
  revert k. induction fuel as [|fuel IH]; intros k Hk Hf Hi Hbefore; cbn [skip_loop]; rewrite Hsz, Hal;
    (destruct (Z.eqb_spec a 0); [done|]);
    (destruct (Z.ltb_spec (Z.of_nat ((r0 + k) mod n)) (Z.of_nat n)) as [_|Hge];
      [|pose proof (Nat.mod_upper_bound (r0 + k) n ltac:(lia)); lia]); cbn [negb orb].
  - assert (k = i0) as -> by lia. unfold aligned_at in Hi. rewrite Hi. done.
  - destruct (Z.eqb_spec ((start_address + Z.of_nat ((r0 + k) mod n) * Z.of_nat s) mod a) 0) as [E|E].
    + assert (k = i0) as ->; [|done]. destruct (decide (k < i0)%nat) as [Hlt|]; [|lia].
      by destruct (Hbefore k Hlt).
    + assert (k <> i0) by (intros ->; done).
      rewrite (located_next _ _ q c r0 k Hq) by lia. apply IH; [lia|lia|done|done].
Qed.

Lemma aligned_block (i : nat) : m_direct = true -> (0 < n)%nat -> aligned_at i -> Nat.divide block (address (i * s)).
Proof.
  intros Ed Hn Hi. destruct (Hdirect Ed) as (_ & _ & Hba & Hbs). unfold aligned_at in Hi.
  apply Z.mod_divide in Hi; [|done]. rewrite <- Nat2Z.inj_mul, <- (address_start i Hn) in Hi.
  assert (Hd : (Z.of_nat block | Z.of_nat (address (i * s)))).
  { apply (Z.divide_add_cancel_r _ start_address); [done|]. exact (Z.divide_trans _ _ _ Hba Hi). }
  destruct Hd as [z Ez]. exists (Z.to_nat z).
  destruct (decide (block = 0%nat)) as [->|]; [lia|]. assert (0 <= z) by nia. nia.
Qed.

(** The head of the outer loop. *)
Lemma turn_start_ok (requested : bool) q st (j : nat) t fs :
  located n a q (drop j st) (r0 + j) -> (j < length st)%nat -> increasing st ->
  starts_late st ->
  (i0 < length st)%nat -> aligned_at i0 -> (forall i, (i < i0)%nat -> ~ aligned_at i) ->
  thread_ok st j t fs -> at_place t = Head ->
  exists t', turn_start (Z.of_nat s) start_address requested q t = Ret t' /\ thread_ok st j t' fs
    /\ (requested = false -> at_place t' = Inner (Z.of_nat (address (pred (length st) * s))) 0
        /\ (forall P, going st j t fs P -> going st j t' fs P)
        /\ (fresh j t fs -> going st j t' fs (i0 * s))).
Proof.
  intros Hq Hj Hinc (y & Hy & Hpos) Hi Hal Hbefore Hok Hplace.
  pose proof (located_length _ _ _ _ _ Hq) as (Hlen & Hn & _).
  rewrite length_drop in Hlen.
  assert (Hne : drop j st <> []) by (intros E; apply (f_equal length) in E; rewrite length_drop in E; cbn in E; lia).
  assert (Eback : end_pointer (Z.of_nat s) start_address q = Z.of_nat (address (pred (length st) * s))).
  { unfold end_pointer. rewrite (located_back _ _ q _ _ Hq Hne), length_drop, address_start by lia.
    replace (r0 + j + pred (length st - j))%nat with (r0 + pred (length st))%nat by lia. lia. }
  unfold turn_start. rewrite Eback. destruct Hok as [(-> & -> & Hfile)|(P & Hg)].
  - rewrite drop_0, Nat.add_0_r in Hq. cbn [start_thread m_next_timestamp_to_record Z.eqb]. rewrite orb_true_r.
    destruct (located_begin _ _ q st r0 Hq) as [Eb Hb]; [by destruct st|].
    destruct (Z.eqb_spec (iter_begin q) iter_end); [done|]. rewrite Eb.
    unfold iter_deref. pose proof (located_slot _ _ _ _ _ _ _ Hq Hy) as Ex. rewrite Nat.add_0_r in Ex.
    rewrite Ex. outcome.
    pose proof (skip_loop_first q st (S (Z.to_nat (size_ q))) 0 Hq ltac:(lia)) as E. rewrite Nat.add_0_r in E.
    rewrite E; [|destruct Hq as (_ & -> & _); lia|done|done]. outcome. clear E.
    set (t' := mkZthread _ _ _ _ _). exists t'. split; [done|].
    destruct (lookup_lt_is_Some_2 st i0 Hi) as [x Hx].
    assert (Ediv : (i0 * s / s)%nat = i0) by (apply Nat.div_mul; lia).
    assert (Hg : going st 0 t' fs (i0 * s)).
    { split; cbn; try done; try lia; try nia.
      - rewrite address_start by lia. f_equal. lia.
      - exists x. rewrite Ediv. split; [done|]. destruct (decide (i0 = 0%nat)) as [->|]; [by simplify_eq|].
        specialize (Hinc 0%nat i0 y x Hy Hx ltac:(lia)). lia.
      - exists (pred (length st)). split; [lia|]. split; [nia|done].
      - unfold file_upto. by rewrite Nat.sub_diag, take_0.
      - intros Ed. rewrite Nat.sub_diag. split; [apply Nat.divide_0_r|]. by apply aligned_block; [|lia|]. }
    split; [right; by exists (i0 * s)%nat|]. intros _. split; [done|]. split; [|done].
    intros P [_ _ _ [=] _ _ _ _ _ _ _].
  - pose proof Hg as [_ _ _ Hptr Hpos' _ _ _ _ _ _].
    destruct (Z.eqb_spec (m_next_timestamp_to_record t) 0); [lia|]. rewrite orb_false_r.
    assert (Hnew : forall P, going st j t fs P -> going st j
      (mkZthread (Inner (Z.of_nat (address (pred (length st) * s))) 0) (m_next_timestamp_to_record t)
        (current_write_pointer t) (bytes_written t) (failed_writes t)) fs P).
    { intros P' [? ? ? ? ? ? ? ? _ ? ?]. split; cbn; try done.
      exists (pred (length st)). split; [lia|]. split; [done|done]. }
    destruct requested; cbn [negb].
    + exists t. split; [done|]. split; [right; by exists P|done].
    + eexists. split; [done|]. split; [right; exists P; by apply Hnew|]. intros _. split; [done|]. split; [done|].
      intros (_ & -> & _). done.
Qed.

(** *** The scene *)
Implicit Types (sc : zscene T F).

Lemma file_upto_app st c P : (P <= length st * s)%nat -> file_upto (st ++ c) P = file_upto st P.
Proof.
  intros HP. unfold file_upto. rewrite history_app. pose proof (history_length st) as Hl.
  destruct (decide (i0 * s <= length st * s)%nat).
  - rewrite drop_app_le, take_app_le by (rewrite ?length_drop; lia). done.
  - by replace (P - i0 * s)%nat with 0%nat by lia.
Qed.

Lemma thread_ok_app st c (j : nat) t fs : st <> [] -> thread_ok st j t fs -> thread_ok (st ++ c) j t fs.
Proof.
  intros Hne [Hf|(P & [H1 H2 H3 H4 H5 (x & Hx & H6) H7 H8 H9 H10 H11])]; [by left|]. right. exists P.
  assert (0 < length st)%nat by (destruct st; [done|cbn; lia]).
  split; try done; rewrite ?length_app.
  - nia.
  - exists x. split; [|done]. apply lookup_app_l_Some. done.
  - destruct (at_place t) as [|e k]; [done|]. destruct H9 as (E & ? & ? & ->). exists E. split; [lia|done].
  - rewrite file_upto_app by nia. done.
Qed.

(** A cleanup leaves what is to be written. *)
Lemma thread_ok_drop st (j m : nat) t fs :
  increasing st -> thread_ok st j t fs ->
  Forall (fun x => get_timestamp x < m_next_timestamp_to_record t) (take m (drop j st)) ->
  (m <= length (drop j st))%nat -> thread_ok st (j + m) t fs.
Proof.
  intros Hinc Hok Hall Hm. rewrite length_drop in Hm. destruct m as [|m]; [by rewrite Nat.add_0_r|].
  destruct (lookup_lt_is_Some_2 st (j + m)%nat ltac:(lia)) as [x Hx].
  assert (Hlt : get_timestamp x < m_next_timestamp_to_record t).
  { apply (Forall_lookup_1 _ _ m _ Hall). rewrite lookup_take_lt, lookup_drop by lia. done. }
  destruct Hok as [(-> & -> & Hf)|(P & Hg)].
  { cbn in Hlt. pose proof (timestamp_range x). lia. }
  right. exists P. destruct Hg as [H1 H2 H3 H4 H5 (y & Hy & H6) H7 H8 H9 H10 H11]. split; try done; [|by exists y].
  assert (Hle : (j + S m <= P / s)%nat).
  { destruct (decide (j + S m <= P / s)%nat); [done|]. exfalso.
    destruct (decide (P / s = j + m)%nat) as [E|]; [rewrite E in Hy; simplify_eq; lia|].
    specialize (Hinc (P / s)%nat (j + m)%nat y x Hy Hx ltac:(lia)). lia. }
  pose proof (Nat.div_mod_eq P s). nia.
Qed.

Definition zscene_ok sc : Prop := exists j,
  located n a (zbuffer sc) (drop j (zstored sc)) (r0 + j) /\ (j < length (zstored sc))%nat
  /\ thread_ok (zstored sc) j (zrec sc) (zfs sc).

Context (cfg : settings) (Hshare : leaves_one cfg n).
Context (Hal : aligned_at i0) (Hbefore : forall i, (i < i0)%nat -> ~ aligned_at i).

#[local] Abbreviation step_scene := (zscene_step p (Z.of_nat s) (Z.of_nat s) bytes_of raw_bytes start_address
  (Z.of_nat chunk) m_fd m_direct cfg).
#[local] Abbreviation run_scene := (zscene_run p (Z.of_nat s) (Z.of_nat s) bytes_of raw_bytes start_address
  (Z.of_nat chunk) m_fd m_direct cfg).

Lemma zscene_step_ok sc (e : zevent T) :
  zscene_ok sc -> increasing (zstored sc) -> starts_late (zstored sc) -> (i0 < length (zstored sc))%nat ->
  Z.of_nat (length (zstored sc) * s) <= UINT64_MAX ->
  exists sc', step_scene sc e = Ret sc' /\ zscene_ok sc'
    /\ (zstored sc' = zstored sc \/ exists x, e = ZStore x /\ zstored sc' = zstored sc ++ [x]).
Proof.
  intros (j & Hq & Hj & Hok) Hinc Hlate Hi Hmax. destruct e as [x| |requested]; cbn [zscene_step].
  - destruct (located_write p n a (zbuffer sc) _ _ x Hq) as (ok & q' & -> & Hq'). outcome.
    eexists. split; [done|]. destruct ok; (split; [exists j; cbn|]); [|by right; exists x|done|by left].
    rewrite drop_app_le, length_app by lia. split; [done|]. split; [lia|].
    apply thread_ok_app; [|done]. intros E. rewrite E in Hj. cbn in Hj. lia.
  - assert (Hne : drop j (zstored sc) <> []).
    { intros E. apply (f_equal length) in E. rewrite length_drop in E. cbn in E. lia. }
    destruct (cleanup_located p n a cfg (m_next_timestamp_to_record (zrec sc)) (zbuffer sc) _ _ (zerrors sc)
      (zstats sc) Hq Hshare Hne) as (q' & errors' & st' & m & -> & Hq' & Hm & Hall).
    outcome. eexists. split; [done|]. split; [|by left]. exists (j + m)%nat. cbn.
    rewrite length_drop in Hm. rewrite drop_drop, <- Nat.add_assoc in Hq'. split; [done|]. split; [lia|].
    apply thread_ok_drop; try done. rewrite length_drop. lia.
  - unfold thread_step. destruct (at_place (zrec sc)) as [|e k] eqn:Eplace.
    + destruct (turn_start_ok requested (zbuffer sc) (zstored sc) j (zrec sc) (zfs sc) Hq Hj Hinc Hlate Hi
        Hal Hbefore Hok Eplace) as (t' & -> & Hok' & _).
      outcome. eexists. split; [done|]. split; [|by left]. exists j. done.
    + destruct Hok as [(_ & E & _)|(P & Hg)]; [by rewrite E in Eplace|].
      destruct (chunk_step_going (zbuffer sc) (zstored sc) j (zrec sc) (zfs sc) P e k Hq Hinc Hlate Hg Eplace Hmax)
        as (t' & fs' & P' & -> & Hg').
      outcome. eexists. split; [done|]. split; [|by left]. exists j. split; [done|]. split; [done|].
      right. by exists P'.
Qed.

Lemma zscene_run_ok (es : list (zevent T)) sc :
  zscene_ok sc -> increasing (zstored sc ++ zoffered es) -> starts_late (zstored sc) ->
  (i0 < length (zstored sc))%nat -> Z.of_nat (length (zstored sc ++ zoffered es) * s) <= UINT64_MAX ->
  exists sc', run_scene es sc = Ret sc' /\ zscene_ok sc'
    /\ exists xs, zstored sc' = zstored sc ++ xs /\ sublist xs (zoffered es).
Proof.
  revert sc. induction es as [|e es IH]; intros sc Hok Hinc Hlate Hi Hmax; cbn [zscene_run].
  { exists sc. split; [done|]. split; [done|]. exists []. by rewrite app_nil_r. }
  destruct (zscene_step_ok sc e Hok) as (sc1 & -> & Hok1 & Hst); [|done|done| |].
  { eapply increasing_sublist; [|exact Hinc]. by apply sublist_inserts_r. }
  { rewrite length_app in Hmax. lia. }
  outcome.
  assert (Hmore : exists ys, zstored sc1 = zstored sc ++ ys /\ sublist (ys ++ zoffered es) (zoffered (e :: es))).
  { destruct Hst as [->|(x & -> & ->)]; [exists []|exists [x]; done]. rewrite app_nil_r. split; [done|].
    destruct e; [by constructor|done..]. }
  destruct Hmore as (ys & Eys & Hsub).
  destruct (IH sc1 Hok1) as (sc2 & -> & Hok2 & xs & Exs & Hxs).
  - rewrite Eys, <- app_assoc. eapply increasing_sublist; [|exact Hinc]. by apply sublist_app.
  - rewrite Eys. destruct Hlate as (x & Hx & Hpos). exists x. split; [|done]. by apply lookup_app_l_Some.
  - rewrite Eys, length_app. lia.
  - apply sublist_length in Hsub. rewrite Eys. rewrite !length_app in *. nia.
  - exists sc2. split; [done|]. split; [done|]. exists (ys ++ xs). rewrite Exs, Eys, app_assoc. split; [done|].
    etrans; [|exact Hsub]. by apply sublist_app.
Qed.

(** *** A whole turn: [r] turns of the inner loop in a row

    [b] is 1 as long as the rest of the block may still have to be written. *)
Lemma inner_steps (r b : nat) sc (j P E : nat) (k : Z) :
  located n a (zbuffer sc) (drop j (zstored sc)) (r0 + j) -> increasing (zstored sc) -> starts_late (zstored sc) ->
  going (zstored sc) j (zrec sc) (zfs sc) P ->
  at_place (zrec sc) = Inner (Z.of_nat (address (E * s))) k -> k + Z.of_nat r <= 100 ->
  (E < length (zstored sc))%nat -> (P <= E * s)%nat -> Z.of_nat (length (zstored sc) * s) <= UINT64_MAX ->
  (b <= 1)%nat -> (b = 0%nat -> (address P + (E * s - P) < n * s)%nat) ->
  exists sc' P', run_scene (replicate r (ZStep false)) sc = Ret sc'
    /\ zbuffer sc' = zbuffer sc /\ zstored sc' = zstored sc
    /\ going (zstored sc) j (zrec sc') (zfs sc') P' /\ (P <= P')%nat
    /\ (E * s <= P' + chunk \/ P + r * chunk <= P' + b * chunk)%nat.
Proof.
  intros Hq Hinc Hlate. revert b sc P k Hq Hinc Hlate.
  induction r as [|r IH]; intros b sc P k Hq Hinc Hlate Hg Hplace Hk HE HPE Hmax Hb Hwrap; cbn [replicate zscene_run].
  { exists sc, P. split; [done|]. split; [done|]. split; [done|]. split; [done|]. lia. }
  pose proof (located_length _ _ _ _ _ Hq) as (Hlen & Hn & _). rewrite length_drop in Hlen.
  destruct (chunk_step_at (zbuffer sc) (zstored sc) j (zrec sc) (zfs sc) P E k Hq Hinc Hlate Hg Hplace
    ltac:(lia) HE HPE Hmax) as (t' & fs' & m & Estep & Hg' & Hplace' & Hm & Hmore).
  cbn [zscene_step]. unfold thread_step. rewrite Hplace, Estep. outcome.
  set (sc1 := mkZscene (zbuffer sc) (zerrors sc) (zstats sc) t' fs' (zstored sc)).
  assert (Hgap : (E * s - P < n * s)%nat) by (destruct Hg; nia).
  destruct (decide (P + chunk < E * s)%nat) as [Hbehind|Hdone].
  - specialize (Hmore Hbehind). destruct Hmore as [->|[Hm0 Hround]].
    + destruct (IH b sc1 (P + chunk)%nat (k + 1) Hq Hinc Hlate Hg' Hplace') as (sc2 & P2 & E2 & Hq2 & Hst2 & Hg2 & HP2 & Hfar);
        try done; [lia| |exists sc2, P2; split_and!; try done; lia].
      intros ->. specialize (Hwrap eq_refl). rewrite address_within by lia. lia.
    + assert (b = 1%nat) as ->.
      { destruct b as [|[|b]]; [|done|lia]. specialize (Hwrap eq_refl). lia. }
      destruct (IH 0%nat sc1 (P + m)%nat (k + 1) Hq Hinc Hlate Hg' Hplace') as (sc2 & P2 & E2 & Hq2 & Hst2 & Hg2 & HP2 & Hfar);
        try done; [lia|lia| |exists sc2, P2; split_and!; try done; lia].
      intros _. rewrite address_round by lia. lia.
  - destruct (IH 1%nat sc1 (P + m)%nat (k + 1) Hq Hinc Hlate Hg' Hplace') as (sc2 & P2 & E2 & Hq2 & Hst2 & Hg2 & HP2 & Hfar);
      try done; [lia|]. exists sc2, P2. split_and!; try done; lia.
Qed.

(** *** The end of the thread *)

(** The file holds the elements [i0] to [k] of the history. *)
Definition file_holds st (k : nat) (fs : F) : Prop :=
  fs_contents fs name = Some (history (take (k - i0) (drop i0 st))).

Lemma file_upto_whole st (k : nat) : file_upto st (k * s) = history (take (k - i0) (drop i0 st)).
Proof.
  unfold file_upto, history. rewrite <- Nat.mul_sub_distr_r.
  rewrite (concat_blocks_drop s) by apply history_blocks.
  rewrite (concat_blocks_take s) by (apply Forall_drop, history_blocks).
  by rewrite fmap_take, fmap_drop.
Qed.

Lemma finish_going q st (j : nat) t fs P :
  located n a q (drop j st) (r0 + j) -> (j < length st)%nat -> going st j t fs P ->
  Z.of_nat (length st * s) <= UINT64_MAX ->
  exists t' fs' (k : nat), finish (Z.of_nat s) bytes_of raw_bytes m_fd q t fs = Ret (t', fs')
    /\ (P <= k * s < P + s)%nat /\ (i0 <= k)%nat /\ (j <= k <= length st)%nat
    /\ file_holds st k fs' /\ bytes_written t' = Z.of_nat ((k - i0) * s) /\ failed_writes t' = 0.
Proof.
  intros Hq Hj Hg Hmax. pose proof (located_length _ _ _ _ _ Hq) as (_ & Hn & _).
  pose proof Hg as [Hf Hw He Hptr _ _ Hb Hfail _ Hfile _].
  unfold finish. rewrite Hptr. pose proof (Nat.div_mod_eq P s) as Ediv.
  set (i := (P / s)%nat) in *. set (o := (P mod s)%nat) in *.
  assert (Ho : (o < s)%nat) by (apply Nat.mod_upper_bound; lia).
  assert (E : address P = (((r0 + i) mod n) * s + o)%nat).
  { rewrite Ediv at 1. replace (s * i + o)%nat with (i * s + o)%nat by lia. apply address_split; lia. }
  pose proof (Nat.mod_upper_bound (r0 + i) n ltac:(lia)) as Hslot.
  assert (Eframe : frame_start (Z.of_nat s) (Z.of_nat (address P)) = Z.of_nat (((r0 + i) mod n) * s)).
  { unfold frame_start. rewrite E, Z.quot_div_nonneg by lia.
    rewrite <- Nat2Z.inj_div, Nat.div_add_l, Nat.div_small, Nat.add_0_r by lia. lia. }
  rewrite Eframe, E. destruct (decide (o = 0%nat)) as [Eo|Eo].
  - replace (Z.of_nat (((r0 + i) mod n) * s) =? Z.of_nat (((r0 + i) mod n) * s + o)) with true
      by (symmetry; apply Z.eqb_eq; lia).
    cbn [negb]. outcome. do 2 eexists. exists i. split; [reflexivity|]. split; [nia|]. split; [nia|]. split; [nia|].
    unfold file_holds. rewrite fs_close_spec, <- file_upto_whole. destruct Hfile as [_ Hc].
    replace (i * s)%nat with P by lia. split; [done|]. split; [|done]. cbn. rewrite Hb. nia.
  - replace (Z.of_nat (((r0 + i) mod n) * s) =? Z.of_nat (((r0 + i) mod n) * s + o)) with false
      by (symmetry; apply Z.eqb_neq; lia).
    cbn [negb]. rewrite <- E.
    replace (Z.of_nat (((r0 + i) mod n) * s) + Z.of_nat s - Z.of_nat (address P)) with (Z.of_nat (s - o)) by lia.
    assert (Hlast : (i < pred (length st))%nat) by nia.
    destruct (going_write q st j t fs (fs_fcntl m_fd false fs) P (s - o) (S i) false Hq Hg)
      as (fs' & -> & [_ Hc]); try done; [lia|nia|lia|nia|by eapply fcntl_recorded|].
    outcome. do 2 eexists. exists (S i). split; [reflexivity|]. split; [nia|]. split; [nia|]. split; [nia|].
    unfold file_holds. rewrite fs_close_spec, <- file_upto_whole.
    replace (S i * s)%nat with (P + (s - o))%nat by lia. split; [done|]. split; [|done]. cbn. nia.
Qed.

Lemma finish_ok q st (j : nat) t fs :
  located n a q (drop j st) (r0 + j) -> (j < length st)%nat -> (i0 < length st)%nat -> thread_ok st j t fs ->
  Z.of_nat (length st * s) <= UINT64_MAX ->
  exists t' fs' (k : nat), finish (Z.of_nat s) bytes_of raw_bytes m_fd q t fs = Ret (t', fs')
    /\ (i0 <= k)%nat /\ (j <= k <= length st)%nat
    /\ file_holds st k fs' /\ bytes_written t' = Z.of_nat ((k - i0) * s) /\ failed_writes t' = 0
    /\ (forall P, going st j t fs P -> (P <= k * s < P + s)%nat) /\ (fresh j t fs -> k = i0).
Proof.
  intros Hq Hj Hi [Hfresh|(P & Hg)] Hmax.
  - pose proof Hfresh as (-> & -> & [_ Hc]). do 2 eexists. exists i0. split; [reflexivity|].
    split; [done|]. split; [lia|]. unfold file_holds. rewrite fs_close_spec, Nat.sub_diag, take_0, Hc.
    split; [done|]. split; [done|]. split; [done|]. split; [|done]. intros P [_ _ _ [=] _ _ _ _ _ _ _].
  - destruct (finish_going q st j t fs P Hq Hj Hg Hmax) as (t' & fs' & k & E & HP & Hk1 & Hk2 & Hf & Hb & Hfail).
    exists t', fs', k. split; [done|]. split; [done|]. split; [done|]. split; [done|]. split; [done|]. split; [done|].
    split.
    + intros P' [Hf' _ _ _ _ _ Hb' _ _ _ _]. destruct Hg as [Hf1 _ _ _ _ _ Hb1 _ _ _ _]. lia.
    + intros (_ & -> & _). destruct Hg as [_ _ _ [=] _ _ _ _ _ _ _].
Qed.
End thread_lemmas.

(** ** Properties *)

(** C14: a recording from the ring's memory loses nothing and writes no byte twice.
    It starts at the first element at an aligned address; however the steps of
    the recording thread interleave with writes of the consumer and cleanups, round
    the end of the block too and under O_DIRECT, every step succeeds; if it ends
    at any point, the file holds exactly the bytes of the elements from the first
    on, whole and in order, as many as are counted, and what is not in the file is
    still in the buffer.  A turn that no cleanup holds back writes 99 chunks, or
    all but a chunk of what lies before the newest element. *)
Theorem zero_copy_complete {T F : Type} `{ReadoutLaws T} `{!TimestampOrder T} `{PosixLaws F} (p : platform)
    (s chunk block : nat) (bytes_of : T -> list byte) (raw_bytes : list byte) (start_address m_fd : Z)
    (m_direct : bool) (name : string) (cfg : settings) (es : list (zevent T)) (q : queue T) (c : list T)
    (x : T) (i0 : nat) (m : registry) (st : stats) (fs : F) :
  let slot i := ((Z.to_nat (readIndex_ q) + i) mod Z.to_nat (size_ q))%nat in
  let aligned i := (start_address + Z.of_nat (slot i) * Z.of_nat s) mod alignment_size_ q = 0 in
  (0 < s)%nat -> (0 < chunk)%nat -> (forall x, length (bytes_of x) = s) -> length raw_bytes = s ->
  reliable (F:=F) block ->
  (m_direct = true -> Nat.divide block chunk /\ Nat.divide block (Z.to_nat (size_ q) * s)
     /\ (Z.of_nat block | alignment_size_ q) /\ (Z.of_nat block | start_address)) ->
  repr q c -> alignment_size_ q <> 0 -> (i0 < length c)%nat -> aligned i0 ->
  (forall i, (i < i0)%nat -> ~ aligned i) ->
  increasing (c ++ zoffered es) -> head c = Some x -> 0 < get_timestamp x ->
  Z.of_nat (length (c ++ zoffered es) * s) <= UINT64_MAX -> leaves_one cfg (Z.to_nat (size_ q)) ->
  fs_fd fs m_fd name 0 m_direct -> fs_contents fs name = Some [] ->
  let step_all := zscene_run p (Z.of_nat s) (Z.of_nat s) bytes_of raw_bytes start_address (Z.of_nat chunk)
                    m_fd m_direct cfg in
  let holds sc k (r : outcome (zthread * F)) := exists t fs', r = Ret (t, fs')
        /\ fs_contents fs' name = Some (concat (bytes_of <$> take (k - i0) (drop i0 (zstored sc))))
        /\ bytes_written t = Z.of_nat ((k - i0) * s) /\ failed_writes t = 0 in
  let finished sc := finish (Z.of_nat s) bytes_of raw_bytes m_fd (zbuffer sc) (zrec sc) (zfs sc) in
  exists sc (j k : nat), step_all es (first_zscene q c m st fs) = Ret sc
    /\ (i0 <= k)%nat /\ (j <= k <= length (zstored sc))%nat
    /\ repr (zbuffer sc) (drop j (zstored sc)) /\ holds sc k (finished sc)
    /\ (at_place (zrec sc) = Head ->
        exists sc' k', step_all (replicate 101 (ZStep false)) sc = Ret sc' /\ holds sc k' (finished sc')
          /\ (length (zstored sc) * s <= k' * s + chunk + s \/ k * s + 99 * chunk <= k' * s + s)%nat).
Proof.
  intros slot aligned Hs Hchunk Hbytes Hraw Hrel Hdirect Hq Ha Hi Hal Hbefore Hinc Hhead Hpos Hmax Hshare Hfd Hfile
    step_all holds finished.
  set (n := Z.to_nat (size_ q)) in *. set (r0 := Z.to_nat (readIndex_ q)) in *.
  assert (Hloc : located n (alignment_size_ q) q c r0).
  { pose proof Hq as (k & l & r & [_ Hsz Hrng Hrd Hlt _ _ _]). split; [done|]. split; [lia|]. split; [|done].
    unfold r0, n. rewrite Hrd, Hsz, !Nat2Z.id. by rewrite Nat.mod_small. }
  assert (Hlate : starts_late c) by (exists x; by destruct c; cbn in Hhead; simplify_eq).
  destruct (zscene_run_ok p n s chunk block r0 (alignment_size_ q) start_address m_fd m_direct bytes_of raw_bytes
    name Hs Hbytes Hraw Hrel i0 Ha Hchunk Hdirect cfg Hshare Hal Hbefore es (first_zscene q c m st fs))
    as (sc & Erun & (j & Hq' & Hj & Hok) & xs & Hst & Hsub); cbn [first_zscene zstored] in *; try done.
  { exists 0%nat. rewrite Nat.add_0_r. split; [done|]. split; [cbn; lia|]. by left. }
  assert (Hlate' : starts_late (zstored sc)).
  { rewrite Hst. destruct Hlate as (y & Hy & ?). exists y. split; [|done]. by apply lookup_app_l_Some. }
  assert (Hi' : (i0 < length (zstored sc))%nat) by (rewrite Hst, length_app; lia).
  assert (Hmax' : Z.of_nat (length (zstored sc) * s) <= UINT64_MAX).
  { apply sublist_length in Hsub. rewrite Hst. rewrite !length_app in *. nia. }
  assert (Hinc' : increasing (zstored sc)).
  { rewrite Hst. eapply increasing_sublist; [|exact Hinc]. by apply sublist_app. }
  pose proof (finish_ok n s chunk block r0 (alignment_size_ q) m_fd m_direct bytes_of raw_bytes name Hs Hbytes Hraw
    Hrel i0 Hchunk) as Hfinish.
  destruct (Hfinish (zbuffer sc) (zstored sc) j (zrec sc) (zfs sc) Hq' Hj Hi' Hok Hmax')
    as (t & fs' & k & Ef & Hk1 & Hk2 & Hf & Hb & Hfail & HP & Hfresh).
  exists sc, j, k. split; [done|]. split; [done|]. split; [done|]. split; [apply Hq'|].
  split; [by exists t, fs'|]. intros Hplace.
  destruct (turn_start_ok n s chunk block r0 (alignment_size_ q) start_address m_fd m_direct bytes_of
    raw_bytes name Hs Hraw Hrel i0 Ha Hchunk Hdirect false (zbuffer sc) (zstored sc) j (zrec sc) (zfs sc) Hq' Hj Hinc' Hlate' Hi' Hal
    Hbefore Hok Hplace) as (t1 & Et & _ & Hnew). destruct (Hnew eq_refl) as (Hplace1 & Hgoing & Hfirst).
  assert (HP1 : exists P, going n s block r0 m_fd m_direct bytes_of name i0 (zstored sc) j t1 (zfs sc) P
      /\ (P <= k * s < P + s)%nat).
  { destruct Hok as [Hok|(P & Hg)]; [exists (i0 * s)%nat|exists P; auto].
    split; [auto|]. rewrite (Hfresh Hok). lia. }
  destruct HP1 as (P & Hg1 & HkP).
  set (sc1 := mkZscene (zbuffer sc) (zerrors sc) (zstats sc) t1 (zfs sc) (zstored sc)).
  destruct (inner_steps p n s chunk block r0 (alignment_size_ q) start_address m_fd m_direct bytes_of raw_bytes
    name Hs Hbytes Hraw Hrel i0 Ha Hchunk Hdirect cfg 100 1 sc1 j P (pred (length (zstored sc))) 0 Hq' Hinc' Hlate'
    Hg1 Hplace1) as (sc2 & P2 & E2 & Hq2 & Hst2 & Hg2 & HP2 & Hfar); try done; [cbn; lia|by destruct Hg1|].
  destruct (Hfinish (zbuffer sc2) (zstored sc) j (zrec sc2) (zfs sc2)) as (t2 & fs2 & k2 & Ef2 & _ & _ & Hf2 & Hb2 & Hfail2 & HP2' & _);
    try done; [by rewrite Hq2|right; by exists P2|].
  exists sc2, k2. split; [|split].
  - change (replicate 101 (ZStep false)) with (ZStep (T:=T) false :: replicate 100 (ZStep false)).
    unfold step_all. cbn [zscene_run zscene_step]. unfold thread_step. rewrite Hplace, Et. outcome. exact E2.
  - by exists t2, fs2.
  - specialize (HP2' P2 Hg2). cbn [zstored sc1] in Hfar.
    assert (Elen : (length (zstored sc) * s = pred (length (zstored sc)) * s + s)%nat).
    { destruct (length (zstored sc)); [lia|]. cbn. lia. }
    rewrite Elen. clear -Hfar HP2' HkP. destruct Hfar as [Hfar|Hfar]; [left|right]; lia.
Qed.

(** When no stored element lies at an aligned address, the search for one runs
    off the end of the buffer: its [continue] belongs to the search itself, which
    then dereferences [end()]. *)
Theorem no_aligned_element {T : Type} `{ReadoutType T} (s : nat) (start_address : Z) (requested : bool)
    (q : queue T) (c : list T) :
  let slot i := ((Z.to_nat (readIndex_ q) + i) mod Z.to_nat (size_ q))%nat in
  let aligned i := (start_address + Z.of_nat (slot i) * Z.of_nat s) mod alignment_size_ q = 0 in
  repr q c -> c <> [] -> (forall i, (i < length c)%nat -> ~ aligned i) ->
  turn_start (Z.of_nat s) start_address requested q start_thread = Undefined.
Proof.
  intros slot aligned Hq Hne Hnone. set (n := Z.to_nat (size_ q)) in *. set (r0 := Z.to_nat (readIndex_ q)) in *.
  assert (Hloc : located n (alignment_size_ q) q c r0).
  { pose proof Hq as (k & l & r & [_ Hsz Hrng Hrd Hlt _ _ _]). split; [done|]. split; [lia|]. split; [|done].
    unfold r0, n. rewrite Hrd, Hsz, !Nat2Z.id. by rewrite Nat.mod_small. }
  pose proof (located_length _ _ _ _ _ Hloc) as (Hlen & Hn & Hmax).
  assert (Hskip : forall fuel k, (k < length c)%nat -> (length c - k <= fuel)%nat ->
    skip_loop (Z.of_nat s) start_address fuel q (Z.of_nat ((r0 + k) mod n)) = Undefined).
  { induction fuel as [|fuel IH]; intros k Hk Hf; [lia|]. cbn [skip_loop].
    destruct (_ || _); [done|]. specialize (Hnone k Hk). unfold aligned, slot in Hnone.
    destruct (Z.eqb_spec ((start_address + Z.of_nat ((r0 + k) mod n) * Z.of_nat s) mod alignment_size_ q) 0); [done|].
    destruct (decide (S k < length c)%nat) as [Hmore|Hlast].
    - rewrite (located_next _ _ q c r0 k Hloc Hmore). apply IH; lia.
    - replace (iter_next q (Z.of_nat ((r0 + k) mod n))) with iter_end.
      + assert (Hend : (iter_end <? size_ q) = false).
        { apply Z.ltb_ge. destruct Hloc as (_ & -> & _). unfold iter_end, UINT32_MAX, INT_MAX in *. lia. }
        destruct fuel; cbn [skip_loop]; rewrite Hend, orb_true_r; done.
      + pose proof Hloc as ((kind & l & r & Hat) & Hs & Hr & _). pose proof Hat as [_ Hsz _ Hrd _ _ _ _].
        assert (El : length l = n) by lia. assert (Er : r = (r0 mod n)%nat) by lia.
        rewrite <- wrap_mod, <- Er, <- El by lia. rewrite (iter_next_at q c kind l r k Hat Hk).
        by rewrite decide_False by lia. }
  destruct (located_begin _ _ q c r0 Hloc Hne) as [Eb Hb]. unfold turn_start.
  cbn [start_thread m_next_timestamp_to_record Z.eqb]. rewrite orb_true_r.
  destruct (Z.eqb_spec (iter_begin q) iter_end); [done|]. rewrite Eb. unfold iter_deref.
  destruct c as [|x c]; [done|].
  pose proof (located_slot _ _ _ _ _ 0 x Hloc eq_refl) as Ex. rewrite Nat.add_0_r in Ex. rewrite Ex. outcome.
  specialize (Hskip (S (Z.to_nat (size_ q))) 0%nat ltac:(cbn; lia)). rewrite Nat.add_0_r in Hskip.
  rewrite Hskip by (fold n; cbn [length] in *; lia). done.
Qed.

(** A write that fails gives -1, which the code takes for success: it is counted as
    written, nothing is reported and the data are not written again.  It is so for
    every write of a second recording, which finds the descriptor closed. *)
Theorem failed_write_counts {T F : Type} `{ReadoutType T} `{Posix F} (bytes_of : T -> list byte)
    (raw_bytes : list byte) (m_fd from n bytes : Z) (q : queue T) (fs : F) :
  (forall l, fs_write m_fd l fs = (false, fs)) ->
  0 <= from -> 0 <= n -> from + n <= Z.of_nat (length (memory bytes_of raw_bytes q)) ->
  write_part bytes_of raw_bytes m_fd from n q bytes fs = Ret (false, u64 (bytes + n), fs).
Proof.
  intros Hfail H1 H2 H3. unfold write_part, sys_write.
  replace (_ && _ && _) with true by (symmetry; rewrite !andb_true_iff, !Z.leb_le; lia).
  by rewrite Hfail.
Qed.

(** ** The properties at work: slots of four bytes, every other one aligned, blocks
    of four bytes and O_DIRECT *)
Import Chunk FileIO.Sample.

Definition sample_bytes (x : chunk) : list byte := [chunk_ts x; 0; 0; 0].

Definition aligned_ring : queue chunk :=
  mkQueue false 0 false 8 false false false 4 (records_ (ring_of 4 sample)) 0 3 0.

Definition sample_disk : disk := (fs_open_write "rec.bin" true (mkDisk ∅ ∅)).2.

Definition sample_zevents : list (zevent chunk) :=
  [ZStep false; ZClean; ZStep false; ZClean; ZStore (mkChunk 160); ZStep true].

Lemma aligned_ring_repr : repr aligned_ring sample.
Proof. destruct sample_repr as (k & l & r & []). by exists k, l, r. Qed.

Lemma zero_copy_complete_witness :
  exists sc k t fs', zscene_run sample_platform 4 4 sample_bytes [0; 0; 0; 0] 4 4 0 true (sample_settings half)
      sample_zevents (first_zscene aligned_ring sample ∅ no_stats sample_disk) = Ret sc
    /\ finish 4 sample_bytes [0; 0; 0; 0] 0 (zbuffer sc) (zrec sc) (zfs sc) = Ret (t, fs')
    /\ fs_contents fs' "rec.bin" = Some (concat (sample_bytes <$> take (k - 1) (drop 1 (zstored sc)))).
Proof.
  destruct (zero_copy_complete sample_platform 4 4 4 sample_bytes [0; 0; 0; 0] 4 0 true "rec.bin"
    (sample_settings half) sample_zevents aligned_ring sample (mkChunk 100) 1 ∅ no_stats sample_disk)
    as (sc & j & k & E & _ & _ & _ & (t & fs' & Ef & Hc & _) & _); try done; try lia.
  - exact disk_reliable.
  - intros _. split; [by exists 1%nat|]. split; [by exists 4%nat|]. split; [by exists 2|by exists 1].
  - exact aligned_ring_repr.
  - cbn. lia.
  - intros [|i] Hi; [by vm_compute|lia].
  - apply (increasing_sublist _ (sample ++ [mkChunk 160; mkChunk 180])); [|exact sample_increasing_more].
    apply sublist_app; [done|by repeat constructor].
  - exact (half_leaves_one 4 ltac:(lia)).
  - exists sc, k, t, fs'. split; [exact E|]. split; [exact Ef|exact Hc].
Defined.

(** The same ring, one byte off. *)
Lemma no_aligned_element_witness :
  turn_start 4 1 false aligned_ring start_thread = Undefined.
Proof.
  refine (no_aligned_element 4 1 false aligned_ring sample aligned_ring_repr ltac:(done) _).
  intros [|[|[|i]]] Hi; [by vm_compute..|cbn in Hi; lia].
Defined.
