(* ===== verification/FakeCardReader.v ===== *)
(** FakeCardReaderBase.hpp and its .hxx: a module's emulators by the name of their
    queue, over concepts/SourceEmulatorConcept.hpp as an interface. *)
From Stdlib Require Import SpecFloat.
From S2P Require Import Prelude ReadoutTypes BufferCopy ErrorBitGenerator RateLimiter FileSource SourceEmulator.

(** ** SourceEmulatorConcept

    [S] is a detector stream, [C] the emulation parameters, [E] an emulator. *)
Class SourceEmulatorConcept (S C E : Type) := {
  em_set_sender : string -> E -> option E;
  em_conf : option S -> C -> E -> outcome E;
  em_start : E -> outcome E;
  em_stop : E -> E;
  em_scrap : E -> E;
  em_is_configured : E -> bool }.

(** A configured emulator stays so until it is scrapped.  [em_set_sender] gives
    [None] when the IOManager throws; [em_conf] gets a null pointer for a stream
    that does not exist. *)
Class SourceEmulatorLaws (S C E : Type) `{SourceEmulatorConcept S C E} := {
  em_conf_configured (s : option S) (c : C) (e e' : E) : em_conf s c e = Ret e' -> em_is_configured e' = true;
  em_start_configured (e e' : E) : em_start e = Ret e' -> em_is_configured e' = em_is_configured e;
  em_stop_configured (e : E) : em_is_configured (em_stop e) = em_is_configured e;
  em_scrap_configured (e : E) : em_is_configured (em_scrap e) = false }.

(** ** The module *)
Section reader.
Context {S C E : Type} `{SourceEmulatorConcept S C E}.

(** An output of the module; [queue_source_id] is [None] when it is no
    QueueWithSourceId. *)
Record output := mkOutput { UID : string; queue_source_id : option Z }.

(** appmodel::DataReaderModule, as far as it is read: the streams of each detector
    connection with their source identifiers. *)
Record reader_conf := mkReaderConf {
  get_emulation_mode : bool;
  get_outputs : list output;
  get_connections : list (list (Z * S));
  get_emulation_conf : C }.

Record card_reader := mkCardReader {
  m_configured : bool;
  m_name : string;
  m_cfg : option reader_conf;
  m_source_emus : gmap string E;
  m_run_marker : bool }.

Definition new_reader (name : string) : card_reader := mkCardReader false name None ∅ false.

Implicit Types r : card_reader.

Definition with_emus r (emus : gmap string E) : card_reader :=
  mkCardReader (m_configured r) (m_name r) (m_cfg r) emus (m_run_marker r).

(** The derived module's; [None] is a null pointer. *)
Context (create_source_emulator : string -> option E).

(** One turn of the loop of [init]; every issue becomes a ResourceQueueError. *)
Definition init_output (qi : output) r : outcome card_reader :=
  let failed := Throw (IssueExn (ResourceQueueError (UID qi) (m_name r))) in
  match m_source_emus r !! UID qi with
  | Some _ => failed
  | None =>
      match create_source_emulator (UID qi) with
      | None => failed
      | Some emu =>
          match em_set_sender (UID qi) emu with
          | None => failed
          | Some emu => Ret (with_emus r (<[UID qi := emu]> (m_source_emus r)))
          end
      end
  end.

Fixpoint init_outputs (qs : list output) r : outcome card_reader :=
  match qs with
  | [] => Ret r
  | qi :: qs => r ← init_output qi r; init_outputs qs r
  end.

(** [get_dal] gives a null pointer when the configuration has no such module. *)
Definition init (cfg : option reader_conf) r : outcome card_reader :=
  let r := mkCardReader (m_configured r) (m_name r) cfg (m_source_emus r) (m_run_marker r) in
  match cfg with
  | Some ini => if get_emulation_mode ini then init_outputs (get_outputs ini) r else Ret r
  | None => Ret r
  end.

(** The streams by source identifier; a later one replaces an earlier one. *)
Definition streams_by_id (connections : list (list (Z * S))) : gmap Z S :=
  foldl (fun m '(id, stream) => <[u32 id := stream]> m) ∅ (concat connections).

(** One turn of the loop of [do_conf]: the module as it is then, and what is thrown.
    [streams[...]] is null for an identifier that is not there. *)
Definition conf_output (cfg : reader_conf) (qi : output) r : outcome (card_reader * option exn) :=
  match queue_source_id qi with
  | None =>
      Ret (r, Some (IssueExn (FailedFakeCardInitialization "Queue is not of type QueueWithSourceId")))
  | Some id =>
      match m_source_emus r !! UID qi with
      | None => Ret (r, Some (IssueExn (GenericConfigurationError ("Cannot find queue: " ++ UID qi))))
      | Some emu =>
          if em_is_configured emu then
            Ret (r, Some (IssueExn (GenericConfigurationError ("Emulator configured twice: " ++ UID qi))))
          else
            match em_conf (streams_by_id (get_connections cfg) !! u32 id) (get_emulation_conf cfg) emu with
            | Ret emu => Ret (with_emus r (<[UID qi := emu]> (m_source_emus r)), None)
            | Throw e => Ret (r, Some e)
            | AssertFail => AssertFail
            | Undefined => Undefined
            | OutOfFuel => OutOfFuel
            end
      end
  end.

Fixpoint conf_outputs (cfg : reader_conf) (qs : list output) r : outcome (card_reader * option exn) :=
  match qs with
  | [] => Ret (r, None)
  | qi :: qs =>
      '(r, thrown) ← conf_output cfg qi r;
      match thrown with None => conf_outputs cfg qs r | Some _ => Ret (r, thrown) end
  end.

Definition all_configured (emus : gmap string E) : bool :=
  bool_decide (map_Forall (fun _ emu => em_is_configured emu = true) emus).

Definition do_conf r : outcome (card_reader * option exn) :=
  if m_configured r then Ret (r, None)
  else
    cfg ← deref (m_cfg r);
    '(r, thrown) ← conf_outputs cfg (get_outputs cfg) r;
    match thrown with
    | Some _ => Ret (r, thrown)
    | None =>
        if all_configured (m_source_emus r)
        then Ret (mkCardReader true (m_name r) (m_cfg r) (m_source_emus r) (m_run_marker r), None)
        else Ret (r, Some (IssueExn (GenericConfigurationError "Not all links were configured")))
    end.

Definition do_scrap r : card_reader :=
  mkCardReader false (m_name r) (m_cfg r) (em_scrap <$> m_source_emus r) (m_run_marker r).

(** A loop over the emulators; they do not depend on each other. *)
Fixpoint each (act : E -> outcome E) (l : list (string * E)) : outcome (gmap string E) :=
  match l with
  | [] => Ret ∅
  | (name, emu) :: l => emu ← act emu; m ← each act l; Ret (<[name := emu]> m)
  end.

Definition do_start r : outcome card_reader :=
  emus ← each em_start (map_to_list (m_source_emus r));
  Ret (mkCardReader (m_configured r) (m_name r) (m_cfg r) emus true).

Definition do_stop r : card_reader :=
  mkCardReader (m_configured r) (m_name r) (m_cfg r) (em_stop <$> m_source_emus r) false.
End reader.
Arguments reader_conf : clear implicits.
Arguments card_reader : clear implicits.

(** *** Sequences of commands *)

Inductive reader_command := Conf | Scrap | Start | Stop.

(** The module after a command, thrown or not. *)
Definition run_command {S C E} `{SourceEmulatorConcept S C E} (c : reader_command) (r : card_reader S C E)
    : outcome (card_reader S C E) :=
  match c with
  | Conf => '(r, _) ← do_conf r; Ret r
  | Scrap => Ret (do_scrap r)
  | Start => do_start r
  | Stop => Ret (do_stop r)
  end.

Fixpoint run_commands {S C E} `{SourceEmulatorConcept S C E} (cs : list reader_command) (r : card_reader S C E)
    : outcome (card_reader S C E) :=
  match cs with
  | [] => Ret r
  | c :: cs => r ← run_command c r; run_commands cs r
  end.

(** ** The emulators of SourceEmulatorModel.hpp

    confmodel::DetectorStream, as far as [conf] reads it. *)
Record detector_stream := mkStream {
  stream_source : SourceID;
  stream_crate : Z;
  stream_slot : Z;
  stream_id : Z }.

Definition with_stream (s : detector_stream) (c : emulation_settings) : emulation_settings :=
  mkEmulation (stream_source s) (stream_crate s) (stream_slot s) (stream_id s) (get_set_t0 c)
    (get_input_file_size_limit c) (get_data_file_name c) (get_random_population_size c)
    (get_generate_periodic_adc_pattern c) (get_tp_rate c).

Section instance.
Context {T : Type} `{RT : ReadoutType T} `{EM : EmulatedType T}.
Context (args : emulator_args) (what : issue -> string) (connected : string -> bool).
Context (files : string -> option (list byte)) (draw : nat -> spec_float) (words errors no_errors : list Z)
  (rand : nat -> Z) (clock : nat -> Z).

(** A null stream is dereferenced unless the emulator was configured already. *)
Definition conf_stream (s : option detector_stream) (c : emulation_settings) (e : emulator) : outcome emulator :=
  match s with
  | Some s => '(e, _) ← SourceEmulator.conf (T:=T) args what (with_stream s c) files draw words errors no_errors rand e; Ret e
  | None => if SourceEmulator.is_configured e then Ret e else Undefined
  end.

Definition start_source (e : emulator) : outcome emulator := '(_, e) ← SourceEmulator.start args clock 0 e; Ret e.

(** [stop] waits for the thread. *)
Definition source_emulator_concept : SourceEmulatorConcept detector_stream emulation_settings emulator := {|
  em_set_sender name e := if connected name then Some e else None;
  em_conf := conf_stream;
  em_start := start_source;
  em_stop e := e;
  em_scrap := SourceEmulator.scrap;
  em_is_configured := SourceEmulator.is_configured |}.

Lemma source_emulator_laws :
  @SourceEmulatorLaws detector_stream emulation_settings emulator source_emulator_concept.
Proof.
  split; [intros s c e e' Hc | intros e e' Hs | done | done]; cbn in *.
  - destruct s as [s|]; cbn [conf_stream] in Hc.
    + apply bind_Ret_inv in Hc as ([e1 w] & H1 & [= <-]). revert H1. unfold SourceEmulator.conf, SourceEmulator.is_configured.
      destruct (m_configuration e) eqn:Ec; [intros [= <- _]; by rewrite Ec|].
      intros ([source w1] & _ & H1)%bind_Ret_inv.
      destruct (get_generate_periodic_adc_pattern _); by injection H1 as <- _.
    + unfold conf_stream in Hc. destruct (SourceEmulator.is_configured e) eqn:Ec; [|done]. by injection Hc as <-.
  - unfold start_source in Hs. apply bind_Ret_inv in Hs as ([n e1] & H1 & [= <-]).
    unfold SourceEmulator.start in H1. apply bind_Ret_inv in H1 as ([n1 l] & _ & H1).
    by injection H1 as _ <-.
Qed.
End instance.

(** ** Lemmas *)
Section lemmas.
Context {S C E : Type} `{SourceEmulatorLaws S C E}.
Context (create_source_emulator : string -> option E).
Implicit Types (r : card_reader S C E) (cfg : reader_conf S C).

(** What [init] makes of an output. *)
Definition made (name : string) : option E := create_source_emulator name ≫= em_set_sender name.

Lemma init_outputs_made (qs : list output) r :
  NoDup (UID <$> qs) -> (forall qi, qi ∈ qs -> m_source_emus r !! UID qi = None /\ is_Some (made (UID qi))) ->
  exists r', init_outputs create_source_emulator qs r = Ret r'
    /\ m_cfg r' = m_cfg r /\ m_configured r' = m_configured r /\ m_run_marker r' = m_run_marker r
    /\ forall name, m_source_emus r' !! name
         = if decide (name ∈ UID <$> qs) then made name else m_source_emus r !! name.
Proof.
  revert r. induction qs as [|qi qs IH]; intros r Hdup Hmade; cbn [init_outputs].
  { exists r. by split_and!. }
  cbn [fmap list_fmap] in Hdup. apply NoDup_cons in Hdup as [Hnew Hdup].
  destruct (Hmade qi) as [Hnone [emu Hemu]]; [by left|].
  assert (Einit : init_output create_source_emulator qi r = Ret (with_emus r (<[UID qi := emu]> (m_source_emus r)))).
  { unfold init_output. rewrite Hnone. unfold made in Hemu.
    destruct (create_source_emulator (UID qi)); [|done]. cbn in Hemu. by rewrite Hemu. }
  rewrite Einit. outcome.
  destruct (IH (with_emus r (<[UID qi := emu]> (m_source_emus r))) Hdup) as (r' & -> & Hr' & Hc & Hm & Hlook).
  { intros q Hq. cbn. destruct (Hmade q) as [Hq1 Hq2]; [by right|]. split; [|done].
    rewrite lookup_insert_ne; [done|]. intros Heq. apply Hnew. rewrite Heq. by apply list_elem_of_fmap_2. }
  exists r'. split_and!; try done. intros name. rewrite Hlook. cbn [with_emus m_source_emus fmap list_fmap].
  destruct (decide (name = UID qi)) as [->|Hne].
  - rewrite (decide_True (P := UID qi ∈ UID qi :: _)) by left.
    destruct (decide (UID qi ∈ UID <$> qs)); [done|]. by rewrite lookup_insert_eq, Hemu.
  - rewrite lookup_insert_ne by done.
    destruct (decide (name ∈ UID <$> qs)) as [Hin|Hout].
    + by rewrite decide_True by (by right).
    + rewrite decide_False; [done|]. intros [?|?]%elem_of_cons; done.
Qed.

(** The stream of a source identifier among the streams of the connections, in their
    order: the last one with the identifier, as a [uint32_t]; a null pointer if none has. *)
Definition stream_for (streams : list (Z * S)) (id : Z) (stream : option S) : Prop :=
  match stream with
  | Some x => exists before id' after,
      streams = before ++ (id', x) :: after /\ u32 id' = id /\ Forall (fun y => u32 (fst y) <> id) after
  | None => Forall (fun y => u32 (fst y) <> id) streams
  end.

Lemma stream_for_snoc (streams : list (Z * S)) (id : Z) y stream :
  stream_for streams id stream ->
  stream_for (streams ++ [y]) id (if decide (u32 (fst y) = id) then Some (snd y) else stream).
Proof.
  intros Hs. case_decide as Hy.
  - exists streams, (fst y), []. by destruct y.
  - destruct stream as [x|]; cbn in *.
    + destruct Hs as (before & id' & after & -> & Hid & Hafter).
      exists before, id', (after ++ [y]). rewrite <- app_assoc. split; [done|]. split; [done|].
      apply Forall_app. by repeat constructor.
    + apply Forall_app. by repeat constructor.
Qed.

(** What [do_conf] collects. *)
Lemma streams_by_id_spec (connections : list (list (Z * S))) (id : Z) :
  stream_for (concat connections) id (streams_by_id connections !! id).
Proof.
  unfold streams_by_id. induction (concat connections) as [|[i x] streams IH] using rev_ind; [by constructor|].
  rewrite foldl_app. cbn [foldl]. pose proof (stream_for_snoc streams id (i, x) _ IH) as Hs. cbn [fst snd] in Hs.
  case_decide as Hi.
  - by rewrite Hi, lookup_insert_eq.
  - by rewrite lookup_insert_ne.
Qed.

(** There is no other. *)
Lemma stream_for_unique (streams : list (Z * S)) (id : Z) stream stream' :
  stream_for streams id stream -> stream_for streams id stream' -> stream = stream'.
Proof.
  revert stream stream'. induction streams as [|[i x] streams IH] using rev_ind; intros stream stream' Hs Hs'.
  - destruct stream as [y|]; [destruct Hs as (before & ? & after & Eq & _); by destruct before|].
    destruct stream' as [y|]; [destruct Hs' as (before & ? & after & Eq & _); by destruct before|done].
  - assert (Hsnoc : forall z, stream_for (streams ++ [(i, x)]) id z ->
      (u32 i = id /\ z = Some x) \/ (u32 i <> id /\ stream_for streams id z)).
    { intros [z|] Hz; cbn in *.
      - destruct Hz as (before & id' & after & Eq & Hid & Hafter).
        destruct after as [|y after _] using rev_ind.
        + apply app_inj_2 in Eq as [_ Eq]; [|done]. injection Eq as -> ->. by left.
        + rewrite app_comm_cons, app_assoc in Eq. apply app_inj_2 in Eq as [-> Eq]; [|done]. injection Eq as <-.
          apply Forall_app in Hafter as [Hafter [Hi _]%Forall_cons]. right. split; [exact Hi|].
          by exists before, id', after.
      - apply Forall_app in Hz as [Hz [Hi _]%Forall_cons]. by right. }
    destruct (Hsnoc _ Hs) as [[H1 ->]|[H1 H2]], (Hsnoc _ Hs') as [[H3 ->]|[H3 H4]]; try done. by apply IH.
Qed.

(** The emulator [qi] ends up with, from [emu]. *)
Definition configured_with cfg (qi : output) (emu emu' : E) : Prop :=
  exists id stream, queue_source_id qi = Some id
    /\ stream_for (concat (get_connections cfg)) (u32 id) stream
    /\ em_conf stream (get_emulation_conf cfg) emu = Ret emu'.

Lemma configured_with_spec cfg (qi : output) (emu emu' : E) :
  configured_with cfg qi emu emu' <-> exists id, queue_source_id qi = Some id
    /\ em_conf (streams_by_id (get_connections cfg) !! u32 id) (get_emulation_conf cfg) emu = Ret emu'.
Proof.
  split.
  - intros (id & stream & Hid & Hs & Hc). exists id. split; [done|].
    by rewrite (stream_for_unique _ _ _ _ (streams_by_id_spec _ (u32 id)) Hs).
  - intros (id & Hid & Hc). exists id. eexists. split; [done|]. split; [apply streams_by_id_spec|done].
Qed.

Lemma conf_output_ok cfg (qi : output) r emu emu' :
  m_source_emus r !! UID qi = Some emu -> em_is_configured emu = false -> configured_with cfg qi emu emu' ->
  conf_output cfg qi r = Ret (with_emus r (<[UID qi := emu']> (m_source_emus r)), None).
Proof. intros Hemu Hnew (id & Hid & Hconf)%configured_with_spec. unfold conf_output. by rewrite Hid, Hemu, Hnew, Hconf. Qed.

Lemma conf_outputs_ok cfg (qs : list output) r (final : string -> E) :
  NoDup (UID <$> qs) ->
  (forall qi, qi ∈ qs -> exists emu, m_source_emus r !! UID qi = Some emu /\ em_is_configured emu = false
     /\ configured_with cfg qi emu (final (UID qi))) ->
  exists r', conf_outputs cfg qs r = Ret (r', None)
    /\ m_name r' = m_name r /\ m_cfg r' = m_cfg r /\ m_run_marker r' = m_run_marker r
    /\ forall name, m_source_emus r' !! name
         = if decide (name ∈ UID <$> qs) then Some (final name) else m_source_emus r !! name.
Proof.
  revert r. induction qs as [|qi qs IH]; intros r Hdup Hqs; cbn [conf_outputs].
  { exists r. by split_and!. }
  cbn [fmap list_fmap] in Hdup. apply NoDup_cons in Hdup as [Hnew Hdup].
  destruct (Hqs qi) as (emu & Hemu & Hun & Hconf); [by left|].
  rewrite (conf_output_ok cfg qi r emu _ Hemu Hun Hconf). outcome.
  destruct (IH (with_emus r (<[UID qi := final (UID qi)]> (m_source_emus r))) Hdup) as (r' & -> & Hn & Hc & Hm & Hlook).
  { intros q Hq. destruct (Hqs q) as (emu' & H1 & H2 & H3); [by right|]. exists emu'. split; [|done].
    cbn. rewrite lookup_insert_ne; [done|]. intros Heq. apply Hnew. rewrite Heq. by apply list_elem_of_fmap_2. }
  exists r'. split_and!; try done. intros name. rewrite Hlook. cbn [with_emus m_source_emus fmap list_fmap].
  destruct (decide (name = UID qi)) as [->|Hne].
  - rewrite (decide_True (P := UID qi ∈ UID qi :: _)) by left.
    destruct (decide (UID qi ∈ UID <$> qs)); [done|]. by rewrite lookup_insert_eq.
  - rewrite lookup_insert_ne by done.
    destruct (decide (name ∈ UID <$> qs)) as [Hin|Hout].
    + by rewrite decide_True by (by right).
    + rewrite decide_False; [done|]. intros [?|?]%elem_of_cons; done.
Qed.

(** Making more emulators leaves one alone. *)
Lemma init_outputs_other (qs : list output) r r' name :
  init_outputs create_source_emulator qs r = Ret r' -> name ∉ UID <$> qs ->
  m_source_emus r' !! name = m_source_emus r !! name.
Proof.
  revert r. induction qs as [|qi qs IH]; intros r; cbn [init_outputs fmap list_fmap]; [by intros [= <-]|].
  intros (r1 & H1 & H2)%bind_Ret_inv [Hn1 Hn2]%not_elem_of_cons. rewrite (IH r1 H2 Hn2). unfold init_output in H1.
  destruct (m_source_emus r !! UID qi); [done|]. destruct (create_source_emulator _); [|done].
  destruct (em_set_sender _ _); [|done]. injection H1 as <-. cbn. by rewrite lookup_insert_ne.
Qed.

(** What must have been for nothing to be thrown. *)
Lemma init_outputs_inv (qs : list output) r r' :
  init_outputs create_source_emulator qs r = Ret r' ->
  NoDup (UID <$> qs) /\ m_cfg r' = m_cfg r /\ m_configured r' = m_configured r
  /\ forall qi, qi ∈ qs -> m_source_emus r !! UID qi = None
       /\ exists emu, made (UID qi) = Some emu /\ m_source_emus r' !! UID qi = Some emu.
Proof.
  revert r. induction qs as [|qi qs IH]; intros r; cbn [init_outputs fmap list_fmap].
  { intros [= <-]. split; [constructor|]. split; [done|]. split; [done|]. by intros ? ?%elem_of_nil. }
  intros (r1 & H1 & H2)%bind_Ret_inv. destruct (IH r1 H2) as (Hdup & Hcfg & Hc & Hqs).
  unfold init_output in H1. destruct (m_source_emus r !! UID qi) eqn:Enone; [done|].
  destruct (create_source_emulator (UID qi)) as [e0|] eqn:Ecreate; [|done].
  destruct (em_set_sender (UID qi) e0) as [emu|] eqn:Eset; [|done]. injection H1 as <-.
  assert (Hmade : made (UID qi) = Some emu) by (unfold made; by rewrite Ecreate).
  assert (Hnew : UID qi ∉ UID <$> qs).
  { intros (q & Eq & Hq)%list_elem_of_fmap. destruct (Hqs q Hq) as [Hn _]. cbn in Hn.
    rewrite <- Eq, lookup_insert_eq in Hn. done. }
  split; [by constructor|]. split; [done|]. split; [done|]. intros q [->|Hq]%elem_of_cons.
  - split; [done|]. exists emu. split; [done|]. rewrite (init_outputs_other qs _ _ (UID qi) H2 Hnew). cbn.
    by rewrite lookup_insert_eq.
  - destruct (Hqs q Hq) as [Hn Hm]. split; [|done]. cbn in Hn. rewrite lookup_insert_ne in Hn; [done|].
    intros Heq. apply Hnew. rewrite Heq. by apply list_elem_of_fmap_2.
Qed.

Lemma conf_outputs_inv cfg (qs : list output) r r' :
  NoDup (UID <$> qs) -> conf_outputs cfg qs r = Ret (r', None) ->
  (forall name, name ∉ UID <$> qs -> m_source_emus r' !! name = m_source_emus r !! name)
  /\ forall qi, qi ∈ qs -> exists emu emu', m_source_emus r !! UID qi = Some emu /\ em_is_configured emu = false
       /\ configured_with cfg qi emu emu' /\ m_source_emus r' !! UID qi = Some emu'.
Proof.
  revert r. induction qs as [|qi qs IH]; intros r Hdup; cbn [conf_outputs].
  { intros [= <-]. split; [done|]. by intros ? ?%elem_of_nil. }
  cbn [fmap list_fmap] in Hdup |- *. apply NoDup_cons in Hdup as [Hnew Hdup].
  intros ([r1 t1] & H1 & H2)%bind_Ret_inv. unfold conf_output in H1.
  destruct (queue_source_id qi) as [id|] eqn:Eid; [|injection H1 as <- <-; done].
  destruct (m_source_emus r !! UID qi) as [emu|] eqn:Eemu; [|injection H1 as <- <-; done].
  destruct (em_is_configured emu) eqn:Ec; [injection H1 as <- <-; done|].
  destruct (em_conf _ _ emu) as [emu'| | | |] eqn:Econf; try done; injection H1 as <- <-; [|done].
  destruct (IH _ Hdup H2) as [Hother Hqs]. cbn [with_emus m_source_emus] in *. split.
  - intros name [Hn1 Hn2]%not_elem_of_cons. rewrite Hother by done. by rewrite lookup_insert_ne.
  - intros q [->|Hq]%elem_of_cons.
    + exists emu, emu'. split; [done|]. split; [done|]. split; [apply configured_with_spec; by exists id|].
      by rewrite Hother, lookup_insert_eq.
    + destruct (Hqs q Hq) as (e1 & e2 & He1 & Hq'). exists e1, e2. split; [|done].
      rewrite lookup_insert_ne in He1; [done|]. intros Heq. apply Hnew. rewrite Heq. by apply list_elem_of_fmap_2.
Qed.

(** Configuring more outputs leaves a configured emulator configured. *)
Lemma conf_outputs_keep cfg (qs : list output) r r' thrown name emu :
  conf_outputs cfg qs r = Ret (r', thrown) -> m_source_emus r !! name = Some emu -> em_is_configured emu = true ->
  m_configured r' = m_configured r /\ m_cfg r' = m_cfg r
  /\ exists emu', m_source_emus r' !! name = Some emu' /\ em_is_configured emu' = true.
Proof.
  revert r emu. induction qs as [|qi qs IH]; intros r emu; cbn [conf_outputs]; [intros [= <- _]; by eauto|].
  intros ([r1 t1] & H1 & H2)%bind_Ret_inv Hemu Hc.
  assert (Hr1 : m_configured r1 = m_configured r /\ m_cfg r1 = m_cfg r
    /\ exists emu', m_source_emus r1 !! name = Some emu' /\ em_is_configured emu' = true).
  { unfold conf_output in H1. destruct (queue_source_id qi); [|injection H1 as <- _; by eauto].
    destruct (m_source_emus r !! UID qi) as [e0|] eqn:E0; [|injection H1 as <- _; by eauto].
    destruct (em_is_configured e0) eqn:Ec0; [injection H1 as <- _; by eauto|].
    destruct (em_conf _ _ e0) as [e1| | | |] eqn:Ec; try done; injection H1 as <- _; [|by eauto].
    split; [done|]. split; [done|]. exists emu. split; [|done]. cbn.
    rewrite lookup_insert_ne; [done|]. intros Heq. rewrite Heq in E0. rewrite E0 in Hemu.
    injection Hemu as ->. congruence. }
  destruct Hr1 as (Hm1 & Hf1 & emu' & He' & Hc'). destruct t1; [injection H2 as <- _; by eauto|].
  destruct (IH r1 emu' H2 He' Hc') as (Hm & Hf & ?). split; [congruence|]. split; [congruence|done].
Qed.

(** A loop over the emulators gives each of them its turn. *)
Lemma each_lookup (act : E -> outcome E) (l : list (string * E)) (m : gmap string E) name e' :
  each act l = Ret m -> m !! name = Some e' -> exists e, (name, e) ∈ l /\ act e = Ret e'.
Proof.
  revert m. induction l as [|[n e] l IH]; intros m; cbn [each]; [intros [= <-]; by rewrite lookup_empty|].
  intros (e1 & He & (m1 & Hm & [= <-])%bind_Ret_inv)%bind_Ret_inv.
  rewrite lookup_insert_Some. intros [[<- <-]|[_ Hlook]].
  - exists e. split; [by left|done].
  - destruct (IH m1 Hm Hlook) as (e2 & Hin & Hact). exists e2. split; [by right|done].
Qed.

(** The module's flag says so only when every emulator is configured. *)
Definition sound r : Prop :=
  m_configured r = true -> map_Forall (fun _ emu => em_is_configured emu = true) (m_source_emus r).

Lemma run_command_sound (c : reader_command) r r' : run_command c r = Ret r' -> sound r -> sound r'.
Proof.
  intros Hrun Hr. destruct c; cbn [run_command] in Hrun.
  - apply bind_Ret_inv in Hrun as ([r1 t] & Hconf & [= <-]). unfold do_conf in Hconf.
    destruct (m_configured r) eqn:Ec; [by injection Hconf as <- _|].
    apply bind_Ret_inv in Hconf as (cfg & _ & Hconf). apply bind_Ret_inv in Hconf as ([r2 t2] & H2 & Hconf).
    assert (Hr2 : m_configured r2 = false).
    { clear -H2 Ec. revert r Ec H2. induction (get_outputs cfg) as [|qi qs IH]; intros r Ec; cbn [conf_outputs].
      - by intros [= <- _].
      - intros ([r3 t3] & H3 & H2)%bind_Ret_inv.
        assert (m_configured r3 = false).
        { unfold conf_output in H3. destruct (queue_source_id qi); [|by injection H3 as <- _].
          destruct (m_source_emus r !! UID qi); [|by injection H3 as <- _].
          destruct (em_is_configured _); [by injection H3 as <- _|].
          destruct (em_conf _ _ _); try done; by injection H3 as <- _. }
        destruct t3; [by injection H2 as <- _|]. by apply (IH r3). }
    destruct t2; [injection Hconf as <- _; intros Ht; congruence|].
    destruct (all_configured (m_source_emus r2)) eqn:Eall; injection Hconf as <- _.
    + intros _. by apply bool_decide_eq_true in Eall.
    + intros Ht. congruence.
  - injection Hrun as <-. by intros [=].
  - unfold do_start in Hrun. apply bind_Ret_inv in Hrun as (emus & Heach & [= <-]).
    intros Ht name e' He'. cbn in Ht, He'.
    destruct (each_lookup _ _ _ _ _ Heach He') as (e & Hin & Hact).
    apply elem_of_map_to_list in Hin. rewrite (em_start_configured _ _ Hact). by apply (Hr Ht name).
  - injection Hrun as <-. intros Ht name e' He'. cbn in Ht, He'.
    apply lookup_fmap_Some in He' as (e & <- & He). rewrite em_stop_configured. by apply (Hr Ht name).
Qed.

(** C31: with the emulation mode on, [init] and the first [do_conf] throw nothing exactly
    when the outputs have different names and each of them has a source identifier and an
    emulator that can be made, is not configured yet, and can be configured with the
    stream of the identifier: the last stream of the connections that has it, or a null
    pointer.  The module is then configured, each output has its emulator with its stream,
    and there are no others. *)
Theorem init_conf_correct cfg name :
  get_emulation_mode cfg = true ->
  (forall final : string -> E, NoDup (UID <$> get_outputs cfg) ->
   (forall qi, qi ∈ get_outputs cfg -> exists emu, made (UID qi) = Some emu /\ em_is_configured emu = false
      /\ configured_with cfg qi emu (final (UID qi))) ->
   exists r r', init create_source_emulator (Some cfg) (new_reader name) = Ret r
     /\ do_conf r = Ret (r', None)
     /\ m_configured r' = true /\ m_run_marker r' = false
     /\ forall n, m_source_emus r' !! n = if decide (n ∈ UID <$> get_outputs cfg) then Some (final n) else None)
  /\ (forall r r', init create_source_emulator (Some cfg) (new_reader name) = Ret r -> do_conf r = Ret (r', None) ->
      NoDup (UID <$> get_outputs cfg)
      /\ forall qi, qi ∈ get_outputs cfg -> exists emu emu', made (UID qi) = Some emu /\ em_is_configured emu = false
           /\ configured_with cfg qi emu emu' /\ m_source_emus r' !! UID qi = Some emu').
Proof.
  intros Hmode. unfold init. rewrite Hmode. split.
  - intros final Hdup Hqs.
    destruct (init_outputs_made (get_outputs cfg) (mkCardReader false name (Some cfg) ∅ false) Hdup)
      as (r & Hr & Hcfg & Hc & Hm & Hlook).
    { intros qi Hqi. split; [apply lookup_empty|]. destruct (Hqs qi Hqi) as (emu & -> & _). by eexists. }
    destruct (conf_outputs_ok cfg (get_outputs cfg) r final Hdup) as (r' & Hr' & Hn' & Hcfg' & Hm' & Hlook').
    { intros qi Hqi. destruct (Hqs qi Hqi) as (emu & Hemu & Hun & Hconf). exists emu. split; [|done].
      rewrite Hlook, decide_True by (by apply list_elem_of_fmap_2). done. }
    assert (Hall : forall n, m_source_emus r' !! n
      = if decide (n ∈ UID <$> get_outputs cfg) then Some (final n) else None).
    { intros n. rewrite Hlook'. destruct (decide _) as [|Hout]; [done|]. rewrite Hlook, decide_False by done.
      apply lookup_empty. }
    exists r, (mkCardReader true (m_name r') (m_cfg r') (m_source_emus r') (m_run_marker r')).
    split; [exact Hr|]. split; [|split_and!; [done|cbn in *; congruence|done]].
    unfold do_conf. rewrite Hc. cbn [m_configured]. rewrite Hcfg. cbn. rewrite Hr'. outcome.
    assert (Hconfigured : all_configured (m_source_emus r') = true); [|by rewrite Hconfigured].
    apply bool_decide_eq_true. intros n emu. rewrite Hall. destruct (decide _) as [Hin|]; [|done]. intros [= <-].
    apply list_elem_of_fmap in Hin as (qi & -> & Hqi).
    destruct (Hqs qi Hqi) as (emu & _ & _ & id & stream & _ & _ & Hconf). by apply (em_conf_configured _ _ _ _ Hconf).
  - intros r r' Hr Hdo. apply init_outputs_inv in Hr as (Hdup & Hcfg & Hc & Hmade). cbn in Hcfg, Hc, Hmade.
    split; [done|]. unfold do_conf in Hdo. rewrite Hc, Hcfg in Hdo. cbn in Hdo.
    apply bind_Ret_inv in Hdo as ([r1 t] & Hconf & Hdo). destruct t; [done|].
    destruct (all_configured _); [|done]. injection Hdo as <-. cbn [m_source_emus].
    apply conf_outputs_inv in Hconf as [_ Hconf]; [|done]. intros qi Hqi.
    destruct (Hmade qi Hqi) as (_ & emu & Hemu & Elook). destruct (Hconf qi Hqi) as (e1 & emu' & He1 & Hrest).
    rewrite Elook in He1. injection He1 as <-. by exists emu, emu'.
Qed.

(** After any [init] and any sequence of commands, thrown or not, a module that
    says it is configured has only configured emulators. *)
Theorem configured_sound (cfg : option (reader_conf S C)) name (cs : list reader_command) r r' :
  init create_source_emulator cfg (new_reader name) = Ret r -> run_commands cs r = Ret r' ->
  m_configured r' = true -> map_Forall (fun _ emu => em_is_configured emu = true) (m_source_emus r').
Proof.
  intros Hinit Hrun. assert (Hr : sound r).
  { assert (Hkeep : forall qs r r', init_outputs create_source_emulator qs r = Ret r' ->
      m_configured r' = m_configured r).
    { clear. induction qs as [|qi qs IH]; intros r r'; cbn [init_outputs]; [by intros [= <-]|].
      intros (r1 & H1 & H2)%bind_Ret_inv. rewrite (IH _ _ H2). unfold init_output in H1.
      destruct (m_source_emus r !! UID qi); [done|]. destruct (create_source_emulator _); [|done].
      destruct (em_set_sender _ _); [|done]. by injection H1 as <-. }
    unfold init in Hinit. intros Hc. destruct cfg as [c|]; [destruct (get_emulation_mode c)|].
    - rewrite (Hkeep _ _ _ Hinit) in Hc. done.
    - by injection Hinit as <-.
    - by injection Hinit as <-. }
  clear Hinit. revert r Hr Hrun. induction cs as [|c cs IH]; intros r Hr; cbn [run_commands].
  - intros [= <-]. exact Hr.
  - intros (r1 & H1 & H2)%bind_Ret_inv. apply (IH r1); [|done]. by apply (run_command_sound c r).
Qed.

(** When a configuration fails after its first output, the next [do_conf] is
    refused at that output, whatever made the first one fail: the emulators
    configured so far are not scrapped. *)
Theorem conf_not_retryable cfg (qi : output) (qs : list output) r r1 e emu emu' :
  m_cfg r = Some cfg -> m_configured r = false -> get_outputs cfg = qi :: qs ->
  m_source_emus r !! UID qi = Some emu -> em_is_configured emu = false -> configured_with cfg qi emu emu' ->
  do_conf r = Ret (r1, Some e) ->
  do_conf r1 = Ret (r1, Some (IssueExn (GenericConfigurationError ("Emulator configured twice: " ++ UID qi)))).
Proof.
  intros Hcfg Hc Hout Hemu Hun Hconf Hdo. unfold do_conf in Hdo. rewrite Hc, Hcfg in Hdo. cbn in Hdo.
  rewrite Hout in Hdo. cbn [conf_outputs] in Hdo.
  rewrite (conf_output_ok cfg qi r emu emu' Hemu Hun Hconf) in Hdo. outcome.
  apply bind_Ret_inv in Hdo as ([r2 t] & H2 & Hdo).
  apply configured_with_spec in Hconf as (id & Hid & Hconf).
  destruct (conf_outputs_keep cfg qs _ r2 t (UID qi) emu' H2) as (Hc2 & Hcfg2 & emu2 & Hemu2 & Hun2).
  { cbn. apply lookup_insert_eq. }
  { by apply (em_conf_configured _ _ _ _ Hconf). }
  cbn in Hc2, Hcfg2.
  assert (r1 = r2) as ->.
  { destruct t; [by injection Hdo|]. destruct (all_configured _); by injection Hdo. }
  unfold do_conf. rewrite Hc2, Hc, Hcfg2, Hcfg. cbn. rewrite Hout. cbn [conf_outputs].
  unfold conf_output. by rewrite Hid, Hemu2, Hun2.
Qed.
End lemmas.

(** ** The properties at work: a module with an emulator on each of two queues, over
    SourceEmulatorModel.hpp and the file of its sample *)
Import Chunk.

#[export] Instance sample_concept : SourceEmulatorConcept detector_stream emulation_settings emulator :=
  source_emulator_concept (T:=chunk) sample_args (fun _ => EmptyString) (fun _ => true) (sample_file [1; 0; 2; 0; 9])
    sample_draw sample_words (replicate 1000 2) (replicate 1000 3) Z.of_nat sample_clock.

#[export] Instance sample_laws : SourceEmulatorLaws detector_stream emulation_settings emulator :=
  source_emulator_laws (T:=chunk) sample_args (fun _ => EmptyString) (fun _ => true) (sample_file [1; 0; 2; 0; 9])
    sample_draw sample_words (replicate 1000 2) (replicate 1000 3) Z.of_nat sample_clock.

Definition sample_stream : detector_stream := mkStream (mkSourceID 1 7) 1 2 3.

(** [second] is the source identifier of the second queue, if it has one. *)
Definition sample_reader_conf (second : option Z) : reader_conf detector_stream emulation_settings :=
  mkReaderConf true [mkOutput "queue_7" (Some 7); mkOutput "queue_8" second]
    [[(7, sample_stream)]; [(8, mkStream (mkSourceID 1 8) 1 2 4)]] (sample_emulation 3).

Definition sample_create (_ : string) : option emulator := Some (new_emulator 0).

Definition sample_configured (id : Z) : emulator :=
  match em_conf (streams_by_id (get_connections (sample_reader_conf (Some 8))) !! u32 id) (sample_emulation 3)
          (new_emulator 0) with
  | Ret e => e
  | _ => new_emulator 0
  end.

Lemma sample_configured_with (qi : output) (second : option Z) id :
  queue_source_id qi = Some id -> id = 7 \/ id = 8 ->
  configured_with (sample_reader_conf second) qi (new_emulator 0) (sample_configured id).
Proof.
  intros Hid Hor. apply configured_with_spec. exists id. split; [exact Hid|].
  change (get_connections (sample_reader_conf second)) with (get_connections (sample_reader_conf (Some 8))).
  destruct Hor as [-> | ->]; vm_compute; reflexivity.
Qed.

Lemma init_conf_correct_witness :
  exists r r', init sample_create (Some (sample_reader_conf (Some 8))) (new_reader "reader") = Ret r
    /\ do_conf r = Ret (r', None) /\ m_configured r' = true
    /\ m_source_emus r' !! "queue_7" = Some (sample_configured 7)
    /\ exists emu emu', configured_with (sample_reader_conf (Some 8)) (mkOutput "queue_8" (Some 8)) emu emu'.
Proof.
  destruct (init_conf_correct sample_create (sample_reader_conf (Some 8)) "reader" eq_refl) as [Hif Honly].
  destruct (Hif (fun name => sample_configured (if String.eqb name "queue_7" then 7 else 8)))
    as (r & r' & Hinit & Hconf & Hc & _ & Hlook).
  - by apply (bool_decide_unpack _); vm_compute.
  - intros qi Hqi. exists (new_emulator 0). split; [reflexivity|]. split; [reflexivity|].
    cbn in Hqi. apply elem_of_cons in Hqi as [-> | Hqi].
    + exact (sample_configured_with (mkOutput "queue_7" (Some 7)) (Some 8) 7 eq_refl (or_introl eq_refl)).
    + apply list_elem_of_singleton in Hqi as ->.
      exact (sample_configured_with (mkOutput "queue_8" (Some 8)) (Some 8) 8 eq_refl (or_intror eq_refl)).
  - destruct (Honly r r' Hinit Hconf) as [_ Hall].
    destruct (Hall (mkOutput "queue_8" (Some 8)) ltac:(by right; left)) as (emu & emu' & _ & _ & Hwith & _).
    exists r, r'. split; [exact Hinit|]. split; [exact Hconf|]. split; [exact Hc|]. split; [exact (Hlook "queue_7")|].
    by exists emu, emu'.
Defined.

(** The second queue has no source identifier: the first [do_conf] throws, and the
    second one because of the first queue. *)
Lemma conf_not_retryable_witness :
  exists r r1 e,
    init sample_create (Some (sample_reader_conf None)) (new_reader "reader") = Ret r
    /\ do_conf r = Ret (r1, Some e)
    /\ do_conf r1
       = Ret (r1, Some (IssueExn (GenericConfigurationError ("Emulator configured twice: " ++ "queue_7")))).
Proof.
  set (r := mkCardReader false "reader" (Some (sample_reader_conf None))
    (<["queue_8" := new_emulator 0]> (<["queue_7" := new_emulator 0]> ∅)) false).
  assert (Hdo : match do_conf r with Ret (_, Some _) => true | _ => false end = true)
    by (vm_compute; reflexivity).
  destruct (do_conf r) as [[r1 [e|]]| | | |] eqn:Edo; try discriminate Hdo.
  exists r, r1, e. split; [reflexivity|]. split; [exact Edo|].
  apply (conf_not_retryable (sample_reader_conf None) (mkOutput "queue_7" (Some 7)) [mkOutput "queue_8" None]
    r r1 e (new_emulator 0) (sample_configured 7)).
  - reflexivity.
  - reflexivity.
  - reflexivity.
  - reflexivity.
  - reflexivity.
  - exact (sample_configured_with (mkOutput "queue_7" (Some 7)) None 7 eq_refl (or_introl eq_refl)).
  - exact Edo.
Defined.

Lemma configured_sound_witness :
  exists r r', init sample_create (Some (sample_reader_conf (Some 8))) (new_reader "reader") = Ret r
    /\ run_commands [Conf; Start; Stop; Scrap; Conf] r = Ret r' /\ m_configured r' = true
    /\ map_Forall (fun _ emu => em_is_configured emu = true) (m_source_emus r').
Proof.
  set (r := mkCardReader false "reader" (Some (sample_reader_conf (Some 8)))
    (<["queue_8" := new_emulator 0]> (<["queue_7" := new_emulator 0]> ∅)) false).
  assert (Hinit : init sample_create (Some (sample_reader_conf (Some 8))) (new_reader "reader") = Ret r)
    by reflexivity.
  assert (Hc : match run_commands [Conf; Start; Stop; Scrap; Conf] r with
    | Ret r' => m_configured r' | _ => false end = true) by (vm_compute; reflexivity).
  destruct (run_commands [Conf; Start; Stop; Scrap; Conf] r) as [r'| | | |] eqn:Hrun; try discriminate Hc.
  exists r, r'. split; [exact Hinit|]. split; [exact Hrun|]. split; [exact Hc|].
  exact (configured_sound sample_create (Some (sample_reader_conf (Some 8))) "reader"
    [Conf; Start; Stop; Scrap; Conf] r r' Hinit Hrun Hc).
Defined.
