(* ===== verification/EmulatorLife.v ===== *)
(** The life of the emulators of a FakeCardReaderBase: [start] and [stop] of
    models/SourceEmulatorModel.hpp and of the module, with the producing threads they start and
    wait for, in every interleaving. *)
From S2P Require Import Prelude ReadoutTypes ErrorBitGenerator RateLimiter FileSource SourceEmulator Threads.

(** ** The state *)

(** Where [run_produce] is once it has its first timestamp: the test of the run marker,
    the [for] loop with the turns to go, the call of [limit], and the busy wait in it. *)
Inductive place := AtMarker | InTick (turns : nat) | Limiting | Spinning (now : Z).

(** The thread's work, with its local variables. *)
Inductive producer := Entering | At (at_ : place) (offset timestamp dropout_index : Z).

Section emulators.
Context {T : Type} `{RT : ReadoutType T} `{EM : EmulatedType T}.
Context {R : Type} `{ReusableThread producer R}.

(** An emulator with its sender and its thread.  [runs] is the history of the payloads
    given to the sender, by runs of the thread, the latest run first; [reports] that of
    what was published, total and new packets, the latest first. *)
Record source := mkSource {
  m_args : emulator_args;
  m_emulator : emulator;
  m_raw_data_sender : option string;
  m_sender_is_set : bool;
  m_producer_thread : R;
  runs : list (list T);
  reports : list (Z * Z) }.

Definition new_source (args : emulator_args) (previous_ts : Z) : source :=
  mkSource args (new_emulator previous_ts) None false new_thread [] [].

Implicit Types src : source.

Definition with_sender src (sender : option string) : source :=
  mkSource (m_args src) (m_emulator src) sender true (m_producer_thread src) (runs src) (reports src).

Definition with_thread src (e : emulator) (r : R) : source :=
  mkSource (m_args src) e (m_raw_data_sender src) (m_sender_is_set src) r (runs src) (reports src).

Definition with_runs src (l : list (list T)) : source :=
  mkSource (m_args src) (m_emulator src) (m_raw_data_sender src) (m_sender_is_set src)
    (m_producer_thread src) l (reports src).

(** get_iom_sender may throw, or give a null pointer. *)
Definition set_sender (get_iom_sender : string -> outcome (option string)) (conn_name : string) src
    : outcome source :=
  if m_sender_is_set src then Ret src
  else sender ← get_iom_sender conn_name; Ret (with_sender src sender).

(** ** The commands of an emulator

    [n] counts the readings of the clock, by all threads together. *)
Context (clock : nat -> Z).

(** A new rate limiter takes the place of the old one, which may be in use; the answer
    of [set_work] is ignored. *)
Definition start_source (n : nat) src : outcome (nat * source) :=
  match work_of (W:=producer) (m_producer_thread src) with
  | Some (At (Spinning _) _ _ _) => Undefined
  | _ =>
      '(n, e) ← SourceEmulator.start (m_args src) clock n (m_emulator src);
      Ret (n, with_thread src e (snd (set_work Entering (m_producer_thread src))))
  end.

(** One test of the loop of [stop]: whether it ends. *)
Definition stop_source src : bool := get_readiness (W:=producer) (m_producer_thread src).

Definition report_source src : source :=
  let '(report, e) := generate_emulator_opmon_data (m_emulator src) in
  mkSource (m_args src) e (m_raw_data_sender src) (m_sender_is_set src) (m_producer_thread src)
    (runs src) (report :: reports src).

(** ** The producing thread, turn by turn *)

(** The local variables and the members, as SourceEmulator.v has them together. *)
Definition load src (off ts drop : Z) : production (T:=T) :=
  let e := m_emulator src in
  mkProduction off ts drop (m_error_bit_generator e) (m_pattern_generator e) (m_pattern_generator_previous_ts e)
    (m_packet_count e) (m_packet_count_tot e) (hd [] (runs src)).

Definition store (at_ : place) (l : option limiter) (p : production (T:=T)) src : source :=
  let e := m_emulator src in
  with_runs
    (with_thread src
       (mkEmulator (m_configuration e) (bits p) (pattern p) (previous_ts p) (m_time_to_wait e) l
          (packets p) (packets_tot p))
       (go_on (Some (At at_ (offset p) (timestamp p) (dropout_index p))) (m_producer_thread src)))
    (sent p :: tl (runs src)).

(** The first part of [limit]: it is done, or the busy wait begins. *)
Definition limit_begin (n : nat) (l : limiter) : nat * (limiter + Z) :=
  let now := clock n in
  if u64 (m_deadline l + m_max_overshoot l) <? now then
    (S n, inl (mkLimiter (m_kilohertz l) (m_max_overshoot l) (m_period l) now (u64 (now + m_period l))))
  else if now <? m_deadline l then
    (if 0 <? u64 (m_deadline l - now) then (S (S n), inr (clock (S n))) else (S n, inr now))
  else (S n, inl (mkLimiter (m_kilohertz l) (m_max_overshoot l) (m_period l) now (u64 (m_deadline l + m_period l)))).

(** One turn of the busy wait. *)
Definition limit_turn (n : nat) (now : Z) (l : limiter) : nat * (limiter + Z) :=
  if now <? m_deadline l then (S n, inr (clock n))
  else (n, inl (mkLimiter (m_kilohertz l) (m_max_overshoot l) (m_period l) now (u64 (m_deadline l + m_period l)))).

(** Where the thread is after either. *)
Definition after_limit (p : production (T:=T)) src (r : nat * (limiter + Z)) : nat * source :=
  match r with
  | (n, inl l) => (n, store AtMarker (Some l) p src)
  | (n, inr now) => (n, store (Spinning now) (m_rate_limiter (m_emulator src)) p src)
  end.

(** A payload is sent through the sender, which takes it or not. *)
Definition send_frame (cf : configuration) (accepted : bool) src (p : production (T:=T)) : outcome (production (T:=T)) :=
  '(p', _) ← produce_frame (m_args src) cf (m_time_to_wait (m_emulator src)) (fun _ => accepted) p;
  match m_raw_data_sender src with
  | None => if (length (sent p) <? length (sent p'))%nat then Undefined else Ret p'
  | Some _ => Ret p'
  end.

(** A turn of the thread, [None] when it has no work. *)
Definition producer_turn (m_run_marker accepted : bool) (current_time : Z) (n : nat) src
    : option (outcome (nat * source)) :=
  let e := m_emulator src in
  let limiter := m_rate_limiter e in
  match work_of (m_producer_thread src) with
  | None => None
  | Some Entering => Some (
      cf ← deref (m_configuration e);
      ts_0 ← first_timestamp (T:=T) cf current_time;
      let src := with_runs src ([] :: runs src) in
      Ret (n, store AtMarker limiter (load src 0 ts_0 0) src))
  | Some (At at_ off ts drop) => Some (
      let p := load src off ts drop in
      match at_ with
      | AtMarker =>
          Ret (n, if m_run_marker then store (InTick (Z.to_nat (m_frames_per_tick (m_args src)))) limiter p src
                  else with_thread src e (go_on None (m_producer_thread src)))
      | InTick (S k) =>
          cf ← deref (m_configuration e);
          p ← send_frame cf accepted src p;
          Ret (n, store (InTick k) limiter p src)
      | InTick O =>
          cf ← deref (m_configuration e);
          rptr ← element_at (T:=T) (get (m_file_source cf)) 0;
          let ts := u64 (ts + u64 (m_time_tick_diff (m_args src) * get_num_frames rptr)) in
          Ret (n, store Limiting limiter (set_production_timestamp ts p) src)
      | Limiting => l ← deref limiter; Ret (after_limit p src (limit_begin n l))
      | Spinning now => l ← deref limiter; Ret (after_limit p src (limit_turn n now l))
      end)
  end.

(** ** The module *)

(** [m_source_emus] in the order of the names; [stopping] is the emulator whose [stop]
    the module's is in. *)
Record reader := mkReader {
  m_run_marker : bool;
  m_source_emus : list source;
  stopping : option nat;
  readings : nat }.

Implicit Types st : reader.

Fixpoint start_all (n : nat) (l : list source) : outcome (nat * list source) :=
  match l with
  | [] => Ret (n, [])
  | src :: l => '(n, src) ← start_source n src; '(n, l) ← start_all n l; Ret (n, src :: l)
  end.

Definition do_start st : outcome reader :=
  '(n, l) ← start_all (readings st) (m_source_emus st);
  Ret (mkReader true l (stopping st) n).

(** [do_stop] clears the marker and then waits for one emulator after the other. *)
Definition begin_stop st : reader := mkReader false (m_source_emus st) (Some 0%nat) (readings st).

Definition stop_turn st : option reader :=
  match stopping st with
  | None => None
  | Some i =>
      match m_source_emus st !! i with
      | None => Some (mkReader (m_run_marker st) (m_source_emus st) None (readings st))
      | Some src =>
          if stop_source src
          then Some (mkReader (m_run_marker st) (m_source_emus st) (Some (S i)) (readings st)) else None
      end
  end.

Inductive move := Start | Stop | StopTurn | ProducerTurn (i : nat) (accepted : bool) (current_time : Z) | Report (i : nat).

Definition do_move (m : move) st : option (outcome reader) :=
  match m with
  | Start => match stopping st with None => Some (do_start st) | Some _ => None end
  | Stop => match stopping st with None => Some (Ret (begin_stop st)) | Some _ => None end
  | StopTurn => Ret <$> stop_turn st
  | ProducerTurn i accepted current_time =>
      src ← m_source_emus st !! i;
      r ← producer_turn (m_run_marker st) accepted current_time (readings st) src;
      Some ('(n, src) ← r;
            Ret (mkReader (m_run_marker st) (<[i := src]> (m_source_emus st)) (stopping st) n))
  | Report i =>
      src ← m_source_emus st !! i;
      Some (Ret (mkReader (m_run_marker st) (<[i := report_source src]> (m_source_emus st))
                   (stopping st) (readings st)))
  end.

(** The run control starts only what does not run. *)
Definition in_turn (m : move) st : Prop := m = Start -> m_run_marker st = false.

Inductive steps : reader -> list move -> reader -> Prop :=
| steps_none st : steps st [] st
| steps_more st m st' ms st'' :
    in_turn m st -> do_move m st = Some (Ret st') -> steps st' ms st'' -> steps st (m :: ms) st''.
End emulators.

(** ** What the runs of an emulator are *)
Section runs.
Context {T : Type} `{ReadoutLaws T} `{EM : EmulatedType T}.
Context (args : emulator_args) (cf : configuration) (gen_0 : generator) (channels : list Z).

(** The first timestamp, when the system clock shows [current_time]. *)
Definition first_time (current_time : Z) : Z :=
  if m_t0_now cf then u64 (625 * current_time) / 10 else get_timestamp (file_element (T:=T) cf 0).

(** The words the payloads sent before have used up. *)
Definition words_used (older : list (list T)) : nat := length (concat older) * frame_count (T:=T).

(** The payloads of [slots] frame slots of a run, after those of the [older] runs: like those of
    a single run, the error bits going on where the run before has left them. *)
Definition emulated (older : list (list T)) (payloads : list T) (slots : nat) : Prop :=
  exists current_time words gen,
    nexts (words_used older) gen_0 = Ret (words, gen)
    /\ Forall2 (lifted cf channels) payloads (faked_payloads args cf (first_time current_time) gen slots).

(** All runs, the latest first; those that have ended are whole ticks. *)
Fixpoint all_emulated (l : list (list T)) : Prop :=
  match l with
  | [] => True
  | payloads :: older => (exists ticks, emulated older payloads (ticks * tick_frames args)) /\ all_emulated older
  end.

(** The state of a run at frame slot [slot], whose timestamp is that of a tick. *)
Definition run_at (older : list (list T)) (slot tick : nat) (p : production (T:=T)) : Prop :=
  exists current_time words gen,
    nexts (words_used older) gen_0 = Ret (words, gen)
    /\ at_slot args cf (first_time current_time) gen channels slot p
    /\ timestamp p = tick_time (T:=T) args (first_time current_time) tick.

Context (Hus : usable (T:=T) cf gen_0).
Context (Hchannels : m_generate_periodic_adc_pattern cf = true -> channels <> []).

Lemma first_time_range (current_time : Z) : 0 <= first_time current_time <= UINT64_MAX.
Proof.
  unfold first_time, UINT64_MAX. pose proof (u64_range (625 * current_time)).
  pose proof (timestamp_range (file_element (T:=T) cf 0)). unfold UINT64_MAX in *.
  destruct (m_t0_now cf); [|lia].
  split; [apply Z.div_pos; lia|]. apply Z.lt_le_incl, Z.div_lt_upper_bound; lia.
Qed.

Lemma first_timestamp_at (current_time : Z) :
  first_timestamp (T:=T) cf current_time = Ret (first_time current_time).
Proof. unfold first_timestamp. rewrite (element_at_start cf gen_0 Hus). by outcome. Qed.

Lemma usable_later (n : nat) words gen : nexts n gen_0 = Ret (words, gen) -> usable (T:=T) cf gen.
Proof.
  intros E. destruct Hus as [H1 H2 H3 H4 H5 H6]. split; try done.
  intros k. destruct (H6 (n + k)%nat) as [r Hr]. rewrite nexts_app, E in Hr. rewrite bind_Ret in Hr.
  apply bind_Ret_inv in Hr as (r' & -> & _). by eexists.
Qed.

Lemma run_at_emulated older slot tick p :
  run_at older slot tick p -> emulated older (sent p) slot.
Proof. intros (c & words & gen & E & Hat & _). exists c, words, gen. split; [done|]. apply Hat. Qed.

(** The words used by the payloads of a run. *)
Lemma run_at_words older slot tick p :
  run_at older slot tick p -> exists words, nexts (words_used (sent p :: older)) gen_0 = Ret (words, bits p).
Proof.
  intros (c & words & gen & E & Hat & _). destruct Hat as [_ _ (ws & Hws) _ _ Hsent].
  apply Forall2_length in Hsent. unfold faked_payloads in Hsent. rewrite length_imap in Hsent.
  exists (words ++ ws). unfold words_used in *. cbn [concat]. rewrite length_app, Hsent, Nat.mul_add_distr_r, Nat.add_comm.
  rewrite nexts_app, E. outcome. by rewrite Hws.
Qed.

Lemma run_begins older (current_time : Z) (p : production (T:=T)) :
  (exists words, nexts (words_used older) gen_0 = Ret (words, bits p)) ->
  offset p = 0 -> dropout_index p = 0 -> timestamp p = first_time current_time ->
  m_channel (pattern p) = channels -> 0 <= m_index (pattern p) <= Z.of_nat (length channels) ->
  packets_tot p = 0 -> sent p = [] -> run_at older 0 0 p.
Proof.
  intros (words & E) Ho Hd Ht Hc Hi Hp Hs. exists current_time, words, (bits p). split; [done|]. split.
  - split; cbn [created seq filter list_filter length]; rewrite ?Ho, ?Hd, ?Hp, ?Hs; try done.
    + left. by rewrite Nat.Div0.mod_0_l.
    + by rewrite Nat.Div0.mod_0_l.
    + by exists [].
  - rewrite Ht. unfold tick_time. rewrite Z.mul_0_l, Z.add_0_r, u64_small; [done|].
    pose proof (first_time_range current_time). unfold UINT64_MAX in *. lia.
Qed.

Lemma run_frame (time_to_wait : Z) (accepts : nat -> bool) older slot tick p :
  run_at older slot tick p -> (slot / tick_frames args)%nat = tick ->
  exists p' l, produce_frame args cf time_to_wait accepts p = Ret (p', l) /\ run_at older (S slot) tick p'.
Proof.
  intros (c & words & gen & E & Hat & Ht) Hslot.
  destruct (frame_step args cf _ gen (usable_later _ _ _ E) time_to_wait accepts channels Hchannels slot p Hat)
    as (p' & Ep & Hat' & Ht'); [by rewrite Hslot|].
  exists p'. eexists. split; [exact Ep|]. exists c, words, gen. split; [done|]. by rewrite Ht'.
Qed.

Lemma run_tick older slot tick p :
  run_at older slot tick p ->
  element_at (T:=T) (get (m_file_source cf)) 0 = Ret (file_element cf 0)
  /\ run_at older slot (S tick)
       (set_production_timestamp
          (u64 (timestamp p + u64 (m_time_tick_diff args * get_num_frames (file_element (T:=T) cf 0)))) p).
Proof.
  intros (c & words & gen & E & Hat & Ht). split; [apply (element_at_start cf gen_0 Hus)|].
  exists c, words, gen. split; [done|]. split; [by destruct Hat; split|].
  cbn [timestamp set_production_timestamp]. by rewrite num_frames_const, Ht, tick_time_S.
Qed.
End runs.

(** What was published and what is still to be published are all the payloads, up to
    the width of an [int]. *)
Definition counted {T R} (src : source (T:=T) (R:=R)) : Prop :=
  u32 (foldr Z.add 0 (snd <$> reports src) + m_packet_count (m_emulator src))
  = u32 (Z.of_nat (length (concat (runs src)))).

Lemma u32_i32 (x y : Z) : u32 (x + i32 y) = u32 (x + y).
Proof.
  unfold u32, i32.
  replace (x + ((y + 2147483648) mod 4294967296 - 2147483648))
    with ((x - 2147483648) + (y + 2147483648) mod 4294967296) by lia.
  rewrite Zplus_mod_idemp_r. f_equal. lia.
Qed.

(** A payload more is a packet more. *)
Lemma frame_packets {T} `{ReadoutType T} `{EmulatedType T} args cf (time_to_wait : Z) accepts
    (p p' : production (T:=T)) l :
  produce_frame args cf time_to_wait accepts p = Ret (p', l) ->
  (sent p' = sent p /\ packets p' = packets p)
  \/ exists x, sent p' = sent p ++ [x] /\ packets p' = i32 (packets p + 1).
Proof.
  unfold produce_frame. intros (b & _ & E)%bind_Ret_inv. destruct b; [|injection E as <- _; by left].
  apply bind_Ret_inv in E as (x & _ & E). apply bind_Ret_inv in E as (y & _ & E).
  apply bind_Ret_inv in E as ([ws g] & _ & E). apply bind_Ret_inv in E as ([[z q] ts] & _ & [= <- _]).
  right. by eexists.
Qed.

(** ** An emulator in every interleaving *)
Section source.
Context {T : Type} `{ReadoutLaws T} `{EM : EmulatedType T} {R : Type} `{ReusableThreadLaws producer R}.
Context (clock : nat -> Z).
Implicit Types src : source (T:=T) (R:=R).

(** A configured emulator with its sender, which has not run yet. *)
Record ready src : Prop := {
  rd_idle : idle (W:=producer) (m_producer_thread src);
  rd_conf : exists cf, m_configuration (m_emulator src) = Some cf
    /\ usable (T:=T) cf (m_error_bit_generator (m_emulator src))
    /\ (m_generate_periodic_adc_pattern cf = true -> m_channel (m_pattern_generator (m_emulator src)) <> []);
  rd_index : 0 <= m_index (m_pattern_generator (m_emulator src))
               <= Z.of_nat (length (m_channel (m_pattern_generator (m_emulator src))));
  rd_sender : m_raw_data_sender src <> None;
  rd_rate : exists period, period_of (m_rate_khz (m_args src)) = Ret period;
  rd_fresh : runs src = [] /\ reports src = [] /\ m_packet_count (m_emulator src) = 0
             /\ m_packet_count_tot (m_emulator src) = 0 }.

(** [src_0] is the emulator as it was configured. *)
Context (src_0 : source (T:=T) (R:=R)) (cf : configuration).
Let args := m_args src_0.
Let gen_0 := m_error_bit_generator (m_emulator src_0).
Let channels := m_channel (m_pattern_generator (m_emulator src_0)).

(** Between two runs. *)
Record resting src : Prop := {
  re_runs : all_emulated args cf gen_0 channels (runs src);
  re_words : exists words, nexts (words_used (runs src)) gen_0 = Ret (words, m_error_bit_generator (m_emulator src));
  re_channels : m_channel (m_pattern_generator (m_emulator src)) = channels
    /\ 0 <= m_index (m_pattern_generator (m_emulator src)) <= Z.of_nat (length channels) }.

(** The frame slot and the tick of a place. *)
Definition place_ok (at_ : place) (slot tick : nat) : Prop :=
  match at_ with
  | InTick k => (k <= tick_frames args)%nat /\ (slot + k = S tick * tick_frames args)%nat
  | _ => (slot = tick * tick_frames args)%nat
  end.

Definition total_of (payloads : list T) src : Prop :=
  Z.of_nat (length payloads) <= INT_MAX -> m_packet_count_tot (m_emulator src) = Z.of_nat (length payloads).

Definition work_ok src : Prop :=
  match work_of (m_producer_thread src) with
  | None => resting src /\ total_of (hd [] (runs src)) src
  | Some Entering => resting src /\ m_rate_limiter (m_emulator src) <> None /\ total_of [] src
  | Some (At at_ off ts drop) =>
      m_rate_limiter (m_emulator src) <> None
      /\ exists payloads older slot tick, runs src = payloads :: older
         /\ all_emulated args cf gen_0 channels older
         /\ run_at args cf gen_0 channels older slot tick (load src off ts drop)
         /\ place_ok at_ slot tick
  end.

Record settled src : Prop := {
  se_args : m_args src = args;
  se_conf : m_configuration (m_emulator src) = Some cf;
  se_sender : m_raw_data_sender src <> None }.

Record source_ok src : Prop := {
  so_settled : settled src;
  so_counted : counted src;
  so_work : work_ok src }.

Context (Hready : ready src_0) (Hcf : m_configuration (m_emulator src_0) = Some cf).

Lemma ready_usable : usable (T:=T) cf gen_0.
Proof. destruct (rd_conf _ Hready) as (cf' & E & Hus & _). by rewrite Hcf in E; injection E as <-. Qed.

Lemma ready_channels : m_generate_periodic_adc_pattern cf = true -> channels <> [].
Proof. destruct (rd_conf _ Hready) as (cf' & E & _ & Hch). by rewrite Hcf in E; injection E as <-. Qed.

Lemma ready_ok : source_ok src_0.
Proof.
  pose proof Hready as [Hi _ Hx Hs _ (Hf1 & Hf2 & Hf3 & Hf4)]. split; [done| |].
  - unfold counted. by rewrite Hf1, Hf2, Hf3.
  - unfold work_ok. rewrite Hi. split; [|by unfold total_of; rewrite Hf1, Hf4]. split; [by rewrite Hf1| |done].
    rewrite Hf1. by exists [].
Qed.

(** Where a thread in its loop is after a turn. *)
Lemma store_ok src at_ (l : limiter) (p : production (T:=T)) payloads older (slot tick : nat) :
  settled src -> ~ idle (W:=producer) (m_producer_thread src) -> runs src = payloads :: older ->
  all_emulated args cf gen_0 channels older -> run_at args cf gen_0 channels older slot tick p ->
  place_ok at_ slot tick ->
  u32 (foldr Z.add 0 (snd <$> reports src) + packets p) = u32 (Z.of_nat (length (concat (sent p :: older)))) ->
  source_ok (store at_ (Some l) p src).
Proof.
  intros [Ha Hc Hs] Hi Hr Hold Hrun Hpl Hcount. split; [done| |].
  - unfold counted. cbn. by rewrite Hr.
  - unfold work_ok. cbn [store with_runs with_thread m_producer_thread]. rewrite go_on_spec by done.
    split; [done|]. exists (sent p), older, slot, tick. split; [cbn; by rewrite Hr|].
    split; [done|]. split; [by destruct p|done].
Qed.

Lemma resting_begins src (current_time : Z) (l : limiter) :
  source_ok src -> work_of (m_producer_thread src) = Some Entering ->
  let src' := with_runs src ([] :: runs src) in
  source_ok (store AtMarker (Some l) (load src' 0 (first_time (T:=T) cf current_time) 0) src').
Proof.
  intros [[Ha Hc Hs] Hk Hwork] Hw src'. unfold work_ok in Hwork. rewrite Hw in Hwork.
  destruct Hwork as ([Hruns Hwords [Hch Hidx]] & Hl & Htot).
  apply (store_ok src' AtMarker l _ [] (runs src) 0 0); try done.
  - unfold idle. cbn. by rewrite Hw.
  - apply (run_begins args cf gen_0 channels _ current_time); try done. by apply Htot.
Qed.

(** The end of a run, at its whole ticks. *)
Lemma run_rests src e payloads older (tick : nat) off ts drop :
  m_emulator src = e -> runs src = payloads :: older -> settled src -> counted src ->
  all_emulated args cf gen_0 channels older -> work_of (m_producer_thread src) <> None ->
  run_at args cf gen_0 channels older (tick * tick_frames args) tick (load src off ts drop) ->
  source_ok (with_thread src e (go_on None (m_producer_thread src))).
Proof.
  intros <- Hr [Ha Hc Hs] Hk Hold Hw Hrun. split; [done|done|].
  unfold work_ok. cbn [with_thread m_producer_thread]. rewrite go_on_spec by done.
  pose proof (run_at_words _ _ _ _ _ _ _ _ Hrun) as [words Hwords].
  pose proof (run_at_emulated _ _ _ _ _ _ _ _ Hrun) as Hem.
  destruct Hrun as (c & ws & gen & _ & [_ _ _ Hch Hpk Hsent] & _).
  apply Forall2_length in Hsent. unfold faked_payloads in Hsent. rewrite length_imap in Hsent.
  cbn [load sent] in *. rewrite Hr in *. cbn [hd] in *. split.
  - split; cbn [with_thread runs]; rewrite ?Hr; [|by exists words|done]. split; [by exists tick|done].
  - unfold total_of. cbn [with_thread runs m_emulator]. rewrite Hr. cbn [hd]. rewrite Hsent. apply Hpk.
Qed.

Lemma tick_of_slot (slot tick k : nat) :
  (S k <= tick_frames args)%nat -> (slot + S k = S tick * tick_frames args)%nat ->
  (slot / tick_frames args)%nat = tick.
Proof.
  intros Hk E. symmetry. apply (Nat.div_unique _ _ _ (tick_frames args - S k)%nat); lia.
Qed.

Lemma send_frame_ok src (accepted : bool) older (slot tick : nat) (p : production (T:=T)) :
  settled src -> run_at args cf gen_0 channels older slot tick p -> (slot / tick_frames args)%nat = tick ->
  exists p', send_frame cf accepted src p = Ret p' /\ run_at args cf gen_0 channels older (S slot) tick p'
    /\ forall x, u32 (x + packets p) = u32 (Z.of_nat (length (concat (sent p :: older)))) ->
       u32 (x + packets p') = u32 (Z.of_nat (length (concat (sent p' :: older)))).
Proof.
  intros [Ha Hc Hs] Hrun Hslot. unfold send_frame. rewrite Ha.
  destruct (run_frame args cf gen_0 channels (ready_usable) ready_channels
    (m_time_to_wait (m_emulator src)) (fun _ => accepted) older slot tick p Hrun Hslot) as (p' & l & Ep & Hrun').
  rewrite Ep. outcome. exists p'. split; [by destruct (m_raw_data_sender src)|]. split; [done|].
  intros x Hx. destruct (frame_packets _ _ _ _ _ _ _ Ep) as [[-> ->]|(y & -> & ->)]; [done|].
  rewrite u32_i32, Z.add_assoc. unfold u32 in *. rewrite <- Zplus_mod_idemp_l, Hx, Zplus_mod_idemp_l. f_equal.
  cbn [concat]. rewrite !length_app. cbn [length]. lia.
Qed.

Lemma producer_turn_ok src (marker accepted : bool) (current_time : Z) (n : nat) o :
  source_ok src -> producer_turn clock marker accepted current_time n src = Some o ->
  exists n' src', o = Ret (n', src') /\ source_ok src'.
Proof.
  intros Hok. pose proof Hok as [Hse Hk Hw]. pose proof Hse as [Ha Hc Hs]. unfold producer_turn.
  destruct (work_of (m_producer_thread src)) as [[|at_ off ts drop]|] eqn:E; [..|done]; intros [= <-].
  - rewrite Hc. cbn [deref]. outcome. rewrite (first_timestamp_at cf gen_0 ready_usable). outcome.
    eexists _, _. split; [reflexivity|]. pose proof Hw as Hl. unfold work_ok in Hl. rewrite E in Hl.
    destruct Hl as (_ & Hl & _). destruct (m_rate_limiter (m_emulator src)) as [l|]; [|done].
    by apply resting_begins.
  - unfold work_ok in Hw. rewrite E in Hw. destruct Hw as (Hl & payloads & older & slot & tick & Hr & Hold & Hrun & Hpl).
    destruct (m_rate_limiter (m_emulator src)) as [l|] eqn:El; [|done].
    assert (Hi : ~ idle (W:=producer) (m_producer_thread src)) by (unfold idle; by rewrite E).
    assert (Hcount : u32 (foldr Z.add 0 (snd <$> reports src) + m_packet_count (m_emulator src))
                     = u32 (Z.of_nat (length (concat (payloads :: older))))) by (by rewrite <- Hr).
    assert (Hstore : forall at_ l tick, place_ok at_ slot tick ->
      run_at args cf gen_0 channels older slot tick (load src off ts drop) ->
      source_ok (store at_ (Some l) (load src off ts drop) src)).
    { intros at' l' tick' Hpl' Hrun'. eapply store_ok; try done. cbn [load packets sent]. by rewrite Hr. }
    destruct at_ as [|[|k]| |now]; cbn [place_ok] in Hpl.
    + eexists _, _. split; [reflexivity|]. destruct marker.
      * apply (Hstore _ _ tick); [|done]. unfold place_ok, tick_frames in *. rewrite Ha. lia.
      * rewrite Hpl in Hrun. by eapply run_rests.
    + rewrite Hc. cbn [deref]. outcome.
      destruct (run_tick args cf gen_0 channels ready_usable older slot tick _ Hrun) as [Hel Hrun'].
      rewrite Hel. outcome. eexists _, _. split; [reflexivity|]. rewrite Ha.
      eapply store_ok; [done..|exact Hrun'| |].
      * cbn. lia.
      * cbn [set_production_timestamp load packets sent]. by rewrite Hr.
    + rewrite Hc. cbn [deref]. outcome. destruct Hpl as [Hk1 Hk2].
      destruct (send_frame_ok src accepted older slot tick _ Hse Hrun (tick_of_slot _ _ _ Hk1 Hk2))
        as (p' & -> & Hrun' & Hcount').
      outcome. eexists _, _. split; [reflexivity|]. eapply store_ok; [done..|exact Hrun'| |].
      * cbn. lia.
      * apply Hcount'. cbn [load packets sent]. by rewrite Hr.
    + cbn [deref]. outcome. destruct (limit_begin clock n l) as [n' [l'|now']]; cbn [after_limit];
        eexists _, _; (split; [reflexivity|]); rewrite ?El; by apply (Hstore _ _ tick).
    + cbn [deref]. outcome. destruct (limit_turn clock n now l) as [n' [l'|now']]; cbn [after_limit];
        eexists _, _; (split; [reflexivity|]); rewrite ?El; by apply (Hstore _ _ tick).
Qed.

(** The other operations. *)
Lemma start_source_ok src (n : nat) :
  source_ok src -> idle (W:=producer) (m_producer_thread src) ->
  exists n' src', start_source clock n src = Ret (n', src') /\ source_ok src'
    /\ work_of (m_producer_thread src') = Some Entering.
Proof.
  intros [[Ha Hc Hs] Hk Hw] Hi. unfold work_ok in Hw. unfold start_source, idle in *. rewrite Hi in *.
  destruct (rd_rate _ Hready) as [period Hp]. rewrite Ha. unfold SourceEmulator.start, new_limiter, adjust.
  unfold args. rewrite Hp. outcome. destruct (init _ _ _) as [n' l]. outcome.
  eexists _, _. split; [reflexivity|].
  assert (Hth : work_of (snd (set_work Entering (m_producer_thread src))) = Some Entering) by (by apply set_work_idle).
  split; [|done]. split; [done|done|]. unfold work_ok. cbn [with_thread m_producer_thread]. rewrite Hth.
  destruct Hw as [[] _]. by split_and!.
Qed.

Lemma report_source_ok src : source_ok src -> source_ok (report_source src).
Proof.
  intros [[Ha Hc Hs] Hk Hw]. split; [done| |].
  - unfold counted in *. cbn. rewrite Z.add_0_r, Z.add_comm. done.
  - unfold work_ok in *. cbn [report_source generate_emulator_opmon_data m_producer_thread].
    destruct (work_of (m_producer_thread src)) as [[|at_ off ts drop]|].
    + destruct Hw as ([] & ? & ?). by split_and!.
    + destruct Hw as (Hl & payloads & older & slot & tick & Hr & Hold & Hrun & Hpl). split; [done|].
      exists payloads, older, slot, tick. split; [done|]. split; [done|]. split; [|done].
      destruct Hrun as (c & ws & gen & E & Hat & Ht). exists c, ws, gen. split; [done|]. split; [|done].
      by destruct Hat; split.
    + destruct Hw as ([] & ?). by split.
Qed.
End source.

(** ** The module in every interleaving *)
Section reader.
Context {T : Type} `{ReadoutLaws T} `{EM : EmulatedType T} {R : Type} `{ReusableThreadLaws producer R}.
Context (clock : nat -> Z) (l_0 : list (source (T:=T) (R:=R))) (Hready : Forall ready l_0).
Implicit Types (src : source (T:=T) (R:=R)) (st : reader (T:=T) (R:=R)).

Definition from_ready src_0 src : Prop :=
  exists cf, m_configuration (m_emulator src_0) = Some cf /\ source_ok src_0 cf src.

Definition at_rest src : Prop := idle (W:=producer) (m_producer_thread src).

(** What a [stop] at work has waited for is at rest. *)
Record reader_ok st : Prop := {
  ro_sources : Forall2 from_ready l_0 (m_source_emus st);
  ro_place : match stopping st with
             | None => m_run_marker st = false -> Forall at_rest (m_source_emus st)
             | Some i => m_run_marker st = false /\ Forall at_rest (take i (m_source_emus st))
             end }.

Lemma from_ready_all l : Forall ready l -> Forall2 from_ready l l.
Proof.
  induction 1 as [|src l Hsrc _ IH]; constructor; [|done].
  destruct (rd_conf _ Hsrc) as (cf & E & _). exists cf. split; [done|]. by apply ready_ok.
Qed.

Lemma initial_ok (n : nat) : reader_ok (mkReader false l_0 None n).
Proof.
  split; [by apply from_ready_all|]. cbn. intros _. eapply Forall_impl; [exact Hready|]. by intros src [].
Qed.

Lemma start_all_ok (n : nat) l l' :
  Forall ready l -> Forall2 from_ready l l' -> Forall at_rest l' ->
  exists n' l'', start_all clock n l' = Ret (n', l'') /\ Forall2 from_ready l l''
    /\ Forall (fun src => work_of (m_producer_thread src) = Some Entering) l''.
Proof.
  intros Hl Hok. revert n Hl. induction Hok as [|src_0 src l l' (cf & E & Hsrc) _ IH]; intros n Hl Hrest; cbn [start_all].
  - by eexists _, _.
  - apply Forall_cons in Hl as [Hl Hls]. apply Forall_cons in Hrest as [Hr Hrs].
    destruct (start_source_ok clock src_0 cf Hl src n Hsrc Hr) as (n1 & src1 & -> & Hok1 & Hent). outcome.
    destruct (IH n1 Hls Hrs) as (n2 & l2 & -> & Hok2 & Hents). outcome.
    eexists _, _. split; [reflexivity|]. split; constructor; try done. by exists cf.
Qed.

(** Replacing one emulator by what it is after an operation. *)
Lemma insert_source (i : nat) src src' l :
  Forall2 from_ready l_0 l -> l !! i = Some src ->
  (forall src_0 cf, ready src_0 -> m_configuration (m_emulator src_0) = Some cf -> source_ok src_0 cf src ->
     source_ok src_0 cf src') ->
  Forall2 from_ready l_0 (<[i := src']> l).
Proof.
  intros Hall Hi Hstep. destruct (Forall2_lookup_r _ _ _ _ _ Hall Hi) as (src_0 & Hi0 & cf & E & Hok).
  rewrite <- (list_insert_id l_0 i src_0 Hi0). apply Forall2_insert; [done|]. exists cf. split; [done|].
  apply Hstep; try done. by eapply Forall_lookup_1.
Qed.

Lemma insert_rest (i j : nat) src src' l :
  l !! i = Some src -> (at_rest src -> at_rest src') ->
  Forall at_rest (take j l) -> Forall at_rest (take j (<[i := src']> l)).
Proof.
  intros Hi Hrest Hall. rewrite Forall_lookup in *. intros k x. rewrite lookup_take_Some. intros [Hk Hlt].
  destruct (decide (k = i)) as [->|Hne].
  - rewrite list_lookup_insert_eq in Hk by (by eapply lookup_lt_Some). injection Hk as <-. apply Hrest.
    apply (Hall i). by rewrite lookup_take_Some.
  - rewrite list_lookup_insert_ne in Hk by done. apply (Hall k). by rewrite lookup_take_Some.
Qed.

Lemma replaced_ok (i : nat) src src' (n : nat) st :
  reader_ok st -> m_source_emus st !! i = Some src -> (at_rest src -> at_rest src') ->
  (forall src_0 cf, ready src_0 -> m_configuration (m_emulator src_0) = Some cf -> source_ok src_0 cf src ->
     source_ok src_0 cf src') ->
  reader_ok (mkReader (m_run_marker st) (<[i := src']> (m_source_emus st)) (stopping st) n).
Proof.
  intros [Hall Hpl] Hi Hrest Hstep. split; [by eapply insert_source|]. cbn. destruct (stopping st) as [j|].
  - split; [apply Hpl|]. by eapply insert_rest; [..|apply Hpl].
  - intros Hm. specialize (Hpl Hm). rewrite <- (firstn_all (m_source_emus st)) in Hpl.
    rewrite <- (firstn_all (<[i := src']> _)), length_insert. by eapply insert_rest.
Qed.

Lemma do_move_ok st m o :
  reader_ok st -> in_turn m st -> do_move clock m st = Some o -> exists st', o = Ret st' /\ reader_ok st'.
Proof.
  intros Hok Hturn Hm. pose proof Hok as [Hall Hpl]. destruct m as [| | |i accepted current_time|i]; cbn [do_move] in Hm.
  - destruct (stopping st) eqn:Hs; [done|]. injection Hm as <-. specialize (Hpl (Hturn eq_refl)).
    destruct (start_all_ok (readings st) l_0 (m_source_emus st) Hready Hall Hpl) as (n' & l' & E & Hl' & _).
    unfold do_start. rewrite E, Hs. outcome. eexists. split; [reflexivity|]. by split.
  - destruct (stopping st) eqn:Hs; [done|]. injection Hm as <-. eexists. split; [reflexivity|]. by split.
  - unfold stop_turn in Hm. destruct (stopping st) as [i|] eqn:Hs; [|done]. destruct Hpl as [Hmark Hrest].
    destruct (m_source_emus st !! i) as [src|] eqn:Hi.
    + destruct (stop_source src) eqn:Er; [|done]. injection Hm as <-. eexists. split; [reflexivity|].
      split; [done|]. split; [done|]. cbn. rewrite (take_S_r _ _ _ Hi). apply Forall_app_2; [done|].
      constructor; [|done]. by apply idle_readiness.
    + injection Hm as <-. eexists. split; [reflexivity|]. split; [done|]. cbn. intros _.
      apply lookup_ge_None in Hi. by rewrite take_ge in Hrest by lia.
  - destruct (m_source_emus st !! i) as [src|] eqn:Hi; [|done]. cbn in Hm.
    destruct (producer_turn _ _ _ _ _ _) as [r|] eqn:Et; [|done]. injection Hm as <-.
    destruct (Forall2_lookup_r _ _ _ _ _ Hall Hi) as (src_0 & Hi0 & cf & E & Hsrc).
    destruct (producer_turn_ok clock src_0 cf (Forall_lookup_1 _ _ _ _ Hready Hi0) E src _ _ _ _ _ Hsrc Et)
      as (n' & src' & -> & _).
    outcome. eexists. split; [reflexivity|]. eapply replaced_ok; [done..| |].
    + unfold at_rest, idle. intros Hidle. unfold producer_turn in Et. by rewrite Hidle in Et.
    + intros src_1 cf' Hr1 E1 Hok1.
      destruct (producer_turn_ok clock src_1 cf' Hr1 E1 src _ _ _ _ _ Hok1 Et) as (? & ? & [= <- <-] & ?). done.
  - destruct (m_source_emus st !! i) as [src|] eqn:Hi; [|done]. injection Hm as <-. eexists. split; [reflexivity|].
    eapply replaced_ok; [done..|]. intros. by apply report_source_ok.
Qed.

Lemma steps_ok st ms st' : reader_ok st -> steps clock st ms st' -> reader_ok st'.
Proof.
  intros Hok Hsteps. revert Hok. induction Hsteps as [|st m st1 ms st2 Hturn Hm _ IH]; [done|]. intros Hok.
  apply IH. destruct (do_move_ok st m _ Hok Hturn Hm) as (? & [= <-] & ?). done.
Qed.
End reader.

(** ** A stop ends *)
Section ending.
Context {T : Type} `{ReadoutLaws T} `{EM : EmulatedType T} {R : Type} `{ReusableThreadLaws producer R}.
Context (clock : nat -> Z).
Implicit Types (src : source (T:=T) (R:=R)) (st : reader (T:=T) (R:=R)).

(** Every reading of the clock from the [M]-th on is past the deadline the thread may
    come to wait for. *)
Definition passed (M : nat) src : Prop :=
  match work_of (m_producer_thread src) with
  | Some (At AtMarker _ _ _) | Some Entering | None => True
  | Some _ => forall l, m_rate_limiter (m_emulator src) = Some l -> forall k, (M <= k)%nat -> m_deadline l <= clock k
  end.

(** The turns a thread has left once the run marker is cleared. *)
Definition source_turns (M n : nat) src : nat :=
  match work_of (m_producer_thread src) with
  | None => 0
  | Some Entering => 2
  | Some (At AtMarker _ _ _) => 1
  | Some (At (InTick k) _ _ _) => k + 5 + (M - n)
  | Some (At Limiting _ _ _) => 4 + (M - n)
  | Some (At (Spinning now) _ _ _) =>
      match m_rate_limiter (m_emulator src) with
      | Some l => if now <? m_deadline l then 3 + (M - n) else 2
      | None => 0
      end
  end.

Definition turns_left (M : nat) st : nat :=
  sum_list_with (source_turns M (readings st)) (m_source_emus st)
  + match stopping st with Some i => S (length (m_source_emus st) - i) | None => 0 end.

Lemma source_turns_mono (M n n' : nat) src : (n <= n')%nat -> (source_turns M n' src <= source_turns M n src)%nat.
Proof.
  intros Hn. unfold source_turns. destruct (work_of (m_producer_thread src)) as [[|[|k| |now] off ts drop]|]; try lia.
  destruct (m_rate_limiter _) as [l|]; [|lia]. destruct (_ <? _); lia.
Qed.

Lemma limit_begin_readings (n : nat) (l : limiter) : (n < (limit_begin clock n l).1)%nat.
Proof. unfold limit_begin. destruct (_ <? clock n); cbn; [lia|]. destruct (_ <? _); [destruct (_ <? _)|]; cbn; lia. Qed.

Lemma producer_turn_decreases (M n : nat) (accepted : bool) (current_time : Z) src n' src' :
  passed M src -> producer_turn clock false accepted current_time n src = Some (Ret (n', src')) ->
  (n <= n')%nat /\ passed M src' /\ (source_turns M n' src' < source_turns M n src)%nat.
Proof.
  unfold passed, source_turns, producer_turn.
  destruct (work_of (m_producer_thread src)) as [[|at_ off ts drop]|] eqn:E; [..|done].
  - intros _ [= Ht]. apply bind_Ret_inv in Ht as (cf & _ & Ht). apply bind_Ret_inv in Ht as (ts & _ & [= <- <-]).
    cbn. rewrite go_on_spec by (by rewrite E). split_and!; [lia|done|lia].
  - destruct at_ as [|[|k]| |now]; intros Hp Ht.
    + injection Ht as <- <-. cbn. rewrite go_on_spec by (by rewrite E). split_and!; [lia|done|lia].
    + injection Ht as Ht. apply bind_Ret_inv in Ht as (cf & _ & Ht). apply bind_Ret_inv in Ht as (x & _ & [= <- <-]).
      cbn. rewrite go_on_spec by (by rewrite E). split_and!; [lia|done|lia].
    + injection Ht as Ht. apply bind_Ret_inv in Ht as (cf & _ & Ht). apply bind_Ret_inv in Ht as (x & _ & [= <- <-]).
      cbn. rewrite go_on_spec by (by rewrite E). split_and!; [lia|done|lia].
    + injection Ht as Ht. apply bind_Ret_inv in Ht as (l & Hl & Ht). pose proof (limit_begin_readings n l).
      destruct (m_rate_limiter (m_emulator src)) as [l'|] eqn:El; [|done]. injection Hl as ->.
      destruct (limit_begin clock n l) as [n1 [l1|now1]]; injection Ht as <- <-; cbn in *;
        rewrite go_on_spec by (by rewrite E).
      * split_and!; [lia|done|lia].
      * rewrite El. split_and!; [lia|done|]. destruct (_ <? _); lia.
    + injection Ht as Ht. apply bind_Ret_inv in Ht as (l & Hl & Ht).
      destruct (m_rate_limiter (m_emulator src)) as [l'|] eqn:El; [|done]. injection Hl as ->. specialize (Hp l eq_refl).
      unfold limit_turn in Ht. destruct (Z.ltb_spec now (m_deadline l)); injection Ht as <- <-; cbn in *;
        rewrite go_on_spec by (by rewrite E); rewrite ?El; (split_and!; [lia| |]).
      * by intros l1 [= <-].
      * destruct (Z.ltb_spec (clock n) (m_deadline l)) as [Hlt|]; [|lia].
        destruct (le_lt_dec M n) as [Hle|]; [|lia]. specialize (Hp _ Hle). lia.
      * done.
      * lia.
Qed.

Lemma sum_mono {A} (f g : A -> nat) (l : list A) :
  (forall x, (f x <= g x)%nat) -> (sum_list_with f l <= sum_list_with g l)%nat.
Proof. intros Hfg. induction l as [|x l IH]; cbn; [done|]. specialize (Hfg x). lia. Qed.

Lemma sum_insert {A} (f g : A -> nat) (l : list A) (i k : nat) x y :
  l !! i = Some x -> (forall z, (f z <= g z)%nat) -> (f y + k <= g x)%nat ->
  (sum_list_with f (<[i := y]> l) + k <= sum_list_with g l)%nat.
Proof.
  intros Hi Hfg Hxy. revert i Hi. induction l as [|z l IH]; intros [|i]; cbn [sum_list_with]; try done.
  - intros [= ->]. pose proof (sum_mono f g l Hfg). cbn. lia.
  - intros Hi. specialize (IH i Hi). specialize (Hfg z). change (<[S i:=y]> (z :: l)) with (z :: <[i:=y]> l).
    cbn [sum_list_with]. lia.
Qed.

(** A turn of a thread or of the module's [stop]; a report of an emulator comes at any time. *)
Definition is_turn (m : move) : bool := match m with StopTurn | ProducerTurn _ _ _ => true | _ => false end.

Definition is_command (m : move) : bool := match m with Start | Stop => true | _ => false end.

Definition turns (ms : list move) : nat := length (filter (fun m => is_turn m = true) ms).

Lemma turns_cons m ms : turns (m :: ms) = ((if is_turn m then 1 else 0) + turns ms)%nat.
Proof. unfold turns. rewrite filter_cons. by destruct (is_turn m); case_decide. Qed.

Definition ending (M : nat) st : Prop := m_run_marker st = false /\ Forall (passed M) (m_source_emus st).

Lemma move_decreases (M : nat) m st st' :
  ending M st -> is_command m = false -> do_move clock m st = Some (Ret st') ->
  ending M st' /\ (turns_left M st' + (if is_turn m then 1 else 0) <= turns_left M st)%nat.
Proof.
  intros [Hmark Hp] Hc Hm. destruct m as [| | |i accepted current_time|i]; try done; cbn [do_move] in Hm; cbn [is_turn].
  - unfold stop_turn in Hm. destruct (stopping st) as [i|] eqn:Hs; [|done]. unfold turns_left. rewrite Hs.
    destruct (m_source_emus st !! i) as [src|] eqn:Hi.
    + destruct (stop_source src); [|done]. injection Hm as <-. split; [done|]. cbn.
      apply lookup_lt_Some in Hi. lia.
    + injection Hm as <-. split; [done|]. cbn. lia.
  - destruct (m_source_emus st !! i) as [src|] eqn:Hi; [|done]. cbn in Hm. rewrite Hmark in Hm.
    destruct (producer_turn _ _ _ _ _ _) as [r|] eqn:Et; [|done]. injection Hm as Hm.
    apply bind_Ret_inv in Hm as ([n' src'] & -> & [= <-]).
    assert (Hsrc : passed M src) by (by eapply Forall_lookup_1).
    destruct (producer_turn_decreases M _ _ _ _ _ _ Hsrc Et) as (Hn & Hp' & Hlt). split.
    { split; [done|]. by apply Forall_insert. }
    unfold turns_left. cbn. rewrite length_insert.
    pose proof (sum_insert (source_turns M n') (source_turns M (readings st)) _ _ 1 _ src' Hi
      (fun x => source_turns_mono M _ n' x Hn) ltac:(lia)). lia.
  - destruct (m_source_emus st !! i) as [src|] eqn:Hi; [|done]. injection Hm as <-.
    assert (Hsrc : passed M src) by (by eapply Forall_lookup_1). split.
    { split; [done|]. by apply Forall_insert. }
    unfold turns_left. cbn [stopping readings m_source_emus]. rewrite length_insert.
    pose proof (sum_insert (source_turns M (readings st)) (source_turns M (readings st)) _ _ 0 _ (report_source src) Hi
      (fun x => le_n _) ltac:(rewrite Nat.add_0_r; done)). lia.
Qed.

Lemma ending_bounded (M : nat) st ms st' :
  ending M st -> Forall (fun m => is_command m = false) ms -> steps clock st ms st' ->
  ending M st' /\ (turns_left M st' + turns ms <= turns_left M st)%nat.
Proof.
  intros Hen Hms Hsteps. revert Hen Hms. induction Hsteps as [st|st m st1 ms st2 Hturn Hm _ IH]; intros Hen Hms.
  - split; [done|]. unfold turns. cbn. lia.
  - apply Forall_cons in Hms as [Hc Hms]. destruct (move_decreases M m st st1 Hen Hc Hm) as [Hen1 Hlt].
    destruct (IH Hen1 Hms) as [Hen2 Hle]. split; [done|].
    rewrite turns_cons. lia.
Qed.

(** Readings past the deadlines of all limiters. *)
Lemma all_passed (l : list (source (T:=T) (R:=R))) :
  Forall (fun src => forall l, m_rate_limiter (m_emulator src) = Some l ->
    exists M, forall k, (M <= k)%nat -> m_deadline l <= clock k) l ->
  exists M, Forall (passed M) l.
Proof.
  induction 1 as [|src l Hsrc _ [M IH]]; [by exists 0%nat|].
  destruct (m_rate_limiter (m_emulator src)) as [lim|] eqn:El.
  - destruct (Hsrc lim eq_refl) as [M' HM']. exists (max M M'). constructor.
    + unfold passed. rewrite El.
      assert (Hlim : forall l0, Some lim = Some l0 -> forall k, (max M M' <= k)%nat -> m_deadline l0 <= clock k)
        by (intros l0 [= <-] k Hk; apply HM'; lia).
      by destruct (work_of _) as [[|[] ? ? ?]|].
    + eapply Forall_impl; [exact IH|]. intros x Hx. unfold passed in *.
      destruct (work_of _) as [[|[] ? ? ?]|]; try done; intros l0 Hl0 k Hk; apply (Hx l0 Hl0); lia.
  - exists M. constructor; [|done]. unfold passed. rewrite El. by destruct (work_of _) as [[|[] ? ? ?]|].
Qed.

(** A [stop] that has not returned, or a thread it waits for, can go on. *)
Lemma stop_moves st i :
  stopping st = Some i -> exists m o, is_turn m = true /\ do_move clock m st = Some o.
Proof.
  intros Hs. destruct (m_source_emus st !! i) as [src|] eqn:Hi.
  - destruct (readiness_or_work (W:=producer) (m_producer_thread src)) as [Er|[w Ew]].
    + exists StopTurn. cbn. unfold stop_turn, stop_source. rewrite Hs, Hi, Er. by eexists.
    + exists (ProducerTurn i true 0). cbn. rewrite Hi. cbn. unfold producer_turn. rewrite Ew.
      destruct w; by eexists.
  - exists StopTurn. cbn. unfold stop_turn. rewrite Hs, Hi. by eexists.
Qed.
End ending.

(** ** Configuration: from construction to [ready] *)
Section configured.
Context {T : Type} `{ReadoutLaws T} `{EM : EmulatedType T} {R : Type} `{ReusableThreadLaws producer R}.

Lemma conf_counts args what emu files draw words errors no_errors rand (e e' : emulator) w :
  conf (T:=T) args what emu files draw words errors no_errors rand e = Ret (e', w) ->
  m_packet_count e' = m_packet_count e /\ m_packet_count_tot e' = m_packet_count_tot e.
Proof.
  unfold conf. destruct (m_configuration e); [by intros [= <- _]|].
  intros ([source w1] & _ & E)%bind_Ret_inv. destruct (get_generate_periodic_adc_pattern emu); by injection E as <- _.
Qed.

Lemma configured_ready args what emu files draw words errors no_errors rand bytes (previous_ts : Z)
    (get_iom_sender : string -> outcome (option string)) conn sender period :
  0 < sizeof T <= INT_MAX -> files (get_data_file_name emu) = Some bytes ->
  (0 < whole_chunks bytes (sizeof T))%nat -> Z.of_nat (whole_chunks bytes (sizeof T)) <= INT_MAX ->
  tables_ok words errors no_errors -> 0 < get_random_population_size emu ->
  period_of (m_rate_khz args) = Ret period -> get_iom_sender conn = Ret (Some sender) ->
  exists src e w, set_sender get_iom_sender conn (new_source (T:=T) (R:=R) args previous_ts) = Ret src
    /\ conf (T:=T) args what emu files draw words errors no_errors rand (m_emulator src) = Ret (e, w)
    /\ ready (with_thread src e (m_producer_thread src)).
Proof.
  intros Hs Hfile Hne Hl Htab Hpop Hper Hsend. unfold set_sender. cbn [new_source m_sender_is_set].
  rewrite Hsend. outcome. eexists. 
  destruct (conf_usable args what emu files draw words errors no_errors rand bytes previous_ts Hs Hfile Hne Hl
    Htab Hpop) as (e & w & cf & Ec & Hcf & Hget & Ht0 & Hgen & Hus & Hch & Hi).
  exists e, w. split; [reflexivity|]. split; [exact Ec|].
  destruct (conf_counts _ _ _ _ _ _ _ _ _ _ _ _ Ec) as [Hpk Htot]. split; cbn; try done.
  - apply new_thread_idle.
  - by exists cf.
  - rewrite Hi. lia.
  - by exists period.
Qed.
End configured.

(** The turns of [limit] together are the [limit] of RateLimiter.v. *)
Fixpoint limit_turns (clock : nat -> Z) (fuel n : nat) (now : Z) (l : limiter) : outcome (nat * limiter) :=
  match limit_turn clock n now l with
  | (n, inl l) => Ret (n, l)
  | (n, inr now) => match fuel with O => OutOfFuel | S fuel => limit_turns clock fuel n now l end
  end.

Lemma limit_by_turns (clock : nat -> Z) (fuel n : nat) (l : limiter) :
  limit clock fuel n l
  = match limit_begin clock n l with
    | (n, inl l) => Ret (n, l)
    | (n, inr now) => limit_turns clock fuel n now l
    end.
Proof.
  assert (Hspin : forall fuel n now,
    ('(n, now) ← spin clock fuel n now (m_deadline l);
     Ret (n, mkLimiter (m_kilohertz l) (m_max_overshoot l) (m_period l) now (u64 (m_deadline l + m_period l))))
    = limit_turns clock fuel n now l).
  { clear fuel n. intros fuel. induction fuel as [|fuel IH]; intros n now; cbn [spin limit_turns]; unfold limit_turn;
      destruct (now <? m_deadline l); outcome; done. }
  unfold limit, limit_begin. destruct (_ <? clock n); [done|]. destruct (clock n <? m_deadline l); [|by outcome].
  destruct (0 <? u64 (m_deadline l - clock n)); apply Hspin.
Qed.

(** ** What the runs and the stops of a module are *)
Section properties.
Context {T : Type} `{ReadoutLaws T} `{EM : EmulatedType T} {R : Type} `{ReusableThreadLaws producer R}.
Context (clock : nat -> Z) (l_0 : list (source (T:=T) (R:=R))).

(** C21: the emulators of a module, each configured with a file that holds a whole element,
    over any starts and stops, however the turns of their threads, the waiting [stop] and the
    reports interleave, whatever the senders take: no step fails; the payloads of every run of
    each emulator are those it is configured to send, as for a single run, the error bits
    going on where the run before has left them; whole ticks once the thread has ended;
    what was reported and is still to be reported are all the payloads, up to the width
    of the counter; and when no command is at work and the marker is cleared, no thread runs. *)
Theorem emulators_run_correct (n : nat) ms (st : reader (T:=T) (R:=R)) :
  Forall ready l_0 -> steps clock (mkReader false l_0 None n) ms st ->
  (forall m o, in_turn m st -> do_move clock m st = Some o -> exists st', o = Ret st')
  /\ Forall2 (fun src_0 src =>
       exists cf, m_configuration (m_emulator src_0) = Some cf
         /\ let args := m_args src_0 in
            let gen_0 := m_error_bit_generator (m_emulator src_0) in
            let channels := m_channel (m_pattern_generator (m_emulator src_0)) in
            match runs src with
            | [] => True
            | payloads :: older =>
                (exists slots, emulated args cf gen_0 channels older payloads slots)
                /\ all_emulated args cf gen_0 channels older
            end
            /\ counted src
            /\ (get_readiness (W:=producer) (m_producer_thread src) = true ->
                all_emulated args cf gen_0 channels (runs src) /\ total_of (hd [] (runs src)) src))
       l_0 (m_source_emus st)
  /\ (stopping st = None -> m_run_marker st = false ->
      Forall (fun src => get_readiness (W:=producer) (m_producer_thread src) = true) (m_source_emus st)).
Proof.
  intros Hready Hsteps.
  pose proof (steps_ok clock l_0 Hready _ _ _ (initial_ok l_0 Hready n) Hsteps) as Hok. split; [|split].
  - intros m o Hturn Hm. destruct (do_move_ok clock l_0 Hready st m o Hok Hturn Hm) as (st' & -> & _). by exists st'.
  - eapply Forall2_impl; [apply (ro_sources _ _ Hok)|].
    intros src_0 src (cf & E & [[Ha Hc Hs] Hk Hw]). exists cf. split; [done|]. unfold work_ok in Hw.
    split; [|split; [done|]].
    + destruct (work_of (m_producer_thread src)) as [[|at_ off ts drop]|].
      * destruct Hw as ([Hruns _ _] & _). destruct (runs src); [done|]. destruct Hruns as [[t Ht] Hold].
        split; [by eexists|done].
      * destruct Hw as (_ & payloads & older & slot & tick & Hr & Hold & Hrun & _).
        apply run_at_emulated in Hrun. cbn [load sent] in Hrun. rewrite Hr in *. split; [by exists slot|done].
      * destruct Hw as ([Hruns _ _] & _). destruct (runs src); [done|]. destruct Hruns as [[t Ht] Hold].
        split; [by eexists|done].
    + rewrite idle_readiness. unfold idle. intros Hi. rewrite Hi in Hw. by destruct Hw as ([Hruns _ _] & ?).
  - intros Hs Hm. pose proof (ro_place _ _ Hok) as Hpl. rewrite Hs in Hpl. eapply Forall_impl; [by apply Hpl|].
    intros src. apply idle_readiness.
Qed.

(** C17: a [stop] of a running module ends, however its turns, those of the producing threads
    and the reports interleave: there is a bound on the turns that are left, none of them
    fails, and as long as it has not returned there is a next one, if the clock passes the
    deadlines of the rate limiters; when it has returned, every thread is ready. *)
Theorem emulators_stop (n : nat) ms (st : reader (T:=T) (R:=R)) :
  Forall ready l_0 -> steps clock (mkReader false l_0 None n) ms st -> stopping st = None ->
  Forall (fun src => forall l, m_rate_limiter (m_emulator src) = Some l ->
    exists M, forall k, (M <= k)%nat -> m_deadline l <= clock k) (m_source_emus st) ->
  exists N, forall ms' st', Forall (fun m => is_command m = false) ms' -> steps clock (begin_stop st) ms' st' ->
    (turns ms' <= N)%nat
    /\ (stopping st' <> None -> exists m st'', is_turn m = true /\ do_move clock m st' = Some (Ret st''))
    /\ (stopping st' = None ->
        Forall (fun src => get_readiness (W:=producer) (m_producer_thread src) = true) (m_source_emus st')).
Proof.
  intros Hready Hsteps Hs Hclock.
  pose proof (steps_ok clock l_0 Hready _ _ _ (initial_ok l_0 Hready n) Hsteps) as Hok.
  destruct (all_passed clock _ Hclock) as [M HM]. exists (turns_left M (begin_stop st)).
  intros ms' st' Hms Hsteps'.
  assert (Hen : ending clock M (begin_stop st)) by done.
  destruct (ending_bounded clock M _ _ _ Hen Hms Hsteps') as [Hen' Hle].
  assert (Hokb : reader_ok l_0 (begin_stop st)) by (split; [apply Hok|done]).
  pose proof (steps_ok clock l_0 Hready _ _ _ Hokb Hsteps') as Hok'. split; [lia|]. split.
  - destruct (stopping st') as [i|] eqn:Ei; [|done]. intros _.
    destruct (stop_moves clock st' i Ei) as (m & o & Hturn & Hm).
    destruct (do_move_ok clock l_0 Hready st' m o Hok') as (st'' & -> & _); [by intros ->|done|].
    by exists m, st''.
  - intros Ei. pose proof (ro_place _ _ Hok') as Hpl. rewrite Ei in Hpl. destruct Hen' as [Hmark _].
    eapply Forall_impl; [by apply Hpl|]. intros src. apply idle_readiness.
Qed.
End properties.

(** ** The properties at work: two emulators on the file of SourceEmulator.v, started,
    and stopped in the midst of a tick *)
Import Chunk.

Definition sample_sender (conn : string) : outcome (option string) := Ret (Some conn).

Definition sample_source : source (T:=chunk) (R:=option producer) :=
  match set_sender sample_sender "queue_7" (new_source sample_args 0) with
  | Ret src =>
      match conf (T:=chunk) sample_args (fun _ => EmptyString) (sample_emulation 3) (sample_file [1; 0; 2; 0; 9])
              sample_draw sample_words (replicate 1000 2) (replicate 1000 3) Z.of_nat (m_emulator src) with
      | Ret (e, _) => with_thread src e (m_producer_thread src)
      | _ => src
      end
  | _ => new_source sample_args 0
  end.

Lemma sample_source_ready : ready sample_source.
Proof.
  destruct (configured_ready (T:=chunk) (R:=option producer) sample_args (fun _ => EmptyString) (sample_emulation 3)
    (sample_file [1; 0; 2; 0; 9]) sample_draw sample_words (replicate 1000 2) (replicate 1000 3) Z.of_nat
    [1; 0; 2; 0; 9] 0 sample_sender "queue_7" "queue_7" 1000000) as (src & e & w & Hset & Hconf & Hready);
    [by vm_compute|done|by vm_compute; lia|by vm_compute|exact sample_tables_ok|by vm_compute|by vm_compute|done|].
  unfold sample_source. rewrite Hset, Hconf. exact Hready.
Qed.

Definition sample_module : reader (T:=chunk) (R:=option producer) :=
  mkReader false [sample_source; sample_source] None 0.

(** Two frames of one emulator and one of the other, a report, and the command to stop. *)
Definition running_moves : list move :=
  [Start; ProducerTurn 0 true 0; ProducerTurn 1 true 0; ProducerTurn 0 true 0; ProducerTurn 1 true 0;
   ProducerTurn 0 true 0; Report 0; ProducerTurn 1 false 0; ProducerTurn 0 true 0; ProducerTurn 0 true 0;
   ProducerTurn 0 true 0; ProducerTurn 0 true 0].

Fixpoint run_moves (ms : list move) (st : reader (T:=chunk) (R:=option producer)) : option reader :=
  match ms with
  | [] => Some st
  | m :: ms =>
      if match m with Start => m_run_marker st | _ => false end then None
      else match do_move sample_clock m st with Some (Ret st) => run_moves ms st | _ => None end
  end.

Lemma run_moves_steps ms st st' : run_moves ms st = Some st' -> steps sample_clock st ms st'.
Proof.
  revert st. induction ms as [|m ms IH]; intros st; cbn [run_moves]; [intros [= ->]; constructor|].
  destruct (match m with Start => m_run_marker st | _ => false end) eqn:Eturn; [done|].
  destruct (do_move sample_clock m st) as [[st1| | | |]|] eqn:E; try done. intros Hrun.
  econstructor; [|exact E|by apply IH]. by intros ->.
Qed.

(** What the witnesses look at. *)
Definition looks (st : option (reader (T:=chunk) (R:=option producer))) :=
  match st with
  | Some st => Some (m_run_marker st, stopping st, runs <$> m_source_emus st, m_rate_limiter ∘ m_emulator <$> m_source_emus st)
  | None => None
  end.

Definition sample_looks :=
  (true, @None nat, [[[mkChunk 1; mkChunk 1]]; [[mkChunk 1]]],
   [Some (mkLimiter one_khz 10000000 1000000 1000000 2000000);
    Some (mkLimiter one_khz 10000000 1000000 500000 1500000)]).

Lemma sample_ready : Forall ready [sample_source; sample_source].
Proof. repeat constructor; apply sample_source_ready. Qed.

Lemma emulators_run_correct_witness :
  exists st, run_moves running_moves sample_module = Some st
    /\ (runs <$> m_source_emus st) = [[[mkChunk 1; mkChunk 1]]; [[mkChunk 1]]]
    /\ Forall counted (m_source_emus st)
    /\ (forall m o, in_turn m st -> do_move sample_clock m st = Some o -> exists st', o = Ret st').
Proof.
  assert (Hlook : looks (run_moves running_moves sample_module) = Some sample_looks) by (vm_compute; reflexivity).
  destruct (run_moves running_moves sample_module) as [st|] eqn:E; [|discriminate Hlook].
  injection Hlook as Hmark Hs Hruns _. exists st. split; [reflexivity|]. split; [exact Hruns|].
  destruct (emulators_run_correct sample_clock [sample_source; sample_source] 0 running_moves st
    sample_ready (run_moves_steps _ _ _ E)) as (Hmoves & Hall & _).
  split; [|exact Hmoves]. clear - Hall. revert Hall. generalize (m_source_emus st). intros l Hall.
  induction Hall as [|src_0 src l0 l (cf & _ & _ & Hk & _) _ IH]; constructor; [exact Hk|exact IH].
Defined.

Lemma emulators_stop_witness :
  exists st N, run_moves running_moves sample_module = Some st
    /\ forall ms' st', Forall (fun m => is_command m = false) ms' -> steps sample_clock (begin_stop st) ms' st' ->
       (turns ms' <= N)%nat.
Proof.
  assert (Hlook : looks (run_moves running_moves sample_module) = Some sample_looks) by (vm_compute; reflexivity).
  destruct (run_moves running_moves sample_module) as [st|] eqn:E; [|discriminate Hlook].
  injection Hlook as Hmark Hs _ Hlim. exists st.
  destruct (emulators_stop sample_clock [sample_source; sample_source] 0 running_moves st
    sample_ready (run_moves_steps _ _ _ E) Hs) as [N HN].
  - revert Hlim. generalize (m_source_emus st). intros l Hlim. apply Forall_lookup_2. intros i src Hi lim El.
    assert (Hd : m_deadline lim <= 2000000).
    { assert (Hin : ((m_rate_limiter ∘ m_emulator) <$> l) !! i = Some (Some lim))
        by (rewrite list_lookup_fmap, Hi; cbn; rewrite El; reflexivity).
      rewrite Hlim in Hin. destruct i as [|[|]]; [| |discriminate Hin]; injection Hin as <-; by vm_compute. }
    exists 4%nat. intros k Hk. unfold sample_clock. lia.
  - exists N. split; [reflexivity|]. intros ms' st' Hms Hst. exact (proj1 (HN ms' st' Hms Hst)).
Defined.
