(* ===== verification/DataSubscriber.v ===== *)
(** models/DataSubscriberModel.hpp: a source that hands the payloads of one
    connection on to another, and counts them. *)
From S2P Require Import Prelude.

(** ** The model *)

(** The unique names of confmodel's outputs and inputs of the module. *)
Record subscriber_conf := mkSubscriberConf {
  get_outputs : list string;
  get_inputs : list string }.

(** The receiver and the sender by the names of their connections, [None] the null
    pointer; [has_callback] is whether the receiver has [handle_payload]. *)
Record subscriber := mkSubscriber {
  m_data_receiver : option string;
  m_data_sender : option string;
  m_packets : Z;
  m_sum_packets : Z;
  m_dropped_packets : Z;
  has_callback : bool }.

Definition new_subscriber : subscriber := mkSubscriber None None 0 0 0 false.

Implicit Types s : subscriber.

(** [connected]: the IOManager makes the connection; it throws [refused name] for others. *)
Definition init (connected : string -> bool) (refused : string -> exn) (cfg : subscriber_conf) s
    : outcome subscriber :=
  match get_outputs cfg with
  | [output] =>
      if connected output then
        match get_inputs cfg with
        | [input] =>
            if connected input then
              Ret (mkSubscriber (Some input) (Some output) (m_packets s) (m_sum_packets s)
                     (m_dropped_packets s) (has_callback s))
            else Throw (refused input)
        | _ => Throw (IssueExn (InitializationError "Only 1 input supported for subscribers"))
        end
      else Throw (refused output)
  | _ => Throw (IssueExn (InitializationError "Only 1 output supported for subscribers"))
  end.

Definition start s : outcome subscriber :=
  receiver ← deref (m_data_receiver s);
  Ret (mkSubscriber (Some receiver) (m_data_sender s) 0 0 0 true).

Definition stop s : outcome subscriber :=
  receiver ← deref (m_data_receiver s);
  Ret (mkSubscriber (Some receiver) (m_data_sender s) (m_packets s) (m_sum_packets s)
         (m_dropped_packets s) false).

Definition count_packet s : subscriber :=
  mkSubscriber (m_data_receiver s) (m_data_sender s) (u64 (m_packets s + 1)) (m_sum_packets s)
    (m_dropped_packets s) (has_callback s).

Definition count_sum s : subscriber :=
  mkSubscriber (m_data_receiver s) (m_data_sender s) (m_packets s) (u64 (m_sum_packets s + 1))
    (m_dropped_packets s) (has_callback s).

Definition count_dropped s : subscriber :=
  mkSubscriber (m_data_receiver s) (m_data_sender s) (m_packets s) (m_sum_packets s)
    (u64 (m_dropped_packets s + 1)) (has_callback s).

Definition take_packets s : subscriber :=
  mkSubscriber (m_data_receiver s) (m_data_sender s) 0 (m_sum_packets s) (m_dropped_packets s) (has_callback s).

Definition take_dropped s : subscriber :=
  mkSubscriber (m_data_receiver s) (m_data_sender s) (m_packets s) (m_sum_packets s) 0 (has_callback s).

(** opmon::DataSourceInfo. *)
Record source_info := mkSourceInfo {
  num_packets : Z;
  sum_packets : Z;
  num_dropped_packets : Z }.

(** *** handle_payload and generate_opmon_data

    The receiver's thread and the monitoring thread, in atomic steps. *)
Section threads.
Context {T : Type}.

(** Where [handle_payload] is, and where [generate_opmon_data] is with what it has
    read so far. *)
Inductive handling := Waiting | Counted (message : T) | Summed (message : T) | Refused.

Inductive monitoring := Idle | GotPackets (packets : Z) | GotSum (packets sum : Z).

(** [arrived], [forwarded] and [reports] are the history: the payloads received, those
    the sender took, and the reports published. *)
Record scene := mkScene {
  model : subscriber;
  handler : handling;
  monitor : monitoring;
  arrived : list T;
  forwarded : list T;
  reports : list source_info }.

Definition first_scene s : scene := mkScene s Waiting Idle [] [] [].

(** Whether [try_send] sends the [n]-th payload without blocking. *)
Context (try_send : nat -> bool).

Definition with_model (c : scene) s (h : handling) : scene :=
  mkScene s h (monitor c) (arrived c) (forwarded c) (reports c).

(** A step of [handle_payload]; a waiting one is called with [message]. *)
Definition handle_step (message : T) (c : scene) : scene :=
  match handler c with
  | Waiting =>
      mkScene (count_packet (model c)) (Counted message) (monitor c) (arrived c ++ [message]) (forwarded c) (reports c)
  | Counted m => with_model c (count_sum (model c)) (Summed m)
  | Summed m =>
      if try_send (pred (length (arrived c)))
      then mkScene (model c) Waiting (monitor c) (arrived c) (forwarded c ++ [m]) (reports c)
      else with_model c (model c) Refused
  | Refused => with_model c (count_dropped (model c)) Waiting
  end.

(** A step of [generate_opmon_data]. *)
Definition monitor_step (c : scene) : scene :=
  match monitor c with
  | Idle =>
      mkScene (take_packets (model c)) (handler c) (GotPackets (m_packets (model c)))
        (arrived c) (forwarded c) (reports c)
  | GotPackets packets =>
      mkScene (model c) (handler c) (GotSum packets (m_sum_packets (model c)))
        (arrived c) (forwarded c) (reports c)
  | GotSum packets sum =>
      mkScene (take_dropped (model c)) (handler c) Idle (arrived c) (forwarded c)
        (reports c ++ [mkSourceInfo packets sum (m_dropped_packets (model c))])
  end.

Inductive move := Handle (message : T) | Monitor.

Definition scene_step (c : scene) (m : move) : scene :=
  match m with Handle message => handle_step message c | Monitor => monitor_step c end.

Definition run (moves : list move) (c : scene) : scene := foldl scene_step c moves.

(** ** What is counted *)

(** The payloads of [l], the first ever received, that the sender takes ([fate] is
    [true]) or refuses. *)
Definition fated (fate : bool) (l : list T) : list T :=
  (fun nm => nm.2) <$> filter (fun nm => try_send nm.1 = fate) (zip (seq 0 (length l)) l).

Definition total (f : source_info -> Z) (l : list source_info) : Z := foldr (fun i z => f i + z) 0 l.

(** The payloads whose fate is settled. *)
Definition settled (c : scene) : list T :=
  match handler c with
  | Counted _ | Summed _ => take (pred (length (arrived c))) (arrived c)
  | _ => arrived c
  end.

(** What [handle_payload] has still to count, and what the monitor holds. *)
Definition pending_sum (c : scene) : Z := match handler c with Counted _ => 1 | _ => 0 end.
Definition pending_dropped (c : scene) : Z := match handler c with Refused => 1 | _ => 0 end.
Definition held_packets (c : scene) : Z :=
  match monitor c with Idle => 0 | GotPackets n | GotSum n _ => n end.

Record accounted (c : scene) : Prop := {
  ac_current : match handler c with
               | Counted m | Summed m => last (arrived c) = Some m
               | _ => True end;
  ac_packets : u64 (total num_packets (reports c) + held_packets c + m_packets (model c))
    = u64 (Z.of_nat (length (arrived c)));
  ac_sum : m_sum_packets (model c) = u64 (Z.of_nat (length (arrived c)) - pending_sum c);
  ac_dropped : u64 (total num_dropped_packets (reports c) + m_dropped_packets (model c) + pending_dropped c)
    = u64 (Z.of_nat (length (fated false (settled c))));
  ac_forwarded : forwarded c = fated true (settled c) }.

Lemma total_snoc f l i : total f (l ++ [i]) = total f l + f i.
Proof. unfold total. rewrite foldr_app. cbn. induction l as [|j l IH]; cbn in *; lia. Qed.

Lemma fated_snoc fate (l : list T) m :
  fated fate (l ++ [m]) = fated fate l ++ (if decide (try_send (length l) = fate) then [m] else []).
Proof.
  unfold fated. rewrite length_app, seq_app, zip_with_app by (by rewrite length_seq).
  rewrite filter_app, fmap_app. f_equal. cbn.
  by case_decide.
Qed.

(** A counter that is stepped stays in step. *)
Lemma u64_succ (x y : Z) : u64 x = u64 y -> u64 (x + 1) = u64 (y + 1).
Proof. unfold u64. intros Heq. rewrite Z.add_mod, Heq, <- Z.add_mod; done. Qed.

Lemma u64_add_r (x y : Z) : u64 (x + u64 y) = u64 (x + y).
Proof. unfold u64. by rewrite Zplus_mod_idemp_r. Qed.

Lemma u64_add_l (x y : Z) : u64 (u64 x + y) = u64 (x + y).
Proof. unfold u64. by rewrite Zplus_mod_idemp_l. Qed.

Lemma last_take (l : list T) m : last l = Some m -> l = take (pred (length l)) l ++ [m].
Proof.
  intros [l' ->]%last_Some. rewrite length_app. cbn [length]. rewrite Nat.add_1_r. cbn [pred].
  by rewrite take_app_length.
Qed.

#[local] Arguments fated : simpl never.
#[local] Arguments total : simpl never.

Lemma handle_step_accounted message (c : scene) : accounted c -> accounted (handle_step message c).
Proof.
  destruct c as [s h mon arr fwd reps]. intros [Hcur Hp Hs Hd Hf].
  unfold handle_step, settled, pending_sum, pending_dropped, held_packets in *; cbn in *.
  destruct h as [|m|m|]; cbn in *.
  - split; unfold settled, pending_sum, pending_dropped, held_packets; cbn.
    + by rewrite last_snoc.
    + rewrite length_app. cbn. rewrite u64_add_r, Z.add_assoc, Nat2Z.inj_add. by apply u64_succ.
    + rewrite Hs, length_app, Nat2Z.inj_add. f_equal. cbn. lia.
    + rewrite length_app, Nat.add_1_r. cbn. by rewrite take_app_length.
    + rewrite length_app, Nat.add_1_r. cbn. by rewrite take_app_length.
  - split; unfold settled, pending_sum, pending_dropped, held_packets; cbn; [done|done| |done|done].
    rewrite Hs, u64_add_l. f_equal. lia.
  - pose proof (last_take _ _ Hcur) as Harr. rewrite Z.add_0_r in Hd.
    assert (Hlen : length (take (pred (length arr)) arr) = pred (length arr)) by (rewrite length_take; lia).
    assert (Hfate : forall fate, fated fate arr = fated fate (take (pred (length arr)) arr)
      ++ (if decide (try_send (pred (length arr)) = fate) then [m] else [])).
    { intros fate. pose proof (fated_snoc fate (take (pred (length arr)) arr) m) as Hsnoc.
      by rewrite Hlen, <- Harr in Hsnoc. }
    destruct (try_send (pred (length arr))); split;
      unfold settled, pending_sum, pending_dropped, held_packets; cbn; try done;
      rewrite Hfate; cbn; rewrite ?app_nil_r; [by rewrite Z.add_0_r, Hd|by rewrite Hf| |done].
    rewrite length_app, Nat2Z.inj_add. by apply u64_succ.
  - split; unfold settled, pending_sum, pending_dropped, held_packets; cbn; try done.
    by rewrite Z.add_0_r, u64_add_r, Z.add_assoc.
Qed.

Lemma monitor_step_accounted (c : scene) : accounted c -> accounted (monitor_step c).
Proof.
  destruct c as [s h mon arr fwd reps]. intros [Hcur Hp Hs Hd Hf].
  unfold monitor_step. destruct mon as [|n|n sum]; cbn in *;
    split; unfold settled, pending_sum, pending_dropped, held_packets in *; cbn in *; try done.
  - rewrite <- Hp. f_equal. lia.
  - rewrite total_snoc. cbn. rewrite <- Hp. f_equal. lia.
  - rewrite total_snoc. cbn. rewrite <- Hd. f_equal. lia.
Qed.

Lemma run_accounted (moves : list move) (c : scene) : accounted c -> accounted (run moves c).
Proof.
  revert c. induction moves as [|[message|] moves IH]; intros c Hc; cbn; [done| |];
    apply IH; [by apply handle_step_accounted|by apply monitor_step_accounted].
Qed.

(** C33: however the receiver's thread and the monitoring thread interleave after a
    [start], the sender is given the payloads in the order of their arrival and has
    taken exactly those it did not refuse; once neither thread is at work, the sum
    counts every payload received, and the reports together with what is left in
    the counters count each received and each refused payload once, modulo 2^64. *)
Theorem subscriber_accounts s s0 (moves : list move) :
  start s = Ret s0 ->
  let c := run moves (first_scene s0) in
  forwarded c = fated true (settled c)
  /\ (handler c = Waiting -> monitor c = Idle ->
      forwarded c = fated true (arrived c)
      /\ m_sum_packets (model c) = u64 (Z.of_nat (length (arrived c)))
      /\ u64 (total num_packets (reports c) + m_packets (model c)) = u64 (Z.of_nat (length (arrived c)))
      /\ u64 (total num_dropped_packets (reports c) + m_dropped_packets (model c))
         = u64 (Z.of_nat (length (fated false (arrived c))))).
Proof.
  intros (receiver & _ & [= <-])%bind_Ret_inv c. cbn in c.
  assert (Hc : accounted c) by (apply run_accounted; split; reflexivity || exact I).
  destruct Hc as [_ Hp Hs Hd Hf]. split; [done|]. intros Hh Hm.
  unfold settled, pending_sum, pending_dropped, held_packets in *. rewrite Hh, Hm in *.
  rewrite Z.add_0_r in Hp, Hd. rewrite Z.sub_0_r in Hs. done.
Qed.
End threads.

(** [init] needs exactly one output and one input, and nothing but them. *)
Lemma init_cases connected refused cfg s :
  init connected refused cfg s
  = match get_outputs cfg, get_inputs cfg with
    | [output], [input] =>
        if negb (connected output) then Throw (refused output)
        else if negb (connected input) then Throw (refused input)
        else Ret (mkSubscriber (Some input) (Some output) (m_packets s) (m_sum_packets s)
                    (m_dropped_packets s) (has_callback s))
    | [output], _ =>
        if connected output then Throw (IssueExn (InitializationError "Only 1 input supported for subscribers"))
        else Throw (refused output)
    | _, _ => Throw (IssueExn (InitializationError "Only 1 output supported for subscribers"))
    end.
Proof.
  unfold init. destruct (get_outputs cfg) as [|output [|]]; try done.
  destruct (connected output); cbn; destruct (get_inputs cfg) as [|input [|]]; try done.
  by destruct (connected input).
Qed.

(** ** The property at work: three payloads, the second refused, a report meanwhile *)
Lemma subscriber_accounts_witness :
  exists s s0,
    init (fun _ => true) (fun _ => std_exception) (mkSubscriberConf ["out"] ["in"]) new_subscriber = Ret s
    /\ start s = Ret s0
    /\ forwarded (run (fun n => negb (n =? 1)%nat)
         [Handle 10; Monitor; Handle 0; Monitor; Handle 0; Handle 20; Handle 0; Handle 0; Monitor; Handle 0;
          Handle 30; Handle 0; Handle 0] (first_scene s0)) = [10; 30].
Proof.
  eexists _, _. split; [reflexivity|]. split; [reflexivity|].
  destruct (subscriber_accounts (fun n => negb (n =? 1)%nat) (mkSubscriber (Some "in") (Some "out") 0 0 0 false)
    (mkSubscriber (Some "in") (Some "out") 0 0 0 true)
    [Handle 10; Monitor; Handle 0; Monitor; Handle 0; Handle 20; Handle 0; Handle 0; Monitor; Handle 0;
     Handle 30; Handle 0; Handle 0] eq_refl) as [_ Hend].
  destruct (Hend eq_refl eq_refl) as [Hf _]. exact Hf.
Defined.
